(* ===== verification/_CoqProject ===== *)
-Q . S2P
Prelude.v
GoString.v
GoFloat.v
GoFmt.v
GoTime.v
GoSort.v
GoOS.v
Sha256.v
Common.v
Messages.v
Namespace.v
ChunkManager.v
ChunkManagerSpec.v
Metrics.v
Monitor.v
Predictor.v
RiskModel.v
Migrator.v
Adapter.v
MigrationRace.v
ChunkStore.v
StoreRace.v
HealthCollector.v
DataNode.v
MetaServer.v
MetaServerSpec.v
Detection.v
ServerRace.v
ServerTypes.v
Client.v
ClientSpec.v
Display.v
Watch.v
Cluster.v
ClusterMigration.v
ClusterSafety.v
Failover.v
Restart.v
Evacuations.v
Rescue.v
ParallelPuts.v
FileStore.v
UploadOrder.v
Processes.v
MetaRestart.v
CommandLine.v
CommandLineSpec.v
