(* ===== verification/Prelude.v ===== *)
(** * SentinelFS: verification development

    SentinelFS (src/) is a distributed file system with failure prediction, in Go.
    A metadata server keeps the directory tree, the registry of data nodes and the
    table that says which nodes hold which chunk; data nodes keep chunks as files;
    a client cuts files into chunks and moves them to and from the nodes directly;
    nodes report health metrics from which the metadata server predicts failures
    and moves chunks away from a node before it dies.  The files below follow the
    packages of the program.

    ** Conventions

    - A function returning [(T, error)] is a [go T]: [Ok], [Err] with the error's
      text, or [Panic].  A method that changes its receiver is a [gos S T], a
      function from the state to the result and the new state, also on failure.
    - Nothing random is fixed.  The order of a map iteration is an argument [ord]
      (constrained by [map_order]), the clock an argument [now] (read once per
      call), [sort.Slice] any implementation of the class [SliceSort], what the
      operating system does at a call a plan, random draws a function, goroutine
      interleavings a schedule, and calls over the network functions on a world.
    - [int64], [int32] and durations wrap around; [float64] is IEEE 754 binary64
      bit for bit; SHA-256 and the string functions are executable, so witnesses
      run on the program's own values.
    - A pointer that is shared is made explicit: the tree's entries live in a heap
      addressed by [loc]; a [*DataNodeInfo] or [*NodeMetrics] is the key of the map
      that owns it.

    ** Files

    The language and its library:
    - [Prelude.v]: results, state passing, machine integers, map iteration, the
      lemmas on lists that several components use.
    - [GoString.v], [GoFloat.v], [GoFmt.v], [GoTime.v], [GoSort.v], [GoOS.v],
      [Sha256.v]: what the program uses of [strings], [path/filepath], [fmt] (with
      the padding of columns, which counts runes), floating point, [time], [sort],
      [os] and [crypto/sha256].
    - [Messages.v]: the structs of proto/sentinelfs.pb.go.

    The program:
    - [Common.v] (internal/common): constants, risk bands, chunk identifiers,
      [ChunkFile] and [ReassembleChunks].
    - [Namespace.v] (metaserver/namespace.go): the tree as a heap of entries; the
      abstract tree [view], from paths to directories and files; every operation
      refines one on the abstract tree.
    - [ChunkManager.v], [ChunkManagerSpec.v] (metaserver/chunk_manager.go): the
      registry and the chunk table, their invariant [cm_inv], the step relation
      [cm_step]; placement, lookup, removal, liveness and statistics.
    - [Metrics.v], [Monitor.v], [Predictor.v] (internal/health): sliding windows,
      ingestion of reports, the risk model; [RiskModel.v] writes the model's formulas
      once for any arithmetic: over [float64] they are the program's, over the reals
      they have the meaning of least squares and standard deviation.
    - [Migrator.v] (health/migrator.go): migrations against the interface
      [ChunkLocator] with the laws [ChunkLocatorSpec]; [Adapter.v]
      (metaserver/locator_adapter.go) discharges them for the chunk manager;
      [MigrationRace.v] runs the migration of a chunk, and [MigrateNode] as a whole, as
      threads that interleave call by call on one registry.
    - [ChunkStore.v], [HealthCollector.v], [DataNode.v] (internal/datanode): the
      chunk store with its disk, the simulated metrics with the admin endpoints,
      the service and the calls to the metadata server.  [StoreRace.v] takes the
      store's methods apart into their accesses to the lock, the table, the counter
      and the files, and runs requests in parallel at that grain.
    - [MetaServer.v], [MetaServerSpec.v] (metaserver/server.go, admin.go): the
      handlers and one tick of each background routine; the server's step relation
      [srv_step] and its invariant.  [Detection.v] runs the same steps at instants
      of time; [ServerTypes.v] runs them on requests whose fields lie in their Go
      types; [ServerRace.v] splits the handlers into their atomic calls and runs them in parallel.
    - [Client.v], [ClientSpec.v] (internal/client): parallel uploads under any
      schedule, downloads completing in any order, failover; the interface
      [NodeNetwork] says what the client needs of the servers.
    - [Display.v] (client.go): the text the commands print; [Watch.v] (watch.go): the
      live monitor, a loop without end, as an interaction tree.
    - [Processes.v] (cmd/datanode, cmd/metaserver, the servers' Start and their
      admin routes): what a process starts and in which order, its loops as
      sequences of ticks, its exit status.
    - [MetaRestart.v]: a metadata server that starts again while its nodes run on.
    - [CommandLine.v] (cmd/client): the command line and its exit statuses.

    The system put together:
    - [Cluster.v]: the handlers answer the client's calls; the data nodes implement
      [NodeNetwork]; the end-to-end round trip.
    - [ClusterMigration.v]: migrations against the real data nodes.
    - [ClusterSafety.v]: any steps of the servers and of other clients between a put
      and a get.
    - [Failover.v]: reading from the replicas that are left, and the death of a node
      that was evacuated.
    - [Restart.v]: data nodes that start again on their disks.
    - [Evacuations.v]: any number of [MigrateNode] threads on the cluster, with retries
      and with server calls in between.
    - [Rescue.v]: a prediction tick, the migrations it starts, and the death of all
      the nodes it found.
    - [ParallelPuts.v]: any number of clients that put files at the same time.
    - [FileStore.v]: the specification of a file store, as the outcomes allowed for a
      sequence of puts, gets and deletes, and the simulation by the cluster.
    - [UploadOrder.v]: the interface [IndependentStores] (stores of different chunks
      commute) and why the schedule of an upload does not matter; the cluster
      implements it.
    - [CommandLineSpec.v]: the command line on a cluster.

    ** What the theorems show

    - End to end ([Cluster.v], [CommandLineSpec.v]): after a put that reported
      success, a get fails or writes exactly the bytes that were put, and it succeeds
      when nothing fails; the same for the two commands and their exit statuses.
    - Refinement ([FileStore.v]): seen by users that work one after the other, the
      cluster is a table from paths to contents, with overwriting, deletion, failing
      calls and disks and restarting data nodes; a put that failed leaves its path
      unknown.
    - Safety over time ([ClusterSafety.v], [ClusterMigration.v]): whatever else
      happens in between (heartbeats, deaths, predictions, transfers, other files),
      a successful get returns what was put; a migration keeps every replica a copy
      of the chunk.  Both need that the path is not put again, and
      [overwrite_then_migrate_serves_old] shows why.
    - Failures ([Failover.v], [Rescue.v], [Restart.v]): a file is read as long as each
      chunk has one replica that answers; after a migration without failed chunks the
      node can disappear and every file is still read; the migrations that a prediction
      tick starts may run in parallel, fail and be started again, and when each node it
      found has had one without failed chunks, all these nodes can disappear at once; a put that reported success survives any restarts of data nodes, and
      restarts forge nothing when disks keep whole files.
    - Concurrency: a parallel upload that succeeds leaves the servers in the state of
      the sequential one ([UploadOrder.v]); puts of different files by any number of
      clients are all kept, puts of one file are not ([ParallelPuts.v]); the chunk
      store is linearizable for changes and never stuck ([StoreRace.v]).
    - Time ([Detection.v]): a silent node is marked DEAD within the timeout and one
      period of the checker and gets no new chunk after that; a node whose heartbeats
      arrive (two lost ones in a row and a late one allowed) never is.
    - Parallel requests ([ServerRace.v]): interleaved with anything, requests keep the
      server's invariant and do not crash it, except reads: [delete_crashes_read],
      [delete_loses_put].  A background tick is one step.
    - Types ([ServerTypes.v]): on typed requests the stored numbers stay in their Go
      types and chunk identifiers have sixteen characters, which the printing commands
      need.
    - Processes and commands: a started data node is tracked with its heartbeats'
      numbers, and one whose registration or listener fails starts no loop; a reading command never crashes (with its exception,
      [info_crashes_on_missing_chunk]); the monitor refreshes for ever.
    - Metadata: [CreateFile] and [DeleteFile] refine insertion into and deletion
      from the abstract tree; the tree stays well formed; [GetAllFiles] terminates
      and is complete; a deleted file is forgotten; no request crashes the server,
      except a put with a negative chunk count.
    - Placement: replicas are distinct live nodes of least risk, as many as can be
      had up to three; tables and responses agree; sizes partition the file.
    - Health: windows hold exactly the recent points, the history is the history of
      the reports; a risk is in [0, 1] or not a number, and is bit for bit the weighted
      mean of six scores made of value, trend and volatility; without rounding the trend
      is the least squares slope, the volatility the sample standard deviation, and the
      risk of steady metrics a stated function of their fractions of the thresholds.
    - Migration: a run of [MigrateNode] moves exactly the chunks it reports as
      moved and never lowers the number of replicas; two concurrent runs can
      ([concurrent_migrations_lose_replica]).
    - Data nodes: what is stored is read back or the read fails, a transfer sends
      what the source verified, deletion, accounting and recovery at start-up.
    - Defects, as theorems about the code as it is: besides those named above,
      [full_chunk_never_uploads], [torn_write_adopted], [restart_launders_corruption],
      [restart_publishes_torn_upload], [parallel_puts_mix], [read_during_overwrite],
      [restarted_server_stays_blank], [identifiers_mixed_up], [PutFile_rejected_leaks],
      [trailing_slash_unreadable], [PredictNode_nan_critical],
      [empty_file_listed_as_directory], the counter in [usedBytes_accounting], and
      the revival of dead nodes in [predictionLoop_tick].

    ** Fuel

    Two functions take fuel.  [read_chunks] gets one unit per byte of the file and
    one more: every read advances ([read_chunks_spec] shows that it never runs
    out).  [walkFiles] gets one more than the locations allocated: the tree has no
    cycle ([GetAllFiles_complete]).  Schedules of uploads are long enough when each
    goroutine gets one turn per address and one to finish ([uploadChunks_stores]).
    [play] runs the monitor for a number of events; [WatchCluster_keeps_refreshing]
    says that every number of frames is reached.

    ** What is not modelled

    Logging; the gRPC transport and its wire format (a call is a function, and may
    fail; how a nil element of a repeated field arrives is a parameter); listeners,
    tickers, the parsing of flags, signals and Stop, which only calls gRPC; the text
    of dates and durations ([fmt_time], [fmt_now], [fmt_duration]) and JSON; the
    parsing of durations on the command line and of floating point in an admin
    request (arguments).  Each method that holds a lock for its whole body is atomic
    (for the chunk store this is a theorem, [store_linearizable]); a prediction tick,
    which takes the locks anew for every node, is one step too, and the migrations it
    starts begin after it; data races on what escapes a lock (the slices and pointers
    the chunk manager returns) are left out, and so is fused multiply-add, which Go may
    use on some processors. *)
From Stdlib Require Export ZArith Lia.
From stdpp Require Export base gmap sets list strings pretty.

(** ** Results of Go functions

    A Go function that returns [(T, error)] is a [go T]: [Ok v] when the error
    is [nil], [Err msg] when it is not (with the error's text), and [Panic why]
    when the call does not return because the run-time system panics. *)
Inductive go (A : Type) : Type :=
  | Ok (a : A)
  | Err (msg : string)
  | Panic (why : string).
Arguments Ok {A} a.
Arguments Err {A} msg.
Arguments Panic {A} why.

#[global] Instance go_eq_dec {A} `{EqDecision A} : EqDecision (go A).
Proof. solve_decision. Defined.

Declare Scope go_scope.
Delimit Scope go_scope with go.

(** [if err != nil { return nil, err }] after a call. *)
Definition go_bind {A B} (m : go A) (k : A → go B) : go B :=
  match m with
  | Ok a => k a
  | Err e => Err e
  | Panic w => Panic w
  end.

(** [fmt.Errorf("ctx: %w", err)]: the wrapped error's text is the context
    followed by the text of the error. *)
Definition go_wrap {A} (ctx : string) (m : go A) : go A :=
  match m with
  | Err e => Err (ctx +:+ e)
  | Ok a => Ok a
  | Panic w => Panic w
  end.

Definition go_map {A B} (f : A → B) (m : go A) : go B := go_bind m (λ a, Ok (f a)).

Notation "'let!' x := m 'in' k" := (go_bind m (λ x, k))
  (at level 10, x pattern, m at level 99, k at level 200,
   format "'let!'  x  :=  m  'in' '//' k") : go_scope.
#[global] Open Scope go_scope.

Definition is_ok {A} (m : go A) : bool := match m with Ok _ => true | _ => false end.
Definition no_panic {A} (m : go A) : Prop := ∀ w, m ≠ Panic w.

Lemma go_bind_ok {A B} (m : go A) (k : A → go B) b :
  go_bind m k = Ok b ↔ ∃ a, m = Ok a ∧ k a = Ok b.
Proof.
  destruct m; simpl; split; [eauto|by intros (? & [= ->] & ?)|done|by intros (? & ? & _)
    |done|by intros (? & ? & _)].
Qed.

Lemma go_bind_err {A B} (m : go A) (k : A → go B) e :
  go_bind m k = Err e ↔ m = Err e ∨ ∃ a, m = Ok a ∧ k a = Err e.
Proof.
  destruct m; simpl; split; try done; try (by intros [?|(? & ? & _)]).
  - eauto.
  - by intros [?|(? & [= ->] & ?)].
  - intros [= ->]. by left.
  - by intros [[= ->]|(? & ? & _)].
Qed.

Lemma go_wrap_ok {A} ctx (m : go A) a : go_wrap ctx m = Ok a ↔ m = Ok a.
Proof. by destruct m. Qed.

(** ** Go functions that change state

    A method whose receiver has mutable state [S] is a [gos S T]: the state is
    passed in and comes back also when the call fails, so what a failing call
    leaves behind is visible. *)
Definition gos (S A : Type) : Type := S → go A * S.

Definition gos_ret {S A} (a : A) : gos S A := λ s, (Ok a, s).
Definition gos_raise {S A} (msg : string) : gos S A := λ s, (Err msg, s).
Definition gos_panic {S A} (why : string) : gos S A := λ s, (Panic why, s).
Definition gos_bind {S A B} (m : gos S A) (k : A → gos S B) : gos S B := λ s,
  match m s with
  | (Ok a, s') => k a s'
  | (Err e, s') => (Err e, s')
  | (Panic w, s') => (Panic w, s')
  end.
Definition gos_gets {S A} (f : S → go A) : gos S A := λ s, (f s, s).
Definition gos_modify {S} (f : S → S) : gos S unit := λ s, (Ok tt, f s).
Definition gos_wrap {S A} (ctx : string) (m : gos S A) : gos S A := λ s,
  let '(r, s') := m s in (go_wrap ctx r, s').

Notation "'do!' x <- m ;; k" := (gos_bind m (λ x, k))
  (at level 10, x pattern, m at level 99, k at level 200,
   format "'do!'  x  <-  m ;; '//' k") : go_scope.

Lemma gos_bind_ok {S A B} (m : gos S A) (k : A → gos S B) s a s' :
  m s = (Ok a, s') → gos_bind m k s = k a s'.
Proof. intros H. unfold gos_bind. by rewrite H. Qed.

Lemma gos_bind_err {S A B} (m : gos S A) (k : A → gos S B) s e s' :
  m s = (Err e, s') → gos_bind m k s = (Err e, s').
Proof. intros H. unfold gos_bind. by rewrite H. Qed.

(** ** Machine integers

    Go's [int64], [int32] and (on 64-bit targets) [int] are two's complement:
    an arithmetic result is reduced to the representable range. *)
Section machine_integers.
Local Open Scope Z_scope.

Definition wrap_signed (w z : Z) : Z := (z + 2 ^ (w - 1)) mod 2 ^ w - 2 ^ (w - 1).

Definition int64 (z : Z) : Z := wrap_signed 64 z.
Definition int32 (z : Z) : Z := wrap_signed 32 z.

Definition in_int64 (z : Z) : Prop := - 2 ^ 63 ≤ z < 2 ^ 63.
Definition in_int32 (z : Z) : Prop := - 2 ^ 31 ≤ z < 2 ^ 31.

Lemma wrap_signed_range w z :
  0 < w → - 2 ^ (w - 1) ≤ wrap_signed w z < 2 ^ (w - 1).
Proof.
  intros Hw. unfold wrap_signed.
  pose proof (Z.mod_pos_bound (z + 2 ^ (w - 1)) (2 ^ w) ltac:(apply Z.pow_pos_nonneg; lia)).
  replace (2 ^ w) with (2 * 2 ^ (w - 1)) in *; [lia|].
  rewrite <- Z.pow_succ_r by lia. f_equal; lia.
Qed.

Lemma wrap_signed_id w z :
  0 < w → - 2 ^ (w - 1) ≤ z < 2 ^ (w - 1) → wrap_signed w z = z.
Proof.
  intros Hw Hz. unfold wrap_signed. rewrite Z.mod_small; [lia|].
  replace (2 ^ w) with (2 * 2 ^ (w - 1)); [lia|].
  rewrite <- Z.pow_succ_r by lia. f_equal; lia.
Qed.

Lemma wrap_signed_cong w a b :
  0 < w → a mod 2 ^ w = b mod 2 ^ w → wrap_signed w a = wrap_signed w b.
Proof.
  intros Hw Hab. unfold wrap_signed. f_equal.
  rewrite Z.add_mod, Hab, <- Z.add_mod; [done|..]; apply Z.pow_nonzero; lia.
Qed.

Lemma wrap_signed_mod w z : 0 < w → wrap_signed w z mod 2 ^ w = z mod 2 ^ w.
Proof.
  intros Hw. unfold wrap_signed.
  rewrite Zminus_mod_idemp_l. f_equal. lia.
Qed.

Lemma int64_id z : in_int64 z → int64 z = z.
Proof. intros H. apply wrap_signed_id; [lia|exact H]. Qed.

Lemma int32_id z : in_int32 z → int32 z = z.
Proof. intros H. apply wrap_signed_id; [lia|exact H]. Qed.

Lemma int64_range z : in_int64 (int64 z).
Proof. apply (wrap_signed_range 64); lia. Qed.

Lemma int64_add_l a b : int64 (int64 a + b) = int64 (a + b).
Proof.
  apply wrap_signed_cong; [lia|].
  rewrite Z.add_mod by (apply Z.pow_nonzero; lia).
  unfold int64. rewrite wrap_signed_mod by lia.
  by rewrite <- Z.add_mod by (apply Z.pow_nonzero; lia).
Qed.

End machine_integers.

(** ** Iteration over Go maps

    [for k, v := range m] visits every entry once, in an order the run-time
    system picks.  A loop over a map takes the order as an argument [ord];
    statements quantify over every [ord] with [map_order m ord]. *)
Section map_iteration.
Context `{Countable K} {V : Type}.
Implicit Types (m : gmap K V) (ord : list K).

Definition map_keys m : list K := (map_to_list m).*1.
Definition map_order m ord : Prop := ord ≡ₚ map_keys m.
Definition range_map ord m : list (K * V) := omap (λ k, (λ v, (k, v)) <$> m !! k) ord.

Lemma elem_of_map_keys m k : k ∈ map_keys m ↔ is_Some (m !! k).
Proof.
  unfold map_keys. rewrite list_elem_of_fmap. split.
  - intros [[k' v] [-> Hin]]. apply elem_of_map_to_list in Hin. simpl. eauto.
  - intros [v Hv]. exists (k, v). split; [done|]. by apply elem_of_map_to_list.
Qed.

Lemma map_keys_nodup m : NoDup (map_keys m).
Proof. apply NoDup_fst_map_to_list. Qed.

Lemma map_order_keys m : map_order m (map_keys m).
Proof. unfold map_order. reflexivity. Qed.

Lemma map_order_nodup m ord : map_order m ord → NoDup ord.
Proof. unfold map_order. intros ->. apply map_keys_nodup. Qed.

Lemma map_order_elem m ord k : map_order m ord → k ∈ ord ↔ is_Some (m !! k).
Proof. unfold map_order. intros ->. apply elem_of_map_keys. Qed.

Lemma map_order_length m ord : map_order m ord → length ord = size m.
Proof.
  unfold map_order, map_keys. intros ->. by rewrite length_fmap, length_map_to_list.
Qed.

Lemma elem_of_range_map m ord k v :
  (k, v) ∈ range_map ord m ↔ k ∈ ord ∧ m !! k = Some v.
Proof.
  unfold range_map. rewrite list_elem_of_omap. split.
  - intros (k' & Hin & Heq). destruct (m !! k') eqn:Hk; simplify_eq/=. done.
  - intros [Hin Hk]. exists k. by rewrite Hk.
Qed.

Lemma range_map_fst_sublist m ord : (range_map ord m).*1 `sublist_of` ord.
Proof.
  induction ord as [|k ord IH]; [done|]. unfold range_map in *. simpl.
  destruct (m !! k) as [v|]; simpl; [apply sublist_skip|apply sublist_cons]; exact IH.
Qed.

Lemma range_map_nodup m ord : NoDup ord → NoDup (range_map ord m).
Proof.
  intros Hnd. apply (NoDup_fmap_1 fst).
  eapply sublist_NoDup; [done|apply range_map_fst_sublist].
Qed.

Lemma range_map_perm m ord : map_order m ord → range_map ord m ≡ₚ map_to_list m.
Proof.
  intros Hord. apply NoDup_Permutation.
  - apply range_map_nodup. by eapply map_order_nodup.
  - apply NoDup_map_to_list.
  - intros [k v]. rewrite elem_of_range_map, elem_of_map_to_list.
    rewrite (map_order_elem m ord k Hord). naive_solver.
Qed.

Lemma range_map_length m ord : map_order m ord → length (range_map ord m) = size m.
Proof. intros Hord. rewrite (range_map_perm m ord Hord). apply length_map_to_list. Qed.

Lemma range_map_fst m ord :
  map_order m ord → (range_map ord m).*1 = ord.
Proof.
  intros Hord. assert (∀ k, k ∈ ord → is_Some (m !! k)) as Hin.
  { intros k. by apply map_order_elem. }
  clear Hord. induction ord as [|k ord IH]; [done|]. unfold range_map. simpl.
  destruct (Hin k ltac:(left)) as [v Hv]. rewrite Hv. simpl. f_equal.
  apply IH. intros k' Hk'. apply Hin. by right.
Qed.

Lemma elem_of_range_snd m ord v :
  map_order m ord → v ∈ (range_map ord m).*2 ↔ ∃ k, m !! k = Some v.
Proof.
  intros Hord. rewrite list_elem_of_fmap. split.
  - intros ([k v'] & -> & Hin). apply elem_of_range_map in Hin as [_ Hk]. by exists k.
  - intros [k Hk]. exists (k, v). split; [done|]. apply elem_of_range_map. split; [|done].
    apply (map_order_elem m ord k Hord). eauto.
Qed.

End map_iteration.

Lemma Listfilter_sublist {A} (f : A → bool) (l : list A) : List.filter f l `sublist_of` l.
Proof.
  induction l as [|x l IH]; [constructor|]. simpl.
  destruct (f x); [by apply sublist_skip|by apply sublist_cons].
Qed.


(** Writing to existing entries keeps every iteration order valid. *)
Lemma map_order_dom_eq `{Countable K} {V V'} (m : gmap K V) (m' : gmap K V') ord :
  (∀ k, is_Some (m !! k) ↔ is_Some (m' !! k)) → map_order m ord → map_order m' ord.
Proof.
  intros Hdom Hord. apply NoDup_Permutation;
    [by eapply map_order_nodup|apply map_keys_nodup|].
  intros k. by rewrite (map_order_elem m ord k Hord), Hdom, elem_of_map_keys.
Qed.

(** ** Iteration over Go sets

    A [map[K]bool] that only ever stores [true] is the set of its keys. *)
Section set_iteration.
Context `{Countable K}.

Definition set_order (X : gset K) (ord : list K) : Prop := ord ≡ₚ elements X.
Definition range_set (ord : list K) (X : gset K) : list K := filter (λ k, k ∈ X) ord.

Lemma range_set_perm (X : gset K) ord : set_order X ord → range_set ord X ≡ₚ elements X.
Proof.
  unfold set_order, range_set. intros Hord. rewrite Hord.
  induction (elements X) as [|x l IH] eqn:Hl in X, ord, Hord |- *; [done|].
  assert (∀ k, k ∈ x :: l → k ∈ X) as Hin.
  { intros k. rewrite <- Hl. by rewrite elem_of_elements. }
  clear Hl Hord IH. revert Hin. generalize (x :: l) as l'. clear x l.
  intros l' Hin. induction l' as [|y l' IH]; [done|].
  rewrite filter_cons, decide_True by (apply Hin; left).
  rewrite IH; [done|]. intros k Hk. apply Hin. by right.
Qed.

Lemma set_order_elements (X : gset K) : set_order X (elements X).
Proof. unfold set_order. reflexivity. Qed.
End set_iteration.

(** The outcome of a run determines how it is written as a pair. *)
Lemma fst_outcome {A B} (p : A * B) a : p.1 = a → p = (a, p.2).
Proof. destruct p. by intros <-. Qed.

(** ** Removing the first occurrence from a slice *)

(** [append(l[:i], l[i+1:]...)] at the first index [i] with [l[i] == nid]. *)
Fixpoint remove_first (nid : string) (l : list string) : list string :=
  match l with
  | [] => []
  | x :: r => if decide (x = nid) then r else x :: remove_first nid r
  end.

Lemma remove_first_elem nid l x : NoDup l → x ∈ remove_first nid l ↔ x ∈ l ∧ x ≠ nid.
Proof.
  induction 1 as [|y l Hy Hnd IH]; simpl; [set_solver|].
  case_decide as Heq; [subst y; set_solver|]. rewrite !elem_of_cons, IH. naive_solver.
Qed.

Lemma remove_first_nodup nid l : NoDup l → NoDup (remove_first nid l).
Proof.
  induction 1 as [|y l Hy Hnd IH]; simpl; [constructor|].
  case_decide as Heq; [done|]. constructor; [|done].
  rewrite remove_first_elem by done. by intros [? _].
Qed.

Lemma remove_first_length nid l :
  nid ∈ l → S (length (remove_first nid l)) = length l.
Proof.
  induction l as [|y l IH]; [by intros ?%not_elem_of_nil|]. simpl.
  case_decide as Heq; [done|]. intros [->|Hin]%elem_of_cons; [done|]. simpl. by rewrite IH.
Qed.

Lemma remove_first_other nid l x : x ∈ l → x ≠ nid → x ∈ remove_first nid l.
Proof.
  induction l as [|y l IH]; [done|]. intros Hx Hne. simpl. apply elem_of_cons in Hx.
  case_decide as Hy; [destruct Hx; [congruence|done]|].
  apply elem_of_cons. destruct Hx as [->|Hx]; [by left|right]. by apply IH.
Qed.

Lemma remove_first_absent nid l : nid ∉ l → remove_first nid l = l.
Proof.
  induction l as [|y l IH]; [done|]. simpl. intros Hn. rewrite decide_False by set_solver.
  rewrite IH; [done|set_solver].
Qed.
