(* ===== verification/GoString.v ===== *)
(** * Strings, paths and formatting of the Go standard library

    What the program uses of [strings], [path/filepath] and [fmt]: [Split],
    [Join], [TrimPrefix], [TrimSuffix], [filepath.Clean]/[Join]/[Ext] and the
    verbs [%d], [%s] and [%x].  A Go string is a sequence of bytes, as is
    [string].  The lemmas describe the functions through the list of
    components between separators. *)
From Stdlib Require Export Ascii.
From Stdlib Require Import Strings.Byte.
From S2P Require Export Prelude.

#[global] Instance byte_eq_dec : EqDecision Byte.byte := Byte.byte_eq_dec.

Abbreviation bytes := (list Byte.byte).

(** [[]byte(s)] *)
Definition bytes_of_string (s : string) : bytes := String.list_byte_of_string s.

(** ** strings *)
Definition slash : ascii := "/"%char.

Fixpoint split_on (c : ascii) (s : string) : list string :=
  match s with
  | EmptyString => [""]
  | String a s' =>
      if decide (a = c) then "" :: split_on c s'
      else match split_on c s' with
           | [] => [String a ""]
           | w :: ws => String a w :: ws
           end
  end.

(** [strings.Split(s, "/")] *)
Definition Split (s : string) : list string := split_on slash s.

(** [strings.Join(l, sep)] *)
Fixpoint Join (l : list string) (sep : string) : string :=
  match l with
  | [] => ""
  | [w] => w
  | w :: ws => w +:+ sep +:+ Join ws sep
  end.

Fixpoint strip_prefix (p s : string) : option string :=
  match p, s with
  | EmptyString, _ => Some s
  | String a p', String b s' => if decide (a = b) then strip_prefix p' s' else None
  | String _ _, EmptyString => None
  end.

(** [strings.TrimPrefix(s, p)] *)
Definition TrimPrefix (s p : string) : string := default s (strip_prefix p s).

(** [strings.TrimSuffix(s, p)] *)
Fixpoint TrimSuffix (s p : string) : string :=
  if decide (s = p) then ""
  else match s with
       | EmptyString => ""
       | String a s' => String a (TrimSuffix s' p)
       end.

Fixpoint has_char (c : ascii) (s : string) : bool :=
  match s with
  | EmptyString => false
  | String a s' => bool_decide (a = c) || has_char c s'
  end.

(** ** path/filepath (Unix) *)
Definition clean_step (rooted : bool) (acc : list string) (c : string) : list string :=
  if decide (c = "" ∨ c = ".") then acc
  else if decide (c = "..") then
    match acc with
    | [] => if rooted then [] else [".."]
    | a :: r => if decide (a = "..") then ".." :: acc else r
    end
  else c :: acc.

Definition path_rooted (p : string) : bool :=
  match p with String a _ => bool_decide (a = slash) | EmptyString => false end.

(** [filepath.Clean(p)] *)
Definition Clean (p : string) : string :=
  if decide (p = "") then "."
  else
    let rooted := path_rooted p in
    let out := Join (rev (foldl (clean_step rooted) [] (Split p))) "/" in
    if rooted then "/" +:+ out
    else if decide (out = "") then "." else out.

(** [filepath.Join(a, b)] *)
Definition PathJoin (a b : string) : string :=
  if decide (a ≠ "") then Clean (a +:+ "/" +:+ b)
  else if decide (b ≠ "") then Clean b
  else "".

(** [filepath.Ext(p)]: the suffix from the last dot of the last element. *)
Fixpoint ext_go (p : string) (best : string) : string :=
  match p with
  | EmptyString => best
  | String a p' =>
      if decide (a = "."%char) then ext_go p' p
      else if decide (a = slash) then ext_go p' ""
      else ext_go p' best
  end.
Definition Ext (p : string) : string := ext_go p "".

(** ** fmt *)
(** [%d] *)
Definition fmt_d (z : Z) : string := pretty z.

Definition hex_digit (n : N) : ascii :=
  match n with
  | 0 => "0" | 1 => "1" | 2 => "2" | 3 => "3" | 4 => "4" | 5 => "5" | 6 => "6"
  | 7 => "7" | 8 => "8" | 9 => "9" | 10 => "a" | 11 => "b" | 12 => "c" | 13 => "d"
  | 14 => "e" | _ => "f"
  end%N%char.

(** [%x] of a byte slice *)
Fixpoint fmt_x (bs : bytes) : string :=
  match bs with
  | [] => ""
  | b :: r =>
      String (hex_digit (N.div (Byte.to_N b) 16))
        (String (hex_digit (N.modulo (Byte.to_N b) 16)) (fmt_x r))
  end.

(** ** Lemmas *)
Lemma string_app_nil_l s : "" +:+ s = s.
Proof. done. Qed.

Lemma string_app_cons a s t : String a s +:+ t = String a (s +:+ t).
Proof. done. Qed.

Lemma string_app_assoc s t u : s +:+ (t +:+ u) = (s +:+ t) +:+ u.
Proof.
  induction s as [|a s IH]; [done|]. by rewrite !string_app_cons, IH.
Qed.

#[local] Arguments String.append : simpl nomatch.

Lemma string_app_nil_r s : s +:+ "" = s.
Proof. induction s as [|a s IH]; simpl; [done|]. by rewrite IH. Qed.

Lemma string_app_length s1 s2 :
  String.length (s1 +:+ s2) = String.length s1 + String.length s2.
Proof. induction s1 as [|a s1 IH]; simpl; [done|]. by rewrite IH. Qed.

Lemma string_app_inj_r s1 s2 t : s1 +:+ t = s2 +:+ t → s1 = s2.
Proof.
  revert s2. induction s1 as [|a s1 IH]; intros [|b s2] Heq; simpl in *.
  - done.
  - apply (f_equal String.length) in Heq. simpl in Heq.
    rewrite string_app_length in Heq. lia.
  - apply (f_equal String.length) in Heq. simpl in Heq.
    rewrite string_app_length in Heq. lia.
  - injection Heq as -> Heq. by rewrite (IH s2 Heq).
Qed.

Lemma split_on_not_nil c s : split_on c s ≠ [].
Proof.
  induction s as [|a s IH]; simpl; [done|].
  case_decide; [done|]. by destruct (split_on c s).
Qed.

Lemma Join_cons w l sep : l ≠ [] → Join (w :: l) sep = w +:+ sep +:+ Join l sep.
Proof. by destruct l. Qed.

Lemma Join_split c s : Join (split_on c s) (String c "") = s.
Proof.
  induction s as [|a s IH]; [done|]. simpl.
  pose proof (split_on_not_nil c s) as Hne.
  case_decide as Hac.
  - rewrite Join_cons by done.
    change (String c (Join (split_on c s) (String c "")) = String a s).
    by rewrite IH, Hac.
  - destruct (split_on c s) as [|w [|w' ws]]; [done|..]; simpl in *; by rewrite IH.
Qed.

Lemma split_on_no_sep c w : has_char c w = false → split_on c w = [w].
Proof.
  induction w as [|a w IH]; simpl; [done|]. intros [Ha Hw]%orb_false_iff.
  apply bool_decide_eq_false in Ha. rewrite decide_False by done. by rewrite IH.
Qed.

Lemma split_on_app_sep c s1 s2 :
  split_on c (s1 +:+ String c s2) = split_on c s1 ++ split_on c s2.
Proof.
  induction s1 as [|a s1 IH]; simpl.
  - by rewrite decide_True.
  - case_decide; rewrite IH; [done|].
    pose proof (split_on_not_nil c s1). by destruct (split_on c s1).
Qed.

Lemma split_on_Join c l :
  l ≠ [] → Forall (λ w, has_char c w = false) l → split_on c (Join l (String c "")) = l.
Proof.
  intros Hne Hl. induction Hl as [|w l Hw Hl IH]; [done|].
  destruct l as [|w' l]; [by apply split_on_no_sep|].
  rewrite Join_cons by done.
  change (split_on c (w +:+ String c (Join (w' :: l) (String c ""))) = w :: w' :: l).
  rewrite split_on_app_sep, split_on_no_sep by done.
  by rewrite IH.
Qed.

Lemma split_on_no_char c s : Forall (λ w, has_char c w = false) (split_on c s).
Proof.
  induction s as [|a s IH]; simpl; [by repeat constructor|].
  case_decide; [by constructor|].
  destruct (split_on c s) as [|w ws]; constructor; [|done| |].
  - simpl. by rewrite bool_decide_false.
  - simpl. rewrite bool_decide_false by done. by inversion IH.
  - by inversion IH.
Qed.

Lemma split_on_singleton c s w : split_on c s = [w] → s = w ∧ has_char c s = false.
Proof.
  intros Heq. pose proof (Join_split c s) as Hj. pose proof (split_on_no_char c s) as Hn.
  rewrite Heq in *. simpl in Hj. subst w. inversion Hn; subst. done.
Qed.

Lemma TrimPrefix_char c s : TrimPrefix (String c s) (String c "") = s.
Proof. unfold TrimPrefix. cbn [strip_prefix]. by rewrite decide_True by done. Qed.

Lemma TrimPrefix_char_ne c a s : a ≠ c → TrimPrefix (String a s) (String c "") = String a s.
Proof.
  intros Hne. unfold TrimPrefix. cbn [strip_prefix]. by rewrite decide_False by done.
Qed.

Lemma TrimSuffix_app s p : TrimSuffix (s +:+ p) p = s.
Proof.
  induction s as [|a s IH].
  - rewrite string_app_nil_l. destruct p; [done|]. cbn [TrimSuffix].
    by rewrite decide_True by done.
  - rewrite string_app_cons. cbn [TrimSuffix]. rewrite decide_False; [by rewrite IH|].
    intros Heq%(f_equal String.length). simpl in Heq.
    rewrite string_app_length in Heq. lia.
Qed.

Lemma TrimSuffix_none s p : (∀ s', s ≠ s' +:+ p) → TrimSuffix s p = s.
Proof.
  induction s as [|a s IH]; intros Hs; simpl.
  - by case_decide.
  - rewrite decide_False by (by apply (Hs "")). rewrite IH; [done|].
    intros s' ->. by apply (Hs (String a s')).
Qed.

Lemma has_char_app c s1 s2 : has_char c (s1 +:+ s2) = has_char c s1 || has_char c s2.
Proof. induction s1 as [|a s1 IH]; simpl; [done|]. by rewrite IH, orb_assoc. Qed.

(** The decimal representation of an integer has no character but digits and a
    sign. *)
Lemma pretty_N_char_no c x :
  c ∉ ["0"; "1"; "2"; "3"; "4"; "5"; "6"; "7"; "8"; "9"]%char → pretty_N_char x ≠ c.
Proof.
  intros Hc Heq. apply Hc. rewrite <- Heq. unfold pretty_N_char.
  destruct x as [|[[[|[]|]|[|[]|]|]|[[|[]|]|[|[]|]|]|]]; set_solver.
Qed.

Lemma pretty_N_go_no_char c x s :
  c ∉ ["0"; "1"; "2"; "3"; "4"; "5"; "6"; "7"; "8"; "9"]%char →
  has_char c s = false → has_char c (pretty_N_go x s) = false.
Proof.
  intros Hc. revert s. induction (N.lt_wf_0 x) as [x _ IH]. intros s Hs.
  destruct (decide (0 < x)%N) as [Hx|Hx].
  - rewrite pretty_N_go_step by done. apply IH; [by apply N.div_lt|].
    simpl. rewrite Hs, bool_decide_false; [done|]. by apply pretty_N_char_no.
  - assert (x = 0)%N as -> by lia. by rewrite pretty_N_go_0.
Qed.

Lemma fmt_d_no_char c z :
  c ∉ ["0"; "1"; "2"; "3"; "4"; "5"; "6"; "7"; "8"; "9"; "-"]%char →
  has_char c (fmt_d z) = false.
Proof.
  intros Hc.
  assert (c ∉ ["0"; "1"; "2"; "3"; "4"; "5"; "6"; "7"; "8"; "9"]%char) as Hc'.
  { set_solver. }
  assert (∀ x : N, has_char c (pretty x) = false) as HN.
  { intros x. unfold pretty, pretty_N. case_decide.
    - simpl. rewrite bool_decide_false; [done|]. set_solver.
    - by apply pretty_N_go_no_char. }
  destruct z as [|p|p].
  - change (bool_decide ("0"%char = c) || false = false).
    rewrite bool_decide_false; [done|]. set_solver.
  - apply HN.
  - change (has_char c ("-" +:+ pretty (Npos p)) = false).
    rewrite has_char_app, HN. simpl. rewrite bool_decide_false; [done|]. set_solver.
Qed.

Lemma fmt_d_inj : Inj (=) (=) fmt_d.
Proof. unfold fmt_d. apply _. Qed.

(** A separator that the last field does not contain splits uniquely. *)
Lemma last_field_inj c s1 s2 d1 d2 :
  has_char c d1 = false → has_char c d2 = false →
  s1 +:+ String c d1 = s2 +:+ String c d2 → s1 = s2 ∧ d1 = d2.
Proof.
  intros H1 H2 Heq. pose proof (f_equal (split_on c) Heq) as Hs.
  rewrite !split_on_app_sep, (split_on_no_sep c d1), (split_on_no_sep c d2) in Hs by done.
  apply app_inj_tail in Hs as [_ ->]. split; [|done].
  by eapply string_app_inj_r.
Qed.

(** ** Names and paths *)
(** A file name that [Clean] leaves alone: no slash, and not "", "." or "..". *)
Definition simple_name (w : string) : Prop :=
  has_char slash w = false ∧ w ≠ "" ∧ w ≠ "." ∧ w ≠ "..".

Lemma Join_snoc l w sep :
  Join (l ++ [w]) sep = (if decide (l = []) then "" else Join l sep +:+ sep) +:+ w.
Proof.
  induction l as [|x l IH]; [done|]. cbn [app].
  rewrite Join_cons by (by destruct l). rewrite IH, (decide_False (P := x :: l = [])) by done.
  destruct (decide (l = [])) as [->|Hl]; [cbn [Join]; rewrite !string_app_nil_l, <- ?string_app_assoc; done|].
  rewrite Join_cons by done. by rewrite <- !string_app_assoc.
Qed.

Lemma clean_step_simple rooted acc w : simple_name w → clean_step rooted acc w = w :: acc.
Proof.
  intros (_ & H1 & H2 & H3). unfold clean_step.
  rewrite decide_False by naive_solver. by rewrite decide_False.
Qed.

(** Joining a simple name prepends a prefix that only depends on the directory. *)
Lemma PathJoin_simple dir : ∃ p, ∀ w, simple_name w → PathJoin dir w = p +:+ w.
Proof.
  destruct (decide (dir = "")) as [->|Hdir].
  - exists "". intros w Hw. unfold PathJoin. rewrite decide_False by naive_solver.
    destruct Hw as (Hs & Hne & Hw). rewrite decide_True by done. unfold Clean.
    rewrite decide_False by done. unfold Split. rewrite split_on_no_sep by done.
    assert (path_rooted w = false) as ->.
    { destruct w as [|a w]; [done|]. simpl in *. by apply orb_false_iff in Hs as [-> _]. }
    cbn [foldl]. rewrite clean_step_simple by done. cbn. by rewrite decide_False.
  - set (acc := foldl (clean_step (path_rooted dir)) [] (Split dir)).
    exists ((if path_rooted dir then "/" else "") +:+
            (if decide (rev acc = []) then "" else Join (rev acc) "/" +:+ "/")).
    intros w Hw. unfold PathJoin. rewrite decide_True by done. unfold Clean.
    rewrite decide_False by (destruct dir; [done|by rewrite string_app_cons]).
    assert (path_rooted (dir +:+ "/" +:+ w) = path_rooted dir) as ->.
    { destruct dir as [|a dir]; [done|]. by rewrite string_app_cons. }
    assert (Split (dir +:+ "/" +:+ w) = Split dir ++ [w]) as ->.
    { unfold Split. change ("/" +:+ w) with (String slash w). rewrite split_on_app_sep.
      destruct Hw as [Hs _]. by rewrite (split_on_no_sep slash w) by done. }
    rewrite foldl_app. fold acc. cbn [foldl]. rewrite clean_step_simple by done.
    cbn [rev]. rewrite Join_snoc. destruct (path_rooted dir).
    + by rewrite <- !string_app_assoc.
    + rewrite string_app_nil_l. rewrite decide_False; [done|].
      destruct Hw as (_ & Hne & _). intros Heq. apply Hne.
      apply (f_equal String.length) in Heq. rewrite string_app_length in Heq.
      destruct w; [done|simpl in Heq; lia].
Qed.

Lemma PathJoin_inj dir w1 w2 :
  simple_name w1 → simple_name w2 → PathJoin dir w1 = PathJoin dir w2 → w1 = w2.
Proof.
  intros H1 H2. destruct (PathJoin_simple dir) as [p Hp]. rewrite !Hp by done.
  apply (inj (String.append p)).
Qed.

Lemma Ext_suffix id e :
  has_char "."%char e = false → has_char slash e = false →
  Ext (id +:+ String "." e) = String "." e.
Proof.
  intros Hd Hs. unfold Ext. generalize "". induction id as [|a id IH]; intros best.
  - cbn [ext_go]. change ("" +:+ String "." e) with (String "." e). cbn [ext_go].
    rewrite decide_True by done. generalize (String "." e).
    induction e as [|a e IHe]; intros b; [done|]. simpl in Hd, Hs.
    apply orb_false_iff in Hd as [Ha Hd], Hs as [Hb Hs].
    apply bool_decide_eq_false in Ha, Hb. cbn [ext_go].
    rewrite !decide_False by done. by apply IHe.
  - rewrite string_app_cons. cbn [ext_go]. repeat case_decide; apply IH.
Qed.

(** ** Hexadecimal text *)
Lemma length_fmt_x bs : String.length (fmt_x bs) = (2 * length bs)%nat.
Proof. induction bs as [|b bs IH]; simpl; [done|]. rewrite IH. lia. Qed.

Lemma fmt_x_no_char c bs : (∀ n, hex_digit n ≠ c) → has_char c (fmt_x bs) = false.
Proof.
  intros Hc. induction bs as [|b bs IH]; simpl; [done|].
  by rewrite !bool_decide_false by apply Hc.
Qed.

Lemma hex_digit_not_slash n : hex_digit n ≠ slash.
Proof.
  destruct n as [|p]; [done|].
  do 4 (destruct p as [p|p|]; try done).
Qed.
