(* ===== verification/GoFloat.v ===== *)
(** * float64

    Go's [float64] is IEEE 754 binary64 with rounding to nearest, ties to even.
    It is modelled bit for bit by the standard library's executable
    specification [SpecFloat] at precision 53 and maximal exponent 1024: every
    operation below is the correctly rounded one, with infinities, signed
    zeros and NaN.  (A Go compiler may fuse [x*y + z] on some architectures;
    the operations here are the unfused ones, as on amd64.) *)
From Stdlib Require Export SpecFloat.
From S2P Require Export GoString.
Local Open Scope Z_scope.

Abbreviation float64 := spec_float.

#[global] Instance float64_eq_dec : EqDecision float64.
Proof. solve_decision. Defined.

(** ** Operations *)
Definition f64_add : float64 → float64 → float64 := SFadd 53 1024.
Definition f64_sub : float64 → float64 → float64 := SFsub 53 1024.
Definition f64_mul : float64 → float64 → float64 := SFmul 53 1024.
Definition f64_div : float64 → float64 → float64 := SFdiv 53 1024.

Declare Scope float_scope.
Delimit Scope float_scope with float.
Bind Scope float_scope with spec_float.
Infix "+" := f64_add : float_scope.
Infix "-" := f64_sub : float_scope.
Infix "*" := f64_mul : float_scope.
Infix "/" := f64_div : float_scope.

(** [math.Sqrt], [math.Abs] *)
Definition Sqrt : float64 → float64 := SFsqrt 53 1024.
Definition Abs : float64 → float64 := SFabs.

(** The comparisons [==], [!=], [<], [>], [<=], [>=]: all but [!=] are false
    when an operand is NaN. *)
Definition f64_eqb (a b : float64) : bool := SFeqb a b.
Definition f64_neb (a b : float64) : bool := negb (SFeqb a b).
Definition f64_ltb (a b : float64) : bool := SFltb a b.
Definition f64_gtb (a b : float64) : bool := SFltb b a.
Definition f64_leb (a b : float64) : bool := SFleb a b.
Definition f64_geb (a b : float64) : bool := SFleb b a.

(** [float64(z)] for an integer [z] *)
Definition f64_of_Z (z : Z) : float64 := binary_normalize 53 1024 z 0 false.

(** The constant [n/d]: for [n] and [d] below 2^53 both are exact, so the
    division is the float64 nearest to the rational, which is what the compiler
    stores for a decimal literal. *)
Definition f64_const (n d : Z) : float64 := (f64_of_Z n / f64_of_Z d)%float.

#[global] Arguments f64_add : simpl never.
#[global] Arguments f64_sub : simpl never.
#[global] Arguments f64_mul : simpl never.
#[global] Arguments f64_div : simpl never.
#[global] Arguments f64_of_Z : simpl never.
#[global] Arguments f64_const : simpl never.
#[global] Arguments Sqrt : simpl never.

Definition f64_zero : float64 := S754_zero false.
Definition f64_one : float64 := f64_of_Z 1.

Definition is_nan (f : float64) : bool := match f with S754_nan => true | _ => false end.

(** The magnitude of a finite number truncated toward zero. *)
Definition f64_trunc (m : positive) (e : Z) : Z :=
  if decide (0 ≤ e) then Zpos m * 2 ^ e else Zpos m / 2 ^ (- e).

(** [int64(f)]: truncation; outside the range, and for NaN, the result is
    implementation-dependent, and amd64 delivers the smallest integer. *)
Definition f64_to_int64 (f : float64) : Z :=
  match f with
  | S754_zero _ => 0
  | S754_finite s m e =>
      let z := if s then - f64_trunc m e else f64_trunc m e in
      if decide (- 2 ^ 63 ≤ z < 2 ^ 63) then z else - 2 ^ 63
  | _ => - 2 ^ 63
  end.

(** ** Printing: the verbs [%.<p>f] and [%+.<p>f]

    [strconv] computes the decimal expansion exactly and rounds it half to even
    at [p] digits after the point. *)
Definition f64_scaled (p : Z) (m : positive) (e : Z) : Z :=
  if decide (0 ≤ e) then Zpos m * 2 ^ e * 10 ^ p
  else
    let n := Zpos m * 10 ^ p in
    let q := n / 2 ^ (- e) in
    let r := n mod 2 ^ (- e) in
    match 2 * r ?= 2 ^ (- e) with
    | Lt => q
    | Gt => q + 1
    | Eq => if Z.even q then q else q + 1
    end.

Fixpoint zeros (n : nat) : string := match n with O => "" | S n' => String "0" (zeros n') end.

Definition fixed_digits (p z : Z) : string :=
  if decide (p = 0) then fmt_d z
  else
    let frac := fmt_d (z mod 10 ^ p) in
    fmt_d (z / 10 ^ p) +:+ "." +:+ zeros (Z.to_nat p - String.length frac) +:+ frac.

Definition fmt_f (plus : bool) (p : Z) (f : float64) : string :=
  let sign (s : bool) := if s then "-" else if plus then "+" else "" in
  match f with
  | S754_nan => (if plus then "+" else "") +:+ "NaN"
  | S754_infinity s => (if s then "-" else "+") +:+ "Inf"
  | S754_zero s => sign s +:+ fixed_digits p 0
  | S754_finite s m e => sign s +:+ fixed_digits p (f64_scaled p m e)
  end.

(** ** The order on numbers

    [SFcompare] orders numbers that are not NaN lexicographically by the
    triple [f64_key]. *)
Definition f64_key (f : float64) : Z * Z * Z :=
  match f with
  | S754_infinity true => (-2, 0, 0)
  | S754_finite true m e => (-1, - e, - Zpos m)
  | S754_zero _ => (0, 0, 0)
  | S754_finite false m e => (1, e, Zpos m)
  | S754_infinity false => (2, 0, 0)
  | S754_nan => (3, 0, 0)
  end.

Definition key_lt (a b : Z * Z * Z) : Prop :=
  a.1.1 < b.1.1 ∨ a.1.1 = b.1.1 ∧ (a.1.2 < b.1.2 ∨ a.1.2 = b.1.2 ∧ a.2 < b.2).

Lemma SFcompare_key f g :
  is_nan f = false → is_nan g = false →
  match SFcompare f g with
  | Some Lt => key_lt (f64_key f) (f64_key g)
  | Some Eq => f64_key f = f64_key g
  | Some Gt => key_lt (f64_key g) (f64_key f)
  | None => False
  end.
Proof.
  unfold key_lt.
  destruct f as [[]|[]| |[] m e], g as [[]|[]| |[] m' e']; intros Hf Hg;
    try discriminate; cbn -[Pos.compare]; try done; try lia;
    change (Pos.compare_cont Eq m m') with (Pos.compare m m');
    destruct (Z.compare_spec e e'); cbn -[Pos.compare]; try lia;
    destruct (Pos.compare_spec m m'); cbn; subst; try lia; done.
Qed.

Lemma f64_ltb_key f g :
  is_nan f = false → is_nan g = false →
  f64_ltb f g = true ↔ key_lt (f64_key f) (f64_key g).
Proof.
  intros Hf Hg. pose proof (SFcompare_key f g Hf Hg) as Hc. unfold f64_ltb, SFltb.
  destruct (SFcompare f g) as [[]|]; [|done| |done]; split; intros H; try done.
  - rewrite Hc in H. unfold key_lt in H. lia.
  - unfold key_lt in *. lia.
Qed.

Lemma f64_eqb_key f g :
  is_nan f = false → is_nan g = false →
  f64_eqb f g = true ↔ f64_key f = f64_key g.
Proof.
  intros Hf Hg. pose proof (SFcompare_key f g Hf Hg) as Hc. unfold f64_eqb, SFeqb.
  destruct (SFcompare f g) as [[]|]; split; intros H; try done; rewrite H in Hc;
    unfold key_lt in Hc; lia.
Qed.

Lemma f64_leb_key f g :
  is_nan f = false → is_nan g = false →
  f64_leb f g = true ↔ ¬ key_lt (f64_key g) (f64_key f).
Proof.
  intros Hf Hg. pose proof (SFcompare_key f g Hf Hg) as Hc. unfold f64_leb, SFleb.
  destruct (SFcompare f g) as [[]|]; split; intros H; try done; unfold key_lt in *;
    try rewrite Hc in *; lia.
Qed.

(** NaN is absorbing. *)
Lemma f64_add_nan_l f : (S754_nan + f)%float = S754_nan.
Proof. by destruct f. Qed.
Lemma f64_add_nan_r f : (f + S754_nan)%float = S754_nan.
Proof. by destruct f. Qed.
Lemma f64_mul_nan_l f : (S754_nan * f)%float = S754_nan.
Proof. by destruct f. Qed.
Lemma f64_mul_nan_r f : (f * S754_nan)%float = S754_nan.
Proof. by destruct f. Qed.
Lemma f64_div_nan_l f : (S754_nan / f)%float = S754_nan.
Proof. by destruct f. Qed.
Lemma f64_ltb_nan_l f : f64_ltb S754_nan f = false.
Proof. done. Qed.
Lemma f64_ltb_nan_r f : f64_ltb f S754_nan = false.
Proof. by destruct f. Qed.
Lemma f64_leb_nan_r f : f64_leb f S754_nan = false.
Proof. by destruct f. Qed.

Create Rewrite HintDb float.
#[export] Hint Rewrite f64_add_nan_l f64_add_nan_r f64_mul_nan_l f64_mul_nan_r
  f64_div_nan_l f64_ltb_nan_l f64_ltb_nan_r f64_leb_nan_r : float.

Lemma f64_ltb_irrefl f : f64_ltb f f = false.
Proof.
  destruct (is_nan f) eqn:Hf; [by destruct f|].
  apply not_true_is_false. rewrite f64_ltb_key by done. unfold key_lt. lia.
Qed.

Lemma f64_ltb_not_nan f g : f64_ltb f g = true → is_nan f = false ∧ is_nan g = false.
Proof. by destruct f as [[]|[]| |[] ? ?], g as [[]|[]| |[] ? ?]. Qed.

Lemma f64_leb_not_nan f g : f64_leb f g = true → is_nan f = false ∧ is_nan g = false.
Proof. by destruct f as [[]|[]| |[] ? ?], g as [[]|[]| |[] ? ?]. Qed.

(** On numbers other than NaN, [<=] is the negation of the converse [<]. *)
Lemma f64_leb_ltb f g :
  is_nan f = false → is_nan g = false → f64_leb f g = negb (f64_ltb g f).
Proof.
  intros Hf Hg. apply Bool.eq_iff_eq_true. rewrite negb_true_iff, f64_leb_key by done.
  rewrite <- not_true_iff_false, f64_ltb_key by done. done.
Qed.

Lemma f64_leb_trans f g h :
  f64_leb f g = true → f64_leb g h = true → f64_leb f h = true.
Proof.
  intros H1 H2. destruct (f64_leb_not_nan _ _ H1), (f64_leb_not_nan _ _ H2).
  rewrite f64_leb_key in * by done. unfold key_lt in *. lia.
Qed.

Lemma f64_ltb_leb_trans f g h :
  f64_ltb f g = true → f64_leb g h = true → f64_ltb f h = true.
Proof.
  intros H1 H2. destruct (f64_ltb_not_nan _ _ H1), (f64_leb_not_nan _ _ H2).
  rewrite f64_leb_key, f64_ltb_key in * by done. unfold key_lt in *. lia.
Qed.
