(* ===== verification/GoFmt.v ===== *)
(** * Column output of package fmt

    The padding verbs [%<w>s] and [%-<w>s] count code points, as package
    unicode/utf8 does: a byte that starts no valid encoding counts as one. *)
From S2P Require Export GoFloat.
Local Open Scope Z_scope.

Definition newline : string := String (ascii_of_nat 10) "".
Definition println (s : string) : string := s +:+ newline.

(** ** Counting code points *)

(** Is the byte between [lo] and [hi]? *)
Definition byte_in (lo hi : N) (c : ascii) : bool := (lo <=? N_of_ascii c)%N && (N_of_ascii c <=? hi)%N.
Definition continuation : ascii → bool := byte_in 128 191.

(** The number of bytes [utf8.DecodeRuneInString] consumes; the ranges are those of
    its tables [first] and [acceptRanges]. *)
Definition rune_size (s : string) : nat :=
  match s with
  | "" => 0
  | String c r =>
      let second (ok : ascii → bool) := match r with String d _ => ok d | "" => false end in
      let third := match r with String _ (String e _) => continuation e | _ => false end in
      let fourth := match r with String _ (String _ (String f _)) => continuation f | _ => false end in
      if byte_in 194 223 c && second continuation then 2
      else if byte_in 224 224 c && second (byte_in 160 191) && third then 3
      else if (byte_in 225 236 c || byte_in 238 239 c) && second continuation && third then 3
      else if byte_in 237 237 c && second (byte_in 128 159) && third then 3
      else if byte_in 240 240 c && second (byte_in 144 191) && third && fourth then 4
      else if byte_in 241 243 c && second continuation && third && fourth then 4
      else if byte_in 244 244 c && second (byte_in 128 143) && third && fourth then 4
      else 1
  end%nat.

(** [skip] bytes belong to the code point already counted. *)
Fixpoint count_runes (skip : nat) (s : string) : nat :=
  match s with
  | "" => 0
  | String _ r =>
      match skip with
      | S k => count_runes k r
      | O => S (count_runes (rune_size s - 1) r)
      end
  end.

Definition RuneCountInString (s : string) : nat := count_runes 0 s.

(** ** Padding *)
Fixpoint spaces (n : nat) : string := match n with O => "" | S n => String " " (spaces n) end.

(** [%-<w>s] and [%<w>s] *)
Definition pad_right (w : nat) (s : string) : string := s +:+ spaces (w - RuneCountInString s).
Definition pad_left (w : nat) (s : string) : string := spaces (w - RuneCountInString s) +:+ s.

(** [%v] of a slice of strings *)
Definition fmt_strings (l : list string) : string := "[" +:+ Join l " " +:+ "]".

(** ** The widths *)
Lemma rune_size_bound c r : (1 ≤ rune_size (String c r) ≤ S (String.length r))%nat.
Proof.
  unfold rune_size. destruct r as [|d [|e [|f r]]]; simpl;
    rewrite ?andb_false_r; simpl; repeat case_match; lia.
Qed.

Lemma rune_size_spaces c r n : rune_size (String c r +:+ spaces n) = rune_size (String c r).
Proof.
  assert (continuation " " = false ∧ byte_in 160 191 " " = false ∧ byte_in 128 159 " " = false ∧
    byte_in 144 191 " " = false ∧ byte_in 128 143 " " = false) as (H1 & H2 & H3 & H4 & H5) by done.
  destruct n as [|n]; [by rewrite string_app_nil_r|].
  destruct r as [|d [|e [|f r]]]; [..|done]; cbn [spaces]; unfold rune_size; simpl;
    rewrite ?H1, ?H2, ?H3, ?H4, ?H5, ?andb_false_r; try done;
    destruct n as [|n]; cbn [spaces]; rewrite ?H1, ?andb_false_r; done.
Qed.

Lemma count_runes_spaces s n : ∀ k, (k ≤ String.length s)%nat →
  count_runes k (s +:+ spaces n) = (count_runes k s + n)%nat.
Proof.
  induction s as [|c r IH]; intros k Hk.
  - replace k with 0%nat by (simpl in Hk; lia). rewrite string_app_nil_l. clear.
    induction n as [|n IH]; [done|]. cbn [spaces count_runes]. simpl in *. by rewrite IH.
  - destruct k as [|k]; [|apply IH; simpl in Hk; lia].
    pose proof (rune_size_bound c r) as Hb. pose proof (rune_size_spaces c r n) as Hs.
    change (String c r +:+ spaces n) with (String c (r +:+ spaces n)) in *.
    cbn [count_runes]. rewrite Hs, IH by lia. done.
Qed.

(** Padding on the right never completes an encoding either. *)
Lemma pad_right_width w s : RuneCountInString (pad_right w s) = (w `max` RuneCountInString s)%nat.
Proof.
  unfold pad_right. set (n := (w - RuneCountInString s)%nat). unfold RuneCountInString at 1.
  rewrite count_runes_spaces by lia. fold (RuneCountInString s). lia.
Qed.

(** Padding on the left never disturbs the count: a space is a code point. *)
Lemma pad_left_width w s : RuneCountInString (pad_left w s) = (w `max` RuneCountInString s)%nat.
Proof.
  unfold pad_left. set (n := (w - RuneCountInString s)%nat).
  assert (RuneCountInString (spaces n +:+ s) = n + RuneCountInString s)%nat as ->; [|lia].
  induction n as [|n IH]; [done|]. cbn [spaces]. unfold RuneCountInString in *. simpl.
  by rewrite IH.
Qed.

Example runes_of_row : RuneCountInString "🟢 node — ok" = 11%nat.
Proof. reflexivity. Qed.

Example runes_of_invalid : RuneCountInString (String (ascii_of_nat 240) "a") = 2%nat.
Proof. reflexivity. Qed.
