(* ===== verification/GoTime.v ===== *)
(** * Package [time]

    A [time.Time] is an instant in nanoseconds, a [time.Duration] an [int64]
    number of nanoseconds.  The clock is not part of the model: a function that
    calls [time.Now] or [time.Since] takes the instant [now] as an argument. *)
From S2P Require Export GoFloat.
Local Open Scope Z_scope.

Abbreviation Time := Z.
Abbreviation Duration := Z.

Definition Second : Duration := 1000000000.
Definition Minute : Duration := 60 * Second.
Definition Hour : Duration := 60 * Minute.

(** [t.Add(d)], [t.Before(u)] *)
Definition Add (t : Time) (d : Duration) : Time := t + d.
Definition Before (t u : Time) : bool := t <? u.

(** [t.Sub(u)] saturates at the bounds of [Duration]; [time.Since(u)] is
    [now.Sub(u)]. *)
Definition Sub (t u : Time) : Duration := Z.max (- 2 ^ 63) (Z.min (2 ^ 63 - 1) (t - u)).
Definition Since (now u : Time) : Duration := Sub now u.

(** [d.Seconds()]: whole seconds and the remaining nanoseconds are converted
    separately and added. *)
Definition Seconds (d : Duration) : float64 :=
  (f64_of_Z (Z.quot d Second) + f64_of_Z (Z.rem d Second) / f64_of_Z Second)%float.

(** [time.UnixMilli(ms)], [t.UnixMilli()], [t.Unix()] *)
Definition TimeOfUnixMilli (ms : Z) : Time := ms * 1000000.
Definition UnixMilli (t : Time) : Z := t / 1000000.
Definition Unix (t : Time) : Z := t / Second.

Lemma UnixMilli_of_UnixMilli ms : UnixMilli (TimeOfUnixMilli ms) = ms.
Proof. unfold UnixMilli, TimeOfUnixMilli. by rewrite Z.div_mul. Qed.

Lemma Sub_small t u : in_int64 (t - u) → Sub t u = t - u.
Proof. unfold in_int64, Sub. lia. Qed.

(** Comparing a saturated difference with a bound inside the range is comparing
    the difference itself. *)
Lemma Sub_ltb t u d : - 2 ^ 63 < d < 2 ^ 63 → (Sub t u <? d) = (t - u <? d).
Proof. intros Hd. apply Bool.eq_iff_eq_true. rewrite !Z.ltb_lt. unfold Sub. lia. Qed.

Lemma Sub_gtb t u d : - 2 ^ 63 ≤ d < 2 ^ 63 - 1 → (d <? Sub t u) = (d <? t - u).
Proof. intros Hd. apply Bool.eq_iff_eq_true. rewrite !Z.ltb_lt. unfold Sub. lia. Qed.
