(* ===== verification/GoSort.v ===== *)
(** * Package [sort]

    [sort.Slice] promises a rearrangement of the slice that is sorted whenever
    the comparison is a strict weak order; it does not promise a stable one.
    The clients are proved against this promise, the class [SliceSort];
    [insertion_sort] is an implementation, the one the standard library runs on
    slices of at most twelve elements. *)
From stdpp Require Export sorting.
From S2P Require Export Prelude.

(** [less] behaves as a strict weak order on the elements of [l]. *)
Record strict_weak_on {A} (less : A → A → bool) (l : list A) : Prop := {
  swo_irrefl : ∀ x, x ∈ l → less x x = false;
  swo_trans : ∀ x y z, x ∈ l → y ∈ l → z ∈ l →
    less x y = true → less y z = true → less x z = true;
  swo_incomp : ∀ x y z, x ∈ l → y ∈ l → z ∈ l →
    less y x = false → less z y = false → less z x = false;
}.

(** No later element is smaller than an earlier one. *)
Definition sorted_by {A} (less : A → A → bool) (l : list A) : Prop :=
  StronglySorted (λ x y, less y x = false) l.

Class SliceSort := slice_sort : ∀ {A : Type}, (A → A → bool) → list A → list A.

Class SliceSortSpec `{SliceSort} : Prop := {
  slice_sort_perm {A} (less : A → A → bool) (l : list A) : slice_sort less l ≡ₚ l;
  slice_sort_sorted {A} (less : A → A → bool) (l : list A) :
    strict_weak_on less l → sorted_by less (slice_sort less l);
}.

(** [x] is moved left past the elements it is less than; the sorted prefix is
    kept reversed, so its last element comes first. *)
Fixpoint insert_left {A} (less : A → A → bool) (x : A) (rprefix : list A) : list A :=
  match rprefix with
  | [] => [x]
  | y :: r => if less x y then y :: insert_left less x r else x :: y :: r
  end.

Definition insertion_sort {A} (less : A → A → bool) (l : list A) : list A :=
  rev (foldl (λ r x, insert_left less x r) [] l).

#[export] Instance insertion_slice_sort : SliceSort := @insertion_sort.

Section insertion_sort.
Context {A : Type} (less : A → A → bool).

Lemma strict_weak_on_sub l l' :
  (∀ x, x ∈ l' → x ∈ l) → strict_weak_on less l → strict_weak_on less l'.
Proof.
  intros Hsub [H1 H2 H3].
  split.
  - intros x Hx. by apply H1, Hsub.
  - intros x y z Hx Hy Hz. apply H2; by apply Hsub.
  - intros x y z Hx Hy Hz. apply H3; by apply Hsub.
Qed.

Lemma strict_weak_asymm l x y :
  strict_weak_on less l → x ∈ l → y ∈ l → less x y = true → less y x = false.
Proof.
  intros Hswo Hx Hy Hxy. apply not_true_is_false. intros Hyx.
  pose proof (swo_trans _ _ Hswo x y x Hx Hy Hx Hxy Hyx) as Hxx.
  by rewrite (swo_irrefl _ _ Hswo x Hx) in Hxx.
Qed.

Lemma insert_left_perm x r : insert_left less x r ≡ₚ x :: r.
Proof.
  induction r as [|y r IH]; simpl; [reflexivity|].
  case_match; [|reflexivity]. rewrite IH. apply perm_swap.
Qed.

Lemma foldl_insert_perm l r :
  foldl (λ r x, insert_left less x r) r l ≡ₚ l ++ r.
Proof.
  revert r. induction l as [|x l IH]; intros r; simpl; [reflexivity|].
  rewrite IH, insert_left_perm. by rewrite Permutation_middle.
Qed.

Lemma insertion_sort_perm l : insertion_sort less l ≡ₚ l.
Proof.
  unfold insertion_sort. rewrite <- Permutation_rev, foldl_insert_perm.
  by rewrite app_nil_r.
Qed.

Lemma insert_left_sorted x r :
  strict_weak_on less (x :: r) →
  StronglySorted (λ x y, less x y = false) r →
  StronglySorted (λ x y, less x y = false) (insert_left less x r).
Proof.
  induction r as [|y r IH]; intros Hswo Hr; simpl.
  { by repeat constructor. }
  apply StronglySorted_inv in Hr as [Hr Hy].
  destruct (less x y) eqn:Hxy.
  - constructor.
    + apply IH; [|done]. eapply strict_weak_on_sub; [|exact Hswo]. set_solver.
    + rewrite insert_left_perm. constructor; [|done].
      apply (strict_weak_asymm (x :: y :: r)); [done|set_solver..|done].
  - constructor; [by constructor|]. constructor; [done|].
    rewrite Forall_forall in Hy |- *. intros z Hz.
    apply (swo_incomp _ _ Hswo z y x); [set_solver..|by apply Hy|done].
Qed.

Lemma foldl_insert_sorted l r :
  strict_weak_on less (l ++ r) →
  StronglySorted (λ x y, less x y = false) r →
  StronglySorted (λ x y, less x y = false) (foldl (λ r x, insert_left less x r) r l).
Proof.
  revert r. induction l as [|x l IH]; intros r Hswo Hr; simpl; [done|].
  apply IH.
  - eapply strict_weak_on_sub; [|exact Hswo]. intros z.
    rewrite elem_of_app, insert_left_perm. set_solver.
  - apply insert_left_sorted; [|done].
    eapply strict_weak_on_sub; [|exact Hswo]. set_solver.
Qed.
End insertion_sort.

Lemma StronglySorted_rev {A} (R : A → A → Prop) l :
  StronglySorted R l → StronglySorted (λ x y, R y x) (rev l).
Proof.
  induction 1 as [|x l Hl IH Hx]; simpl; [constructor|].
  apply StronglySorted_app. split; [|split; [done|repeat constructor]].
  intros y z Hy Hz. apply list_elem_of_singleton in Hz as ->.
  rewrite Forall_forall in Hx. apply Hx.
  apply list_elem_of_In. apply in_rev. by apply list_elem_of_In.
Qed.

#[export] Instance insertion_slice_sort_spec : SliceSortSpec.
Proof.
  split.
  - intros A less l. apply insertion_sort_perm.
  - intros A less l Hswo. unfold sorted_by, slice_sort, insertion_slice_sort, insertion_sort.
    apply StronglySorted_rev, foldl_insert_sorted; [|constructor].
    by rewrite app_nil_r.
Qed.
