(* ===== verification/GoOS.v ===== *)
(** * Files: what the program uses of [os] and [io]

    The file system is a finite map from paths to contents.  Every call may
    fail: what the operating system does at a call is an argument (the plan),
    so a statement about all plans covers short reads, failing calls and
    partial writes. *)
From S2P Require Export GoString.
Local Open Scope Z_scope.

Abbreviation FileSys := (gmap string bytes).

(** ** Reading an open file *)
Inductive io_err := EOF | IOErr (msg : string).

(** What the operating system answers to one [Read]: it hands out at least one
    byte and at most the given number, or it fails. *)
Inductive read_plan := ReadUpTo (k : Z) | ReadFail (msg : string).

(** [f.Read(buf)] with the file position at [pos]: the bytes read and the
    error.  At the end of the file: no bytes and [io.EOF]. *)
Definition file_read (plan : read_plan) (bufsize : Z) (content : bytes) (pos : nat)
    : bytes * option io_err :=
  let rest := drop pos content in
  match rest with
  | [] => ([], Some EOF)
  | _ =>
      match plan with
      | ReadFail e => ([], Some (IOErr e))
      | ReadUpTo k =>
          let n := Z.max 1 (Z.min k (Z.min bufsize (Z.of_nat (length rest)))) in
          (take (Z.to_nat n) rest, None)
      end
  end.

(** [os.Open] / [os.ReadFile]: [fault] is the failure injected at this call. *)
Definition Open (fs : FileSys) (path : string) (fault : option string) : go bytes :=
  match fault with
  | Some e => Err e
  | None =>
      match fs !! path with
      | Some c => Ok c
      | None => Err ("open " +:+ path +:+ ": no such file or directory")
      end
  end.
Definition ReadFile (fs : FileSys) (path : string) (fault : option string) : go bytes :=
  Open fs path fault.

(** ** Writing *)
(** A write succeeds, fails before the file is touched, or fails after the file
    was truncated and [n] bytes of the data reached it. *)
Inductive write_plan :=
  | WriteOk
  | WriteNotOpened (msg : string)
  | WritePartial (n : nat) (msg : string).

(** [os.WriteFile(path, data, perm)] *)
Definition WriteFile (fs : FileSys) (path : string) (data : bytes) (plan : write_plan)
    : go unit * FileSys :=
  match plan with
  | WriteOk => (Ok tt, <[path := data]> fs)
  | WriteNotOpened e => (Err e, fs)
  | WritePartial n e => (Err e, <[path := take n data]> fs)
  end.

(** [os.Create(path)]: an empty file open for writing. *)
Definition Create (fs : FileSys) (path : string) (fault : option string) : go unit * FileSys :=
  match fault with
  | Some e => (Err e, fs)
  | None => (Ok tt, <[path := []]> fs)
  end.

(** [f.Write(data)] at the end of the file. *)
Definition file_write (fs : FileSys) (path : string) (data : bytes) (plan : write_plan)
    : go unit * FileSys :=
  let old := default [] (fs !! path) in
  match plan with
  | WriteOk => (Ok tt, <[path := old ++ data]> fs)
  | WriteNotOpened e => (Err e, fs)
  | WritePartial n e => (Err e, <[path := old ++ take n data]> fs)
  end.

(** [os.Remove(path)]; the second result says whether [os.IsNotExist] holds of
    the error. *)
Definition Remove (fs : FileSys) (path : string) (fault : option string) : go unit * bool * FileSys :=
  match fault with
  | Some e => (Err e, false, fs)
  | None =>
      match fs !! path with
      | Some _ => (Ok tt, false, delete path fs)
      | None => (Err ("remove " +:+ path +:+ ": no such file or directory"), true, fs)
      end
  end.

(** ** Lemmas *)
Lemma file_read_progress plan bufsize content pos got :
  0 < bufsize → file_read plan bufsize content pos = (got, None) →
  got ≠ [] ∧ (length got ≤ Z.to_nat bufsize)%nat ∧
  got ++ drop (pos + length got) content = drop pos content.
Proof.
  intros Hbuf. unfold file_read. rewrite <- drop_drop.
  destruct (drop pos content) as [|b rest] eqn:Hrest; [done|].
  destruct plan as [k|e]; [|done].
  set (n := Z.max 1 _). intros [= <-].
  assert (1 ≤ n ≤ bufsize ∧ n ≤ Z.of_nat (length (b :: rest))) as (Hn & Hlen).
  { unfold n. simpl length. lia. }
  rewrite length_take, Nat.min_l by lia.
  split; [|split; [lia|apply take_drop]].
  destruct (Z.to_nat n) eqn:?; [lia|done].
Qed.

Lemma file_read_eof plan bufsize content pos got :
  file_read plan bufsize content pos = (got, Some EOF) → got = [] ∧ drop pos content = [].
Proof.
  unfold file_read. destruct (drop pos content); [by intros [= <-]|].
  by destruct plan.
Qed.

Lemma file_read_err plan bufsize content pos got e :
  file_read plan bufsize content pos = (got, Some (IOErr e)) → got = [] ∧ plan = ReadFail e.
Proof.
  unfold file_read. destruct (drop pos content); [done|].
  destruct plan; [done|]. by intros [= <- ->].
Qed.
