(* ===== verification/Sha256.v ===== *)
(** * crypto/sha256

    [sha256.Sum256] as an executable function on bytes (FIPS 180-4), so that
    chunk identifiers and checksums are the program's own values.  Nothing
    below assumes that the function is injective. *)
From S2P Require Export GoString.
From Stdlib Require Import Strings.Byte.
Local Open Scope N_scope.

Definition mask32 : N := 0xffffffff.
Definition add32 (a b : N) : N := N.land (a + b) mask32.
Definition rotr (n x : N) : N :=
  N.lor (N.shiftr x n) (N.land (N.shiftl x (32 - n)) mask32).
Definition not32 (x : N) : N := N.lxor x mask32.

Definition Ch (x y z : N) : N := N.lxor (N.land x y) (N.land (not32 x) z).
Definition Maj (x y z : N) : N :=
  N.lxor (N.land x y) (N.lxor (N.land x z) (N.land y z)).
Definition bsig0 (x : N) : N := N.lxor (rotr 2 x) (N.lxor (rotr 13 x) (rotr 22 x)).
Definition bsig1 (x : N) : N := N.lxor (rotr 6 x) (N.lxor (rotr 11 x) (rotr 25 x)).
Definition ssig0 (x : N) : N := N.lxor (rotr 7 x) (N.lxor (rotr 18 x) (N.shiftr x 3)).
Definition ssig1 (x : N) : N := N.lxor (rotr 17 x) (N.lxor (rotr 19 x) (N.shiftr x 10)).

(** The round constants and the initial hash are, as the standard defines them,
    the first 32 bits of the fractional parts of the cube and square roots of
    the first primes; they are computed once, here. *)
Definition is_prime (n : nat) : bool :=
  forallb (λ d, negb (Nat.eqb (Nat.modulo n d) 0)) (seq 2 (n - 2)).

Definition first_primes (k : nat) : list N :=
  map N.of_nat (take k (List.filter is_prime (seq 2 400))).

(** The largest [r] below [2 ^ bits] with [r ^ e <= x]. *)
Fixpoint iroot (e : N) (bits : nat) (r x : N) : N :=
  match bits with
  | O => r
  | S b =>
      let r' := r + 2 ^ N.of_nat b in
      iroot e b (if r' ^ e <=? x then r' else r) x
  end.

Definition root_fraction (e p : N) : N := N.land (iroot e 40 0 (N.shiftl p (32 * e))) mask32.

Definition sha_k : list N := Eval vm_compute in map (root_fraction 3) (first_primes 64).
Definition sha_h0 : list N := Eval vm_compute in map (root_fraction 2) (first_primes 8).

(** Big-endian words of four bytes. *)
Fixpoint words_of (l : list N) : list N :=
  match l with
  | a :: b :: c :: d :: r =>
      (N.shiftl a 24 + N.shiftl b 16 + N.shiftl c 8 + d) :: words_of r
  | _ => []
  end.

Definition be_bytes (n : nat) (x : N) : list N :=
  rev (map (λ i, N.land (N.shiftr x (8 * N.of_nat i)) 255) (seq 0 n)).

(** The message followed by [0x80], zeros up to 56 modulo 64, and the length in
    bits on eight bytes. *)
Definition pad (m : list N) : list N :=
  let len := length m in
  let nz := Nat.modulo (119 - Nat.modulo len 64) 64 in
  m ++ [128] ++ repeat 0 nz ++ be_bytes 8 (8 * N.of_nat len).

(** The 64 words of the schedule; the prefix is kept latest first. *)
Fixpoint schedule (n : nat) (rw : list N) : list N :=
  match n with
  | O => rev rw
  | S n' =>
      let w := add32 (add32 (ssig1 (nth 1 rw 0)) (nth 6 rw 0))
                     (add32 (ssig0 (nth 14 rw 0)) (nth 15 rw 0)) in
      schedule n' (w :: rw)
  end.

Definition sha_round (st : list N) (kw : N * N) : list N :=
  match st with
  | [a; b; c; d; e; f; g; h] =>
      let t1 := add32 (add32 h (bsig1 e)) (add32 (Ch e f g) (add32 kw.1 kw.2)) in
      let t2 := add32 (bsig0 a) (Maj a b c) in
      [add32 t1 t2; a; b; c; add32 d t1; e; f; g]
  | _ => st
  end.

Definition sha_block (h : list N) (block : list N) : list N :=
  let w := schedule 48 (rev (words_of block)) in
  zip_with add32 h (foldl sha_round h (zip sha_k w)).

(** [n] blocks of 64 bytes. *)
Fixpoint sha_blocks (n : nat) (h : list N) (l : list N) : list N :=
  match n with
  | O => h
  | S n' => sha_blocks n' (sha_block h (take 64 l)) (drop 64 l)
  end.

Definition byte_of_N (n : N) : Byte.byte := default Byte.x00 (Byte.of_N n).

(** [sha256.Sum256(data)] *)
Definition Sum256 (data : bytes) : bytes :=
  let p := pad (map Byte.to_N data) in
  let h := sha_blocks (Nat.div (length p) 64) sha_h0 p in
  map byte_of_N (mjoin (map (be_bytes 4) h)).

(** ** The digest has 32 bytes *)
Lemma length_sha_round st kw : length st = 8%nat → length (sha_round st kw) = 8%nat.
Proof. destruct st as [|? [|? [|? [|? [|? [|? [|? [|? [|? ?]]]]]]]]]; intros [=]. done. Qed.

Lemma length_sha_rounds kws st : length st = 8%nat → length (foldl sha_round st kws) = 8%nat.
Proof. revert st. induction kws; intros st Hst; simpl; auto using length_sha_round. Qed.

Lemma length_sha_blocks n h l : length h = 8%nat → length (sha_blocks n h l) = 8%nat.
Proof.
  revert h l. induction n as [|n IH]; intros h l Hh; simpl; [done|].
  apply IH. unfold sha_block. by rewrite length_zip_with, length_sha_rounds, Hh.
Qed.

Lemma length_be_bytes n x : length (be_bytes n x) = n.
Proof. unfold be_bytes. by rewrite length_rev, length_map, length_seq. Qed.

Lemma length_Sum256 data : length (Sum256 data) = 32%nat.
Proof.
  unfold Sum256. rewrite length_map.
  pose proof (length_sha_blocks (Nat.div (length (pad (map Byte.to_N data))) 64) sha_h0
    (pad (map Byte.to_N data)) eq_refl) as H.
  destruct (sha_blocks _ _ _) as [|? [|? [|? [|? [|? [|? [|? [|? [|? ?]]]]]]]]]; try done.
Qed.

#[global] Arguments Sum256 : simpl never.
#[global] Opaque Sum256.
