(* ===== verification/Common.v ===== *)
(** * internal/common: configuration, statuses, chunk identifiers, chunking

    [config.go] and [utils.go]. *)
From S2P Require Export GoTime GoOS Sha256.
Local Open Scope Z_scope.

(** ** config.go *)
Definition ChunkSize : Z := 4 * 1024 * 1024.
Definition DefaultReplicationFactor : Z := 3.
Definition HeartbeatInterval : Duration := 3 * Second.
Definition MetricsReportInterval : Duration := 5 * Second.
Definition DeadNodeTimeout : Duration := 15 * Second.

Definition RiskHealthy : float64 := f64_const 25 100.
Definition RiskWarning : float64 := f64_const 45 100.
Definition RiskAtRisk : float64 := f64_const 55 100.
Definition RiskCritical : float64 := f64_const 55 100.

Definition WindowShort : Duration := 5 * Minute.
Definition WindowMedium : Duration := 15 * Minute.
Definition WindowLong : Duration := 1 * Hour.

Inductive NodeStatus :=
  | StatusHealthy
  | StatusWarning
  | StatusAtRisk
  | StatusCritical
  | StatusDead.

#[global] Instance NodeStatus_eq_dec : EqDecision NodeStatus.
Proof. solve_decision. Defined.

(** [string(status)] *)
Definition status_string (s : NodeStatus) : string :=
  match s with
  | StatusHealthy => "HEALTHY"
  | StatusWarning => "WARNING"
  | StatusAtRisk => "AT_RISK"
  | StatusCritical => "CRITICAL"
  | StatusDead => "DEAD"
  end.

Definition RiskToStatus (risk : float64) : NodeStatus :=
  if f64_ltb risk RiskHealthy then StatusHealthy
  else if f64_ltb risk RiskWarning then StatusWarning
  else if f64_ltb risk RiskAtRisk then StatusAtRisk
  else StatusCritical.

(** ** utils.go *)
Definition chunk_key (filePath : string) (chunkIndex : Z) : string :=
  filePath +:+ ":chunk:" +:+ fmt_d chunkIndex.

Definition GenerateChunkID (filePath : string) (chunkIndex : Z) : string :=
  let data := chunk_key filePath chunkIndex in
  let hash := Sum256 (bytes_of_string data) in
  fmt_x (take 8 hash).

Definition DataChecksum (data : bytes) : string := fmt_x (Sum256 data).

(** [io.Copy(h, f)] feeds the hash with the whole file or fails. *)
Definition FileChecksum (fs : FileSys) (path : string) (open_fault copy_fault : option string)
    : go string :=
  let! content := go_wrap "open file: " (Open fs path open_fault) in
  match copy_fault with
  | Some e => Err ("compute checksum: " +:+ e)
  | None => Ok (fmt_x (Sum256 content))
  end.

(** The loop of [ChunkFile]: one [Read] into the buffer per iteration, each
    non-empty read becoming a chunk.  [plans pos] is what the operating system
    does at the read from position [pos].  [fuel] bounds the iterations; every
    read advances, so [S (length content)] of them always suffice. *)
Fixpoint read_chunks (ctx : string) (fuel : nat) (plans : nat → read_plan)
    (content : bytes) (pos : nat) (chunks : list bytes) : go (list bytes) :=
  match fuel with
  | O => Panic "read loop"
  | S fuel' =>
      let '(got, err) := file_read (plans pos) ChunkSize content pos in
      let chunks' := if decide (0 < length got)%nat then chunks ++ [got] else chunks in
      match err with
      | Some EOF => Ok chunks'
      | Some (IOErr e) => Err (ctx +:+ e)
      | None => read_chunks ctx fuel' plans content (pos + length got) chunks'
      end
  end.

Definition ChunkFile (fs : FileSys) (path : string) (open_fault : option string)
    (plans : nat → read_plan) : go (list bytes) :=
  let! content := go_wrap "open file: " (Open fs path open_fault) in
  read_chunks "read file: " (S (length content)) plans content 0 [].

(** The loop of [ReassembleChunks]; [i] is the index of the first chunk. *)
Fixpoint write_chunks (fs : FileSys) (destPath : string) (plans : nat → write_plan)
    (i : nat) (chunks : list bytes) : go unit * FileSys :=
  match chunks with
  | [] => (Ok tt, fs)
  | chunk :: rest =>
      match file_write fs destPath chunk (plans i) with
      | (Err e, fs') =>
          (Err ("write chunk " +:+ fmt_d (Z.of_nat i) +:+ ": " +:+ e), fs')
      | (Panic w, fs') => (Panic w, fs')
      | (Ok _, fs') => write_chunks fs' destPath plans (S i) rest
      end
  end.

Definition ReassembleChunks (fs : FileSys) (chunks : list bytes) (destPath : string)
    (create_fault : option string) (plans : nat → write_plan) : go unit * FileSys :=
  match Create fs destPath create_fault with
  | (Ok _, fs') => write_chunks fs' destPath plans 0 chunks
  | (Err e, fs') => (Err ("create file: " +:+ e), fs')
  | (Panic w, fs') => (Panic w, fs')
  end.

(** ** Lemmas *)

(** The hashed text determines the path and the index. *)
Lemma chunk_key_inj p1 i1 p2 i2 : chunk_key p1 i1 = chunk_key p2 i2 → p1 = p2 ∧ i1 = i2.
Proof.
  unfold chunk_key. intros Heq.
  assert (∀ p i, p +:+ ":chunk:" +:+ fmt_d i
    = (p +:+ ":chunk") +:+ String ":" (fmt_d i)) as Hsplit.
  { intros p i. rewrite <- string_app_assoc. done. }
  rewrite !Hsplit in Heq.
  apply last_field_inj in Heq as [Hp Hd]; [|apply fmt_d_no_char; set_solver..].
  split; [by eapply string_app_inj_r|by apply fmt_d_inj].
Qed.

(** An identifier is sixteen hexadecimal digits. *)
Lemma GenerateChunkID_length p i : String.length (GenerateChunkID p i) = 16%nat.
Proof.
  unfold GenerateChunkID. rewrite length_fmt_x, length_take, length_Sum256. done.
Qed.

(** Identifiers that cannot leave a data directory or name another's file. *)
Definition plain_id (id : string) : Prop := has_char slash id = false.

Lemma GenerateChunkID_plain p i : plain_id (GenerateChunkID p i).
Proof. apply fmt_x_no_char, hex_digit_not_slash. Qed.

(** Two chunks with one identifier exhibit a collision of the first eight bytes
    of SHA-256. *)
Lemma GenerateChunkID_collision p1 i1 p2 i2 :
  (p1, i1) ≠ (p2, i2) → GenerateChunkID p1 i1 = GenerateChunkID p2 i2 →
  ∃ k1 k2, k1 ≠ k2 ∧
    fmt_x (take 8 (Sum256 (bytes_of_string k1)))
      = fmt_x (take 8 (Sum256 (bytes_of_string k2))).
Proof.
  intros Hne Heq. exists (chunk_key p1 i1), (chunk_key p2 i2). split; [|exact Heq].
  intros [-> ->]%chunk_key_inj. by apply Hne.
Qed.

Definition plan_ok (p : read_plan) : Prop := match p with ReadUpTo _ => True | ReadFail _ => False end.

(** A chunk as the loop produces it. *)
Definition good_chunk (c : bytes) : Prop := c ≠ [] ∧ Z.of_nat (length c) ≤ ChunkSize.

Lemma ChunkSize_pos : 0 < ChunkSize.
Proof. done. Qed.

Lemma read_chunks_spec ctx fuel plans content pos chunks :
  (length (drop pos content) < fuel)%nat →
  (∃ more, read_chunks ctx fuel plans content pos chunks = Ok (chunks ++ more) ∧
     mjoin more = drop pos content ∧ Forall good_chunk more) ∨
  (∃ e p, read_chunks ctx fuel plans content pos chunks = Err (ctx +:+ e) ∧
     plans p = ReadFail e).
Proof.
  revert pos chunks. induction fuel as [|fuel IH]; intros pos chunks Hfuel; [lia|].
  cbn [read_chunks].
  destruct (file_read (plans pos) ChunkSize content pos) as [got err] eqn:Hread.
  destruct err as [[|e]|].
  - apply file_read_eof in Hread as [-> Hdrop]. left. exists [].
    rewrite app_nil_r, Hdrop. done.
  - apply file_read_err in Hread as [-> Hplan]. right. by exists e, pos.
  - apply file_read_progress in Hread as (Hne & Hle & Happ); [|apply ChunkSize_pos].
    assert (0 < length got)%nat as Hpos by (destruct got; [done|simpl; lia]).
    rewrite decide_True by done.
    assert (length (drop (pos + length got) content) < fuel)%nat as Hfuel'.
    { rewrite <- Happ, length_app in Hfuel. lia. }
    destruct (IH (pos + length got)%nat (chunks ++ [got]) Hfuel') as
      [(more & -> & Hjoin & Hgood)|Hfail]; [|by right].
    left. exists (got :: more). rewrite <- app_assoc. split; [done|].
    split; [simpl; by rewrite Hjoin|].
    constructor; [|done]. split; [done|lia].
Qed.

(** With reads that fill the buffer the chunks are the consecutive blocks of
    [ChunkSize] bytes. *)
Lemma read_chunks_full ctx fuel plans content pos chunks :
  (∀ p, ∃ k, plans p = ReadUpTo k ∧ ChunkSize ≤ k) →
  (length (drop pos content) < fuel)%nat →
  ∃ more, read_chunks ctx fuel plans content pos chunks = Ok (chunks ++ more) ∧
    Z.of_nat (length more) =
      (Z.of_nat (length (drop pos content)) + ChunkSize - 1) / ChunkSize ∧
    ∀ i c, more !! i = Some c →
      Z.of_nat (length c) =
        Z.min ChunkSize (Z.of_nat (length (drop pos content)) - Z.of_nat i * ChunkSize).
Proof.
  intros Hplans. revert pos chunks.
  induction fuel as [|fuel IH]; intros pos chunks Hfuel; [lia|].
  cbn [read_chunks]. destruct (Hplans pos) as (k & Hk & Hkle).
  unfold file_read. rewrite Hk. pose proof ChunkSize_pos.
  destruct (drop pos content) as [|b rest] eqn:Hdrop.
  - exists []. rewrite app_nil_r. split; [done|]. split; [done|].
    intros i c Hi. by rewrite lookup_nil in Hi.
  - set (n := Z.max 1 _).
    assert (n = Z.min ChunkSize (Z.of_nat (length (b :: rest)))) as Hn.
    { unfold n. simpl length. lia. }
    assert (1 ≤ n) as Hn1 by (simpl length in Hn; lia).
    set (got := take (Z.to_nat n) (b :: rest)).
    assert (Z.of_nat (length got) = n) as Hgot.
    { unfold got. rewrite length_take. lia. }
    rewrite decide_True by lia.
    assert (length (drop (pos + length got) content)
            = (length (b :: rest) - length got)%nat) as Hlen.
    { rewrite <- drop_drop, Hdrop, length_drop. done. }
    destruct (IH (pos + length got)%nat (chunks ++ [got])) as (more & -> & Hcount & Hsizes).
    { rewrite Hlen. lia. }
    exists (got :: more). rewrite <- app_assoc. split; [done|].
    rewrite Hlen in Hcount, Hsizes. simpl length in *. split.
    + rewrite Nat2Z.inj_succ, Hcount.
      destruct (decide (ChunkSize ≤ Z.of_nat (S (length rest)))).
      * replace (Z.of_nat (S (length rest) - length got) + ChunkSize - 1)
          with (Z.of_nat (S (length rest)) + ChunkSize - 1 + (-1) * ChunkSize) by lia.
        rewrite Z.div_add by lia. lia.
      * replace (Z.of_nat (S (length rest) - length got)) with 0 by lia.
        rewrite (Z.div_small (0 + ChunkSize - 1)) by lia.
        apply (Z.div_unique _ _ _ (Z.of_nat (S (length rest)) - 1)); lia.
    + intros [|i] c Hi; simpl in Hi; [injection Hi as <-; lia|].
      destruct (decide (ChunkSize ≤ Z.of_nat (S (length rest)))).
      * apply Hsizes in Hi. rewrite Hi.
        replace (Z.of_nat (S i) * ChunkSize) with (Z.of_nat i * ChunkSize + ChunkSize) by lia.
        lia.
      * exfalso. apply lookup_lt_Some in Hi.
        replace (Z.of_nat (S (length rest) - length got)) with 0 in Hcount by lia.
        rewrite (Z.div_small (0 + ChunkSize - 1)) in Hcount by lia. lia.
Qed.

Lemma write_chunks_ok fs destPath plans i chunks old :
  (∀ j, plans j = WriteOk) → fs !! destPath = Some old →
  write_chunks fs destPath plans i chunks = (Ok tt, <[destPath := old ++ mjoin chunks]> fs).
Proof.
  intros Hplans. revert fs i old. induction chunks as [|c chunks IH]; intros fs i old Hold.
  - simpl. rewrite app_nil_r, insert_id by done. done.
  - cbn [write_chunks]. unfold file_write. rewrite Hplans, Hold. simpl default.
    rewrite (IH _ _ (old ++ c)) by apply lookup_insert_eq.
    rewrite insert_insert_eq. simpl. by rewrite app_assoc.
Qed.

(** *** Statuses *)
Lemma RiskToStatus_nan : RiskToStatus S754_nan = StatusCritical.
Proof. reflexivity. Qed.

Lemma RiskToStatus_spec r :
  RiskToStatus r =
    if f64_ltb r RiskHealthy then StatusHealthy
    else if f64_ltb r RiskWarning then StatusWarning
    else if f64_ltb r RiskAtRisk then StatusAtRisk
    else StatusCritical.
Proof. done. Qed.

Definition status_rank (s : NodeStatus) : Z :=
  match s with
  | StatusHealthy => 0 | StatusWarning => 1 | StatusAtRisk => 2
  | StatusCritical => 3 | StatusDead => 4
  end.

Lemma thresholds_increasing :
  f64_ltb RiskHealthy RiskWarning = true ∧ f64_ltb RiskWarning RiskAtRisk = true ∧
  is_nan RiskHealthy = false ∧ is_nan RiskWarning = false ∧ is_nan RiskAtRisk = false.
Proof. vm_compute. done. Qed.

(** A higher risk never gets a milder status. *)
Lemma RiskToStatus_mono_aux r1 r2 :
  f64_leb r1 r2 = true → status_rank (RiskToStatus r1) ≤ status_rank (RiskToStatus r2).
Proof.
  intros Hle. destruct (f64_leb_not_nan _ _ Hle) as [H1 H2].
  assert (∀ t, is_nan t = false → f64_ltb r2 t = true → f64_ltb r1 t = true) as Hmono.
  { intros t Ht. rewrite f64_leb_key in Hle by done. rewrite !f64_ltb_key by done.
    unfold key_lt in *. lia. }
  destruct thresholds_increasing as (_ & _ & Ha & Hb & Hc).
  unfold RiskToStatus.
  destruct (f64_ltb r2 RiskHealthy) eqn:E1; [by rewrite (Hmono _ Ha E1)|].
  destruct (f64_ltb r2 RiskWarning) eqn:E2.
  { rewrite (Hmono _ Hb E2). by destruct (f64_ltb r1 RiskHealthy). }
  destruct (f64_ltb r2 RiskAtRisk) eqn:E3.
  { rewrite (Hmono _ Hc E3).
    destruct (f64_ltb r1 RiskHealthy), (f64_ltb r1 RiskWarning); done. }
  destruct (f64_ltb r1 RiskHealthy), (f64_ltb r1 RiskWarning), (f64_ltb r1 RiskAtRisk); done.
Qed.

(** ** Properties *)

(** Chunking round trip: whatever the sizes of the reads, a file that can be
    read is cut into non-empty chunks of at most [ChunkSize] bytes whose
    concatenation is the file, and reassembling them at a destination recreates
    the file there byte for byte; a failing read is reported as an error. *)
Theorem ChunkFile_ReassembleChunks_roundtrip fs path content plans dest :
  fs !! path = Some content →
  match ChunkFile fs path None plans with
  | Ok chunks => mjoin chunks = content ∧ Forall good_chunk chunks ∧
      ReassembleChunks fs chunks dest None (λ _, WriteOk) = (Ok tt, <[dest := content]> fs)
  | Err e => ∃ p msg, plans p = ReadFail msg ∧ e = "read file: " +:+ msg
  | Panic _ => False
  end.
Proof.
  intros Hfs. unfold ChunkFile, Open. rewrite Hfs. cbn [go_wrap go_bind].
  destruct (read_chunks_spec "read file: " (S (length content)) plans content 0 [])
    as [(more & -> & Hjoin & Hgood)|(e & p & -> & Hp)]; [rewrite drop_0; lia| |eauto].
  rewrite app_nil_l. rewrite drop_0 in Hjoin. split; [done|]. split; [done|].
  unfold ReassembleChunks, Create.
  rewrite (write_chunks_ok _ _ _ _ _ []) by (done || apply lookup_insert_eq).
  by rewrite insert_insert_eq, app_nil_l, Hjoin.
Qed.

(** Chunk count: when every read fills its buffer as far as the file allows, a
    file of [n] bytes is cut into exactly ceil(n / 4 MiB) chunks, all of
    [ChunkSize] bytes but the last. *)
Theorem ChunkFile_count fs path content plans :
  fs !! path = Some content →
  (∀ p, ∃ k, plans p = ReadUpTo k ∧ ChunkSize ≤ k) →
  ∃ chunks, ChunkFile fs path None plans = Ok chunks ∧
    Z.of_nat (length chunks) = (Z.of_nat (length content) + ChunkSize - 1) / ChunkSize ∧
    ∀ i c, chunks !! i = Some c →
      Z.of_nat (length c) =
        Z.min ChunkSize (Z.of_nat (length content) - Z.of_nat i * ChunkSize).
Proof.
  intros Hfs Hplans. unfold ChunkFile, Open. rewrite Hfs. cbn [go_wrap go_bind].
  destruct (read_chunks_full "read file: " (S (length content)) plans content 0 [])
    as (more & -> & Hcount & Hsizes); [done|rewrite drop_0; lia|].
  rewrite drop_0 in *. exists more. done.
Qed.

(** Risk bands: the status is monotone in the risk (a higher risk never gets a
    milder status), it is never DEAD, and a risk that is not a number is
    CRITICAL.  Since the at-risk and critical thresholds coincide, the band
    [RiskAtRisk, RiskCritical) is empty: everything from 0.55 on is CRITICAL. *)
Theorem RiskToStatus_bands r1 r2 :
  (f64_leb r1 r2 = true → status_rank (RiskToStatus r1) ≤ status_rank (RiskToStatus r2)) ∧
  RiskToStatus r1 ≠ StatusDead ∧
  (is_nan r1 = true → RiskToStatus r1 = StatusCritical) ∧
  (f64_leb RiskAtRisk r1 = true ↔ RiskToStatus r1 = StatusCritical ∧ is_nan r1 = false).
Proof.
  split; [apply RiskToStatus_mono_aux|]. split; [unfold RiskToStatus; by repeat case_match|].
  split; [intros Hn; by destruct r1|].
  destruct thresholds_increasing as (H1 & H2 & Ha & Hb & Hc). split.
  - intros Hle. destruct (f64_leb_not_nan _ _ Hle) as [_ Hn]. split; [|done].
    unfold RiskToStatus. rewrite f64_leb_key in Hle by done.
    rewrite f64_ltb_key in H1, H2 by done.
    assert (∀ t, is_nan t = false → ¬ key_lt (f64_key RiskAtRisk) (f64_key t) →
      f64_ltb r1 t = false) as Hge.
    { intros t Ht Hlt. apply not_true_is_false. rewrite f64_ltb_key by done.
      unfold key_lt in *. lia. }
    by rewrite !Hge by (assumption || (unfold key_lt in *; lia)).
  - intros [Hs Hn]. rewrite f64_leb_ltb by done. unfold RiskToStatus in Hs.
    destruct (f64_ltb r1 RiskHealthy), (f64_ltb r1 RiskWarning), (f64_ltb r1 RiskAtRisk); done.
Qed.

(** Chunk identifiers: two different (path, index) pairs share an identifier only
    if two different texts collide on the first eight bytes of SHA-256; the hashed
    text determines path and index. *)
Theorem GenerateChunkID_injective p1 i1 p2 i2 :
  GenerateChunkID p1 i1 = GenerateChunkID p2 i2 →
  (p1 = p2 ∧ i1 = i2) ∨
  (chunk_key p1 i1 ≠ chunk_key p2 i2 ∧
   fmt_x (take 8 (Sum256 (bytes_of_string (chunk_key p1 i1))))
     = fmt_x (take 8 (Sum256 (bytes_of_string (chunk_key p2 i2))))).
Proof.
  intros Heq. destruct (decide (chunk_key p1 i1 = chunk_key p2 i2)) as [Hk|Hk].
  - left. by apply chunk_key_inj.
  - right. by split.
Qed.

Section witnesses.
Definition demo_file : bytes := bytes_of_string "hello world".

Lemma ChunkFile_ReassembleChunks_roundtrip_witness :
  ReassembleChunks {["/a" := demo_file]} [demo_file] "/b" None (λ _, WriteOk)
    = (Ok tt, <["/b" := demo_file]> {["/a" := demo_file]}).
Proof.
  pose proof (ChunkFile_ReassembleChunks_roundtrip {["/a" := demo_file]} "/a" demo_file
    (λ _, ReadUpTo ChunkSize) "/b" (lookup_singleton_eq _ _)) as H.
  assert (ChunkFile {["/a" := demo_file]} "/a" None (λ _, ReadUpTo ChunkSize) = Ok [demo_file]) as Hc
    by (vm_compute; reflexivity).
  rewrite Hc in H. exact (proj2 (proj2 H)).
Defined.

Lemma ChunkFile_count_witness :
  ∃ chunks, ChunkFile {["/a" := demo_file]} "/a" None (λ _, ReadUpTo ChunkSize) = Ok chunks ∧
    Z.of_nat (length chunks) = 1.
Proof.
  destruct (ChunkFile_count {["/a" := demo_file]} "/a" demo_file (λ _, ReadUpTo ChunkSize)
    (lookup_singleton_eq _ _)) as (chunks & Heq & Hlen & _).
  - intros p. exists ChunkSize. split; [reflexivity|apply Z.le_refl].
  - exists chunks. split; [exact Heq|]. rewrite Hlen. reflexivity.
Defined.

Lemma GenerateChunkID_injective_witness :
  GenerateChunkID "/f" 0 = GenerateChunkID "/f" 0 ∧
  ("/f" = "/f" ∧ 0 = 0 ∨
   chunk_key "/f" 0 ≠ chunk_key "/f" 0 ∧
   fmt_x (take 8 (Sum256 (bytes_of_string (chunk_key "/f" 0))))
     = fmt_x (take 8 (Sum256 (bytes_of_string (chunk_key "/f" 0))))).
Proof. split; [reflexivity|]. exact (GenerateChunkID_injective "/f" 0 "/f" 0 eq_refl). Defined.

Lemma RiskToStatus_bands_witness :
  status_rank (RiskToStatus (f64_const 3 10)) ≤ status_rank (RiskToStatus (f64_const 1 2)) ∧
  RiskToStatus (f64_const 55 100) = StatusCritical.
Proof.
  destruct (RiskToStatus_bands (f64_const 3 10) (f64_const 1 2)) as [Hmono _].
  split; [apply Hmono; vm_compute; reflexivity|]. vm_compute. reflexivity.
Defined.
End witnesses.
