(* ===== verification/Messages.v ===== *)
(** * proto/sentinelfs.proto: the messages

    The Go structs the protocol compiler generates (proto/sentinelfs.pb.go), with
    their fields in order.  [int32] and [int64] fields are integers kept in range
    by the code that writes them, a singular message field is a pointer that may be
    nil, and so are the chunks of a [FileInfo], which a handler can leave unset. *)
From S2P Require Export Common.

Record ChunkInfo := mkChunkInfo {
  ChunkInfo_ChunkId : string;
  ChunkInfo_ChunkIndex : Z;
  ChunkInfo_Size : Z;
  ChunkInfo_Checksum : string;
  ChunkInfo_NodeIds : list string;
}.

Record FileInfo := mkFileInfo {
  FileInfo_Path : string;
  FileInfo_Size : Z;
  FileInfo_ChunkCount : Z;
  FileInfo_ReplicationFactor : Z;
  FileInfo_Chunks : list (option ChunkInfo);
  FileInfo_CreatedAt : Z;
}.

Record NodeInfo := mkNodeInfo {
  NodeInfo_NodeId : string;
  NodeInfo_Address : string;
  NodeInfo_CapacityBytes : Z;
  NodeInfo_UsedBytes : Z;
  NodeInfo_ChunkCount : Z;
  NodeInfo_Status : string;
  NodeInfo_RiskScore : float64;
}.

Record HealthMetrics := mkHealthMetrics {
  HealthMetrics_NodeId : string;
  HealthMetrics_DiskIoLatencyMs : float64;
  HealthMetrics_DiskUtilization : float64;
  HealthMetrics_ErrorCount : Z;
  HealthMetrics_ResponseTimeMs : float64;
  HealthMetrics_CpuUsage : float64;
  HealthMetrics_MemoryUsage : float64;
  HealthMetrics_Timestamp : Z;
}.

Record PutFileRequest := mkPutFileRequest {
  PutFileRequest_Path : string;
  PutFileRequest_FileSize : Z;
  PutFileRequest_ChunkCount : Z;
  PutFileRequest_Checksum : string;
}.

Record ChunkPlacement := mkChunkPlacement {
  ChunkPlacement_ChunkId : string;
  ChunkPlacement_ChunkIndex : Z;
  ChunkPlacement_NodeAddresses : list string;
  ChunkPlacement_NodeIds : list string;
}.

Record PutFileResponse := mkPutFileResponse {
  PutFileResponse_Success : bool;
  PutFileResponse_Message : string;
  PutFileResponse_Placements : list ChunkPlacement;
}.

Record GetFileRequest := mkGetFileRequest {
  GetFileRequest_Path : string;
}.

Record ChunkLocation := mkChunkLocation {
  ChunkLocation_ChunkId : string;
  ChunkLocation_ChunkIndex : Z;
  ChunkLocation_NodeAddresses : list string;
  ChunkLocation_NodeIds : list string;
}.

Record GetFileResponse := mkGetFileResponse {
  GetFileResponse_Success : bool;
  GetFileResponse_Message : string;
  GetFileResponse_FileInfo : option FileInfo;
  GetFileResponse_ChunkLocations : list ChunkLocation;
}.

Record DeleteFileRequest := mkDeleteFileRequest {
  DeleteFileRequest_Path : string;
}.

Record DeleteFileResponse := mkDeleteFileResponse {
  DeleteFileResponse_Success : bool;
  DeleteFileResponse_Message : string;
}.

Record ListFilesRequest := mkListFilesRequest {
  ListFilesRequest_Path : string;
}.

Record ListFilesResponse := mkListFilesResponse {
  ListFilesResponse_Success : bool;
  ListFilesResponse_Files : list FileInfo;
}.

Record GetFileInfoRequest := mkGetFileInfoRequest {
  GetFileInfoRequest_Path : string;
}.

Record GetFileInfoResponse := mkGetFileInfoResponse {
  GetFileInfoResponse_Success : bool;
  GetFileInfoResponse_FileInfo : option FileInfo;
}.

Record RegisterNodeRequest := mkRegisterNodeRequest {
  RegisterNodeRequest_Address : string;
  RegisterNodeRequest_CapacityBytes : Z;
}.

Record RegisterNodeResponse := mkRegisterNodeResponse {
  RegisterNodeResponse_Success : bool;
  RegisterNodeResponse_NodeId : string;
  RegisterNodeResponse_Message : string;
}.

Record HeartbeatRequest := mkHeartbeatRequest {
  HeartbeatRequest_NodeId : string;
  HeartbeatRequest_UsedBytes : Z;
  HeartbeatRequest_ChunkCount : Z;
}.

Record HeartbeatResponse := mkHeartbeatResponse {
  HeartbeatResponse_Success : bool;
  HeartbeatResponse_ChunksToDelete : list string;
}.

Record ReportHealthRequest := mkReportHealthRequest {
  ReportHealthRequest_Metrics : option HealthMetrics;
}.

Record ReportHealthResponse := mkReportHealthResponse {
  ReportHealthResponse_Success : bool;
  ReportHealthResponse_Status : string;
}.

Record GetClusterInfoRequest := mkGetClusterInfoRequest {}.

Record GetClusterInfoResponse := mkGetClusterInfoResponse {
  GetClusterInfoResponse_TotalNodes : Z;
  GetClusterInfoResponse_HealthyNodes : Z;
  GetClusterInfoResponse_WarningNodes : Z;
  GetClusterInfoResponse_AtRiskNodes : Z;
  GetClusterInfoResponse_DeadNodes : Z;
  GetClusterInfoResponse_TotalCapacity : Z;
  GetClusterInfoResponse_TotalUsed : Z;
  GetClusterInfoResponse_TotalFiles : Z;
  GetClusterInfoResponse_TotalChunks : Z;
  GetClusterInfoResponse_Nodes : list NodeInfo;
}.

Record GetNodeInfoRequest := mkGetNodeInfoRequest {
  GetNodeInfoRequest_NodeId : string;
}.

Record GetNodeInfoResponse := mkGetNodeInfoResponse {
  GetNodeInfoResponse_Nodes : list NodeInfo;
}.

Record StoreChunkRequest := mkStoreChunkRequest {
  StoreChunkRequest_ChunkId : string;
  StoreChunkRequest_Data : bytes;
  StoreChunkRequest_Checksum : string;
}.

Record StoreChunkResponse := mkStoreChunkResponse {
  StoreChunkResponse_Success : bool;
  StoreChunkResponse_Message : string;
}.

Record GetChunkRequest := mkGetChunkRequest {
  GetChunkRequest_ChunkId : string;
}.

Record GetChunkResponse := mkGetChunkResponse {
  GetChunkResponse_Success : bool;
  GetChunkResponse_Data : bytes;
  GetChunkResponse_Checksum : string;
}.

Record DeleteChunkRequest := mkDeleteChunkRequest {
  DeleteChunkRequest_ChunkId : string;
}.

Record DeleteChunkResponse := mkDeleteChunkResponse {
  DeleteChunkResponse_Success : bool;
  DeleteChunkResponse_Message : string;
}.

Record TransferChunkRequest := mkTransferChunkRequest {
  TransferChunkRequest_ChunkId : string;
  TransferChunkRequest_TargetAddress : string;
}.

Record TransferChunkResponse := mkTransferChunkResponse {
  TransferChunkResponse_Success : bool;
  TransferChunkResponse_Message : string;
}.

Record GetHealthRequest := mkGetHealthRequest {}.

Record GetHealthResponse := mkGetHealthResponse {
  GetHealthResponse_Metrics : option HealthMetrics;
}.
