(* ===== verification/Namespace.v ===== *)
(** * internal/metaserver/namespace.go: the file and directory tree

    Directory entries are heap cells: a [*DirEntry] is a location, a directory's
    [Children] map holds locations, and writes through a pointer are updates of
    the heap, as in the source.  [view] is the abstraction: what each path
    (a list of components) denotes. *)
From S2P Require Export Prelude GoString.
From S2P Require Import GoTime.

(** ** Data *)
Record FileMeta := mkFileMeta {
  fm_Path : string;
  fm_Size : Z;
  fm_ChunkCount : Z;
  fm_ReplicationFactor : Z;
  fm_Checksum : string;
  fm_ChunkIDs : list string;
  fm_CreatedAt : Time;
}.

Abbreviation loc := nat.

(** [Children = None] is the nil map of a file entry, [File = None] the nil
    pointer of a directory entry. *)
Record DirEntry := mkDirEntry {
  de_Name : string;
  de_IsDir : bool;
  de_Children : option (gmap string loc);
  de_File : option FileMeta;
}.

Record Namespace := mkNamespace {
  ns_heap : gmap loc DirEntry;
  ns_root : loc;
  ns_next : loc;
}.

(** ** Pointers *)
Definition deref (l : loc) (ns : Namespace) : go DirEntry :=
  match ns_heap ns !! l with
  | Some e => Ok e
  | None => Panic "invalid memory address or nil pointer dereference"
  end.

Definition alloc (e : DirEntry) : gos Namespace loc := λ ns,
  (Ok (ns_next ns),
   mkNamespace (<[ns_next ns := e]> (ns_heap ns)) (ns_root ns) (S (ns_next ns))).

(** [l.Children[name]]: reading a nil map finds nothing. *)
Definition child (e : DirEntry) (name : string) : option loc :=
  match de_Children e with
  | Some m => m !! name
  | None => None
  end.

Definition set_children (e : DirEntry) (m : gmap string loc) : DirEntry :=
  mkDirEntry (de_Name e) (de_IsDir e) (Some m) (de_File e).

(** [l.Children[name] = c]: writing to a nil map panics. *)
Definition set_child (l : loc) (name : string) (c : loc) : gos Namespace unit :=
  do! e <- gos_gets (deref l) ;;
  match de_Children e with
  | None => gos_panic "assignment to entry in nil map"
  | Some m =>
      gos_modify (λ ns, mkNamespace (<[l := set_children e (<[name := c]> m)]> (ns_heap ns))
                          (ns_root ns) (ns_next ns))
  end.

(** [delete(l.Children, name)]: on a nil map a no-op. *)
Definition delete_child (l : loc) (name : string) : gos Namespace unit :=
  do! e <- gos_gets (deref l) ;;
  match de_Children e with
  | None => gos_ret tt
  | Some m =>
      gos_modify (λ ns, mkNamespace (<[l := set_children e (delete name m)]> (ns_heap ns))
                          (ns_root ns) (ns_next ns))
  end.

(** ** Operations *)
Definition new_dir (name : string) : DirEntry := mkDirEntry name true (Some ∅) None.

Definition NewNamespace : Namespace := mkNamespace {[0 := new_dir "/"]} 0 1.

(** The last component; [parts] of a [Split] is never empty. *)
Definition splitPath (path : string) : go (string * string) :=
  let path := TrimPrefix path "/" in
  if decide (path = "") then Err "empty path"
  else
    let parts := Split path in
    let name := List.last parts "" in
    let dir := "/" +:+ Join (removelast parts) "/" in
    Ok (dir, name).

Definition cleanPath (path : string) : list string :=
  let path := TrimPrefix path "/" in
  let path := TrimSuffix path "/" in
  if decide (path = "") then [] else Split path.

Fixpoint resolve_loop (path : string) (current : loc) (parts : list string)
    (ns : Namespace) : go loc :=
  match parts with
  | [] => Ok current
  | part :: rest =>
      let! e := deref current ns in
      match child e part with
      | None => Err ("path not found: " +:+ path)
      | Some c => resolve_loop path c rest ns
      end
  end.

Definition resolve (path : string) (ns : Namespace) : go loc :=
  resolve_loop path (ns_root ns) (cleanPath path) ns.

Definition resolveDir (path : string) (ns : Namespace) : go loc :=
  if decide (path = "/" ∨ path = "") then Ok (ns_root ns)
  else
    let! entry := resolve path ns in
    let! e := deref entry ns in
    if de_IsDir e then Ok entry else Err ("path " +:+ path +:+ " is not a directory").

Fixpoint mkdirAll_loop (current : loc) (parts : list string) : gos Namespace loc :=
  match parts with
  | [] => gos_ret current
  | part :: rest =>
      do! e <- gos_gets (deref current) ;;
      match child e part with
      | None =>
          do! c <- alloc (new_dir part) ;;
          do! _ <- set_child current part c ;;
          mkdirAll_loop c rest
      | Some c =>
          do! ce <- gos_gets (deref c) ;;
          if de_IsDir ce then mkdirAll_loop c rest
          else gos_raise ("path component " +:+ part +:+ " is a file")
      end
  end.

Definition mkdirAll (path : string) : gos Namespace loc := λ ns,
  if decide (path = "/" ∨ path = "") then (Ok (ns_root ns), ns)
  else mkdirAll_loop (ns_root ns) (cleanPath path) ns.

Definition CreateFile (path : string) (meta : FileMeta) : gos Namespace unit :=
  do! (dir, name) <- gos_gets (λ _, splitPath path) ;;
  do! parent <- gos_wrap "create parent dirs: " (mkdirAll dir) ;;
  do! e <- gos_gets (deref parent) ;;
  let create :=
    do! c <- alloc (mkDirEntry name false None (Some meta)) ;;
    set_child parent name c in
  match child e name with
  | Some existing =>
      do! ee <- gos_gets (deref existing) ;;
      if de_IsDir ee then gos_raise ("path " +:+ path +:+ " is a directory")
      else create
  | None => create
  end.

(** The results of [GetFile] and [DeleteFile] are the entry's pointer. *)
Definition GetFile (path : string) (ns : Namespace) : go (option FileMeta) :=
  let! entry := resolve path ns in
  let! e := deref entry ns in
  if de_IsDir e then Err ("path " +:+ path +:+ " is a directory")
  else Ok (de_File e).

Definition DeleteFile (path : string) : gos Namespace (option FileMeta) :=
  do! (dir, name) <- gos_gets (λ _, splitPath path) ;;
  do! parent <- gos_gets (λ ns, go_wrap "parent directory not found: " (resolveDir dir ns)) ;;
  do! e <- gos_gets (deref parent) ;;
  match child e name with
  | None => gos_raise ("file not found: " +:+ path)
  | Some entry =>
      do! ee <- gos_gets (deref entry) ;;
      if de_IsDir ee then gos_raise ("path " +:+ path +:+ " is a directory, use rmdir")
      else
        do! _ <- delete_child parent name ;;
        gos_ret (de_File ee)
  end.

(** [ord] is the iteration order of the directory's [Children]. *)
Definition ListDir (path : string) (ord : list string) (ns : Namespace) : go (list loc) :=
  let! dir :=
    (if decide (path = "/" ∨ path = "") then Ok (ns_root ns) else resolve path ns) in
  let! e := deref dir ns in
  if de_IsDir e then Ok (range_map ord (default ∅ (de_Children e))).*2
  else Err ("path " +:+ path +:+ " is not a directory").

Definition FileExists (path : string) (ns : Namespace) : go bool :=
  match resolve path ns with
  | Ok entry => let! e := deref entry ns in Ok (negb (de_IsDir e))
  | Err _ => Ok false
  | Panic w => Panic w
  end.

(** [ord l] is the iteration order of the children of the entry at [l].  The
    recursion follows child pointers; [fuel] bounds its depth. *)
Fixpoint walkFiles (fuel : nat) (ord : loc → list string) (ns : Namespace)
    (entry : loc) (files : list FileMeta) : go (list FileMeta) :=
  match fuel with
  | O => Panic "stack overflow"
  | S fuel' =>
      let! e := deref entry ns in
      match de_IsDir e, de_File e with
      | false, Some meta => Ok (files ++ [meta])
      | _, _ =>
          (fix loop (kids : list (string * loc)) (files : list FileMeta) :=
             match kids with
             | [] => Ok files
             | (_, c) :: rest =>
                 let! files' := walkFiles fuel' ord ns c files in loop rest files'
             end) (range_map (ord entry) (default ∅ (de_Children e))) files
      end
  end.

Definition GetAllFiles (ord : loc → list string) (ns : Namespace) : go (list FileMeta) :=
  walkFiles (S (ns_next ns)) ord ns (ns_root ns) [].

(** ** Abstraction: what a path denotes *)
Inductive node := NDir | NFile (meta : FileMeta).

Fixpoint walk (ns : Namespace) (l : loc) (p : list string) : option loc :=
  match p with
  | [] => Some l
  | name :: p' =>
      match ns_heap ns !! l with
      | Some e => match child e name with Some c => walk ns c p' | None => None end
      | None => None
      end
  end.

Definition node_of (e : DirEntry) : option node :=
  if de_IsDir e then Some NDir else NFile <$> de_File e.

Definition view_from (ns : Namespace) (l : loc) (p : list string) : option node :=
  match walk ns l p with
  | Some l' => match ns_heap ns !! l' with Some e => node_of e | None => None end
  | None => None
  end.

Definition view (ns : Namespace) (p : list string) : option node :=
  view_from ns (ns_root ns) p.

(** ** Well-formed trees

    Locations grow from parent to child, so the tree has no cycle; no entry is
    reachable through two names; a directory has a map and no file, a file a
    file and no map. *)
Definition wf_entry (e : DirEntry) : Prop :=
  if de_IsDir e then is_Some (de_Children e) ∧ de_File e = None
  else de_Children e = None ∧ is_Some (de_File e).

Record wf (ns : Namespace) : Prop := {
  wf_root : ns_root ns = 0 ∧ ∃ e, ns_heap ns !! 0 = Some e ∧ de_IsDir e = true;
  wf_entries : ∀ l e, ns_heap ns !! l = Some e → l < ns_next ns ∧ wf_entry e;
  wf_child : ∀ l e name c, ns_heap ns !! l = Some e → child e name = Some c →
    l < c ∧ ∃ ce, ns_heap ns !! c = Some ce ∧ de_Name ce = name;
  wf_parent : ∀ l1 e1 n1 l2 e2 n2 c,
    ns_heap ns !! l1 = Some e1 → child e1 n1 = Some c →
    ns_heap ns !! l2 = Some e2 → child e2 n2 = Some c → l1 = l2 ∧ n1 = n2;
}.

(** ** Lemmas on paths through the heap *)
Lemma walk_app ns l p q :
  walk ns l (p ++ q) = match walk ns l p with Some l' => walk ns l' q | None => None end.
Proof.
  revert l. induction p as [|name p IH]; intros l; simpl; [done|].
  destruct (ns_heap ns !! l) as [e|]; [|done]. destruct (child e name); [apply IH|done].
Qed.

Definition step (ns : Namespace) (l : loc) (name : string) : option loc :=
  match ns_heap ns !! l with Some e => child e name | None => None end.

Lemma walk_snoc ns l p name :
  walk ns l (p ++ [name]) = match walk ns l p with Some l' => step ns l' name | None => None end.
Proof.
  rewrite walk_app. destruct (walk ns l p) as [l'|]; [|done]. simpl. unfold step.
  destruct (ns_heap ns !! l') as [e|]; [|done]. by destruct (child e name).
Qed.

Lemma step_Some ns l name c :
  step ns l name = Some c ↔ ∃ e, ns_heap ns !! l = Some e ∧ child e name = Some c.
Proof.
  unfold step. destruct (ns_heap ns !! l) as [e|]; split.
  - eauto.
  - by intros (e' & [= ->] & ?).
  - done.
  - by intros (e' & ? & ?).
Qed.

Section wf_lemmas.
Context (ns : Namespace) (Hwf : wf ns).

Lemma wf_root_is_dir : ∃ e, ns_heap ns !! ns_root ns = Some e ∧ de_IsDir e = true.
Proof. destruct (wf_root _ Hwf) as [-> He]. exact He. Qed.

Lemma walk_defined p l : walk ns (ns_root ns) p = Some l → is_Some (ns_heap ns !! l).
Proof.
  revert l. induction p as [|name p _] using rev_ind; intros l.
  - simpl. intros [= <-]. destruct wf_root_is_dir as (e & -> & _). eauto.
  - rewrite walk_snoc. destruct (walk ns (ns_root ns) p) as [l'|]; [|done].
    rewrite step_Some. intros (e & He & Hc).
    destruct (wf_child _ Hwf _ _ _ _ He Hc) as (_ & ce & -> & _). eauto.
Qed.

Lemma walk_fresh p l : walk ns (ns_root ns) p = Some l → l ≠ ns_next ns.
Proof.
  intros [e He]%walk_defined. apply (wf_entries _ Hwf) in He as [Hlt _]. lia.
Qed.

Lemma step_not_root l name : step ns l name ≠ Some (ns_root ns).
Proof.
  rewrite step_Some. intros (e & He & Hc).
  destruct (wf_child _ Hwf _ _ _ _ He Hc) as [Hlt _].
  destruct (wf_root _ Hwf) as [Hr _]. lia.
Qed.

(** An entry is reached along one path only. *)
Lemma walk_inj p q l :
  walk ns (ns_root ns) p = Some l → walk ns (ns_root ns) q = Some l → p = q.
Proof.
  revert q l. induction p as [|n p IH] using rev_ind; intros q l Hp Hq.
  - simpl in Hp. injection Hp as <-. induction q as [|n q _] using rev_ind; [done|].
    rewrite walk_snoc in Hq. destruct (walk ns (ns_root ns) q) as [l'|]; [|done].
    by apply step_not_root in Hq.
  - rewrite walk_snoc in Hp. destruct (walk ns (ns_root ns) p) as [lp|] eqn:Hlp; [|done].
    induction q as [|n' q _] using rev_ind.
    { simpl in Hq. injection Hq as <-. by apply step_not_root in Hp. }
    rewrite walk_snoc in Hq. destruct (walk ns (ns_root ns) q) as [lq|] eqn:Hlq; [|done].
    apply step_Some in Hp as (e1 & He1 & Hc1). apply step_Some in Hq as (e2 & He2 & Hc2).
    destruct (wf_parent _ Hwf _ _ _ _ _ _ _ He1 Hc1 He2 Hc2) as [<- <-].
    by rewrite (IH q lp).
Qed.

(** A proper prefix of a resolved path is a directory. *)
Lemma walk_prefix_dir p name q l :
  walk ns (ns_root ns) (p ++ name :: q) = Some l → view ns p = Some NDir.
Proof.
  rewrite walk_app. unfold view, view_from.
  destruct (walk ns (ns_root ns) p) as [l'|]; [|done]. simpl.
  destruct (ns_heap ns !! l') as [e|] eqn:He; [|done].
  intros Hc. apply (wf_entries _ Hwf) in He as [_ He]. unfold wf_entry, node_of in *.
  destruct (de_IsDir e); [done|]. destruct He as [Hnil _].
  unfold child in Hc. by rewrite Hnil in Hc.
Qed.

Lemma view_Some_walk p :
  is_Some (view ns p) ↔ is_Some (walk ns (ns_root ns) p).
Proof.
  unfold view, view_from. destruct (walk ns (ns_root ns) p) as [l|] eqn:Hw.
  - destruct (walk_defined _ _ Hw) as [e He]. rewrite He.
    destruct (wf_entries _ Hwf _ _ He) as [_ Hent]. unfold wf_entry, node_of in *.
    destruct (de_IsDir e); [split; eauto|]. destruct Hent as [_ [m ->]]. split; eauto.
  - split; by intros [].
Qed.

Lemma view_root : view ns [] = Some NDir.
Proof.
  unfold view, view_from. simpl. destruct wf_root_is_dir as (e & -> & He).
  unfold node_of. by rewrite He.
Qed.
End wf_lemmas.

(** ** Adding and removing an entry *)
(** The heap after a fresh entry [ne] became [parent.Children[name]]. *)
Definition link (ns : Namespace) (parent : loc) (pe : DirEntry) (m : gmap string loc)
    (name : string) (ne : DirEntry) : Namespace :=
  mkNamespace
    (<[parent := set_children pe (<[name := ns_next ns]> m)]> (<[ns_next ns := ne]> (ns_heap ns)))
    (ns_root ns) (S (ns_next ns)).

Lemma link_run ns parent pe m name ne :
  ns_heap ns !! parent = Some pe → de_Children pe = Some m → parent ≠ ns_next ns →
  gos_bind (alloc ne) (λ c, set_child parent name c) ns = (Ok tt, link ns parent pe m name ne).
Proof.
  intros Hpe Hm Hne. unfold gos_bind, alloc, set_child, gos_gets, deref. simpl.
  unfold gos_bind. simpl. rewrite lookup_insert_ne, Hpe by done. by rewrite Hm.
Qed.

Lemma child_set_children e m n : child (set_children e m) n = m !! n.
Proof. done. Qed.

Section link.
Context (ns : Namespace) (Hwf : wf ns) (pp : list string) (parent : loc)
  (pe : DirEntry) (m : gmap string loc) (name : string) (ne : DirEntry).
Context (Hwalk : walk ns (ns_root ns) pp = Some parent)
  (Hpe : ns_heap ns !! parent = Some pe) (Hm : de_Children pe = Some m)
  (Hne : wf_entry ne) (Hnochild : ∀ n, child ne n = None) (Hname : de_Name ne = name).
Let ns' := link ns parent pe m name ne.

Lemma link_parent_fresh : parent ≠ ns_next ns.
Proof. by eapply walk_fresh. Qed.

Lemma link_lookup l :
  ns_heap ns' !! l =
    if decide (l = parent) then Some (set_children pe (<[name := ns_next ns]> m))
    else if decide (l = ns_next ns) then Some ne else ns_heap ns !! l.
Proof.
  unfold ns'; simpl. pose proof link_parent_fresh.
  destruct (decide (l = parent)) as [->|]; [by rewrite lookup_insert_eq|].
  rewrite lookup_insert_ne by done.
  destruct (decide (l = ns_next ns)) as [->|]; [by rewrite lookup_insert_eq|].
  by rewrite lookup_insert_ne.
Qed.

Lemma link_step l n :
  step ns' l n =
    if decide (l = parent ∧ n = name) then Some (ns_next ns)
    else if decide (l = ns_next ns) then None else step ns l n.
Proof.
  unfold step. rewrite link_lookup. pose proof link_parent_fresh.
  destruct (decide (l = parent)) as [->|Hl].
  - rewrite child_set_children, Hpe. unfold child. rewrite Hm.
    destruct (decide (n = name)) as [->|Hn].
    + rewrite lookup_insert_eq, decide_True; done.
    + rewrite lookup_insert_ne, decide_False, decide_False; naive_solver.
  - rewrite (decide_False (P := l = parent ∧ n = name)) by naive_solver.
    destruct (decide (l = ns_next ns)); [apply Hnochild|done].
Qed.

Lemma link_walk p :
  walk ns' (ns_root ns) p =
    if decide (p = pp ++ [name]) then Some (ns_next ns)
    else if decide (pp ++ [name] `prefix_of` p) then None
    else walk ns (ns_root ns) p.
Proof.
  induction p as [|n q IH] using rev_ind.
  - rewrite decide_False by (by destruct pp). rewrite decide_False; [done|].
    intros [k Hk]. by destruct pp.
  - rewrite !walk_snoc, IH. clear IH.
    destruct (decide (q = pp ++ [name])) as [->|Hq].
    { rewrite link_step, decide_False by (intros [? _]; by apply link_parent_fresh).
      rewrite decide_True by done. rewrite decide_False.
      2:{ intros Heq%(f_equal length). rewrite !length_app in Heq. simpl in Heq. lia. }
      rewrite decide_True; [done|]. by exists [n]. }
    destruct (decide (pp ++ [name] `prefix_of` q)) as [Hpre|Hpre].
    { rewrite decide_False, decide_True; [done|by apply prefix_app_r|].
      intros [-> _]%app_inj_tail. apply prefix_length in Hpre.
      rewrite length_app in Hpre. simpl in Hpre. lia. }
    destruct (decide (q ++ [n] = pp ++ [name])) as [[-> ->]%app_inj_tail|Hneq].
    { rewrite Hwalk, link_step. by rewrite decide_True by done. }
    rewrite (decide_False (P := pp ++ [name] `prefix_of` q ++ [n])).
    2:{ intros [k Hk]. induction k as [|x k _] using rev_ind.
        - rewrite app_nil_r in Hk. done.
        - rewrite app_assoc in Hk. apply app_inj_tail in Hk as [-> _].
          apply Hpre. by exists k. }
    destruct (walk ns (ns_root ns) q) as [l|] eqn:Hl; [|done].
    rewrite link_step, decide_False.
    + rewrite decide_False; [done|]. by eapply walk_fresh.
    + intros [-> ->]. apply Hneq. by rewrite (walk_inj ns Hwf _ _ _ Hl Hwalk).
Qed.

Lemma link_node_of l :
  l ≠ ns_next ns →
  match ns_heap ns' !! l with Some e => node_of e | None => None end =
  match ns_heap ns !! l with Some e => node_of e | None => None end.
Proof.
  intros Hl. rewrite link_lookup. destruct (decide (l = parent)) as [->|].
  - by rewrite Hpe.
  - by rewrite decide_False.
Qed.

Lemma link_view p :
  view ns' p =
    if decide (p = pp ++ [name]) then node_of ne
    else if decide (pp ++ [name] `prefix_of` p) then None
    else view ns p.
Proof.
  unfold view, view_from. change (ns_root ns') with (ns_root ns). rewrite link_walk.
  destruct (decide (p = pp ++ [name])).
  - rewrite link_lookup. pose proof link_parent_fresh.
    rewrite decide_False by done. by rewrite decide_True by done.
  - destruct (decide (pp ++ [name] `prefix_of` p)); [done|].
    destruct (walk ns (ns_root ns) p) as [l|] eqn:Hl; [|done].
    apply link_node_of. by eapply walk_fresh.
Qed.

Lemma link_dir : de_IsDir pe = true.
Proof.
  destruct (wf_entries _ Hwf _ _ Hpe) as [_ He]. unfold wf_entry in He.
  destruct (de_IsDir pe); [done|]. destruct He as [He _]. by rewrite Hm in He.
Qed.

Lemma link_wf : wf ns'.
Proof.
  pose proof link_parent_fresh as Hpf. pose proof link_dir as Hdir.
  assert (∀ l e, ns_heap ns' !! l = Some e → l < S (ns_next ns) ∧ wf_entry e) as Hent.
  { intros l e. rewrite link_lookup.
    destruct (decide (l = parent)) as [->|].
    - intros [= <-]. destruct (wf_entries _ Hwf _ _ Hpe) as [Hlt He]. split; [lia|].
      unfold wf_entry in *. simpl. rewrite Hdir in *. destruct He as [_ ->]. eauto.
    - destruct (decide (l = ns_next ns)) as [->|].
      + intros [= <-]. split; [lia|done].
      + intros He. apply (wf_entries _ Hwf) in He as [Hlt He]. split; [lia|done]. }
  assert (∀ l n c, step ns' l n = Some c →
    (l = parent ∧ n = name ∧ c = ns_next ns) ∨
    (step ns l n = Some c ∧ c ≠ ns_next ns)) as Hstep.
  { intros l n c. rewrite link_step. case_decide as Hd; [intros [= <-]; left; naive_solver|].
    case_decide; [done|]. intros Hs. right. split; [done|].
    apply step_Some in Hs as (e & He & Hc).
    destruct (wf_child _ Hwf _ _ _ _ He Hc) as (_ & ce & Hce & _).
    apply (wf_entries _ Hwf) in Hce as [Hlt _]. lia. }
  split.
  - destruct (wf_root _ Hwf) as [Hr (e & He & Hd)]. split; [done|]. rewrite link_lookup.
    destruct (decide (0 = parent)); [eexists; split; [done|exact Hdir]|].
    rewrite decide_False; [eauto|]. intros Heq.
    apply (wf_entries _ Hwf) in He as [Hlt _]. lia.
  - exact Hent.
  - intros l e n c He Hc.
    destruct (Hstep l n c) as [(-> & -> & ->)|[Hs Hcn]]; [apply step_Some; eauto|..].
    + split; [destruct (wf_entries _ Hwf _ _ Hpe); lia|].
      exists ne. rewrite link_lookup, decide_False, decide_True by done. done.
    + apply step_Some in Hs as (e' & He' & Hc').
      destruct (wf_child _ Hwf _ _ _ _ He' Hc') as (Hlt & ce & Hce & Hn). split; [done|].
      rewrite link_lookup. destruct (decide (c = parent)) as [->|].
      * rewrite Hpe in Hce. injection Hce as <-. eexists. split; [done|exact Hn].
      * rewrite decide_False by done. eauto.
  - intros l1 e1 n1 l2 e2 n2 c He1 Hc1 He2 Hc2.
    assert (step ns' l1 n1 = Some c) as [(-> & -> & Hcn)|[Hs1 Hcn1]]%Hstep
      by (apply step_Some; eauto);
    (assert (step ns' l2 n2 = Some c) as [(-> & -> & ?)|[Hs2 Hcn2]]%Hstep
      by (apply step_Some; eauto));
    try done.
    apply step_Some in Hs1 as (e1' & He1' & Hc1'). apply step_Some in Hs2 as (e2' & He2' & Hc2').
    by apply (wf_parent _ Hwf _ _ _ _ _ _ _ He1' Hc1' He2' Hc2').
Qed.
End link.

(** The heap after [delete(parent.Children, name)]. *)
Definition unlink (ns : Namespace) (parent : loc) (pe : DirEntry) (m : gmap string loc)
    (name : string) : Namespace :=
  mkNamespace (<[parent := set_children pe (delete name m)]> (ns_heap ns))
    (ns_root ns) (ns_next ns).

Lemma unlink_run ns parent pe m name :
  ns_heap ns !! parent = Some pe → de_Children pe = Some m →
  delete_child parent name ns = (Ok tt, unlink ns parent pe m name).
Proof.
  intros Hpe Hm. unfold delete_child, gos_bind, gos_gets, deref. rewrite Hpe. by rewrite Hm.
Qed.

Section unlink.
Context (ns : Namespace) (Hwf : wf ns) (pp : list string) (parent : loc)
  (pe : DirEntry) (m : gmap string loc) (name : string).
Context (Hwalk : walk ns (ns_root ns) pp = Some parent)
  (Hpe : ns_heap ns !! parent = Some pe) (Hm : de_Children pe = Some m).
Let ns' := unlink ns parent pe m name.

Lemma unlink_lookup l :
  ns_heap ns' !! l =
    if decide (l = parent) then Some (set_children pe (delete name m)) else ns_heap ns !! l.
Proof.
  unfold ns'; simpl. destruct (decide (l = parent)) as [->|]; [by rewrite lookup_insert_eq|].
  by rewrite lookup_insert_ne.
Qed.

Lemma unlink_step l n :
  step ns' l n = if decide (l = parent ∧ n = name) then None else step ns l n.
Proof.
  unfold step. rewrite unlink_lookup. destruct (decide (l = parent)) as [->|Hl].
  - rewrite child_set_children, Hpe. unfold child. rewrite Hm.
    destruct (decide (n = name)) as [->|Hn].
    + rewrite lookup_delete_eq, decide_True; done.
    + rewrite lookup_delete_ne, decide_False; naive_solver.
  - by rewrite decide_False by naive_solver.
Qed.

Lemma unlink_walk p :
  walk ns' (ns_root ns) p =
    if decide (pp ++ [name] `prefix_of` p) then None else walk ns (ns_root ns) p.
Proof.
  induction p as [|n q IH] using rev_ind.
  { rewrite decide_False; [done|]. intros [k Hk]. by destruct pp. }
  rewrite !walk_snoc, IH. clear IH.
  destruct (decide (pp ++ [name] `prefix_of` q)) as [Hpre|Hpre].
  { by rewrite decide_True by (by apply prefix_app_r). }
  destruct (decide (q ++ [n] = pp ++ [name])) as [Heq|Hneq].
  { rewrite Heq. apply app_inj_tail in Heq as [-> ->].
    rewrite Hwalk, unlink_step, !decide_True; done. }
  rewrite (decide_False (P := pp ++ [name] `prefix_of` q ++ [n])).
  2:{ intros [k Hk]. induction k as [|x k _] using rev_ind.
      - rewrite app_nil_r in Hk. done.
      - rewrite app_assoc in Hk. apply app_inj_tail in Hk as [-> _].
        apply Hpre. by exists k. }
  destruct (walk ns (ns_root ns) q) as [l|] eqn:Hl; [|done].
  rewrite unlink_step, decide_False; [done|].
  intros [-> ->]. apply Hneq. by rewrite (walk_inj ns Hwf _ _ _ Hl Hwalk).
Qed.

Lemma unlink_view p :
  view ns' p = if decide (pp ++ [name] `prefix_of` p) then None else view ns p.
Proof.
  unfold view, view_from. change (ns_root ns') with (ns_root ns). rewrite unlink_walk.
  destruct (decide (pp ++ [name] `prefix_of` p)); [done|].
  destruct (walk ns (ns_root ns) p) as [l|] eqn:Hl; [|done].
  rewrite unlink_lookup. destruct (decide (l = parent)) as [->|]; [|done]. by rewrite Hpe.
Qed.

Lemma unlink_wf : wf ns'.
Proof.
  pose proof (link_dir ns Hwf parent pe m Hpe Hm) as Hdir.
  assert (∀ l n c, step ns' l n = Some c → step ns l n = Some c) as Hstep.
  { intros l n c. rewrite unlink_step. by case_decide. }
  split.
  - destruct (wf_root _ Hwf) as [Hr (e & He & Hd)]. split; [done|]. rewrite unlink_lookup.
    destruct (decide (0 = parent)); [eexists; split; [done|exact Hdir]|eauto].
  - intros l e. rewrite unlink_lookup. destruct (decide (l = parent)) as [->|].
    + intros [= <-]. destruct (wf_entries _ Hwf _ _ Hpe) as [Hlt He]. split; [done|].
      unfold wf_entry in *. simpl. rewrite Hdir in *. destruct He as [_ ->]. eauto.
    + apply (wf_entries _ Hwf).
  - intros l e n c He Hc.
    assert (step ns' l n = Some c) as Hs%Hstep by (apply step_Some; eauto).
    apply step_Some in Hs as (e' & He' & Hc').
    destruct (wf_child _ Hwf _ _ _ _ He' Hc') as (Hlt & ce & Hce & Hn). split; [done|].
    rewrite unlink_lookup. destruct (decide (c = parent)) as [->|]; [|eauto].
    rewrite Hpe in Hce. injection Hce as <-. eexists. split; [done|exact Hn].
  - intros l1 e1 n1 l2 e2 n2 c He1 Hc1 He2 Hc2.
    assert (step ns' l1 n1 = Some c) as Hs1%Hstep by (apply step_Some; eauto).
    assert (step ns' l2 n2 = Some c) as Hs2%Hstep by (apply step_Some; eauto).
    apply step_Some in Hs1 as (e1' & He1' & Hc1'). apply step_Some in Hs2 as (e2' & He2' & Hc2').
    by apply (wf_parent _ Hwf _ _ _ _ _ _ _ He1' Hc1' He2' Hc2').
Qed.
End unlink.

(** ** mkdirAll *)
Lemma dir_has_map ns l e :
  wf ns → ns_heap ns !! l = Some e → de_IsDir e = true →
  ∃ m, de_Children e = Some m ∧ de_File e = None.
Proof.
  intros Hwf He Hd. apply (wf_entries _ Hwf) in He as [_ He].
  unfold wf_entry in He. rewrite Hd in He. destruct He as [[m Hm] Hf]. eauto.
Qed.

Lemma file_has_meta ns l e :
  wf ns → ns_heap ns !! l = Some e → de_IsDir e = false →
  de_Children e = None ∧ ∃ meta, de_File e = Some meta.
Proof.
  intros Hwf He Hd. apply (wf_entries _ Hwf) in He as [_ He].
  unfold wf_entry in He. rewrite Hd in He. destruct He as [Hc [meta Hf]]. eauto.
Qed.

Lemma view_walk ns p l e :
  walk ns (ns_root ns) p = Some l → ns_heap ns !! l = Some e → view ns p = node_of e.
Proof. intros Hw He. unfold view, view_from. by rewrite Hw, He. Qed.

(** The paths up to [d] are directories, everything else is as before. *)
Definition tree_mkdirs (v : list string → option node) (d : list string)
    : list string → option node :=
  λ p, if decide (p `prefix_of` d) then Some NDir else v p.

Definition file_on (v : list string → option node) (d : list string) : Prop :=
  ∃ p meta, p `prefix_of` d ∧ v p = Some (NFile meta).

Lemma prefix_snoc_cases {A} (p d : list A) x :
  p `prefix_of` d ++ [x] → p `prefix_of` d ∨ p = d ++ [x].
Proof.
  intros [k Hk]. induction k as [|y k _] using rev_ind.
  - right. by rewrite app_nil_r in Hk.
  - left. rewrite app_assoc in Hk. apply app_inj_tail in Hk as [-> _]. by exists k.
Qed.

Definition mkdirs_post (ns : Namespace) (d : list string) (res : go loc * Namespace) : Prop :=
  match res with
  | (Ok l, ns') =>
      wf ns' ∧ ns_root ns' = ns_root ns ∧ walk ns' (ns_root ns') d = Some l ∧
      (∀ p, view ns' p = tree_mkdirs (view ns) d p) ∧ ¬ file_on (view ns) d ∧
      (is_Some (view ns d) → ns' = ns)
  | (Err _, ns') => ns' = ns ∧ file_on (view ns) d
  | (Panic _, _) => False
  end.

Lemma link_run_bind {B} ns parent pe m name ne (k : loc → gos Namespace B) :
  ns_heap ns !! parent = Some pe → de_Children pe = Some m → parent ≠ ns_next ns →
  gos_bind (alloc ne) (λ c, gos_bind (set_child parent name c) (λ _, k c)) ns
    = k (ns_next ns) (link ns parent pe m name ne).
Proof.
  intros Hpe Hm Hne. pose proof (link_run ns parent pe m name ne Hpe Hm Hne) as Hrun.
  unfold gos_bind at 1. unfold gos_bind at 1 in Hrun. simpl in *.
  unfold gos_bind at 1. by rewrite Hrun.
Qed.

Lemma wf_new_dir name : wf_entry (new_dir name).
Proof. split; [eauto|done]. Qed.

Lemma wf_new_file name meta : wf_entry (mkDirEntry name false None (Some meta)).
Proof. split; [done|eauto]. Qed.

Lemma view_child_None ns pre cur e part q :
  walk ns (ns_root ns) pre = Some cur → ns_heap ns !! cur = Some e →
  child e part = None → view ns (pre ++ part :: q) = None.
Proof.
  intros Hw He Hc. unfold view, view_from. rewrite walk_app, Hw. simpl. by rewrite He, Hc.
Qed.

Lemma prefix_cons_cases {A} (p pre : list A) x rest :
  p `prefix_of` pre ++ x :: rest → p `prefix_of` pre ∨ ∃ q, p = pre ++ x :: q.
Proof.
  intros Hp. destruct (prefix_weak_total p (pre ++ [x]) (pre ++ x :: rest)) as [H|[k ->]].
  - done.
  - exists rest. by rewrite <- app_assoc.
  - apply prefix_snoc_cases in H as [?| ->]; [by left|right; by exists []].
  - right. exists k. by rewrite <- app_assoc.
Qed.

Lemma mkdirAll_loop_new ns pre cur e m part rest ns1 :
  wf ns → walk ns (ns_root ns) pre = Some cur → ns_heap ns !! cur = Some e →
  de_Children e = Some m → child e part = None →
  (∀ p, p `prefix_of` pre → view ns p = Some NDir) →
  ns1 = link ns cur e m part (new_dir part) →
  ∀ res, mkdirs_post ns1 (pre ++ part :: rest) res → mkdirs_post ns (pre ++ part :: rest) res.
Proof.
  intros Hwf Hw He Hm Hc Hdirs -> res.
  pose proof (link_view ns Hwf pre cur e m part (new_dir part) Hw He Hm (λ _, eq_refl)) as Hv.
  assert (∀ q, view ns (pre ++ part :: q) = None) as Hnone.
  { intros q. by eapply view_child_None. }
  assert (¬ file_on (view ns) (pre ++ part :: rest)) as Hnf.
  { intros (p & meta & [Hp|[q ->]]%prefix_cons_cases & Hf).
    - by rewrite Hdirs in Hf.
    - by rewrite Hnone in Hf. }
  destruct res as [[l|msg|w] ns']; simpl; [| |done].
  - intros (Hwf' & Hr & Hw' & Hview & _ & _). split; [done|]. split; [done|].
    split; [done|]. split; [|split; [done|]].
    + intros p. rewrite Hview. unfold tree_mkdirs.
      destruct (decide (p `prefix_of` pre ++ part :: rest)) as [Hp|Hp]; [done|].
      rewrite Hv, decide_False.
      2:{ intros ->. apply Hp. exists rest. by rewrite <- app_assoc. }
      destruct (decide (pre ++ [part] `prefix_of` p)) as [[k ->]|]; [|done].
      rewrite <- app_assoc. symmetry. apply Hnone.
    + rewrite Hnone. by intros [].
  - intros (-> & p & meta & Hp & Hf). exfalso. rewrite Hv in Hf.
    destruct (decide (p = pre ++ [part])); [done|].
    destruct (decide (pre ++ [part] `prefix_of` p)) as [|Hne]; [done|].
    apply Hnf. by exists p, meta.
Qed.

Lemma mkdirAll_loop_spec parts : ∀ ns pre cur,
  wf ns → walk ns (ns_root ns) pre = Some cur →
  (∀ p, p `prefix_of` pre → view ns p = Some NDir) →
  mkdirs_post ns (pre ++ parts) (mkdirAll_loop cur parts ns).
Proof.
  induction parts as [|part rest IH]; intros ns pre cur Hwf Hw Hdirs.
  - rewrite app_nil_r. simpl. split; [done|]. split; [done|]. split; [done|].
    split; [|split; [|done]].
    + intros p. unfold tree_mkdirs. case_decide; [by apply Hdirs|done].
    + intros (p & meta & Hp & Hf). by rewrite Hdirs in Hf.
  - destruct (walk_defined ns Hwf _ _ Hw) as [e He].
    assert (de_IsDir e = true) as Hd.
    { pose proof (Hdirs pre (reflexivity _)) as Hv. rewrite (view_walk _ _ _ _ Hw He) in Hv.
      unfold node_of in Hv. destruct (de_IsDir e); [done|]. by destruct (de_File e). }
    destruct (dir_has_map _ _ _ Hwf He Hd) as (m & Hm & _).
    cbn [mkdirAll_loop]. unfold gos_bind at 1, gos_gets, deref. rewrite He.
    destruct (child e part) as [c|] eqn:Hc.
    + destruct (wf_child _ Hwf _ _ _ _ He Hc) as (_ & ce & Hce & _).
      assert (walk ns (ns_root ns) (pre ++ [part]) = Some c) as Hwc.
      { rewrite walk_snoc, Hw. apply step_Some. eauto. }
      unfold gos_bind. rewrite Hce. destruct (de_IsDir ce) eqn:Hcd.
      * replace (pre ++ part :: rest) with ((pre ++ [part]) ++ rest) by (by rewrite <- app_assoc).
        apply IH; [done..|]. intros p [?| ->]%prefix_snoc_cases; [by apply Hdirs|].
        rewrite (view_walk _ _ _ _ Hwc Hce). unfold node_of. by rewrite Hcd.
      * split; [done|]. destruct (file_has_meta _ _ _ Hwf Hce Hcd) as (_ & meta & Hf).
        exists (pre ++ [part]), meta. split; [by exists rest; rewrite <- app_assoc|].
        rewrite (view_walk _ _ _ _ Hwc Hce). unfold node_of. by rewrite Hcd, Hf.
    + rewrite (link_run_bind _ _ e m) by (try done; by eapply walk_fresh).
      set (ns1 := link ns cur e m part (new_dir part)).
      eapply (mkdirAll_loop_new ns pre cur e m part rest ns1); [done..|].
      replace (pre ++ part :: rest) with ((pre ++ [part]) ++ rest) by (by rewrite <- app_assoc).
      assert (wf ns1) as Hwf1 by (eapply link_wf; eauto using wf_new_dir).
      assert (walk ns1 (ns_root ns1) (pre ++ [part]) = Some (ns_next ns)) as Hw1.
      { unfold ns1. change (ns_root (link _ _ _ _ _ _)) with (ns_root ns).
        rewrite (link_walk ns Hwf pre cur e m part) by done. by rewrite decide_True. }
      apply IH; [done..|]. intros p Hp. unfold ns1. rewrite (link_view ns Hwf pre) by done.
      apply prefix_snoc_cases in Hp as [Hp| ->]; [|by rewrite decide_True].
      rewrite decide_False, decide_False; [by apply Hdirs|..].
      * intros Hp'. apply prefix_length in Hp, Hp'. rewrite length_app in Hp'. simpl in Hp'. lia.
      * intros ->. apply prefix_length in Hp. rewrite length_app in Hp. simpl in Hp. lia.
Qed.

(** ** The operations through the abstraction *)
Lemma cleanPath_root path : path = "/" ∨ path = "" → cleanPath path = [].
Proof. by intros [-> | ->]. Qed.

Lemma mkdirAll_spec ns path :
  wf ns → mkdirs_post ns (cleanPath path) (mkdirAll path ns).
Proof.
  intros Hwf. unfold mkdirAll.
  assert (∀ p, p `prefix_of` [] → view ns p = Some NDir) as Hroot.
  { intros p [k Hk]. destruct p; [|done]. by apply view_root. }
  pose proof (λ parts, mkdirAll_loop_spec parts ns [] (ns_root ns) Hwf eq_refl Hroot) as Hspec.
  case_decide as Hp; [|apply Hspec]. rewrite (cleanPath_root _ Hp). apply (Hspec []).
Qed.

Lemma resolve_loop_spec path ns parts : ∀ pre cur,
  wf ns → walk ns (ns_root ns) pre = Some cur →
  resolve_loop path cur parts ns =
    match walk ns (ns_root ns) (pre ++ parts) with
    | Some l => Ok l
    | None => Err ("path not found: " +:+ path)
    end.
Proof.
  induction parts as [|part rest IH]; intros pre cur Hwf Hw; simpl.
  - by rewrite app_nil_r, Hw.
  - destruct (walk_defined ns Hwf _ _ Hw) as [e He]. unfold deref. rewrite He. simpl.
    replace (pre ++ part :: rest) with ((pre ++ [part]) ++ rest) by (by rewrite <- app_assoc).
    destruct (child e part) as [c|] eqn:Hc.
    + apply IH; [done|]. rewrite walk_snoc, Hw. apply step_Some. eauto.
    + rewrite walk_app, walk_snoc, Hw. unfold step. by rewrite He, Hc.
Qed.

Lemma resolve_spec path ns :
  wf ns →
  resolve path ns =
    match walk ns (ns_root ns) (cleanPath path) with
    | Some l => Ok l
    | None => Err ("path not found: " +:+ path)
    end.
Proof. intros Hwf. by apply (resolve_loop_spec path ns (cleanPath path) [] (ns_root ns)). Qed.

Lemma GetFile_view path ns :
  wf ns →
  GetFile path ns =
    match view ns (cleanPath path) with
    | Some (NFile meta) => Ok (Some meta)
    | Some NDir => Err ("path " +:+ path +:+ " is a directory")
    | None => Err ("path not found: " +:+ path)
    end.
Proof.
  intros Hwf. unfold GetFile. rewrite resolve_spec by done.
  destruct (walk ns (ns_root ns) (cleanPath path)) as [l|] eqn:Hw; simpl.
  - destruct (walk_defined ns Hwf _ _ Hw) as [e He]. unfold deref. rewrite He. simpl.
    rewrite (view_walk _ _ _ _ Hw He). unfold node_of. destruct (de_IsDir e) eqn:Hd; [done|].
    destruct (file_has_meta _ _ _ Hwf He Hd) as (_ & meta & ->). done.
  - unfold view, view_from. by rewrite Hw.
Qed.

Lemma FileExists_view path ns :
  wf ns →
  FileExists path ns =
    Ok (match view ns (cleanPath path) with Some (NFile _) => true | _ => false end).
Proof.
  intros Hwf. unfold FileExists. rewrite resolve_spec by done.
  destruct (walk ns (ns_root ns) (cleanPath path)) as [l|] eqn:Hw; simpl.
  - destruct (walk_defined ns Hwf _ _ Hw) as [e He]. unfold deref. rewrite He. simpl.
    rewrite (view_walk _ _ _ _ Hw He). unfold node_of. destruct (de_IsDir e) eqn:Hd; [done|].
    destruct (file_has_meta _ _ _ Hwf He Hd) as (_ & meta & ->). done.
  - unfold view, view_from. by rewrite Hw.
Qed.

(** Putting a file at [d ++ [name]] creates the directories on the way. *)
Definition tree_put (v : list string → option node) (d : list string) (name : string)
    (meta : FileMeta) : list string → option node :=
  λ p, if decide (p = d ++ [name]) then Some (NFile meta) else tree_mkdirs v d p.

Definition tree_delete (v : list string → option node) (comps : list string)
    : list string → option node :=
  λ p, if decide (p = comps) then None else v p.

Definition create_post (ns : Namespace) (d : list string) (name : string) (meta : FileMeta)
    (res : go unit * Namespace) : Prop :=
  match res with
  | (Ok _, ns') =>
      wf ns' ∧ (∀ p, view ns' p = tree_put (view ns) d name meta p) ∧
      ¬ file_on (view ns) d ∧ view ns (d ++ [name]) ≠ Some NDir
  | (Err _, ns') => ns' = ns ∧ (file_on (view ns) d ∨ view ns (d ++ [name]) = Some NDir)
  | (Panic _, _) => False
  end.

Lemma not_snoc_prefix {A} (d : list A) x : ¬ d ++ [x] `prefix_of` d.
Proof. intros Hp%prefix_length. rewrite length_app in Hp. simpl in Hp. lia. Qed.

(** A file, or nothing, has nothing below it. *)
Lemma view_below ns p name q :
  wf ns → view ns p ≠ Some NDir → view ns (p ++ name :: q) = None.
Proof.
  intros Hwf Hp. destruct (view ns (p ++ name :: q)) eqn:Hv; [|done]. exfalso. apply Hp.
  assert (is_Some (view ns (p ++ name :: q))) as [l Hl]%view_Some_walk by (rewrite Hv; eauto);
    [|done].
  by eapply walk_prefix_dir.
Qed.

Lemma create_link ns ns1 d parent pe m name meta :
  wf ns → wf ns1 → walk ns1 (ns_root ns1) d = Some parent →
  ns_heap ns1 !! parent = Some pe → de_Children pe = Some m →
  (∀ p, view ns1 p = tree_mkdirs (view ns) d p) → ¬ file_on (view ns) d →
  view ns (d ++ [name]) ≠ Some NDir →
  create_post ns d name meta
    (gos_bind (alloc (mkDirEntry name false None (Some meta)))
       (λ c, set_child parent name c) ns1).
Proof.
  intros Hwf Hwf1 Hw Hpe Hm Hview Hnf Hnd.
  rewrite (link_run ns1 parent pe m name) by (try done; by eapply walk_fresh).
  split; [eapply link_wf; eauto using wf_new_file|]. split; [|done].
  intros p. rewrite (link_view ns1 Hwf1 d) by done. unfold tree_put.
  destruct (decide (p = d ++ [name])) as [->|Hp]; [done|].
  destruct (decide (d ++ [name] `prefix_of` p)) as [[k ->]|]; [|by rewrite Hview].
  unfold tree_mkdirs. rewrite decide_False.
  - destruct k as [|x k]; [by rewrite app_nil_r in Hp|].
    symmetry. by apply view_below.
  - intros Hp'%prefix_length. rewrite !length_app in Hp'. simpl in Hp'. lia.
Qed.

Lemma CreateFile_post ns path dir name meta :
  wf ns → splitPath path = Ok (dir, name) →
  create_post ns (cleanPath dir) name meta (CreateFile path meta ns).
Proof.
  intros Hwf Hsplit. unfold CreateFile, gos_bind at 1, gos_gets. rewrite Hsplit.
  pose proof (mkdirAll_spec ns dir Hwf) as Hmk. set (d := cleanPath dir) in *.
  unfold gos_bind at 1, gos_wrap. destruct (mkdirAll dir ns) as [[parent|msg|w] ns1]; simpl;
    [|destruct Hmk as [-> ?]; split; [done|by left]|done].
  destruct Hmk as (Hwf1 & Hr & Hw & Hview & Hnf & Hsame).
  destruct (walk_defined ns1 Hwf1 _ _ Hw) as [pe Hpe].
  assert (view ns1 d = Some NDir) as Hd.
  { rewrite Hview. unfold tree_mkdirs. by rewrite decide_True. }
  rewrite (view_walk _ _ _ _ Hw Hpe) in Hd. unfold node_of in Hd.
  destruct (de_IsDir pe) eqn:Hpd; [|by destruct (de_File pe)].
  destruct (dir_has_map _ _ _ Hwf1 Hpe Hpd) as (m & Hm & _).
  assert (view ns1 (d ++ [name]) = view ns (d ++ [name])) as Hv1.
  { rewrite Hview. unfold tree_mkdirs. rewrite decide_False; [done|apply not_snoc_prefix]. }
  unfold gos_bind at 1, deref. rewrite Hpe.
  destruct (child pe name) as [c|] eqn:Hc.
  - destruct (wf_child _ Hwf1 _ _ _ _ Hpe Hc) as (_ & ce & Hce & _).
    assert (walk ns1 (ns_root ns1) (d ++ [name]) = Some c) as Hwc.
    { rewrite walk_snoc, Hw. apply step_Some. eauto. }
    unfold gos_bind at 1. rewrite Hce. rewrite (view_walk _ _ _ _ Hwc Hce) in Hv1.
    unfold node_of in Hv1. destruct (de_IsDir ce) eqn:Hcd.
    + simpl. split; [|by right]. apply Hsame.
      assert (is_Some (view ns (d ++ [name]))) as [l Hl]%view_Some_walk by (rewrite <- Hv1; eauto);
        [|done].
      rewrite (walk_prefix_dir ns Hwf d name [] l Hl). eauto.
    + eapply create_link; [done..|]. rewrite <- Hv1. by destruct (de_File ce).
  - eapply create_link; [done..|]. rewrite <- Hv1.
    rewrite (view_child_None _ _ _ _ _ [] Hw Hpe Hc). done.
Qed.

Lemma resolveDir_spec path ns :
  wf ns →
  match resolveDir path ns with
  | Ok l => walk ns (ns_root ns) (cleanPath path) = Some l ∧
            ∃ e, ns_heap ns !! l = Some e ∧ de_IsDir e = true
  | Err _ => view ns (cleanPath path) ≠ Some NDir
  | Panic _ => False
  end.
Proof.
  intros Hwf. unfold resolveDir. case_decide as Hp.
  - rewrite (cleanPath_root _ Hp). split; [done|]. by apply wf_root_is_dir.
  - rewrite resolve_spec by done.
    destruct (walk ns (ns_root ns) (cleanPath path)) as [l|] eqn:Hw; simpl.
    + destruct (walk_defined ns Hwf _ _ Hw) as [e He]. unfold deref. rewrite He. simpl.
      destruct (de_IsDir e) eqn:Hd; [eauto|].
      rewrite (view_walk _ _ _ _ Hw He). unfold node_of. rewrite Hd. by destruct (de_File e).
    + unfold view, view_from. by rewrite Hw.
Qed.

Definition delete_post (ns : Namespace) (comps : list string)
    (res : go (option FileMeta) * Namespace) : Prop :=
  match res with
  | (Ok r, ns') =>
      wf ns' ∧ (∀ p, view ns' p = tree_delete (view ns) comps p) ∧
      ∃ meta, r = Some meta ∧ view ns comps = Some (NFile meta)
  | (Err _, ns') => ns' = ns ∧ ∀ meta, view ns comps ≠ Some (NFile meta)
  | (Panic _, _) => False
  end.

Lemma DeleteFile_post ns path dir name :
  wf ns → splitPath path = Ok (dir, name) →
  delete_post ns (cleanPath dir ++ [name]) (DeleteFile path ns).
Proof.
  intros Hwf Hsplit. unfold DeleteFile, gos_bind at 1, gos_gets. rewrite Hsplit.
  pose proof (resolveDir_spec dir ns Hwf) as Hres. set (d := cleanPath dir) in *.
  unfold gos_bind at 1. destruct (resolveDir dir ns) as [parent|msg|w]; simpl; [| |done].
  2:{ split; [done|]. intros meta Hv. apply Hres.
      assert (is_Some (view ns (d ++ [name]))) as [l Hl]%view_Some_walk by (rewrite Hv; eauto);
        [|done].
      by eapply walk_prefix_dir. }
  destruct Hres as (Hw & pe & Hpe & Hpd).
  destruct (dir_has_map _ _ _ Hwf Hpe Hpd) as (m & Hm & _).
  unfold gos_bind at 1, deref. rewrite Hpe.
  destruct (child pe name) as [c|] eqn:Hc.
  2:{ simpl. split; [done|]. intros meta.
      by rewrite (view_child_None _ _ _ _ _ [] Hw Hpe Hc). }
  destruct (wf_child _ Hwf _ _ _ _ Hpe Hc) as (_ & ce & Hce & _).
  assert (walk ns (ns_root ns) (d ++ [name]) = Some c) as Hwc.
  { rewrite walk_snoc, Hw. apply step_Some. eauto. }
  pose proof (view_walk _ _ _ _ Hwc Hce) as Hv. unfold node_of in Hv.
  unfold gos_bind at 1. rewrite Hce. destruct (de_IsDir ce) eqn:Hcd.
  { simpl. split; [done|]. intros meta. by rewrite Hv. }
  destruct (file_has_meta _ _ _ Hwf Hce Hcd) as (_ & meta & Hf). rewrite Hf in Hv.
  unfold gos_bind at 1. rewrite (unlink_run _ _ pe m) by done. simpl.
  split; [by eapply unlink_wf|]. split; [|eauto].
  intros p. rewrite (unlink_view ns Hwf d) by done. unfold tree_delete.
  destruct (decide (d ++ [name] `prefix_of` p)) as [[k ->]|Hp].
  - destruct (decide ((d ++ [name]) ++ k = d ++ [name])); [done|].
    destruct k as [|x k]; [by rewrite app_nil_r in *|].
    symmetry. apply view_below; [done|]. by rewrite Hv.
  - rewrite decide_False; [done|]. by intros ->.
Qed.

Lemma wf_NewNamespace : wf NewNamespace.
Proof.
  assert (∀ l e, ns_heap NewNamespace !! l = Some e → l = 0 ∧ e = new_dir "/") as Hl.
  { intros l e Hl. change (({[0 := new_dir "/"]} : gmap loc DirEntry) !! l = Some e) in Hl.
    by apply lookup_singleton_Some in Hl as [<- <-]. }
  split.
  - split; [done|]. by exists (new_dir "/").
  - intros l e [-> ->]%Hl. split; [simpl; lia|apply wf_new_dir].
  - by intros l e n c [-> ->]%Hl.
  - by intros l1 e1 n1 l2 e2 n2 c [-> ->]%Hl.
Qed.

Lemma NewNamespace_view p : p ≠ [] → view NewNamespace p = None.
Proof. by destruct p. Qed.

(** ** Canonical paths *)
Definition good_name (w : string) : Prop := w ≠ "" ∧ has_char slash w = false.

(** [/a/b/c], or [a/b/c] without the leading slash. *)
Definition path_of (absolute : bool) (comps : list string) : string :=
  (if absolute then "/" else "") +:+ Join comps "/".

Lemma Join_good_split comps :
  comps ≠ [] → Forall good_name comps → Split (Join comps "/") = comps.
Proof.
  intros Hne Hg. apply (split_on_Join slash); [done|].
  eapply Forall_impl; [exact Hg|]. by intros w [_ ?].
Qed.

Lemma Join_good_nonempty comps : comps ≠ [] → Forall good_name comps → Join comps "/" ≠ "".
Proof.
  intros Hne Hg Heq. pose proof (Join_good_split comps Hne Hg) as Hs. rewrite Heq in Hs.
  subst comps. inversion Hg as [|w l [Hw _] _]; subst. done.
Qed.

Lemma Join_good_TrimSuffix comps : Forall good_name comps → TrimSuffix (Join comps "/") "/" = Join comps "/".
Proof.
  intros Hg. destruct (decide (comps = [])) as [->|Hne]; [done|].
  apply TrimSuffix_none. intros s' Heq.
  pose proof (Join_good_split comps Hne Hg) as Hs. rewrite Heq in Hs.
  unfold Split in Hs. change "/" with (String slash "") in Hs.
  rewrite split_on_app_sep in Hs. simpl in Hs. rewrite <- Hs in Hg.
  apply Forall_app in Hg as [_ Hg]. inversion Hg as [|w l [Hw _] _]; subst. done.
Qed.

Lemma path_of_TrimPrefix absolute comps :
  Forall good_name comps → TrimPrefix (path_of absolute comps) "/" = Join comps "/".
Proof.
  intros Hg. destruct absolute; [apply (TrimPrefix_char slash)|].
  unfold path_of. rewrite string_app_nil_l.
  destruct Hg as [|w l [Hw Hc] _]; [done|]. destruct w as [|a w]; [done|].
  assert (∃ s, Join (String a w :: l) "/" = String a s) as [s ->].
  { destruct l; [by exists w|]. rewrite Join_cons by done. eexists. by rewrite string_app_cons. }
  apply (TrimPrefix_char_ne slash). simpl in Hc. apply orb_false_iff in Hc as [Hc _].
  by apply bool_decide_eq_false in Hc.
Qed.

Lemma cleanPath_path_of absolute comps :
  Forall good_name comps → cleanPath (path_of absolute comps) = comps.
Proof.
  intros Hg. unfold cleanPath. rewrite path_of_TrimPrefix, Join_good_TrimSuffix by done.
  destruct (decide (comps = [])) as [->|Hne]; [done|].
  rewrite decide_False by (by apply Join_good_nonempty). by apply Join_good_split.
Qed.

Lemma splitPath_path_of absolute d name :
  Forall good_name (d ++ [name]) →
  splitPath (path_of absolute (d ++ [name])) = Ok (path_of true d, name).
Proof.
  intros Hg. unfold splitPath. rewrite path_of_TrimPrefix by done.
  assert (d ++ [name] ≠ []) as Hne by (by destruct d).
  rewrite decide_False by (by apply Join_good_nonempty).
  rewrite Join_good_split by done. by rewrite last_last, removelast_last.
Qed.

(** ** Listing *)
Definition valid_orders (ns : Namespace) (ord : loc → list string) : Prop :=
  ∀ l e m, ns_heap ns !! l = Some e → de_Children e = Some m → map_order m (ord l).

(** [L] lists every file below [l] once, with its path from [l]. *)
Definition lists_files (ns : Namespace) (l : loc) (L : list (list string * FileMeta)) : Prop :=
  NoDup L.*1 ∧ ∀ p meta, (p, meta) ∈ L ↔ view_from ns l p = Some (NFile meta).

Lemma view_from_cons ns l e n q :
  ns_heap ns !! l = Some e →
  view_from ns l (n :: q) =
    match child e n with Some c => view_from ns c q | None => None end.
Proof. intros He. unfold view_from. simpl. rewrite He. by destruct (child e n). Qed.

Section walkFiles.
Context (ns : Namespace) (Hwf : wf ns) (ord : loc → list string).

Definition walk_kids (fuel : nat) : list (string * loc) → list FileMeta → go (list FileMeta) :=
  fix loop kids files :=
    match kids with
    | [] => Ok files
    | (_, c) :: rest => let! files' := walkFiles fuel ord ns c files in loop rest files'
    end.

Lemma walk_kids_spec fuel kids files :
  NoDup kids.*1 →
  (∀ n c, (n, c) ∈ kids → ∀ fs, ∃ L,
     walkFiles fuel ord ns c fs = Ok (fs ++ L.*2) ∧ lists_files ns c L) →
  ∃ L, walk_kids fuel kids files = Ok (files ++ L.*2) ∧ NoDup L.*1 ∧
    ∀ p meta, (p, meta) ∈ L ↔
      ∃ n c q, p = n :: q ∧ (n, c) ∈ kids ∧ view_from ns c q = Some (NFile meta).
Proof.
  revert files. induction kids as [|[n c] kids IH]; intros files Hnd Hkids.
  - exists []. simpl. rewrite app_nil_r. split; [done|]. split; [constructor|].
    intros p meta. split; [by intros ?%not_elem_of_nil|].
    by intros (n & c & q & _ & ?%not_elem_of_nil & _).
  - apply NoDup_cons in Hnd as [Hn Hnd].
    destruct (Hkids n c ltac:(left) files) as (L1 & HL1 & Hnd1 & Hin1).
    destruct (IH (files ++ L1.*2) Hnd) as (L2 & HL2 & Hnd2 & Hin2).
    { intros n' c' Hin. apply (Hkids n'). by right. }
    set (f := λ x : list string * FileMeta, (n :: x.1, x.2)).
    assert ((f <$> L1).*1 = cons n <$> L1.*1) as Hf1 by (by rewrite <- !list_fmap_compose).
    assert ((f <$> L1).*2 = L1.*2) as Hf2 by (by rewrite <- list_fmap_compose).
    exists ((f <$> L1) ++ L2). split; [|split].
    + cbn [walk_kids]. rewrite HL1. cbn [go_bind]. rewrite HL2.
      by rewrite fmap_app, Hf2, app_assoc.
    + rewrite fmap_app, Hf1. apply NoDup_app. split; [|split; [|done]].
      * apply NoDup_fmap_2; [|done]. by intros ? ? [= ->].
      * intros p [q [-> _]]%list_elem_of_fmap ([p' meta] & Heq & Hin)%list_elem_of_fmap.
        simpl in Heq. subst p'.
        apply Hin2 in Hin as (n' & c' & q' & [= <- _] & Hin' & _).
        apply Hn. apply list_elem_of_fmap. by exists (n, c').
    + intros p meta. rewrite elem_of_app, Hin2, list_elem_of_fmap. split.
      * intros [([q meta'] & [= -> ->] & Hin)|(n' & c' & q & -> & Hin & Hv)].
        -- exists n, c, q. split; [done|]. split; [left|]. by apply Hin1.
        -- exists n', c', q. split; [done|]. split; [by right|done].
      * intros (n' & c' & q & -> & [[= -> ->]|Hin]%elem_of_cons & Hv).
        -- left. exists (q, meta). split; [done|]. by apply Hin1.
        -- right. by exists n', c', q.
Qed.

Lemma walkFiles_spec fuel : ∀ l e files,
  ns_heap ns !! l = Some e → ns_next ns - l ≤ fuel → valid_orders ns ord →
  ∃ L, walkFiles fuel ord ns l files = Ok (files ++ L.*2) ∧ lists_files ns l L.
Proof.
  induction fuel as [|fuel IH]; intros l e files He Hfuel Hord.
  { apply (wf_entries _ Hwf) in He as [Hlt _]. lia. }
  cbn [walkFiles]. unfold deref. rewrite He. cbn [go_bind].
  destruct (de_IsDir e) eqn:Hd.
  - destruct (dir_has_map _ _ _ Hwf He Hd) as (m & Hm & Hf). rewrite Hm. cbn [default].
    destruct (walk_kids_spec fuel (range_map (ord l) m) files) as (L & HL & Hnd & Hin).
    { eapply sublist_NoDup; [eapply map_order_nodup; by eapply Hord|].
      apply range_map_fst_sublist. }
    { intros n c [_ Hc]%elem_of_range_map fs.
      assert (child e n = Some c) as Hc' by (unfold child; by rewrite Hm).
      destruct (wf_child _ Hwf _ _ _ _ He Hc') as (Hlt & ce & Hce & _).
      apply (IH c ce fs); [done|lia|done]. }
    exists L. split; [exact HL|]. split; [done|]. intros p meta. rewrite Hin. clear Hin HL.
    assert (∀ n c, (n, c) ∈ range_map (ord l) m ↔ child e n = Some c) as Hr.
    { intros n c. rewrite elem_of_range_map. unfold child. rewrite Hm.
      rewrite (map_order_elem m (ord l)) by (by eapply Hord). naive_solver. }
    split.
    + intros (n & c & q & -> & Hc%Hr & Hv). by rewrite (view_from_cons _ _ e), Hc.
    + destruct p as [|n q].
      { unfold view_from. simpl. rewrite He. unfold node_of. by rewrite Hd. }
      rewrite (view_from_cons _ _ e) by done. destruct (child e n) as [c|] eqn:Hc; [|done].
      intros Hv. exists n, c, q. split; [done|]. split; [by apply Hr|done].
  - destruct (file_has_meta _ _ _ Hwf He Hd) as (Hm & meta & Hf). rewrite Hf.
    exists [([], meta)]. split; [done|]. split; [by repeat constructor; intros ?%not_elem_of_nil|].
    intros p meta'. rewrite list_elem_of_singleton. destruct p as [|n q].
    + unfold view_from. simpl. rewrite He. unfold node_of. rewrite Hd, Hf. naive_solver.
    + rewrite (view_from_cons _ _ e) by done. unfold child. rewrite Hm. naive_solver.
Qed.
End walkFiles.

Lemma GetAllFiles_view ns ord :
  wf ns → valid_orders ns ord →
  ∃ L, GetAllFiles ord ns = Ok L.*2 ∧ lists_files ns (ns_root ns) L.
Proof.
  intros Hwf Hord. destruct (wf_root_is_dir ns Hwf) as (e & He & _).
  apply (walkFiles_spec ns Hwf ord _ _ e []); [done| |done]. lia.
Qed.

(** The entries of a directory are its children, each once. *)
Lemma ListDir_spec path ord ns m l e :
  wf ns → walk ns (ns_root ns) (cleanPath path) = Some l →
  ns_heap ns !! l = Some e → de_IsDir e = true → de_Children e = Some m → map_order m ord →
  ListDir path ord ns = Ok (range_map ord m).*2 ∧ (range_map ord m).*2 ≡ₚ (map_to_list m).*2.
Proof.
  intros Hwf Hw He Hd Hm Hord.
  assert (∃ d, (if decide (path = "/" ∨ path = "") then Ok (ns_root ns) else resolve path ns)
            = Ok d ∧ d = l) as (? & Hdir & ->).
  { case_decide as Hp.
    - rewrite (cleanPath_root _ Hp) in Hw. injection Hw as <-. eauto.
    - rewrite resolve_spec, Hw by done. eauto. }
  unfold ListDir. rewrite Hdir. cbn [go_bind]. unfold deref. rewrite He. cbn [go_bind].
  rewrite Hd, Hm. split; [done|]. by rewrite (range_map_perm m ord).
Qed.

(** ** A trailing slash *)
Lemma path_of_trailing_TrimPrefix comps :
  TrimPrefix (path_of true comps +:+ "/") "/" = Join comps "/" +:+ "/".
Proof. unfold path_of. rewrite <- string_app_assoc. apply (TrimPrefix_char slash). Qed.

Lemma cleanPath_trailing comps :
  comps ≠ [] → Forall good_name comps → cleanPath (path_of true comps +:+ "/") = comps.
Proof.
  intros Hne Hg. unfold cleanPath. rewrite path_of_trailing_TrimPrefix, TrimSuffix_app.
  rewrite decide_False by (by apply Join_good_nonempty). by apply Join_good_split.
Qed.

Lemma splitPath_trailing comps :
  comps ≠ [] → Forall good_name comps →
  splitPath (path_of true comps +:+ "/") = Ok (path_of true comps, "").
Proof.
  intros Hne Hg. unfold splitPath. rewrite path_of_trailing_TrimPrefix.
  assert (Split (Join comps "/" +:+ "/") = comps ++ [""]) as Hs.
  { unfold Split. change "/" with (String slash "") at 2.
    rewrite split_on_app_sep. f_equal. by apply Join_good_split. }
  rewrite decide_False.
  - by rewrite Hs, last_last, removelast_last.
  - intros Heq. rewrite Heq in Hs. by destruct comps as [|? []].
Qed.

(** ** Reachable states *)
Inductive ns_reachable : Namespace → Prop :=
  | ns_init : ns_reachable NewNamespace
  | ns_create ns path meta r ns' :
      ns_reachable ns → CreateFile path meta ns = (r, ns') → ns_reachable ns'
  | ns_delete ns path r ns' :
      ns_reachable ns → DeleteFile path ns = (r, ns') → ns_reachable ns'.

Lemma splitPath_no_panic path : no_panic (splitPath path).
Proof. intros w. unfold splitPath. by case_decide. Qed.

Lemma splitPath_Err_ops path e meta ns :
  splitPath path = Err e → CreateFile path meta ns = (Err e, ns) ∧ DeleteFile path ns = (Err e, ns).
Proof.
  intros He. unfold CreateFile, DeleteFile, gos_bind at 1 5, gos_gets. by rewrite He.
Qed.

Lemma CreateFile_wf path meta ns r ns' :
  wf ns → CreateFile path meta ns = (r, ns') → wf ns' ∧ no_panic r.
Proof.
  intros Hwf Hrun. destruct (splitPath path) as [[dir name]|e|w] eqn:Hs.
  - pose proof (CreateFile_post ns path dir name meta Hwf Hs) as Hp. rewrite Hrun in Hp.
    destruct r; simpl in Hp; [|destruct Hp as [-> _]|done]; (split; [|by intros ?]); tauto.
  - destruct (splitPath_Err_ops path e meta ns Hs) as [Hc _]. rewrite Hc in Hrun.
    injection Hrun as <- <-. split; [done|by intros ?].
  - by apply splitPath_no_panic in Hs.
Qed.

Lemma DeleteFile_wf path ns r ns' :
  wf ns → DeleteFile path ns = (r, ns') → wf ns' ∧ no_panic r.
Proof.
  intros Hwf Hrun. destruct (splitPath path) as [[dir name]|e|w] eqn:Hs.
  - pose proof (DeleteFile_post ns path dir name Hwf Hs) as Hp. rewrite Hrun in Hp.
    destruct r; simpl in Hp; [|destruct Hp as [-> _]|done]; (split; [|by intros ?]); tauto.
  - destruct (splitPath_Err_ops path e (mkFileMeta "" 0 0 0 "" [] 0) ns Hs) as [_ Hc].
    rewrite Hc in Hrun. injection Hrun as <- <-. split; [done|by intros ?].
  - by apply splitPath_no_panic in Hs.
Qed.

Lemma reachable_wf ns : ns_reachable ns → wf ns.
Proof.
  induction 1 as [|ns path meta r ns' _ IH Hrun|ns path r ns' _ IH Hrun].
  - apply wf_NewNamespace.
  - by apply (CreateFile_wf path meta ns r ns' IH Hrun).
  - by apply (DeleteFile_wf path ns r ns' IH Hrun).
Qed.

(** ** Properties *)
Definition meta_ex : FileMeta := mkFileMeta "/a/b" 10 1 3 "sum" ["c0"] 0.

(** C22: CreateFile refines insertion into an abstract tree: for every well-formed
    namespace and every path that splits, it succeeds exactly when no component
    on the way is a file and the target is not a directory; then the target
    denotes the new file, the directories on the way exist, every other path is
    as before and the tree is well-formed.  When it fails the namespace is
    unchanged (no directory is left behind), and it never panics. *)
Theorem CreateFile_refines_tree ns path dir name meta :
  wf ns → splitPath path = Ok (dir, name) →
  match CreateFile path meta ns with
  | (Ok _, ns') =>
      wf ns' ∧ (∀ p, view ns' p = tree_put (view ns) (cleanPath dir) name meta p) ∧
      ¬ file_on (view ns) (cleanPath dir) ∧ view ns (cleanPath dir ++ [name]) ≠ Some NDir
  | (Err _, ns') =>
      ns' = ns ∧
      (file_on (view ns) (cleanPath dir) ∨ view ns (cleanPath dir ++ [name]) = Some NDir)
  | (Panic _, _) => False
  end.
Proof. intros Hwf Hs. exact (CreateFile_post ns path dir name meta Hwf Hs). Qed.

Lemma CreateFile_refines_tree_witness :
  wf NewNamespace ∧ splitPath "/a/b" = Ok ("/a", "b") ∧
  match CreateFile "/a/b" meta_ex NewNamespace with
  | (Ok _, ns') =>
      wf ns' ∧ (∀ p, view ns' p = tree_put (view NewNamespace) (cleanPath "/a") "b" meta_ex p) ∧
      ¬ file_on (view NewNamespace) (cleanPath "/a") ∧
      view NewNamespace (cleanPath "/a" ++ ["b"]) ≠ Some NDir
  | (Err _, ns') =>
      ns' = NewNamespace ∧ (file_on (view NewNamespace) (cleanPath "/a") ∨
        view NewNamespace (cleanPath "/a" ++ ["b"]) = Some NDir)
  | (Panic _, _) => False
  end.
Proof.
  split; [apply wf_NewNamespace|]. split; [reflexivity|].
  apply (CreateFile_refines_tree NewNamespace "/a/b" "/a" "b" meta_ex);
    [apply wf_NewNamespace|reflexivity].
Defined.

(** C23: DeleteFile refines deletion from the abstract tree: it succeeds exactly
    when the path denotes a file, returns that file's metadata and removes this
    path and no other; directories are kept, and a failing call changes nothing. *)
Theorem DeleteFile_refines_tree ns path dir name :
  wf ns → splitPath path = Ok (dir, name) →
  match DeleteFile path ns with
  | (Ok r, ns') =>
      wf ns' ∧ (∀ p, view ns' p = tree_delete (view ns) (cleanPath dir ++ [name]) p) ∧
      ∃ meta, r = Some meta ∧ view ns (cleanPath dir ++ [name]) = Some (NFile meta)
  | (Err _, ns') =>
      ns' = ns ∧ ∀ meta, view ns (cleanPath dir ++ [name]) ≠ Some (NFile meta)
  | (Panic _, _) => False
  end.
Proof. intros Hwf Hs. exact (DeleteFile_post ns path dir name Hwf Hs). Qed.

Lemma DeleteFile_refines_tree_witness :
  let ns := snd (CreateFile "/a/b" meta_ex NewNamespace) in
  match DeleteFile "/a/b" ns with
  | (Ok r, ns') =>
      wf ns' ∧ (∀ p, view ns' p = tree_delete (view ns) (cleanPath "/a" ++ ["b"]) p) ∧
      ∃ meta, r = Some meta ∧ view ns (cleanPath "/a" ++ ["b"]) = Some (NFile meta)
  | (Err _, ns') => ns' = ns ∧ ∀ meta, view ns (cleanPath "/a" ++ ["b"]) ≠ Some (NFile meta)
  | (Panic _, _) => False
  end.
Proof.
  intros ns. apply (DeleteFile_refines_tree ns "/a/b" "/a" "b"); [|reflexivity].
  apply (CreateFile_wf "/a/b" meta_ex NewNamespace (fst (CreateFile "/a/b" meta_ex NewNamespace)) ns
    wf_NewNamespace). reflexivity.
Defined.

(** A created file is found again. *)
Lemma create_get ns comps abs1 abs2 meta ns' :
  wf ns → comps ≠ [] → Forall good_name comps →
  CreateFile (path_of abs1 comps) meta ns = (Ok tt, ns') →
  GetFile (path_of abs2 comps) ns' = Ok (Some meta) ∧
  ∀ other m, Forall good_name other → other ≠ comps →
    GetFile (path_of abs2 other) ns = Ok (Some m) →
    GetFile (path_of abs2 other) ns' = Ok (Some m).
Proof.
  intros Hwf Hne Hg Hrun.
  destruct comps as [|name d _] using rev_ind; [done|].
  pose proof (CreateFile_post ns _ _ _ meta Hwf (splitPath_path_of abs1 d name Hg)) as Hpost.
  rewrite Hrun in Hpost. destruct Hpost as (Hwf' & Hview & Hnf & _).
  apply Forall_app in Hg as Hg'. destruct Hg' as [Hgd _].
  rewrite cleanPath_path_of in * by done. split.
  - rewrite GetFile_view, cleanPath_path_of, Hview by done.
    unfold tree_put. by rewrite decide_True.
  - intros other m Ho Hneq. rewrite !GetFile_view, cleanPath_path_of, Hview by done.
    unfold tree_put, tree_mkdirs. rewrite decide_False by done.
    case_decide as Hp; [|done]. destruct (view ns other) as [[|m']|] eqn:Hv; try done.
    exfalso. apply Hnf. by exists other, m'.
Qed.

(** Round trip: once a file was created under a canonical path, written with
    or without its leading slash, it is found under either spelling with the
    metadata that was stored, and every other file is found as before. *)
Theorem CreateFile_GetFile_roundtrip ns comps abs1 abs2 meta ns' :
  wf ns → comps ≠ [] → Forall good_name comps →
  CreateFile (path_of abs1 comps) meta ns = (Ok tt, ns') →
  GetFile (path_of abs2 comps) ns' = Ok (Some meta) ∧
  ∀ other m, Forall good_name other → other ≠ comps →
    GetFile (path_of abs2 other) ns = Ok (Some m) →
    GetFile (path_of abs2 other) ns' = Ok (Some m).
Proof. apply create_get. Qed.

Lemma CreateFile_GetFile_roundtrip_witness :
  let ns := snd (CreateFile "/x" meta_ex NewNamespace) in
  let ns' := snd (CreateFile "/a/b" meta_ex ns) in
  GetFile "a/b" ns' = Ok (Some meta_ex) ∧
  ∀ other m, Forall good_name other → other ≠ ["a"; "b"] →
    GetFile (path_of false other) ns = Ok (Some m) →
    GetFile (path_of false other) ns' = Ok (Some m).
Proof.
  intros ns ns'.
  apply (CreateFile_GetFile_roundtrip ns ["a"; "b"] true false meta_ex ns').
  - apply (CreateFile_wf "/x" meta_ex NewNamespace (fst (CreateFile "/x" meta_ex NewNamespace)) ns
      wf_NewNamespace). reflexivity.
  - discriminate.
  - repeat constructor; discriminate.
  - reflexivity.
Defined.

(** Every namespace reached by creating and deleting files from the empty
    one is a well-formed tree (no cycle, no entry under two names, directories
    have maps and files have metadata), and on it no operation panics: lookups
    answer what the path denotes and FileExists agrees with GetFile. *)
Theorem namespace_invariant ns :
  ns_reachable ns →
  wf ns ∧
  ∀ path meta,
    no_panic (fst (CreateFile path meta ns)) ∧ no_panic (fst (DeleteFile path ns)) ∧
    no_panic (GetFile path ns) ∧
    FileExists path ns = Ok (is_ok (GetFile path ns)) ∧
    ∀ m, GetFile path ns = Ok m ↔ ∃ f, m = Some f ∧ view ns (cleanPath path) = Some (NFile f).
Proof.
  intros Hr. pose proof (reachable_wf ns Hr) as Hwf. split; [done|]. intros path meta.
  split; [by apply (CreateFile_wf path meta ns _ _ Hwf (surjective_pairing _))|].
  split; [by apply (DeleteFile_wf path ns _ _ Hwf (surjective_pairing _))|].
  rewrite FileExists_view, GetFile_view by done.
  destruct (view ns (cleanPath path)) as [[|f]|]; (split; [by intros ?|]); (split; [done|]);
    intros m; split; naive_solver.
Qed.

Lemma namespace_invariant_witness :
  let ns := snd (CreateFile "/a/b" meta_ex NewNamespace) in
  wf ns ∧
  ∀ path meta,
    no_panic (fst (CreateFile path meta ns)) ∧ no_panic (fst (DeleteFile path ns)) ∧
    no_panic (GetFile path ns) ∧
    FileExists path ns = Ok (is_ok (GetFile path ns)) ∧
    ∀ m, GetFile path ns = Ok m ↔ ∃ f, m = Some f ∧ view ns (cleanPath path) = Some (NFile f).
Proof.
  intros ns. apply (namespace_invariant ns).
  apply (ns_create NewNamespace "/a/b" meta_ex (Ok tt) ns); [constructor|reflexivity].
Defined.

(** C35: GetAllFiles terminates and returns every file of the tree exactly once,
    whatever order each directory's map is iterated in. *)
Theorem GetAllFiles_complete ns ord :
  wf ns → valid_orders ns ord →
  ∃ L : list (list string * FileMeta),
    GetAllFiles ord ns = Ok L.*2 ∧ NoDup L.*1 ∧
    ∀ p meta, (p, meta) ∈ L ↔ view ns p = Some (NFile meta).
Proof. intros Hwf Hord. exact (GetAllFiles_view ns ord Hwf Hord). Qed.

Lemma GetAllFiles_complete_witness :
  let ns := snd (CreateFile "/a/b" meta_ex (snd (CreateFile "/x" meta_ex NewNamespace))) in
  let ord := λ l, match ns_heap ns !! l with
                  | Some e => map_keys (default ∅ (de_Children e)) | None => [] end in
  ∃ L : list (list string * FileMeta),
    GetAllFiles ord ns = Ok L.*2 ∧ NoDup L.*1 ∧
    ∀ p meta, (p, meta) ∈ L ↔ view ns p = Some (NFile meta).
Proof.
  intros ns ord. apply (GetAllFiles_complete ns ord).
  - apply reachable_wf. eapply ns_create; [|apply surjective_pairing].
    eapply ns_create; [constructor|apply surjective_pairing].
  - intros l e m He Hm. unfold ord. rewrite He, Hm. apply map_order_keys.
Defined.

(** A file created under a path that ends in a slash cannot be read back
    under that path: CreateFile stores it under the empty name inside the
    directory, GetFile drops the slash and finds the directory. *)
Theorem trailing_slash_unreadable ns comps meta ns' :
  wf ns → comps ≠ [] → Forall good_name comps →
  CreateFile (path_of true comps +:+ "/") meta ns = (Ok tt, ns') →
  view ns' (comps ++ [""]) = Some (NFile meta) ∧
  GetFile (path_of true comps +:+ "/") ns'
    = Err ("path " +:+ (path_of true comps +:+ "/") +:+ " is a directory").
Proof.
  intros Hwf Hne Hg Hrun.
  pose proof (CreateFile_post ns _ _ _ meta Hwf (splitPath_trailing comps Hne Hg)) as Hpost.
  rewrite Hrun in Hpost. destruct Hpost as (Hwf' & Hview & _ & _).
  rewrite cleanPath_path_of in Hview by done. split.
  - rewrite Hview. unfold tree_put. by rewrite decide_True.
  - rewrite GetFile_view, cleanPath_trailing, Hview by done. unfold tree_put, tree_mkdirs.
    rewrite decide_False, decide_True; [done|reflexivity|].
    intros Heq%(f_equal length). rewrite length_app in Heq. simpl in Heq. lia.
Qed.

Lemma trailing_slash_unreadable_witness :
  let ns' := snd (CreateFile "/a/b/" meta_ex NewNamespace) in
  view ns' ["a"; "b"; ""] = Some (NFile meta_ex) ∧
  GetFile "/a/b/" ns' = Err "path /a/b/ is a directory".
Proof.
  intros ns'. apply (trailing_slash_unreadable NewNamespace ["a"; "b"] meta_ex ns').
  - apply wf_NewNamespace.
  - discriminate.
  - repeat constructor; discriminate.
  - reflexivity.
Defined.
