(* ===== verification/ChunkManager.v ===== *)
(** * internal/metaserver/chunk_manager.go: nodes, chunks, placement

    The registry of data nodes and the chunk-to-node mapping.  A
    [*DataNodeInfo] is reached only through [cm.nodes], so a pointer held in a
    local slice (the candidates of a placement) is the node's key, and a read
    through it looks the key up in the current state. *)
From S2P Require Export Common GoSort.
Local Open Scope Z_scope.

(** ** Data *)
Record DataNodeInfo := mkDataNodeInfo {
  dn_NodeID : string;
  dn_Address : string;
  dn_CapacityBytes : Z;
  dn_UsedBytes : Z;
  dn_ChunkCount : Z;
  dn_Status : NodeStatus;
  dn_RiskScore : float64;
  dn_LastHeartbeat : Time;
  dn_Chunks : gset string;
}.

Record ChunkMeta := mkChunkMeta {
  ck_ChunkID : string;
  ck_ChunkIndex : Z;
  ck_Size : Z;
  ck_Checksum : string;
  ck_NodeIDs : list string;
  ck_FilePath : string;
}.

Record ChunkManager := mkChunkManager {
  cm_nodes : gmap string DataNodeInfo;
  cm_chunks : gmap string ChunkMeta;
}.

Record ChunkPlacementInfo := mkChunkPlacementInfo {
  cp_ChunkID : string;
  cp_ChunkIndex : Z;
  cp_NodeIDs : list string;
  cp_NodeAddresses : list string;
}.

Record ChunkLocationInfo := mkChunkLocationInfo {
  cl_ChunkID : string;
  cl_ChunkIndex : Z;
  cl_NodeAddresses : list string;
  cl_NodeIDs : list string;
}.

Definition NewChunkManager : ChunkManager := mkChunkManager ∅ ∅.

(** *** Field assignments *)
Definition set_LastHeartbeat (t : Time) (n : DataNodeInfo) : DataNodeInfo :=
  mkDataNodeInfo (dn_NodeID n) (dn_Address n) (dn_CapacityBytes n) (dn_UsedBytes n)
    (dn_ChunkCount n) (dn_Status n) (dn_RiskScore n) t (dn_Chunks n).
Definition set_usage (used count : Z) (n : DataNodeInfo) : DataNodeInfo :=
  mkDataNodeInfo (dn_NodeID n) (dn_Address n) (dn_CapacityBytes n) used
    count (dn_Status n) (dn_RiskScore n) (dn_LastHeartbeat n) (dn_Chunks n).
Definition set_Status (s : NodeStatus) (n : DataNodeInfo) : DataNodeInfo :=
  mkDataNodeInfo (dn_NodeID n) (dn_Address n) (dn_CapacityBytes n) (dn_UsedBytes n)
    (dn_ChunkCount n) s (dn_RiskScore n) (dn_LastHeartbeat n) (dn_Chunks n).
Definition set_RiskScore (r : float64) (n : DataNodeInfo) : DataNodeInfo :=
  mkDataNodeInfo (dn_NodeID n) (dn_Address n) (dn_CapacityBytes n) (dn_UsedBytes n)
    (dn_ChunkCount n) (dn_Status n) r (dn_LastHeartbeat n) (dn_Chunks n).
Definition set_Chunks (f : gset string → gset string) (n : DataNodeInfo) : DataNodeInfo :=
  mkDataNodeInfo (dn_NodeID n) (dn_Address n) (dn_CapacityBytes n) (dn_UsedBytes n)
    (dn_ChunkCount n) (dn_Status n) (dn_RiskScore n) (dn_LastHeartbeat n) (f (dn_Chunks n)).
Definition set_NodeIDs (l : list string) (m : ChunkMeta) : ChunkMeta :=
  mkChunkMeta (ck_ChunkID m) (ck_ChunkIndex m) (ck_Size m) (ck_Checksum m) l (ck_FilePath m).
Definition set_Checksum (c : string) (m : ChunkMeta) : ChunkMeta :=
  mkChunkMeta (ck_ChunkID m) (ck_ChunkIndex m) (ck_Size m) c (ck_NodeIDs m) (ck_FilePath m).

(** A write through the pointer [cm.nodes[k]]. *)
Definition upd_node (k : string) (f : DataNodeInfo → DataNodeInfo) (cm : ChunkManager)
    : ChunkManager := mkChunkManager (alter f k (cm_nodes cm)) (cm_chunks cm).
Definition upd_chunk (c : string) (f : ChunkMeta → ChunkMeta) (cm : ChunkManager)
    : ChunkManager := mkChunkManager (cm_nodes cm) (alter f c (cm_chunks cm)).

(** ** Nodes *)
(** [ord] is the order in which the loop visits [cm.nodes]. *)
Definition RegisterNode (now : Time) (ord : list string) (address : string) (capacity : Z)
    : gos ChunkManager string := λ cm,
  match List.find (λ kn : string * DataNodeInfo, bool_decide (dn_Address kn.2 = address))
          (range_map ord (cm_nodes cm)) with
  | Some (k, n) => (Ok (dn_NodeID n), upd_node k (set_LastHeartbeat now) cm)
  | None =>
      let nodeID := "node-" +:+ fmt_d (Z.of_nat (size (cm_nodes cm)) + 1) in
      (Ok nodeID,
       mkChunkManager
         (<[nodeID := mkDataNodeInfo nodeID address capacity 0 0 StatusHealthy f64_zero now ∅]>
            (cm_nodes cm)) (cm_chunks cm))
  end.

Definition UpdateHeartbeat (now : Time) (nodeID : string) (usedBytes chunkCount : Z)
    : gos ChunkManager unit := λ cm,
  match cm_nodes cm !! nodeID with
  | None => (Err ("unknown node: " +:+ nodeID), cm)
  | Some node =>
      let node := set_LastHeartbeat now node in
      let node := set_usage usedBytes chunkCount node in
      let node :=
        if decide (dn_Status node = StatusDead)
        then set_RiskScore f64_zero (set_Status StatusHealthy node) else node in
      (Ok tt, mkChunkManager (<[nodeID := node]> (cm_nodes cm)) (cm_chunks cm))
  end.

Definition UpdateNodeHealth (nodeID : string) (status : NodeStatus) (risk : float64)
    (cm : ChunkManager) : ChunkManager :=
  match cm_nodes cm !! nodeID with
  | None => cm
  | Some node =>
      mkChunkManager (<[nodeID := set_RiskScore risk (set_Status status node)]> (cm_nodes cm))
        (cm_chunks cm)
  end.

Definition is_healthy (now : Time) (n : DataNodeInfo) : bool :=
  bool_decide (dn_Status n = StatusHealthy ∨ dn_Status n = StatusWarning)
  && (Since now (dn_LastHeartbeat n) <? DeadNodeTimeout).

Definition healthyNodes (now : Time) (ord : list string) (cm : ChunkManager) : list string :=
  (List.filter (λ kn : string * DataNodeInfo, is_healthy now kn.2)
     (range_map ord (cm_nodes cm))).*1.

Definition is_stale (now : Time) (n : DataNodeInfo) : bool :=
  negb (bool_decide (dn_Status n = StatusDead))
  && (DeadNodeTimeout <? Since now (dn_LastHeartbeat n)).

(** One iteration of the loop of [CheckDeadNodes]. *)
Definition check_dead_step (now : Time) (st : list string * ChunkManager)
    (kn : string * DataNodeInfo) : list string * ChunkManager :=
  let '(deadNodeIDs, cm) := st in
  let '(k, n) := kn in
  if is_stale now n
  then (deadNodeIDs ++ [dn_NodeID n], upd_node k (set_Status StatusDead) cm)
  else (deadNodeIDs, cm).

Definition CheckDeadNodes (now : Time) (ord : list string) (cm : ChunkManager)
    : list string * ChunkManager :=
  foldl (check_dead_step now) ([], cm) (range_map ord (cm_nodes cm)).

Definition GetNode (nodeID : string) (cm : ChunkManager) : option DataNodeInfo :=
  cm_nodes cm !! nodeID.

Definition GetAllNodes (ord : list string) (cm : ChunkManager) : list DataNodeInfo :=
  (range_map ord (cm_nodes cm)).*2.

Definition GetNodeByAddress (ord : list string) (addr : string) (cm : ChunkManager)
    : option DataNodeInfo :=
  List.find (λ n, bool_decide (dn_Address n = addr)) (GetAllNodes ord cm).

(** ** Placement *)
(** The comparison [sort.Slice] is called with: the risk first, then the number
    of chunks. *)
Definition node_less (a b : DataNodeInfo) : bool :=
  if f64_neb (dn_RiskScore a) (dn_RiskScore b)
  then f64_ltb (dn_RiskScore a) (dn_RiskScore b)
  else Nat.ltb (size (dn_Chunks a)) (size (dn_Chunks b)).

Definition key_less (cm : ChunkManager) (k1 k2 : string) : bool :=
  match cm_nodes cm !! k1, cm_nodes cm !! k2 with
  | Some a, Some b => node_less a b
  | _, _ => false
  end.

Section placement.
Context `{SliceSort}.

Definition selectNodes (cm : ChunkManager) (candidates : list string) (count : Z)
    : list string :=
  let sorted := slice_sort (key_less cm) candidates in
  let count :=
    if Z.of_nat (length sorted) <? count then Z.of_nat (length sorted) else count in
  take (Z.to_nat count) sorted.

(** The size recorded for chunk [i]: the whole chunk or what remains. *)
Definition chunk_size_at (fileSize i : Z) : Z :=
  let size := ChunkSize in
  let remaining := int64 (fileSize - int64 (i * ChunkSize)) in
  if remaining <? size then remaining else size.

(** The body of the loop of [AllocateChunks]. *)
Definition allocate_one (filePath : string) (fileSize : Z) (healthy : list string)
    (replFactor i : Z) (cm : ChunkManager) : ChunkPlacementInfo * ChunkManager :=
  let chunkID := GenerateChunkID filePath i in
  let size := chunk_size_at fileSize i in
  let targets := selectNodes cm healthy replFactor in
  let infos := omap (λ k, cm_nodes cm !! k) targets in
  let nodeIDs := dn_NodeID <$> infos in
  let nodeAddrs := dn_Address <$> infos in
  let nodes := foldl (λ ns k, alter (set_Chunks (λ X, {[chunkID]} ∪ X)) k ns)
                 (cm_nodes cm) targets in
  (mkChunkPlacementInfo chunkID i nodeIDs nodeAddrs,
   mkChunkManager nodes
     (<[chunkID := mkChunkMeta chunkID i size "" nodeIDs filePath]> (cm_chunks cm))).

Fixpoint allocate_loop (filePath : string) (fileSize : Z) (healthy : list string)
    (replFactor : Z) (n : nat) (i : Z) (cm : ChunkManager)
    : list ChunkPlacementInfo * ChunkManager :=
  match n with
  | O => ([], cm)
  | S n' =>
      let '(p, cm1) := allocate_one filePath fileSize healthy replFactor i cm in
      let '(ps, cm2) := allocate_loop filePath fileSize healthy replFactor n' (i + 1) cm1 in
      (p :: ps, cm2)
  end.

Definition AllocateChunks (now : Time) (ord : list string) (filePath : string)
    (chunkCount fileSize : Z) : gos ChunkManager (list ChunkPlacementInfo) := λ cm,
  let healthy := healthyNodes now ord cm in
  if decide (length healthy = 0%nat) then (Err "no healthy nodes available", cm)
  else
    let replFactor :=
      if Z.of_nat (length healthy) <? DefaultReplicationFactor
      then Z.of_nat (length healthy) else DefaultReplicationFactor in
    if chunkCount <? 0 then (Panic "makeslice: len out of range", cm)
    else
      let '(placements, cm') :=
        allocate_loop filePath fileSize healthy replFactor (Z.to_nat chunkCount) 0 cm in
      (Ok placements, cm').
End placement.

(** ** Chunks *)
Definition is_live (cm : ChunkManager) (nid : string) : bool :=
  match cm_nodes cm !! nid with
  | Some node => negb (bool_decide (dn_Status node = StatusDead))
  | None => false
  end.

(** The inner loop of [GetChunkLocations]: addresses and identifiers of the live
    nodes, in the order of [meta.NodeIDs]. *)
Definition live_locations (cm : ChunkManager) (nids : list string) : list (string * string) :=
  omap (λ nid, match cm_nodes cm !! nid with
               | Some node =>
                   if decide (dn_Status node = StatusDead) then None
                   else Some (dn_Address node, nid)
               | None => None
               end) nids.

Fixpoint GetChunkLocations (chunkIDs : list string) (cm : ChunkManager)
    : go (list ChunkLocationInfo) :=
  match chunkIDs with
  | [] => Ok []
  | cid :: rest =>
      match cm_chunks cm !! cid with
      | None => Err ("chunk not found: " +:+ cid)
      | Some meta =>
          let live := live_locations cm (ck_NodeIDs meta) in
          if decide (length live = 0%nat) then Err ("no live nodes for chunk " +:+ cid)
          else
            let! locs := GetChunkLocations rest cm in
            Ok (mkChunkLocationInfo (ck_ChunkID meta) (ck_ChunkIndex meta) live.*1 live.*2 :: locs)
      end
  end.

(** One iteration of the outer loop of [RemoveChunks]; the first component
    collects the affected addresses. *)
Definition remove_chunk_step (st : gset string * ChunkManager) (cid : string)
    : gset string * ChunkManager :=
  let '(nodeAddrs, cm) := st in
  match cm_chunks cm !! cid with
  | None => (nodeAddrs, cm)
  | Some meta =>
      let '(addrs, nodes) :=
        foldl (λ (s : gset string * gmap string DataNodeInfo) nid,
                 match s.2 !! nid with
                 | Some node =>
                     ({[dn_Address node]} ∪ s.1, alter (set_Chunks (λ X, X ∖ {[cid]})) nid s.2)
                 | None => s
                 end) (nodeAddrs, cm_nodes cm) (ck_NodeIDs meta) in
      (addrs, mkChunkManager nodes (delete cid (cm_chunks cm)))
  end.

Definition RemoveChunks (ord : list string) (chunkIDs : list string) (cm : ChunkManager)
    : list string * ChunkManager :=
  let '(nodeAddrs, cm') := foldl remove_chunk_step (∅, cm) chunkIDs in
  (range_set ord nodeAddrs, cm').

Definition UpdateChunkChecksum (chunkID checksum : string) (cm : ChunkManager) : ChunkManager :=
  match cm_chunks cm !! chunkID with
  | Some _ => upd_chunk chunkID (set_Checksum checksum) cm
  | None => cm
  end.

Definition GetChunkMeta (chunkID : string) (cm : ChunkManager) : option ChunkMeta :=
  cm_chunks cm !! chunkID.

Definition GetChunksOnNode (ord : list string) (nodeID : string) (cm : ChunkManager)
    : list string :=
  match cm_nodes cm !! nodeID with
  | None => []
  | Some node => range_set ord (dn_Chunks node)
  end.

Definition AddChunkToNode (chunkID nodeID : string) (cm : ChunkManager) : ChunkManager :=
  let cm := upd_node nodeID (set_Chunks (λ X, {[chunkID]} ∪ X)) cm in
  match cm_chunks cm !! chunkID with
  | None => cm
  | Some meta =>
      if decide (nodeID ∈ ck_NodeIDs meta) then cm
      else upd_chunk chunkID (set_NodeIDs (ck_NodeIDs meta ++ [nodeID])) cm
  end.

Definition RemoveChunkFromNode (chunkID nodeID : string) (cm : ChunkManager) : ChunkManager :=
  let cm := upd_node nodeID (set_Chunks (λ X, X ∖ {[chunkID]})) cm in
  match cm_chunks cm !! chunkID with
  | None => cm
  | Some meta => upd_chunk chunkID (set_NodeIDs (remove_first nodeID (ck_NodeIDs meta))) cm
  end.

Definition liveCount (cm : ChunkManager) (meta : ChunkMeta) : nat :=
  length (List.filter (is_live cm) (ck_NodeIDs meta)).

Definition GetUnderReplicatedChunks (ord : list string) (cm : ChunkManager) : list ChunkMeta :=
  List.filter (λ meta, Z.of_nat (liveCount cm meta) <? DefaultReplicationFactor)
    (range_map ord (cm_chunks cm)).*2.

(** ** Statistics *)
Record ClusterStats := mkClusterStats {
  cs_TotalNodes : Z;
  cs_HealthyNodes : Z;
  cs_WarningNodes : Z;
  cs_AtRiskNodes : Z;
  cs_DeadNodes : Z;
  cs_TotalCap : Z;
  cs_TotalUsed : Z;
  cs_TotalChunks : Z;
}.

(** One iteration of the loop of [GetClusterStats]; the sums of bytes are
    [int64] additions. *)
Definition stats_step (s : ClusterStats) (n : DataNodeInfo) : ClusterStats :=
  let b (x : bool) : Z := if x then 1 else 0 in
  mkClusterStats
    (cs_TotalNodes s + 1)
    (cs_HealthyNodes s + b (bool_decide (dn_Status n = StatusHealthy)))
    (cs_WarningNodes s + b (bool_decide (dn_Status n = StatusWarning)))
    (cs_AtRiskNodes s
     + b (bool_decide (dn_Status n = StatusAtRisk ∨ dn_Status n = StatusCritical)))
    (cs_DeadNodes s + b (bool_decide (dn_Status n = StatusDead)))
    (int64 (cs_TotalCap s + dn_CapacityBytes n))
    (int64 (cs_TotalUsed s + dn_UsedBytes n))
    (cs_TotalChunks s).

Definition GetClusterStats (ord : list string) (cm : ChunkManager) : ClusterStats :=
  foldl stats_step
    (mkClusterStats 0 0 0 0 0 0 0 (Z.of_nat (size (cm_chunks cm))))
    (GetAllNodes ord cm).

(** ** Invariant *)
(** Nodes are stored under their identifier, identifiers are [node-1] to
    [node-n], addresses are unique; chunks are stored under their identifier;
    the nodes a chunk lists are distinct, registered, and hold the chunk; only
    nodes outside HEALTHY and WARNING can have a NaN risk. *)
Record cm_inv (cm : ChunkManager) : Prop := {
  inv_key : ∀ k n, cm_nodes cm !! k = Some n → dn_NodeID n = k;
  inv_name : ∀ k, is_Some (cm_nodes cm !! k) →
    ∃ i, 1 ≤ i ≤ Z.of_nat (size (cm_nodes cm)) ∧ k = "node-" +:+ fmt_d i;
  inv_addr : ∀ k1 k2 n1 n2, cm_nodes cm !! k1 = Some n1 → cm_nodes cm !! k2 = Some n2 →
    dn_Address n1 = dn_Address n2 → k1 = k2;
  inv_risk : ∀ k n, cm_nodes cm !! k = Some n →
    dn_Status n = StatusHealthy ∨ dn_Status n = StatusWarning → is_nan (dn_RiskScore n) = false;
  inv_chunk : ∀ c m, cm_chunks cm !! c = Some m → ck_ChunkID m = c;
  inv_nodup : ∀ c m, cm_chunks cm !! c = Some m → NoDup (ck_NodeIDs m);
  inv_holds : ∀ c m nid, cm_chunks cm !! c = Some m → nid ∈ ck_NodeIDs m →
    ∃ n, cm_nodes cm !! nid = Some n ∧ c ∈ dn_Chunks n;
}.

Lemma cm_inv_new : cm_inv NewChunkManager.
Proof.
  split; cbn; intros *; rewrite ?lookup_empty; done.
Qed.

Lemma size_same_dom `{Countable K} {A B} (m1 : gmap K A) (m2 : gmap K B) :
  (∀ k, is_Some (m1 !! k) ↔ is_Some (m2 !! k)) → size m1 = size m2.
Proof.
  intros Hdom. rewrite <- !size_dom. f_equal. apply set_eq. intros k.
  by rewrite !elem_of_dom.
Qed.

(** [N'] has the same nodes as [N] as far as identity goes. *)
Definition same_ids (N N' : gmap string DataNodeInfo) : Prop :=
  (∀ k, is_Some (N !! k) ↔ is_Some (N' !! k)) ∧
  ∀ k n n', N !! k = Some n → N' !! k = Some n' →
    dn_NodeID n' = dn_NodeID n ∧ dn_Address n' = dn_Address n.

Definition risk_ok (n : DataNodeInfo) : Prop :=
  dn_Status n = StatusHealthy ∨ dn_Status n = StatusWarning → is_nan (dn_RiskScore n) = false.

Lemma same_ids_inv N N' k n' :
  same_ids N N' → N' !! k = Some n' →
  ∃ n, N !! k = Some n ∧ dn_NodeID n' = dn_NodeID n ∧ dn_Address n' = dn_Address n.
Proof.
  intros [Hdom Hids] Hk. destruct (proj2 (Hdom k) ltac:(eauto)) as [n Hn].
  exists n. split; [done|]. by apply (Hids k).
Qed.

Lemma same_ids_size N N' : same_ids N N' → size N' = size N.
Proof. intros [Hdom _]. symmetry. by apply size_same_dom. Qed.

(** A change of node data that keeps identities and does not lose a listed
    replica keeps the invariant. *)
Lemma cm_inv_update cm N' C' :
  cm_inv cm → same_ids (cm_nodes cm) N' →
  (∀ k n, N' !! k = Some n → risk_ok n) →
  (∀ c m, C' !! c = Some m → ck_ChunkID m = c) →
  (∀ c m, C' !! c = Some m → NoDup (ck_NodeIDs m)) →
  (∀ c m nid, C' !! c = Some m → nid ∈ ck_NodeIDs m → ∃ n, N' !! nid = Some n ∧ c ∈ dn_Chunks n) →
  cm_inv (mkChunkManager N' C').
Proof.
  intros Hinv Hids Hrisk Hck Hnd Hholds. split; simpl.
  - intros k n' Hk. destruct (same_ids_inv _ _ _ _ Hids Hk) as (n & Hn & -> & _).
    by apply (inv_key _ Hinv).
  - intros k [n' Hk]. destruct (same_ids_inv _ _ _ _ Hids Hk) as (n & Hn & _).
    rewrite (same_ids_size _ _ Hids). apply (inv_name _ Hinv). eauto.
  - intros k1 k2 n1 n2 H1 H2 Ha.
    destruct (same_ids_inv _ _ _ _ Hids H1) as (n1' & Hn1 & _ & Ha1).
    destruct (same_ids_inv _ _ _ _ Hids H2) as (n2' & Hn2 & _ & Ha2).
    apply (inv_addr _ Hinv _ _ _ _ Hn1 Hn2). congruence.
  - exact Hrisk.
  - exact Hck.
  - exact Hnd.
  - exact Hholds.
Qed.

Lemma same_ids_refl N : same_ids N N.
Proof. split; [done|]. intros k n n' H1 H2. by simplify_eq. Qed.

Lemma same_ids_trans N1 N2 N3 : same_ids N1 N2 → same_ids N2 N3 → same_ids N1 N3.
Proof.
  intros H12 H23. split.
  - intros k. destruct H12 as [-> _], H23 as [-> _]. done.
  - intros k n n' H1 H3. destruct (same_ids_inv _ _ _ _ H23 H3) as (n2 & H2 & -> & ->).
    by apply (proj2 H12 k).
Qed.

Lemma lookup_alter_Some (N : gmap string DataNodeInfo) f k j n' :
  alter f k N !! j = Some n' ↔
    (j = k ∧ ∃ n, N !! k = Some n ∧ n' = f n) ∨ (j ≠ k ∧ N !! j = Some n').
Proof.
  destruct (decide (j = k)) as [->|Hne].
  - rewrite lookup_alter_eq, fmap_Some. naive_solver.
  - rewrite lookup_alter_ne by done. naive_solver.
Qed.

Lemma same_ids_alter N f k :
  (∀ n, dn_NodeID (f n) = dn_NodeID n ∧ dn_Address (f n) = dn_Address n) →
  same_ids N (alter f k N).
Proof.
  intros Hf. split.
  - intros j. destruct (decide (j = k)) as [->|].
    + rewrite lookup_alter_eq. by rewrite fmap_is_Some.
    + by rewrite lookup_alter_ne.
  - intros j n n' Hn [[-> (n0 & Hn0 & ->)]|[_ Hn']]%lookup_alter_Some.
    + rewrite Hn in Hn0. injection Hn0 as <-. apply Hf.
    + by simplify_eq.
Qed.

(** [alter f k] when [f] leaves the chunk set alone or only adds to it. *)
Lemma cm_inv_alter cm k f :
  cm_inv cm →
  (∀ n, dn_NodeID (f n) = dn_NodeID n ∧ dn_Address (f n) = dn_Address n) →
  (∀ n, cm_nodes cm !! k = Some n → risk_ok n → risk_ok (f n)) →
  (∀ n, dn_Chunks n ⊆ dn_Chunks (f n)) →
  cm_inv (upd_node k f cm).
Proof.
  intros Hinv Hid Hrisk Hch. apply (cm_inv_update cm); [done|by apply same_ids_alter|..].
  - intros j n' [[-> (n & Hn & ->)]|[_ Hn']]%lookup_alter_Some.
    + apply Hrisk; [done|]. intros Hs. by apply (inv_risk _ Hinv k).
    + intros Hs. by apply (inv_risk _ Hinv j).
  - apply (inv_chunk _ Hinv).
  - apply (inv_nodup _ Hinv).
  - intros c m nid Hc Hin. destruct (inv_holds _ Hinv c m nid Hc Hin) as (n & Hn & Hcn).
    destruct (decide (nid = k)) as [->|].
    + exists (f n). rewrite lookup_alter_eq, Hn. split; [done|]. by apply Hch.
    + exists n. by rewrite lookup_alter_ne.
Qed.

Lemma insert_alter_node cm k n f :
  cm_nodes cm !! k = Some n →
  mkChunkManager (<[k := f n]> (cm_nodes cm)) (cm_chunks cm) = upd_node k f cm.
Proof.
  intros Hn. unfold upd_node. f_equal. apply map_eq. intros j.
  destruct (decide (j = k)) as [->|].
  - by rewrite lookup_insert_eq, lookup_alter_eq, Hn.
  - by rewrite lookup_insert_ne, lookup_alter_ne.
Qed.

(** *** The simple operations *)
Lemma find_range_map {V} (f : string * V → bool) ord (m : gmap string V) k v :
  List.find f (range_map ord m) = Some (k, v) → m !! k = Some v ∧ f (k, v) = true.
Proof.
  intros [Hin Hf]%find_some. split; [|done]. apply list_elem_of_In in Hin.
  by apply elem_of_range_map in Hin as [_ ?].
Qed.

Lemma find_range_map_None {V} (f : string * V → bool) ord (m : gmap string V) k v :
  map_order m ord → List.find f (range_map ord m) = None → m !! k = Some v → f (k, v) = false.
Proof.
  intros Hord Hnone Hk. apply (find_none _ _ Hnone). apply list_elem_of_In.
  apply elem_of_range_map. split; [|done]. apply (map_order_elem m ord k Hord). eauto.
Qed.

Definition node_name (i : Z) : string := "node-" +:+ fmt_d i.

Lemma node_name_inj i j : node_name i = node_name j → i = j.
Proof.
  unfold node_name. intros Heq. apply fmt_d_inj. by apply (inj (String.append "node-")) in Heq.
Qed.

Lemma fresh_node_name cm :
  cm_inv cm → cm_nodes cm !! node_name (Z.of_nat (size (cm_nodes cm)) + 1) = None.
Proof.
  intros Hinv. apply eq_None_not_Some. intros (i & Hi & Heq)%(inv_name _ Hinv).
  apply node_name_inj in Heq. lia.
Qed.

Lemma RegisterNode_inv now ord address capacity cm r cm' :
  cm_inv cm → map_order (cm_nodes cm) ord →
  RegisterNode now ord address capacity cm = (r, cm') → cm_inv cm'.
Proof.
  intros Hinv Hord. unfold RegisterNode.
  destruct (List.find _ _) as [[k n]|] eqn:Hfind; intros [= <- <-].
  - apply cm_inv_alter; [done|done| |done]. by intros n0 _ Hr.
  - set (id := "node-" +:+ _).
    assert (cm_nodes cm !! id = None) as Hfresh by (by apply fresh_node_name).
    assert (∀ k n, cm_nodes cm !! k = Some n → k ≠ id) as Hne by (intros k n ? ->; by simplify_eq).
    assert (∀ k n, cm_nodes cm !! k = Some n → dn_Address n ≠ address) as Hna.
    { intros k n Hk Ha. pose proof (find_range_map_None _ _ _ _ _ Hord Hfind Hk) as Hf.
      simpl in Hf. by apply bool_decide_eq_false in Hf. }
    split; simpl.
    + intros k n [[<- <-]|[_ Hk]]%lookup_insert_Some; [done|by apply (inv_key _ Hinv)].
    + intros k Hk. rewrite map_size_insert_None by done.
      destruct Hk as [n [[<- _]|[_ Hk]]%lookup_insert_Some].
      * eexists. split; [|done]. lia.
      * destruct (inv_name _ Hinv k ltac:(eauto)) as (i & Hi & ->). exists i. split; [lia|done].
    + intros k1 k2 n1 n2 [[<- <-]|[_ H1]]%lookup_insert_Some [[<- <-]|[_ H2]]%lookup_insert_Some Ha;
        simpl in *; [done| | |by apply (inv_addr _ Hinv _ _ n1 n2)].
      * by apply Hna in H2.
      * by apply Hna in H1.
    + intros k n [[<- <-]|[_ Hk]]%lookup_insert_Some; [done|by apply (inv_risk _ Hinv k)].
    + apply (inv_chunk _ Hinv).
    + apply (inv_nodup _ Hinv).
    + intros c m nid Hc Hin. destruct (inv_holds _ Hinv c m nid Hc Hin) as (n & Hn & Hcn).
      exists n. rewrite lookup_insert_ne; [done|]. intros ->. by apply Hne in Hn.
Qed.

Lemma UpdateHeartbeat_inv now nodeID used count cm r cm' :
  cm_inv cm → UpdateHeartbeat now nodeID used count cm = (r, cm') → cm_inv cm'.
Proof.
  intros Hinv. unfold UpdateHeartbeat.
  destruct (cm_nodes cm !! nodeID) as [n|] eqn:Hn; intros [= <- <-]; [|done].
  set (f := λ n, if decide (dn_Status n = StatusDead)
    then set_RiskScore f64_zero (set_Status StatusHealthy (set_usage used count (set_LastHeartbeat now n)))
    else set_usage used count (set_LastHeartbeat now n)).
  change (cm_inv (mkChunkManager (<[nodeID := f n]> (cm_nodes cm)) (cm_chunks cm))).
  rewrite (insert_alter_node cm nodeID n f Hn). apply cm_inv_alter; [done|..].
  - intros n0. unfold f. by case_decide.
  - intros n0 _ Hr. unfold f. case_decide; [by intros _|exact Hr].
  - intros n0. unfold f. by case_decide.
Qed.

Lemma UpdateNodeHealth_inv nodeID risk cm :
  cm_inv cm → cm_inv (UpdateNodeHealth nodeID (RiskToStatus risk) risk cm).
Proof.
  intros Hinv. unfold UpdateNodeHealth.
  destruct (cm_nodes cm !! nodeID) as [n|] eqn:Hn; [|done].
  rewrite (insert_alter_node cm nodeID n
    (λ n, set_RiskScore risk (set_Status (RiskToStatus risk) n)) Hn).
  apply cm_inv_alter; [done|done| |done].
  intros n0 _ _ Hs. simpl in *. destruct (is_nan risk) eqn:Hnan; [|done].
  destruct risk; try done. rewrite RiskToStatus_nan in Hs. by destruct Hs.
Qed.

Lemma check_dead_fold_inv now l acc cm :
  cm_inv cm → cm_inv (foldl (check_dead_step now) (acc, cm) l).2.
Proof.
  revert acc cm. induction l as [|[k n] l IH]; intros acc cm Hinv; [done|].
  cbn [foldl check_dead_step]. destruct (is_stale now n); apply IH; [|done].
  apply cm_inv_alter; [done|done| |done]. intros n0 _ _ [Hs|Hs]; done.
Qed.

Lemma CheckDeadNodes_inv now ord cm : cm_inv cm → cm_inv (CheckDeadNodes now ord cm).2.
Proof. apply check_dead_fold_inv. Qed.

Lemma UpdateChunkChecksum_inv c sum cm : cm_inv cm → cm_inv (UpdateChunkChecksum c sum cm).
Proof.
  intros Hinv. unfold UpdateChunkChecksum. destruct (cm_chunks cm !! c) as [m0|] eqn:Hm; [|done].
  assert (∀ c' m, alter (set_Checksum sum) c (cm_chunks cm) !! c' = Some m →
    ∃ m', cm_chunks cm !! c' = Some m' ∧ ck_ChunkID m = ck_ChunkID m' ∧
      ck_NodeIDs m = ck_NodeIDs m') as Hback.
  { intros c' m. destruct (decide (c' = c)) as [->|].
    - rewrite lookup_alter_eq, Hm. intros [= <-]. eauto.
    - rewrite lookup_alter_ne by done. eauto. }
  apply (cm_inv_update cm); [done|apply same_ids_refl|exact (inv_risk _ Hinv)|..].
  - intros c' m (m' & Hm' & -> & _)%Hback. by apply (inv_chunk _ Hinv).
  - intros c' m (m' & Hm' & _ & ->)%Hback. by apply (inv_nodup _ Hinv c').
  - intros c' m nid (m' & Hm' & _ & ->)%Hback. by apply (inv_holds _ Hinv c').
Qed.

(** *** Replica bookkeeping *)
(** Looking up chunks and nodes after the two migration updates. *)
Lemma AddChunkToNode_chunk chunkID nodeID cm c :
  cm_chunks (AddChunkToNode chunkID nodeID cm) !! c =
    if decide (c = chunkID) then
      (λ m, if decide (nodeID ∈ ck_NodeIDs m) then m
            else set_NodeIDs (ck_NodeIDs m ++ [nodeID]) m) <$> cm_chunks cm !! c
    else cm_chunks cm !! c.
Proof.
  unfold AddChunkToNode. simpl. destruct (cm_chunks cm !! chunkID) as [m|] eqn:Hm.
  - destruct (decide (nodeID ∈ ck_NodeIDs m)); simpl; destruct (decide (c = chunkID)) as [->|].
    + rewrite Hm. simpl. by rewrite decide_True.
    + done.
    + rewrite lookup_alter_eq, Hm. simpl. by rewrite decide_False.
    + by rewrite lookup_alter_ne.
  - simpl. destruct (decide (c = chunkID)) as [->|]; [by rewrite Hm|done].
Qed.

Lemma AddChunkToNode_nodes chunkID nodeID cm :
  cm_nodes (AddChunkToNode chunkID nodeID cm) =
    alter (set_Chunks (λ X, {[chunkID]} ∪ X)) nodeID (cm_nodes cm).
Proof.
  unfold AddChunkToNode. simpl. destruct (cm_chunks cm !! chunkID) as [m|]; [|done].
  by destruct (decide (nodeID ∈ ck_NodeIDs m)).
Qed.

Lemma RemoveChunkFromNode_chunk chunkID nodeID cm c :
  cm_chunks (RemoveChunkFromNode chunkID nodeID cm) !! c =
    if decide (c = chunkID) then
      (λ m, set_NodeIDs (remove_first nodeID (ck_NodeIDs m)) m) <$> cm_chunks cm !! c
    else cm_chunks cm !! c.
Proof.
  unfold RemoveChunkFromNode. simpl. destruct (cm_chunks cm !! chunkID) as [m|] eqn:Hm.
  - simpl. destruct (decide (c = chunkID)) as [->|]; [|by rewrite lookup_alter_ne].
    by rewrite lookup_alter_eq, Hm.
  - simpl. destruct (decide (c = chunkID)) as [->|]; [by rewrite Hm|done].
Qed.

Lemma RemoveChunkFromNode_nodes chunkID nodeID cm :
  cm_nodes (RemoveChunkFromNode chunkID nodeID cm) =
    alter (set_Chunks (λ X, X ∖ {[chunkID]})) nodeID (cm_nodes cm).
Proof. unfold RemoveChunkFromNode. simpl. by destruct (cm_chunks cm !! chunkID). Qed.

Lemma risk_ok_alter_chunks (N : gmap string DataNodeInfo) g k j n :
  (∀ k n, N !! k = Some n → risk_ok n) →
  alter (set_Chunks g) k N !! j = Some n → risk_ok n.
Proof.
  intros HN [[-> (n0 & Hn0 & ->)]|[_ Hn]]%lookup_alter_Some; [|by eapply HN].
  pose proof (HN _ _ Hn0) as Hr. exact Hr.
Qed.

Lemma cm_eta cm : cm = mkChunkManager (cm_nodes cm) (cm_chunks cm).
Proof. by destruct cm. Qed.

Lemma AddChunkToNode_inv chunkID nodeID cm :
  cm_inv cm → is_Some (cm_nodes cm !! nodeID) → cm_inv (AddChunkToNode chunkID nodeID cm).
Proof.
  intros Hinv [n0 Hn0]. rewrite (cm_eta (AddChunkToNode _ _ _)), AddChunkToNode_nodes.
  assert (∀ c m, cm_chunks (AddChunkToNode chunkID nodeID cm) !! c = Some m →
    ∃ m0, cm_chunks cm !! c = Some m0 ∧ ck_ChunkID m = ck_ChunkID m0 ∧
      ((ck_NodeIDs m = ck_NodeIDs m0) ∨
       (c = chunkID ∧ (nodeID ∉ ck_NodeIDs m0) ∧ ck_NodeIDs m = ck_NodeIDs m0 ++ [nodeID]))) as Hback.
  { intros c m. rewrite AddChunkToNode_chunk. destruct (decide (c = chunkID)) as [->|]; [|eauto].
    intros (m0 & -> & Hm0)%fmap_Some. exists m0. split; [done|].
    destruct (decide (nodeID ∈ ck_NodeIDs m0)); subst m; [by eauto|]. split; [done|]. by right. }
  apply (cm_inv_update cm); [done|by apply same_ids_alter|..].
  - intros k n. apply risk_ok_alter_chunks. exact (inv_risk _ Hinv).
  - intros c m (m0 & Hm0 & -> & _)%Hback. by apply (inv_chunk _ Hinv).
  - intros c m (m0 & Hm0 & _ & [->|(_ & Hni & ->)])%Hback; [by apply (inv_nodup _ Hinv c)|].
    apply NoDup_app. split; [by apply (inv_nodup _ Hinv c)|].
    split; [set_solver|apply NoDup_singleton].
  - intros c m nid Hc Hin. apply Hback in Hc as (m0 & Hm0 & _ & Hcase).
    destruct (decide (nid ∈ ck_NodeIDs m0)) as [Hold|Hold].
    + destruct (inv_holds _ Hinv c m0 nid Hm0 Hold) as (n & Hn & Hcn).
      destruct (decide (nid = nodeID)) as [->|].
      * eexists. rewrite lookup_alter_eq, Hn. split; [done|]. simpl. set_solver.
      * exists n. by rewrite lookup_alter_ne.
    + destruct Hcase as [Heq|(-> & _ & Heq)]; rewrite Heq in Hin; [done|].
      apply elem_of_app in Hin as [?| ->%list_elem_of_singleton]; [done|].
      eexists. rewrite lookup_alter_eq, Hn0. split; [done|]. simpl. set_solver.
Qed.

Lemma RemoveChunkFromNode_inv chunkID nodeID cm :
  cm_inv cm → cm_inv (RemoveChunkFromNode chunkID nodeID cm).
Proof.
  intros Hinv. rewrite (cm_eta (RemoveChunkFromNode _ _ _)), RemoveChunkFromNode_nodes.
  assert (∀ c m, cm_chunks (RemoveChunkFromNode chunkID nodeID cm) !! c = Some m →
    ∃ m0, cm_chunks cm !! c = Some m0 ∧ ck_ChunkID m = ck_ChunkID m0 ∧
      ck_NodeIDs m = (if decide (c = chunkID) then remove_first nodeID (ck_NodeIDs m0)
                      else ck_NodeIDs m0)) as Hback.
  { intros c m. rewrite RemoveChunkFromNode_chunk.
    destruct (decide (c = chunkID)) as [->|]; [|eauto].
    intros (m0 & -> & ->)%fmap_Some. eauto. }
  apply (cm_inv_update cm); [done|by apply same_ids_alter|..].
  - intros k n. apply risk_ok_alter_chunks. exact (inv_risk _ Hinv).
  - intros c m (m0 & Hm0 & -> & _)%Hback. by apply (inv_chunk _ Hinv).
  - intros c m (m0 & Hm0 & _ & ->)%Hback. pose proof (inv_nodup _ Hinv c m0 Hm0).
    case_decide; [by apply remove_first_nodup|done].
  - intros c m nid (m0 & Hm0 & _ & Heq)%Hback Hin. rewrite Heq in Hin.
    assert (nid ∈ ck_NodeIDs m0 ∧ (c = chunkID → nid ≠ nodeID)) as [Hold Hne].
    { case_decide as Hc; [|done]. apply remove_first_elem in Hin as [? ?]; [done|].
      by apply (inv_nodup _ Hinv c). }
    destruct (inv_holds _ Hinv c m0 nid Hm0 Hold) as (n & Hn & Hcn).
    destruct (decide (nid = nodeID)) as [->|]; [|exists n; by rewrite lookup_alter_ne].
    eexists. rewrite lookup_alter_eq, Hn. split; [done|]. simpl.
    apply elem_of_difference. split; [done|]. rewrite elem_of_singleton. naive_solver.
Qed.

(** *** RemoveChunks *)
Lemma fold_alter_lookup (f : DataNodeInfo → DataNodeInfo) ks (N : gmap string DataNodeInfo) k :
  (∀ n, f (f n) = f n) →
  foldl (λ ns k, alter f k ns) N ks !! k =
    if decide (k ∈ ks) then f <$> N !! k else N !! k.
Proof.
  intros Hf. revert N. induction ks as [|k' ks IH]; intros N; cbn [foldl].
  { rewrite decide_False; [done|]. apply not_elem_of_nil. }
  rewrite IH. destruct (decide (k = k')) as [->|Hne].
  - rewrite (decide_True (P := k' ∈ k' :: ks)) by (by left).
    rewrite lookup_alter_eq. case_decide; [|done].
    destruct (N !! k'); simpl; [by rewrite Hf|done].
  - rewrite lookup_alter_ne by done. destruct (decide (k ∈ ks)).
    + rewrite decide_True by (by right). done.
    + rewrite decide_False; [done|]. by intros [?|?]%elem_of_cons.
Qed.

Lemma alter_absent (f : DataNodeInfo → DataNodeInfo) k (N : gmap string DataNodeInfo) :
  N !! k = None → alter f k N = N.
Proof.
  intros HN. apply map_eq. intros j. destruct (decide (j = k)) as [->|].
  - by rewrite lookup_alter_eq, HN.
  - by rewrite lookup_alter_ne.
Qed.

(** The nodes after [cid] was dropped from the nodes [nids]. *)
Definition drop_chunk (cid : string) (nids : list string) (N : gmap string DataNodeInfo)
    : gmap string DataNodeInfo :=
  foldl (λ ns k, alter (set_Chunks (λ X, X ∖ {[cid]})) k ns) N nids.

Lemma drop_chunk_lookup cid nids N k :
  drop_chunk cid nids N !! k =
    if decide (k ∈ nids) then set_Chunks (λ X, X ∖ {[cid]}) <$> N !! k else N !! k.
Proof.
  apply fold_alter_lookup. intros n. unfold set_Chunks. simpl. f_equal. set_solver.
Qed.

Lemma remove_inner_fold cid nids addrs N :
  (foldl (λ (s : gset string * gmap string DataNodeInfo) nid,
            match s.2 !! nid with
            | Some node =>
                ({[dn_Address node]} ∪ s.1, alter (set_Chunks (λ X, X ∖ {[cid]})) nid s.2)
            | None => s
            end) (addrs, N) nids).2 = drop_chunk cid nids N.
Proof.
  revert addrs N. induction nids as [|nid nids IH]; intros addrs N; [done|].
  cbn [foldl snd fst]. destruct (N !! nid) as [n|] eqn:Hn; rewrite IH; unfold drop_chunk; simpl;
    [done|by rewrite alter_absent].
Qed.

Definition listed_nodes (c : string) (cm : ChunkManager) : list string :=
  match cm_chunks cm !! c with Some m => ck_NodeIDs m | None => [] end.

Lemma remove_chunk_step_eq addrs cm cid :
  (remove_chunk_step (addrs, cm) cid).2 =
    mkChunkManager (drop_chunk cid (listed_nodes cid cm) (cm_nodes cm))
      (delete cid (cm_chunks cm)).
Proof.
  unfold remove_chunk_step, listed_nodes. destruct (cm_chunks cm !! cid) as [m|] eqn:Hm.
  - rewrite <- (remove_inner_fold cid (ck_NodeIDs m) addrs). by destruct (foldl _ _ _).
  - simpl. rewrite delete_id by done. apply cm_eta.
Qed.

Lemma drop_chunk_same_ids cid nids N : same_ids N (drop_chunk cid nids N).
Proof.
  split.
  - intros k. rewrite drop_chunk_lookup. case_decide; [by rewrite fmap_is_Some|done].
  - intros k n n' Hn. rewrite drop_chunk_lookup, Hn. case_decide; by intros [= <-].
Qed.

Lemma drop_chunk_Some cid nids N k n' :
  drop_chunk cid nids N !! k = Some n' ↔
    ∃ n, N !! k = Some n ∧
      n' = if decide (k ∈ nids) then set_Chunks (λ X, X ∖ {[cid]}) n else n.
Proof.
  rewrite drop_chunk_lookup. case_decide.
  - by rewrite fmap_Some.
  - split; [eauto|by intros (n & ? & ->)].
Qed.

Lemma remove_chunk_step_inv addrs cm cid :
  cm_inv cm → cm_inv (remove_chunk_step (addrs, cm) cid).2.
Proof.
  intros Hinv. rewrite remove_chunk_step_eq.
  apply (cm_inv_update cm); [done|apply drop_chunk_same_ids|..].
  - intros k n' (n & Hn & ->)%drop_chunk_Some. pose proof (inv_risk _ Hinv k n Hn) as Hr.
    case_decide; exact Hr.
  - intros c m [_ Hm]%lookup_delete_Some. by apply (inv_chunk _ Hinv).
  - intros c m [_ Hm]%lookup_delete_Some. by apply (inv_nodup _ Hinv c).
  - intros c m nid [Hne Hm]%lookup_delete_Some Hin.
    destruct (inv_holds _ Hinv c m nid Hm Hin) as (n & Hn & Hcn).
    eexists. rewrite drop_chunk_Some. split; [by exists n|]. case_decide; [|done].
    simpl. set_solver.
Qed.

Lemma remove_fold_inv ids addrs cm :
  cm_inv cm → cm_inv (foldl remove_chunk_step (addrs, cm) ids).2.
Proof.
  revert addrs cm. induction ids as [|cid ids IH]; intros addrs cm Hinv; [done|].
  cbn [foldl]. pose proof (remove_chunk_step_inv addrs cm cid Hinv) as Hstep.
  destruct (remove_chunk_step (addrs, cm) cid) as [addrs' cm']. by apply IH.
Qed.

Lemma RemoveChunks_inv ord ids cm : cm_inv cm → cm_inv (RemoveChunks ord ids cm).2.
Proof.
  intros Hinv. pose proof (remove_fold_inv ids ∅ cm Hinv) as Hfold. unfold RemoveChunks.
  by destruct (foldl remove_chunk_step (∅, cm) ids).
Qed.

(** After [RemoveChunks] the chunks are gone, from the chunk table and from the
    sets of the nodes it listed for them; nothing else changes. *)
Lemma remove_fold_spec ids addrs cm :
  let cm' := (foldl remove_chunk_step (addrs, cm) ids).2 in
  (∀ c, cm_chunks cm' !! c = if decide (c ∈ ids) then None else cm_chunks cm !! c) ∧
  same_ids (cm_nodes cm) (cm_nodes cm') ∧
  ∀ k n n', cm_nodes cm !! k = Some n → cm_nodes cm' !! k = Some n' →
    dn_Status n' = dn_Status n ∧ dn_RiskScore n' = dn_RiskScore n ∧
    dn_LastHeartbeat n' = dn_LastHeartbeat n ∧
    ∀ c, c ∈ dn_Chunks n' ↔ c ∈ dn_Chunks n ∧ ¬ (c ∈ ids ∧ k ∈ listed_nodes c cm).
Proof.
  revert addrs cm. induction ids as [|cid ids IH]; intros addrs cm cm'.
  { split; [intros c; by rewrite decide_False by apply not_elem_of_nil|].
    split; [apply same_ids_refl|]. intros k n n' Hn Hn'.
    unfold cm' in Hn'. cbn [foldl snd] in Hn'. simplify_eq.
    do 3 (split; [done|]). intros c. split; [|naive_solver]. intros Hc. split; [done|].
    by intros [?%not_elem_of_nil _]. }
  unfold cm'. cbn [foldl]. pose proof (remove_chunk_step_eq addrs cm cid) as Heq.
  destruct (remove_chunk_step (addrs, cm) cid) as [addrs1 cm1]. simpl in Heq.
  destruct (IH addrs1 cm1) as (Hc & Hids & Hn). clear IH.
  assert (same_ids (cm_nodes cm) (cm_nodes cm1)) as Hids1.
  { subst cm1. apply drop_chunk_same_ids. }
  split; [|split; [by eapply same_ids_trans|]].
  - intros c. rewrite Hc. subst cm1. simpl. destruct (decide (c ∈ ids)) as [Hin|Hin].
    + by rewrite decide_True by (by right).
    + destruct (decide (c = cid)) as [->|Hne].
      * rewrite decide_True by (by left). apply lookup_delete_eq.
      * rewrite lookup_delete_ne by done. rewrite decide_False; [done|].
        by intros [?|?]%elem_of_cons.
  - intros k n n' Hk Hk'. destruct (same_ids_inv _ _ _ _ Hids Hk') as (n1 & Hn1 & _).
    destruct (Hn k n1 n' Hn1 Hk') as (-> & -> & -> & Hch).
    subst cm1. simpl in Hn1. apply drop_chunk_Some in Hn1 as (n0 & Hn0 & ->). simplify_eq.
    split; [by case_decide|]. split; [by case_decide|]. split; [by case_decide|].
    intros c. rewrite Hch. clear Hch Hc Hn.
    assert (k ∈ listed_nodes c (mkChunkManager (drop_chunk cid (listed_nodes cid cm) (cm_nodes cm))
      (delete cid (cm_chunks cm))) ↔ c ≠ cid ∧ k ∈ listed_nodes c cm) as ->.
    { unfold listed_nodes. simpl. destruct (decide (c = cid)) as [->|].
      - rewrite lookup_delete_eq. split; [by intros ?%not_elem_of_nil|naive_solver].
      - rewrite lookup_delete_ne by done. naive_solver. }
    rewrite elem_of_cons. destruct (decide (k ∈ listed_nodes cid cm)); simpl.
    + rewrite elem_of_difference, elem_of_singleton.
      destruct (decide (c = cid)) as [->|]; naive_solver.
    + destruct (decide (c = cid)) as [->|]; naive_solver.
Qed.

(** *** Placement *)
Lemma healthyNodes_elem now ord cm k :
  map_order (cm_nodes cm) ord →
  k ∈ healthyNodes now ord cm ↔
    ∃ n, cm_nodes cm !! k = Some n ∧ is_healthy now n = true.
Proof.
  intros Hord. unfold healthyNodes. rewrite list_elem_of_fmap. split.
  - intros ([k' n] & -> & Hin). apply list_elem_of_In, filter_In in Hin as [Hin Hh].
    apply list_elem_of_In, elem_of_range_map in Hin as [_ Hn]. eauto.
  - intros (n & Hn & Hh). exists (k, n). split; [done|].
    apply list_elem_of_In, filter_In. split; [|done].
    apply list_elem_of_In, elem_of_range_map. split; [|done].
    apply (map_order_elem _ _ _ Hord). eauto.
Qed.

Lemma fmap_fst_filter_sublist {A B} (f : A * B → bool) (l : list (A * B)) :
  (List.filter f l).*1 `sublist_of` l.*1.
Proof.
  induction l as [|x l IH]; [constructor|]. simpl. destruct (f x); simpl.
  - by apply sublist_skip.
  - by apply sublist_cons.
Qed.

Lemma healthyNodes_nodup now ord cm :
  map_order (cm_nodes cm) ord → NoDup (healthyNodes now ord cm).
Proof.
  intros Hord. eapply sublist_NoDup; [by eapply map_order_nodup|].
  etrans; [apply fmap_fst_filter_sublist|apply range_map_fst_sublist].
Qed.

Lemma is_healthy_status now n :
  is_healthy now n = true → dn_Status n = StatusHealthy ∨ dn_Status n = StatusWarning.
Proof. unfold is_healthy. intros [Hs _]%andb_true_iff. by apply bool_decide_eq_true in Hs. Qed.

Lemma key_eq_iff (a b : Z * Z * Z) :
  a = b ↔ a.1.1 = b.1.1 ∧ a.1.2 = b.1.2 ∧ a.2 = b.2.
Proof.
  destruct a as [[a1 a2] a3], b as [[b1 b2] b3]; simpl.
  split; [by intros [= -> -> ->]|by intros (-> & -> & ->)].
Qed.

(** On numbers the comparison is the lexicographic order of risk and chunks. *)
Lemma node_less_key a b :
  is_nan (dn_RiskScore a) = false → is_nan (dn_RiskScore b) = false →
  node_less a b = true ↔
    key_lt (f64_key (dn_RiskScore a)) (f64_key (dn_RiskScore b)) ∨
    f64_key (dn_RiskScore a) = f64_key (dn_RiskScore b) ∧
    (size (dn_Chunks a) < size (dn_Chunks b))%nat.
Proof.
  intros Ha Hb. unfold node_less, f64_neb.
  pose proof (f64_eqb_key _ _ Ha Hb) as He. unfold f64_eqb in He.
  destruct (SFeqb (dn_RiskScore a) (dn_RiskScore b)); simpl.
  - rewrite Nat.ltb_lt. destruct He as [He _]. rewrite (He eq_refl).
    split; [by right|]. intros [Hlt|[_ ?]]; [unfold key_lt in Hlt; lia|done].
  - rewrite f64_ltb_key by done. split; [by left|]. intros [|[Hk _]]; [done|].
    by apply He in Hk.
Qed.

Definition comparable (cm : ChunkManager) (k : string) : Prop :=
  ∃ n, cm_nodes cm !! k = Some n ∧ is_nan (dn_RiskScore n) = false.

Lemma key_less_weak_order cm l :
  (∀ k, k ∈ l → comparable cm k) → strict_weak_on (key_less cm) l.
Proof.
  intros Hl. split.
  - intros x (n & Hn & Hr)%Hl. apply not_true_is_false. unfold key_less. rewrite Hn.
    rewrite node_less_key by done. unfold key_lt. lia.
  - intros x y z (a & Ha & Hra)%Hl (b & Hb & Hrb)%Hl (c & Hc & Hrc)%Hl.
    unfold key_less. rewrite Ha, Hb, Hc, !node_less_key, !key_eq_iff by done.
    unfold key_lt. lia.
  - intros x y z (a & Ha & Hra)%Hl (b & Hb & Hrb)%Hl (c & Hc & Hrc)%Hl.
    unfold key_less. rewrite Ha, Hb, Hc, <- !not_true_iff_false, !node_less_key, !key_eq_iff by done.
    unfold key_lt. lia.
Qed.

Section select.
Context `{SliceSort} `{!SliceSortSpec}.

Lemma selectNodes_take cm l count :
  selectNodes cm l count = take (Z.to_nat count) (slice_sort (key_less cm) l).
Proof.
  unfold selectNodes. case_match eqn:Hlt; [|done]. apply Z.ltb_lt in Hlt.
  rewrite Nat2Z.id, !take_ge by lia. done.
Qed.

Lemma selectNodes_sublist cm l count :
  ∃ rest, selectNodes cm l count ++ rest ≡ₚ l.
Proof.
  exists (drop (Z.to_nat count) (slice_sort (key_less cm) l)).
  rewrite selectNodes_take, take_drop. apply slice_sort_perm.
Qed.

Lemma selectNodes_elem cm l count k : k ∈ selectNodes cm l count → k ∈ l.
Proof.
  destruct (selectNodes_sublist cm l count) as [rest Hp]. intros Hk.
  apply (elem_of_Permutation_proper k _ _ Hp). apply elem_of_app. by left.
Qed.

Lemma selectNodes_nodup cm l count : NoDup l → NoDup (selectNodes cm l count).
Proof.
  destruct (selectNodes_sublist cm l count) as [rest Hp]. intros Hnd.
  apply (NoDup_Permutation_proper _ _ Hp) in Hnd. by apply NoDup_app in Hnd as [? _].
Qed.

Lemma selectNodes_length cm l count :
  0 ≤ count → Z.of_nat (length (selectNodes cm l count)) = Z.min count (Z.of_nat (length l)).
Proof.
  intros Hc. rewrite selectNodes_take, length_take.
  rewrite (Permutation_length (slice_sort_perm (key_less cm) l)). lia.
Qed.

(** No candidate left out is better than a selected one. *)
Lemma selectNodes_best cm l count x y :
  (∀ k, k ∈ l → comparable cm k) → NoDup l →
  x ∈ selectNodes cm l count → y ∈ l → y ∉ selectNodes cm l count → key_less cm y x = false.
Proof.
  intros Hcmp Hnd. rewrite selectNodes_take.
  pose proof (slice_sort_sorted _ _ (key_less_weak_order cm l Hcmp)) as Hsorted.
  pose proof (slice_sort_perm (key_less cm) l) as Hperm.
  rewrite <- (take_drop (Z.to_nat count) (slice_sort (key_less cm) l)) in Hsorted, Hperm.
  intros Hx Hy Hny. unfold sorted_by in Hsorted.
  apply StronglySorted_app in Hsorted as (Hall & _ & _). apply Hall; [done|].
  apply (elem_of_Permutation_proper y _ _ Hperm) in Hy. by apply elem_of_app in Hy as [?|?].
Qed.
End select.

(** *** AllocateChunks *)
Section allocate.
Context `{SliceSort} `{!SliceSortSpec}.

Definition addrs_of (cm : ChunkManager) (ks : list string) : list string :=
  omap (λ k, dn_Address <$> cm_nodes cm !! k) ks.

(** The nodes after [cid] was added to the nodes [ks]. *)
Definition hold_chunk (cid : string) (ks : list string) (N : gmap string DataNodeInfo)
    : gmap string DataNodeInfo :=
  foldl (λ ns k, alter (set_Chunks (λ X, {[cid]} ∪ X)) k ns) N ks.

Lemma hold_chunk_lookup cid ks N k :
  hold_chunk cid ks N !! k =
    if decide (k ∈ ks) then set_Chunks (λ X, {[cid]} ∪ X) <$> N !! k else N !! k.
Proof. apply fold_alter_lookup. intros n. unfold set_Chunks. simpl. f_equal. set_solver. Qed.

Lemma hold_chunk_same_ids cid ks N : same_ids N (hold_chunk cid ks N).
Proof.
  split.
  - intros k. rewrite hold_chunk_lookup. case_decide; [by rewrite fmap_is_Some|done].
  - intros k n n' Hn. rewrite hold_chunk_lookup, Hn. case_decide; by intros [= <-].
Qed.

Lemma node_ids_of cm (ks : list string) :
  cm_inv cm → (∀ k, k ∈ ks → is_Some (cm_nodes cm !! k)) →
  dn_NodeID <$> omap (λ k, cm_nodes cm !! k) ks = ks.
Proof.
  intros Hinv. induction ks as [|k ks IH]; intros Hks; [done|]. simpl.
  destruct (Hks k ltac:(left)) as [n Hn]. rewrite Hn. simpl.
  rewrite (inv_key _ Hinv _ _ Hn). f_equal. apply IH. intros k' Hk'. apply Hks. by right.
Qed.

Lemma node_addrs_of cm (ks : list string) :
  dn_Address <$> omap (λ k, cm_nodes cm !! k) ks = addrs_of cm ks.
Proof.
  induction ks as [|k ks IH]; [done|]. unfold addrs_of in *. simpl.
  destruct (cm_nodes cm !! k); [simpl; f_equal; exact IH|exact IH].
Qed.

Lemma addrs_of_same cm cm' (ks : list string) :
  same_ids (cm_nodes cm) (cm_nodes cm') → addrs_of cm' ks = addrs_of cm ks.
Proof.
  intros Hids. induction ks as [|k ks IH]; [done|]. unfold addrs_of in *. simpl.
  destruct (cm_nodes cm' !! k) as [n'|] eqn:Hn'.
  - destruct (same_ids_inv _ _ _ _ Hids Hn') as (n & -> & _ & Ha). simpl. rewrite Ha. f_equal. exact IH.
  - destruct (cm_nodes cm !! k) as [n|] eqn:Hn; [|exact IH].
    destruct (proj1 (proj1 Hids k) ltac:(eauto)) as [? ?]. congruence.
Qed.

Lemma allocate_one_eq path fileSize healthy repl i cm :
  cm_inv cm → (∀ k, k ∈ healthy → is_Some (cm_nodes cm !! k)) →
  let id := GenerateChunkID path i in
  let targets := selectNodes cm healthy repl in
  allocate_one path fileSize healthy repl i cm =
    (mkChunkPlacementInfo id i targets (addrs_of cm targets),
     mkChunkManager (hold_chunk id targets (cm_nodes cm))
       (<[id := mkChunkMeta id i (chunk_size_at fileSize i) "" targets path]> (cm_chunks cm))).
Proof.
  intros Hinv Hh id targets. unfold allocate_one. cbv zeta. fold id. fold targets.
  rewrite node_addrs_of, node_ids_of; [done|done|].
  intros k Hk. by apply Hh, (selectNodes_elem cm healthy repl).
Qed.

Lemma allocate_one_inv path fileSize healthy repl i cm :
  cm_inv cm → NoDup healthy → (∀ k, k ∈ healthy → is_Some (cm_nodes cm !! k)) →
  cm_inv (allocate_one path fileSize healthy repl i cm).2.
Proof.
  intros Hinv Hnd Hh. rewrite allocate_one_eq by done.
  set (id := GenerateChunkID path i). set (targets := selectNodes cm healthy repl). simpl.
  apply (cm_inv_update cm); [done|apply hold_chunk_same_ids|..].
  - intros k n. rewrite hold_chunk_lookup. case_decide; [|exact (inv_risk _ Hinv k n)].
    intros (n0 & Hn0 & ->)%fmap_Some. pose proof (inv_risk _ Hinv k n0 Hn0) as Hr. exact Hr.
  - intros c m [[<- <-]|[_ Hm]]%lookup_insert_Some; [done|by apply (inv_chunk _ Hinv)].
  - intros c m [[<- <-]|[_ Hm]]%lookup_insert_Some; [|by apply (inv_nodup _ Hinv c)].
    by apply selectNodes_nodup.
  - intros c m nid [[<- <-]|[Hne Hm]]%lookup_insert_Some Hin.
    + simpl in Hin. destruct (Hh nid ltac:(by eapply selectNodes_elem)) as [n Hn].
      eexists. rewrite hold_chunk_lookup, decide_True, Hn by done.
      split; [done|]. simpl. set_solver.
    + destruct (inv_holds _ Hinv c m nid Hm Hin) as (n & Hn & Hcn).
      rewrite hold_chunk_lookup, Hn. case_decide; simpl; [|eauto].
      eexists. split; [done|]. simpl. set_solver.
Qed.

(** What one call promises about the placements and the tables: chunk [i+j] has
    its identifier, its index and [targets j]; the other chunks are untouched. *)
Lemma allocate_loop_spec path fileSize healthy repl n : ∀ i cm,
  cm_inv cm → NoDup healthy → (∀ k, k ∈ healthy → is_Some (cm_nodes cm !! k)) →
  let '(ps, cm') := allocate_loop path fileSize healthy repl n i cm in
  cm_inv cm' ∧ same_ids (cm_nodes cm) (cm_nodes cm') ∧ length ps = n ∧
  (∀ j p, ps !! j = Some p → ∃ cmj, cm_inv cmj ∧ same_ids (cm_nodes cm) (cm_nodes cmj) ∧
     (∀ k a b, cm_nodes cm !! k = Some a → cm_nodes cmj !! k = Some b →
        dn_RiskScore b = dn_RiskScore a) ∧
     p = mkChunkPlacementInfo (GenerateChunkID path (i + Z.of_nat j)) (i + Z.of_nat j)
           (selectNodes cmj healthy repl) (addrs_of cm (selectNodes cmj healthy repl))) ∧
  (∀ c, c ∉ cp_ChunkID <$> ps → cm_chunks cm' !! c = cm_chunks cm !! c) ∧
  (NoDup (cp_ChunkID <$> ps) → ∀ j p, ps !! j = Some p →
     cm_chunks cm' !! cp_ChunkID p =
       Some (mkChunkMeta (cp_ChunkID p) (cp_ChunkIndex p)
               (chunk_size_at fileSize (cp_ChunkIndex p)) "" (cp_NodeIDs p) path)).
Proof.
  induction n as [|n IH]; intros i cm Hinv Hnd Hh.
  { simpl. split; [done|]. split; [apply same_ids_refl|]. split; [done|].
    split; [intros j p; by rewrite lookup_nil|]. split; [done|]. intros _ j p. by rewrite lookup_nil. }
  cbn [allocate_loop].
  pose proof (allocate_one_inv path fileSize healthy repl i cm Hinv Hnd Hh) as Hinv1.
  rewrite allocate_one_eq in * by done. simpl in Hinv1.
  set (id := GenerateChunkID path i) in *. set (targets := selectNodes cm healthy repl) in *.
  set (cm1 := mkChunkManager _ _) in *.
  assert (same_ids (cm_nodes cm) (cm_nodes cm1)) as Hids1 by apply hold_chunk_same_ids.
  assert (∀ k, k ∈ healthy → is_Some (cm_nodes cm1 !! k)) as Hh1.
  { intros k Hk. apply Hids1. by apply Hh. }
  specialize (IH (i + 1) cm1 Hinv1 Hnd Hh1).
  destruct (allocate_loop path fileSize healthy repl n (i + 1) cm1) as [ps cm2].
  destruct IH as (Hinv2 & Hids2 & Hlen & Hps & Hother & Htab).
  split; [done|]. split; [by eapply same_ids_trans|]. split; [simpl; by rewrite Hlen|].
  split; [|split].
  - intros [|j] p; simpl.
    + intros [= <-]. exists cm. split; [done|]. split; [apply same_ids_refl|].
      split; [intros k a b Ha Hb; by simplify_eq|]. by rewrite Z.add_0_r.
    + intros (cmj & Hinvj & Hidsj & Hriskj & ->)%Hps. exists cmj. split; [done|].
      split; [by eapply same_ids_trans|]. split.
      * intros k a b Ha Hb.
        destruct (proj1 (proj1 Hids1 k) ltac:(eauto)) as [a1 Ha1].
        rewrite (Hriskj k a1 b Ha1 Hb). unfold cm1 in Ha1. simpl in Ha1.
        rewrite hold_chunk_lookup, Ha in Ha1. case_decide; by injection Ha1 as <-.
      * rewrite (addrs_of_same cm cm1) by done. f_equal; [f_equal|]; lia.
  - intros c Hc. simpl in Hc. rewrite Hother by set_solver. unfold cm1. simpl.
    rewrite lookup_insert_ne; [done|]. set_solver.
  - rewrite fmap_cons. intros [Hid Hnd2]%NoDup_cons [|j] p; simpl.
    + intros [= <-]. simpl in *. rewrite Hother by done. unfold cm1. simpl.
      apply lookup_insert_eq.
    + by apply Htab.
Qed.

Lemma AllocateChunks_inv now ord path count fileSize cm r cm' :
  cm_inv cm → map_order (cm_nodes cm) ord →
  AllocateChunks now ord path count fileSize cm = (r, cm') →
  cm_inv cm' ∧ same_ids (cm_nodes cm) (cm_nodes cm').
Proof.
  intros Hinv Hord. unfold AllocateChunks. set (healthy := healthyNodes now ord cm).
  case_decide; [by intros [= <- <-]; split; [|apply same_ids_refl]|].
  destruct (count <? 0); [by intros [= <- <-]; split; [|apply same_ids_refl]|].
  set (repl := if Z.of_nat (length healthy) <? _ then _ else _).
  pose proof (allocate_loop_spec path fileSize healthy repl (Z.to_nat count) 0 cm Hinv) as Hspec.
  destruct (allocate_loop _ _ _ _ _ _ _) as [ps cm2]. intros [= <- <-].
  destruct Hspec as (Hinv2 & Hids & _); [by apply healthyNodes_nodup| |done].
  intros k (n & Hn & _)%healthyNodes_elem; eauto.
Qed.
End allocate.
