(* ===== verification/ChunkManagerSpec.v ===== *)
(** * What chunk_manager.go promises

    The step relation of the registry with its invariant, and the properties of
    registration, liveness tracking, placement, lookup, removal and statistics.
    The operations are defined in [ChunkManager.v]. *)
From S2P Require Export ChunkManager.
Local Open Scope Z_scope.

Create HintDb chunkmgr.
#[export] Hint Resolve cm_inv_new RegisterNode_inv UpdateHeartbeat_inv UpdateNodeHealth_inv
  CheckDeadNodes_inv UpdateChunkChecksum_inv AddChunkToNode_inv RemoveChunkFromNode_inv
  RemoveChunks_inv : chunkmgr.

Section reach.
Context `{SliceSort} `{!SliceSortSpec}.

(** ** The registry as a state machine

    One constructor per exported operation that writes; the guards are what the
    callers ensure: the status written with a risk is the one [RiskToStatus]
    computes (the predictor's result), and replicas are only recorded on
    registered nodes (the targets come from the registry, which never drops a
    node). *)
Inductive cm_step : ChunkManager → ChunkManager → Prop :=
  | step_register now ord addr cap r cm cm' :
      map_order (cm_nodes cm) ord →
      RegisterNode now ord addr cap cm = (r, cm') → cm_step cm cm'
  | step_heartbeat now nid used count r cm cm' :
      UpdateHeartbeat now nid used count cm = (r, cm') → cm_step cm cm'
  | step_health nid risk cm :
      cm_step cm (UpdateNodeHealth nid (RiskToStatus risk) risk cm)
  | step_dead now ord cm :
      map_order (cm_nodes cm) ord → cm_step cm (CheckDeadNodes now ord cm).2
  | step_allocate now ord path count size r cm cm' :
      map_order (cm_nodes cm) ord →
      AllocateChunks now ord path count size cm = (r, cm') → cm_step cm cm'
  | step_remove ord ids cm : cm_step cm (RemoveChunks ord ids cm).2
  | step_checksum c sum cm : cm_step cm (UpdateChunkChecksum c sum cm)
  | step_add c nid cm :
      is_Some (cm_nodes cm !! nid) → cm_step cm (AddChunkToNode c nid cm)
  | step_drop c nid cm : cm_step cm (RemoveChunkFromNode c nid cm).

Lemma cm_step_inv cm cm' : cm_inv cm → cm_step cm cm' → cm_inv cm'.
Proof.
  intros Hinv. destruct 1; eauto with chunkmgr.
  by eapply AllocateChunks_inv.
Qed.

Lemma cm_steps_inv cm cm' : cm_inv cm → rtc cm_step cm cm' → cm_inv cm'.
Proof. intros Hinv Hsteps. induction Hsteps; eauto using cm_step_inv. Qed.

(** Registry invariant: in every state reached by the manager's operations,
    nodes are stored under their own identifier, the identifiers are node-1 to
    node-n with distinct addresses, chunks are stored under their own
    identifier, and the replicas a chunk lists are pairwise distinct, registered,
    and hold the chunk; a node open to new data never has a NaN risk. *)
Theorem registry_invariant cm : rtc cm_step NewChunkManager cm → cm_inv cm.
Proof.
  intros Hsteps. exact (cm_steps_inv _ _ cm_inv_new Hsteps).
Qed.
End reach.

(** ** Placement *)
Section placement_spec.
Context `{SliceSort} `{!SliceSortSpec}.

(** Every field of a node but its chunk set survives a placement; the set gains
    the chunks placed on the node. *)
Lemma allocate_loop_nodes path fileSize healthy repl n : ∀ i cm,
  cm_inv cm → NoDup healthy → (∀ k, k ∈ healthy → is_Some (cm_nodes cm !! k)) →
  let '(ps, cm') := allocate_loop path fileSize healthy repl n i cm in
  ∀ k nd, cm_nodes cm !! k = Some nd →
    ∃ X, cm_nodes cm' !! k = Some (set_Chunks (λ _, X) nd) ∧
      ∀ c, c ∈ X ↔ c ∈ dn_Chunks nd ∨ ∃ p, p ∈ ps ∧ cp_ChunkID p = c ∧ k ∈ cp_NodeIDs p.
Proof.
  induction n as [|n IH]; intros i cm Hinv Hnd Hh.
  { simpl. intros k nd Hk. exists (dn_Chunks nd). split; [by destruct nd|].
    intros c. split; [by left|]. intros [?|(p & ?%not_elem_of_nil & _)]; done. }
  cbn [allocate_loop].
  pose proof (allocate_one_inv path fileSize healthy repl i cm Hinv Hnd Hh) as Hinv1.
  rewrite allocate_one_eq in * by done. simpl in Hinv1.
  set (id := GenerateChunkID path i) in *. set (targets := selectNodes cm healthy repl) in *.
  set (cm1 := mkChunkManager _ _) in *.
  assert (∀ k, k ∈ healthy → is_Some (cm_nodes cm1 !! k)) as Hh1.
  { intros k Hk. apply (hold_chunk_same_ids id targets (cm_nodes cm)). by apply Hh. }
  specialize (IH (i + 1) cm1 Hinv1 Hnd Hh1).
  destruct (allocate_loop path fileSize healthy repl n (i + 1) cm1) as [ps cm2].
  intros k nd Hk. pose proof (hold_chunk_lookup id targets (cm_nodes cm) k) as Hk1.
  change (hold_chunk id targets (cm_nodes cm)) with (cm_nodes cm1) in Hk1. rewrite Hk in Hk1.
  destruct (decide (k ∈ targets)) as [Hin|Hout]; simpl in Hk1;
    destruct (IH k _ Hk1) as (X & -> & HX); exists X; split; try done; intros c; rewrite HX;
    simpl; setoid_rewrite elem_of_cons; set_solver.
Qed.

(** The replication factor of an allocation. *)
Definition replicas (healthy : nat) : Z := Z.min DefaultReplicationFactor (Z.of_nat healthy).

Lemma AllocateChunks_Ok now ord path count fileSize cm ps cm' :
  AllocateChunks now ord path count fileSize cm = (Ok ps, cm') →
  healthyNodes now ord cm ≠ [] ∧ 0 ≤ count ∧
  allocate_loop path fileSize (healthyNodes now ord cm)
    (replicas (length (healthyNodes now ord cm))) (Z.to_nat count) 0 cm = (ps, cm').
Proof.
  unfold AllocateChunks, replicas. case_decide as Hl; [done|].
  destruct (count <? 0) eqn:Hc; [done|]. apply Z.ltb_ge in Hc.
  replace (if Z.of_nat (length (healthyNodes now ord cm)) <? DefaultReplicationFactor
           then Z.of_nat (length (healthyNodes now ord cm)) else DefaultReplicationFactor)
    with (Z.min DefaultReplicationFactor (Z.of_nat (length (healthyNodes now ord cm))))
    by (destruct (Z.ltb_spec (Z.of_nat (length (healthyNodes now ord cm)))
          DefaultReplicationFactor); lia).
  destruct (allocate_loop _ _ _ _ _ _ _) as [ps' cm'']. intros [= -> ->].
  split; [intros Heq; by rewrite Heq in Hl|done].
Qed.

Lemma healthyNodes_registered now ord cm k :
  map_order (cm_nodes cm) ord → k ∈ healthyNodes now ord cm → is_Some (cm_nodes cm !! k).
Proof. intros Hord (n & Hn & _)%healthyNodes_elem; eauto. Qed.

Lemma addrs_of_Forall2 cm ks :
  (∀ k, k ∈ ks → is_Some (cm_nodes cm !! k)) →
  Forall2 (λ k a, dn_Address <$> cm_nodes cm !! k = Some a) ks (addrs_of cm ks).
Proof.
  induction ks as [|k ks IH]; intros Hks; [constructor|]. unfold addrs_of. simpl.
  destruct (Hks k ltac:(left)) as [n Hn]. rewrite Hn. simpl. constructor; [by rewrite Hn|].
  apply IH. intros k' Hk'. apply Hks. by right.
Qed.

Lemma key_less_risk cm y x ny nx :
  cm_nodes cm !! y = Some ny → cm_nodes cm !! x = Some nx →
  is_nan (dn_RiskScore ny) = false → is_nan (dn_RiskScore nx) = false →
  key_less cm y x = false → f64_ltb (dn_RiskScore ny) (dn_RiskScore nx) = false.
Proof.
  intros Hy Hx Hny Hnx. unfold key_less. rewrite Hy, Hx. rewrite <- !not_true_iff_false.
  rewrite node_less_key, f64_ltb_key by done. naive_solver.
Qed.

(** What a successful allocation returns. *)
Lemma AllocateChunks_placed now ord path count fileSize cm ps cm' :
  cm_inv cm → map_order (cm_nodes cm) ord →
  AllocateChunks now ord path count fileSize cm = (Ok ps, cm') →
  Z.of_nat (length ps) = count ∧
  ∀ i p, ps !! i = Some p →
    cp_ChunkID p = GenerateChunkID path (Z.of_nat i) ∧
    cp_ChunkIndex p = Z.of_nat i ∧
    NoDup (cp_NodeIDs p) ∧
    Z.of_nat (length (cp_NodeIDs p)) =
      Z.min DefaultReplicationFactor (Z.of_nat (length (healthyNodes now ord cm))) ∧
    (∀ k, k ∈ cp_NodeIDs p →
       ∃ n, cm_nodes cm !! k = Some n ∧
         (dn_Status n = StatusHealthy ∨ dn_Status n = StatusWarning) ∧
         Since now (dn_LastHeartbeat n) < DeadNodeTimeout) ∧
    Forall2 (λ k a, dn_Address <$> cm_nodes cm !! k = Some a) (cp_NodeIDs p)
      (cp_NodeAddresses p) ∧
    (∀ x y nx ny, x ∈ cp_NodeIDs p → y ∉ cp_NodeIDs p →
       cm_nodes cm !! x = Some nx → cm_nodes cm !! y = Some ny → is_healthy now ny = true →
       f64_ltb (dn_RiskScore ny) (dn_RiskScore nx) = false).
Proof.
  intros Hinv Hord (_ & Hcount & Hloop)%AllocateChunks_Ok.
  set (healthy := healthyNodes now ord cm) in *.
  assert (NoDup healthy) as Hnd by (by apply healthyNodes_nodup).
  assert (∀ k, k ∈ healthy → is_Some (cm_nodes cm !! k)) as Hreg.
  { intros k. by apply healthyNodes_registered. }
  pose proof (allocate_loop_spec path fileSize healthy (replicas (length healthy))
    (Z.to_nat count) 0 cm Hinv Hnd Hreg) as Hspec.
  rewrite Hloop in Hspec. destruct Hspec as (_ & _ & Hlen & Hps & _).
  split; [lia|]. intros i p (cmj & Hinvj & Hidsj & Hriskj & ->)%Hps. simpl.
  do 2 (split; [done|]). split; [by apply selectNodes_nodup|].
  split; [rewrite selectNodes_length; unfold replicas, DefaultReplicationFactor; lia|].
  assert (∀ k, k ∈ selectNodes cmj healthy (replicas (length healthy)) → k ∈ healthy) as Hsub
    by apply selectNodes_elem.
  split.
  { intros k (n & Hn & Hh)%Hsub%healthyNodes_elem; [|done]. exists n. split; [done|].
    split; [by apply (is_healthy_status now)|].
    unfold is_healthy in Hh. apply andb_true_iff in Hh as [_ Hh]. by apply Z.ltb_lt in Hh. }
  split; [apply addrs_of_Forall2; auto|].
  assert (∀ k n, cm_nodes cm !! k = Some n → is_healthy now n = true →
    ∃ nj, cm_nodes cmj !! k = Some nj ∧ dn_RiskScore nj = dn_RiskScore n ∧
      is_nan (dn_RiskScore n) = false) as Hcmp.
  { intros k n Hn Hh. destruct (proj1 (proj1 Hidsj k) ltac:(eauto)) as [nj Hnj].
    exists nj. split; [done|]. split; [by eapply Hriskj|].
    apply (inv_risk _ Hinv k n Hn). by apply (is_healthy_status now). }
  intros x y nx ny Hx Hy Hnx Hny Hhy.
  assert (is_healthy now nx = true) as Hhx.
  { apply Hsub in Hx. apply healthyNodes_elem in Hx as (n & Hn & Hh); [|done]. by simplify_eq. }
  destruct (Hcmp x nx Hnx Hhx) as (nxj & Hnxj & Hrx & Hnanx).
  destruct (Hcmp y ny Hny Hhy) as (nyj & Hnyj & Hry & Hnany).
  rewrite <- Hrx, <- Hry. eapply key_less_risk; [done|done|by rewrite Hry|by rewrite Hrx|].
  apply (selectNodes_best cmj healthy (replicas (length healthy)) x y); [|done..| |done].
  - intros k (n & Hn & Hh)%healthyNodes_elem; [|done].
    destruct (Hcmp k n Hn Hh) as (nj & ? & Hr & ?). exists nj. by rewrite Hr.
  - apply healthyNodes_elem; eauto.
Qed.

(** C24: Placement: a successful allocation returns one placement per chunk, in
    order and under the chunk's identifier; each lists min(3, number of healthy
    nodes) distinct nodes, every one healthy with a fresh heartbeat, next to their
    addresses, and no healthy node left out has a lower risk than a chosen one. *)
Theorem AllocateChunks_placement now ord path count fileSize cm ps cm' :
  cm_inv cm → map_order (cm_nodes cm) ord →
  AllocateChunks now ord path count fileSize cm = (Ok ps, cm') →
  Z.of_nat (length ps) = count ∧
  ∀ i p, ps !! i = Some p →
    cp_ChunkID p = GenerateChunkID path (Z.of_nat i) ∧
    cp_ChunkIndex p = Z.of_nat i ∧
    NoDup (cp_NodeIDs p) ∧
    Z.of_nat (length (cp_NodeIDs p)) =
      Z.min DefaultReplicationFactor (Z.of_nat (length (healthyNodes now ord cm))) ∧
    (∀ k, k ∈ cp_NodeIDs p →
       ∃ n, cm_nodes cm !! k = Some n ∧
         (dn_Status n = StatusHealthy ∨ dn_Status n = StatusWarning) ∧
         Since now (dn_LastHeartbeat n) < DeadNodeTimeout) ∧
    Forall2 (λ k a, dn_Address <$> cm_nodes cm !! k = Some a) (cp_NodeIDs p)
      (cp_NodeAddresses p) ∧
    (∀ x y nx ny, x ∈ cp_NodeIDs p → y ∉ cp_NodeIDs p →
       cm_nodes cm !! x = Some nx → cm_nodes cm !! y = Some ny → is_healthy now ny = true →
       f64_ltb (dn_RiskScore ny) (dn_RiskScore nx) = false).
Proof. apply AllocateChunks_placed. Qed.

Lemma AllocateChunks_shape now ord path count fileSize cm ps cm' :
  cm_inv cm → map_order (cm_nodes cm) ord →
  AllocateChunks now ord path count fileSize cm = (Ok ps, cm') →
  Z.of_nat (length ps) = count ∧ ∀ i p, ps !! i = Some p → cp_ChunkIndex p = Z.of_nat i.
Proof.
  intros Hinv Hord (_ & Hcount & Hloop)%AllocateChunks_Ok.
  pose proof (allocate_loop_spec path fileSize _
    (replicas (length (healthyNodes now ord cm))) (Z.to_nat count) 0 cm Hinv
    (healthyNodes_nodup now ord cm Hord)
    (λ k, healthyNodes_registered now ord cm k Hord)) as Hspec.
  rewrite Hloop in Hspec. destruct Hspec as (_ & _ & Hlen & Hps & _).
  split; [lia|]. by intros i p (cmj & _ & _ & _ & ->)%Hps.
Qed.

Lemma AllocateChunks_meta now ord path count fileSize cm ps cm' :
  cm_inv cm → map_order (cm_nodes cm) ord →
  AllocateChunks now ord path count fileSize cm = (Ok ps, cm') →
  NoDup (cp_ChunkID <$> ps) →
  ∀ i p, ps !! i = Some p → cm_chunks cm' !! cp_ChunkID p =
     Some (mkChunkMeta (cp_ChunkID p) (cp_ChunkIndex p)
             (chunk_size_at fileSize (cp_ChunkIndex p)) "" (cp_NodeIDs p) path).
Proof.
  intros Hinv Hord (_ & Hcount & Hloop)%AllocateChunks_Ok.
  pose proof (allocate_loop_spec path fileSize _
    (replicas (length (healthyNodes now ord cm))) (Z.to_nat count) 0 cm Hinv
    (healthyNodes_nodup now ord cm Hord)
    (λ k, healthyNodes_registered now ord cm k Hord)) as Hspec.
  rewrite Hloop in Hspec. by destruct Hspec as (_ & _ & _ & _ & _ & Htab).
Qed.

(** Allocation fails in exactly two ways, both before anything is written:
    with an error when no node is healthy, and with a run-time panic when a node
    is healthy but the requested number of chunks is negative (the number comes
    from the client and is not validated); otherwise it succeeds. *)
Theorem AllocateChunks_outcomes now ord path count fileSize cm :
  let r := AllocateChunks now ord path count fileSize cm in
  (healthyNodes now ord cm = [] ∧ r = (Err "no healthy nodes available", cm)) ∨
  (healthyNodes now ord cm ≠ [] ∧ count < 0 ∧ r = (Panic "makeslice: len out of range", cm)) ∨
  (healthyNodes now ord cm ≠ [] ∧ 0 ≤ count ∧ ∃ ps cm', r = (Ok ps, cm')).
Proof.
  unfold AllocateChunks. cbv zeta. case_decide as Hl.
  - left. split; [by apply nil_length_inv|done].
  - assert (healthyNodes now ord cm ≠ []) as Hne by (intros Heq; by rewrite Heq in Hl).
    right. destruct (Z.ltb_spec count 0) as [Hc|Hc]; [by left|]. right.
    destruct (allocate_loop _ _ _ _ _ _ _) as [ps cm']. eauto.
Qed.

(** What a successful allocation writes. *)
Lemma AllocateChunks_stored now ord path count fileSize cm ps cm' :
  cm_inv cm → map_order (cm_nodes cm) ord →
  AllocateChunks now ord path count fileSize cm = (Ok ps, cm') →
  NoDup (cp_ChunkID <$> ps) →
  (∀ p, p ∈ ps → cm_chunks cm' !! cp_ChunkID p =
     Some (mkChunkMeta (cp_ChunkID p) (cp_ChunkIndex p)
             (chunk_size_at fileSize (cp_ChunkIndex p)) "" (cp_NodeIDs p) path)) ∧
  (∀ c, c ∉ cp_ChunkID <$> ps → cm_chunks cm' !! c = cm_chunks cm !! c) ∧
  (∀ k, cm_nodes cm !! k = None → cm_nodes cm' !! k = None) ∧
  (∀ k n, cm_nodes cm !! k = Some n →
     ∃ X, cm_nodes cm' !! k = Some (set_Chunks (λ _, X) n) ∧
       ∀ c, c ∈ X ↔ c ∈ dn_Chunks n ∨ ∃ p, p ∈ ps ∧ cp_ChunkID p = c ∧ k ∈ cp_NodeIDs p).
Proof.
  intros Hinv Hord (_ & Hcount & Hloop)%AllocateChunks_Ok Hids.
  set (healthy := healthyNodes now ord cm) in *.
  assert (NoDup healthy) as Hnd by (by apply healthyNodes_nodup).
  assert (∀ k, k ∈ healthy → is_Some (cm_nodes cm !! k)) as Hreg.
  { intros k. by apply healthyNodes_registered. }
  pose proof (allocate_loop_spec path fileSize healthy (replicas (length healthy))
    (Z.to_nat count) 0 cm Hinv Hnd Hreg) as Hspec.
  pose proof (allocate_loop_nodes path fileSize healthy (replicas (length healthy))
    (Z.to_nat count) 0 cm Hinv Hnd Hreg) as Hnodes.
  rewrite Hloop in Hspec, Hnodes. destruct Hspec as (_ & Hsame & _ & _ & Hother & Htab).
  split; [|split; [done|split; [|done]]].
  - intros p [j Hj]%list_elem_of_lookup. by eapply Htab.
  - intros k Hk. apply eq_None_not_Some. rewrite <- (proj1 Hsame k), Hk. by intros [??].
Qed.

(** The tables after a successful allocation (when the generated identifiers
    are distinct): each placed chunk is stored with its index, path, recorded
    size, no checksum and the placement's nodes; every other chunk is untouched;
    every node is unchanged but for its chunk set, which gains exactly the chunks
    placed on it. *)
Theorem AllocateChunks_tables now ord path count fileSize cm ps cm' :
  cm_inv cm → map_order (cm_nodes cm) ord →
  AllocateChunks now ord path count fileSize cm = (Ok ps, cm') →
  NoDup (cp_ChunkID <$> ps) →
  (∀ p, p ∈ ps → cm_chunks cm' !! cp_ChunkID p =
     Some (mkChunkMeta (cp_ChunkID p) (cp_ChunkIndex p)
             (chunk_size_at fileSize (cp_ChunkIndex p)) "" (cp_NodeIDs p) path)) ∧
  (∀ c, c ∉ cp_ChunkID <$> ps → cm_chunks cm' !! c = cm_chunks cm !! c) ∧
  (∀ k, cm_nodes cm !! k = None → cm_nodes cm' !! k = None) ∧
  (∀ k n, cm_nodes cm !! k = Some n →
     ∃ X, cm_nodes cm' !! k = Some (set_Chunks (λ _, X) n) ∧
       ∀ c, c ∈ X ↔ c ∈ dn_Chunks n ∨ ∃ p, p ∈ ps ∧ cp_ChunkID p = c ∧ k ∈ cp_NodeIDs p).
Proof. apply AllocateChunks_stored. Qed.

(** *** The recorded sizes *)
Lemma chunk_size_at_small fileSize i :
  in_int64 fileSize → 0 ≤ i → i * ChunkSize < fileSize →
  chunk_size_at fileSize i = Z.min ChunkSize (fileSize - i * ChunkSize).
Proof.
  unfold in_int64. intros Hf Hi Hlt. unfold chunk_size_at.
  assert (0 < ChunkSize) by (unfold ChunkSize; lia).
  rewrite (int64_id (i * ChunkSize)) by (unfold in_int64; nia).
  rewrite int64_id by (unfold in_int64; nia).
  destruct (Z.ltb_spec (fileSize - i * ChunkSize) ChunkSize); lia.
Qed.

Definition sum_sizes (l : list Z) : Z := foldr Z.add 0 l.

Lemma chunk_sizes_sum fileSize n : ∀ i,
  in_int64 fileSize → 0 ≤ i → i * ChunkSize < fileSize →
  (i + Z.of_nat n - 1) * ChunkSize < fileSize ≤ (i + Z.of_nat n) * ChunkSize →
  sum_sizes ((λ j, chunk_size_at fileSize (i + Z.of_nat j)) <$> seq 0 n) =
    fileSize - i * ChunkSize.
Proof.
  assert (0 < ChunkSize) by (unfold ChunkSize; lia).
  induction n as [|n IH]; intros i Hf Hi Hlt Hn; [nia|].
  rewrite <- cons_seq, fmap_cons, <- fmap_S_seq, <- list_fmap_compose. cbn [sum_sizes foldr].
  rewrite Z.add_0_r, (chunk_size_at_small fileSize i) by done.
  destruct (decide (n = 0%nat)) as [->|Hn0]; [simpl in *; nia|].
  fold (sum_sizes (((λ j, chunk_size_at fileSize (i + Z.of_nat j)) ∘ S) <$> seq 0 n)).
  rewrite (list_fmap_ext _ (λ j, chunk_size_at fileSize ((i + 1) + Z.of_nat j))).
  - assert ((i + 1) * ChunkSize < fileSize) by nia. rewrite IH; [nia|done|lia|done|nia].
  - intros _ j _. simpl. f_equal. lia.
Qed.

(** C39: The sizes recorded for a file partition it: when the client announces
    ceil(size / 4 MiB) chunks, every recorded size is positive and at most
    [ChunkSize], all but the last are exactly [ChunkSize], and they add up to the
    file's size, with no overflow of the 64-bit arithmetic; this as long as the
    identifiers of the chunks, hashes cut to sixteen digits, do not collide. *)
Theorem AllocateChunks_sizes now ord path fileSize cm ps cm' :
  cm_inv cm → map_order (cm_nodes cm) ord →
  0 < fileSize < 2 ^ 63 →
  let count := (fileSize + ChunkSize - 1) / ChunkSize in
  AllocateChunks now ord path count fileSize cm = (Ok ps, cm') →
  NoDup (cp_ChunkID <$> ps) →
  let sizes := (λ p, default 0 (ck_Size <$> cm_chunks cm' !! cp_ChunkID p)) <$> ps in
  (∀ i s, sizes !! i = Some s → 0 < s ≤ ChunkSize ∧
     (S i < length sizes → s = ChunkSize)%nat) ∧
  sum_sizes sizes = fileSize.
Proof.
  intros Hinv Hord Hf count Halloc Hnd sizes.
  pose proof (AllocateChunks_shape _ _ _ _ _ _ _ _ Hinv Hord Halloc) as [Hlen Hps].
  pose proof (AllocateChunks_meta _ _ _ _ _ _ _ _ Hinv Hord Halloc Hnd) as Htab.
  assert (0 < ChunkSize) as HC by (unfold ChunkSize; lia).
  assert ((count - 1) * ChunkSize < fileSize ≤ count * ChunkSize) as Hcount.
  { pose proof (Z.div_mod (fileSize + ChunkSize - 1) ChunkSize ltac:(lia)).
    pose proof (Z.mod_pos_bound (fileSize + ChunkSize - 1) ChunkSize HC). nia. }
  assert (sizes = (λ j, chunk_size_at fileSize (0 + Z.of_nat j)) <$> seq 0 (length ps)) as Hsizes.
  { apply list_eq. intros i. unfold sizes. rewrite !list_lookup_fmap.
    destruct (ps !! i) as [p|] eqn:Hp; simpl.
    - rewrite lookup_seq_lt by (by eapply lookup_lt_Some). simpl.
      rewrite (Htab i p Hp). simpl. by rewrite (Hps i p Hp).
    - rewrite lookup_seq_ge by (by apply lookup_ge_None). done. }
  split.
  - intros i s. rewrite Hsizes, list_lookup_fmap, length_fmap, length_seq.
    intros (j & [-> Hj]%lookup_seq & ->)%fmap_Some. simpl.
    rewrite chunk_size_at_small by (unfold in_int64; nia). split; [nia|intros ?; nia].
  - rewrite Hsizes, chunk_sizes_sum; unfold in_int64; nia.
Qed.
End placement_spec.

(** ** Locating chunks *)
Lemma live_locations_ids cm nids :
  (live_locations cm nids).*2 = List.filter (is_live cm) nids.
Proof.
  unfold live_locations. induction nids as [|nid nids IH]; [done|]. simpl. unfold is_live at 1.
  destruct (cm_nodes cm !! nid) as [n|]; [|exact IH].
  destruct (decide (dn_Status n = StatusDead)) as [Hd|Hd].
  - rewrite bool_decide_true by done. exact IH.
  - rewrite bool_decide_false by done. simpl. f_equal. exact IH.
Qed.

Lemma live_locations_addrs cm nids :
  Forall2 (λ nid a, dn_Address <$> cm_nodes cm !! nid = Some a)
    (live_locations cm nids).*2 (live_locations cm nids).*1.
Proof.
  unfold live_locations. induction nids as [|nid nids IH]; [constructor|]. simpl.
  destruct (cm_nodes cm !! nid) as [n|] eqn:Hn; [|exact IH].
  destruct (decide (dn_Status n = StatusDead)); [exact IH|]. simpl.
  constructor; [by rewrite Hn|exact IH].
Qed.

(** What [GetChunkLocations] answers for one chunk. *)
Definition located (cm : ChunkManager) (cid : string) (loc : ChunkLocationInfo) : Prop :=
  ∃ m, cm_chunks cm !! cid = Some m ∧
    cl_ChunkID loc = ck_ChunkID m ∧ cl_ChunkIndex loc = ck_ChunkIndex m ∧
    cl_NodeIDs loc = List.filter (is_live cm) (ck_NodeIDs m) ∧ cl_NodeIDs loc ≠ [] ∧
    Forall2 (λ nid a, dn_Address <$> cm_nodes cm !! nid = Some a)
      (cl_NodeIDs loc) (cl_NodeAddresses loc).

(** Lookup: GetChunkLocations answers, for every requested chunk in order, all
    the live replicas and no dead one, in the recorded order and next to their
    addresses; it fails exactly at the first chunk that is unknown or has no live
    replica, naming it, and never panics. *)
Theorem GetChunkLocations_spec ids cm :
  match GetChunkLocations ids cm with
  | Ok locs => Forall2 (located cm) ids locs
  | Err e => ∃ pre cid post, ids = pre ++ cid :: post ∧
      (∀ c, c ∈ pre → ∃ loc, located cm c loc) ∧
      (cm_chunks cm !! cid = None ∧ e = "chunk not found: " +:+ cid ∨
       ∃ m, cm_chunks cm !! cid = Some m ∧
         (∀ nid, nid ∈ ck_NodeIDs m → is_live cm nid = false) ∧
         e = "no live nodes for chunk " +:+ cid)
  | Panic _ => False
  end.
Proof.
  induction ids as [|cid ids IH]; [constructor|]. cbn [GetChunkLocations].
  destruct (cm_chunks cm !! cid) as [m|] eqn:Hm.
  2: { exists [], cid, ids. split; [done|]. split; [by intros c ?%not_elem_of_nil|]. by left. }
  pose proof (live_locations_ids cm (ck_NodeIDs m)) as Hlive.
  case_decide as Hz.
  { exists [], cid, ids. split; [done|]. split; [by intros c ?%not_elem_of_nil|].
    right. exists m. split; [done|]. split; [|done]. intros nid Hin.
    apply not_true_is_false. intros Hl. apply nil_length_inv in Hz. rewrite Hz in Hlive.
    assert (nid ∈ List.filter (is_live cm) (ck_NodeIDs m)) as Hin'.
    { apply list_elem_of_In, filter_In. split; [by apply list_elem_of_In|done]. }
    rewrite <- Hlive in Hin'. by apply not_elem_of_nil in Hin'. }
  assert (located cm cid (mkChunkLocationInfo (ck_ChunkID m) (ck_ChunkIndex m)
    (live_locations cm (ck_NodeIDs m)).*1 (live_locations cm (ck_NodeIDs m)).*2)) as Hloc.
  { exists m. split; [done|]. split; [done|]. split; [done|]. split; [done|].
    split; [|apply live_locations_addrs]. simpl. intros Hnil. apply Hz.
    by rewrite <- (length_fmap snd), Hnil. }
  destruct (GetChunkLocations ids cm) as [locs|e|w]; simpl; [by constructor| |done].
  destruct IH as (pre & c & post & -> & Hpre & Hcase). exists (cid :: pre), c, post.
  split; [done|]. split; [|done]. intros c' [->|?]%elem_of_cons; eauto.
Qed.

(** ** Registration *)

(** Registration: a known address gets its identifier back and only its
    heartbeat is refreshed (a dead node stays dead until it heartbeats); an unknown
    address gets an identifier no node had, with an empty healthy record, and no
    other node changes; it never fails. *)
Theorem RegisterNode_spec now ord address capacity cm :
  cm_inv cm → map_order (cm_nodes cm) ord →
  ∃ nid cm', RegisterNode now ord address capacity cm = (Ok nid, cm') ∧
    cm_chunks cm' = cm_chunks cm ∧
    (∀ k, k ≠ nid → cm_nodes cm' !! k = cm_nodes cm !! k) ∧
    match cm_nodes cm !! nid with
    | Some n => dn_Address n = address ∧ cm_nodes cm' !! nid = Some (set_LastHeartbeat now n)
    | None => (∀ k n, cm_nodes cm !! k = Some n → dn_Address n ≠ address) ∧
        cm_nodes cm' !! nid =
          Some (mkDataNodeInfo nid address capacity 0 0 StatusHealthy f64_zero now ∅)
    end.
Proof.
  intros Hinv Hord. unfold RegisterNode.
  destruct (List.find _ _) as [[k n]|] eqn:Hfind.
  - apply find_range_map in Hfind as [Hk Ha]. simpl in Ha. apply bool_decide_eq_true in Ha.
    pose proof (inv_key _ Hinv k n Hk) as Hid. eexists _, _. split; [done|]. rewrite Hid.
    split; [done|]. split; [intros k' Hne; by apply lookup_alter_ne|].
    rewrite Hk. split; [done|]. simpl. by rewrite lookup_alter_eq, Hk.
  - eexists _, _. split; [done|]. split; [done|]. simpl.
    split; [intros k Hne; by rewrite lookup_insert_ne|].
    pose proof (fresh_node_name cm Hinv) as Hfresh. unfold node_name in Hfresh.
    change ("node-" +:+ fmt_d (Z.of_nat (size (cm_nodes cm)) + 1))
      with (node_name (Z.of_nat (size (cm_nodes cm)) + 1)) in *.
    rewrite Hfresh. split; [|apply lookup_insert_eq]. intros k n Hk.
    pose proof (find_range_map_None _ _ _ _ _ Hord Hfind Hk) as Hf. simpl in Hf.
    by apply bool_decide_eq_false in Hf.
Qed.

(** ** Liveness *)
Lemma check_dead_fold_spec now l : ∀ acc cm,
  NoDup l.*1 → (∀ k n, (k, n) ∈ l → cm_nodes cm !! k = Some n) →
  let st := foldl (check_dead_step now) (acc, cm) l in
  st.1 = acc ++ (dn_NodeID <$> List.filter (is_stale now) l.*2) ∧
  cm_chunks st.2 = cm_chunks cm ∧
  ∀ k, cm_nodes st.2 !! k =
    if decide (k ∈ l.*1)
    then (λ n, if is_stale now n then set_Status StatusDead n else n) <$> cm_nodes cm !! k
    else cm_nodes cm !! k.
Proof.
  induction l as [|[k0 n0] l IH]; intros acc cm Hnd Hl.
  { split; [symmetry; apply app_nil_r|]. split; [done|]. intros k. done. }
  rewrite fmap_cons in Hnd. apply NoDup_cons in Hnd as [Hk0 Hnd]. simpl in Hk0.
  pose proof (Hl k0 n0 ltac:(left)) as Hn0.
  cbn [foldl check_dead_step]. rewrite !fmap_cons. cbn [List.filter fst snd].
  destruct (is_stale now n0) eqn:Hst.
  - destruct (IH (acc ++ [dn_NodeID n0]) (upd_node k0 (set_Status StatusDead) cm)) as (H1 & H2 & H3).
    { done. }
    { intros k n Hin. simpl. rewrite lookup_alter_ne; [apply Hl; by right|].
      intros ->. apply Hk0. apply list_elem_of_fmap. by exists (k, n). }
    split; [rewrite H1, fmap_cons, <- app_assoc; done|]. split; [by rewrite H2|].
    intros k. rewrite H3. simpl. destruct (decide (k = k0)) as [->|Hne].
    + rewrite decide_False by done. rewrite decide_True by (by left).
      rewrite lookup_alter_eq, Hn0. simpl. by rewrite Hst.
    + rewrite lookup_alter_ne by done. destruct (decide (k ∈ l.*1)).
      * by rewrite decide_True by (by right).
      * rewrite decide_False; [done|]. by intros [?|?]%elem_of_cons.
  - destruct (IH acc cm Hnd) as (H1 & H2 & H3).
    { intros k n Hin. apply Hl. by right. }
    split; [done|]. split; [done|].
    intros k. rewrite H3. destruct (decide (k = k0)) as [->|Hne].
    + rewrite decide_False by done. rewrite decide_True by (by left).
      rewrite Hn0. simpl. by rewrite Hst.
    + destruct (decide (k ∈ l.*1)).
      * by rewrite decide_True by (by right).
      * rewrite decide_False; [done|]. by intros [?|?]%elem_of_cons.
Qed.

Lemma CheckDeadNodes_state now ord cm :
  map_order (cm_nodes cm) ord →
  let st := CheckDeadNodes now ord cm in
  st.1 = dn_NodeID <$> List.filter (is_stale now) (GetAllNodes ord cm) ∧
  cm_chunks st.2 = cm_chunks cm ∧
  ∀ k, cm_nodes st.2 !! k =
    (λ n, if is_stale now n then set_Status StatusDead n else n) <$> cm_nodes cm !! k.
Proof.
  intros Hord. destruct (check_dead_fold_spec now (range_map ord (cm_nodes cm)) [] cm) as (H1 & H2 & H3).
  - rewrite range_map_fst by done. by eapply map_order_nodup.
  - by intros k n [_ ?]%elem_of_range_map.
  - split; [exact H1|]. split; [exact H2|]. intros k. unfold CheckDeadNodes. rewrite H3.
    rewrite range_map_fst by done. case_decide as Hk; [done|].
    destruct (cm_nodes cm !! k) eqn:Hn; [|done].
    destruct Hk. apply (map_order_elem _ _ _ Hord). eauto.
Qed.

(** Dead-node detection: the check marks DEAD exactly the nodes that were not
    dead and whose last heartbeat is more than [DeadNodeTimeout] (15 s) old,
    changes nothing else, reports exactly those nodes, and leaves no live node
    with a stale heartbeat. *)
Theorem CheckDeadNodes_marks_stale now ord cm :
  cm_inv cm → map_order (cm_nodes cm) ord → in_int64 now →
  (∀ k n, cm_nodes cm !! k = Some n → 0 ≤ dn_LastHeartbeat n ≤ now) →
  let '(dead, cm') := CheckDeadNodes now ord cm in
  (∀ k, k ∈ dead ↔ ∃ n, cm_nodes cm !! k = Some n ∧ dn_Status n ≠ StatusDead ∧
     15 * Second < now - dn_LastHeartbeat n) ∧
  (∀ k, k ∈ dead → cm_nodes cm' !! k = set_Status StatusDead <$> cm_nodes cm !! k) ∧
  (∀ k, k ∉ dead → cm_nodes cm' !! k = cm_nodes cm !! k) ∧
  cm_chunks cm' = cm_chunks cm ∧
  (∀ k n, cm_nodes cm' !! k = Some n →
     dn_Status n = StatusDead ∨ now - dn_LastHeartbeat n ≤ 15 * Second).
Proof.
  intros Hinv Hord Hnow Hpast.
  destruct (CheckDeadNodes_state now ord cm Hord) as (Hdead & Hch & Hst).
  destruct (CheckDeadNodes now ord cm) as [dead cm']. simpl in *.
  assert (∀ n, is_stale now n = true ↔
    dn_Status n ≠ StatusDead ∧ 15 * Second < now - dn_LastHeartbeat n) as Hstale.
  { intros n. unfold is_stale, Since, DeadNodeTimeout.
    rewrite Sub_gtb by (unfold Second; lia).
    rewrite andb_true_iff, negb_true_iff, bool_decide_eq_false, Z.ltb_lt. done. }
  assert (∀ k, k ∈ dead ↔ ∃ n, cm_nodes cm !! k = Some n ∧ is_stale now n = true) as Hmem.
  { intros k. rewrite Hdead, list_elem_of_fmap. split.
    - intros (n & -> & Hin). apply list_elem_of_In, filter_In in Hin as [Hin Hs].
      apply list_elem_of_In, (elem_of_range_snd _ _ _ Hord) in Hin as [k Hk].
      exists n. by rewrite (inv_key _ Hinv k n Hk).
    - intros (n & Hn & Hs). exists n. split; [by rewrite (inv_key _ Hinv k n Hn)|].
      apply list_elem_of_In, filter_In. split; [|done].
      apply list_elem_of_In, (elem_of_range_snd _ _ _ Hord). eauto. }
  split; [|split; [|split; [|split; [done|]]]].
  - intros k. rewrite Hmem. by setoid_rewrite Hstale.
  - intros k (n & Hn & Hs)%Hmem. rewrite Hst, Hn. simpl. by rewrite Hs.
  - intros k Hk. rewrite Hst. destruct (cm_nodes cm !! k) as [n|] eqn:Hn; [|done]. simpl.
    destruct (is_stale now n) eqn:Hs; [|done]. destruct Hk. apply Hmem. eauto.
  - intros k n' Hn'. rewrite Hst in Hn'. apply fmap_Some in Hn' as (n & Hn & ->).
    destruct (is_stale now n) eqn:Hs; [by left|].
    destruct (decide (dn_Status n = StatusDead)) as [|Hnd]; [by left|]. right.
    apply not_true_iff_false in Hs. rewrite Hstale in Hs. apply Z.nlt_ge. naive_solver.
Qed.

(** Heartbeats: a heartbeat of a registered node records the usage, makes the
    node fresh, and turns DEAD into HEALTHY with risk 0 while it leaves every other
    status alone; for the next 15 seconds the dead-node check does not change the
    node.  A heartbeat of an unknown node is an error that changes nothing. *)
Theorem UpdateHeartbeat_keeps_alive t nid used count cm :
  in_int64 t →
  match cm_nodes cm !! nid with
  | None => UpdateHeartbeat t nid used count cm = (Err ("unknown node: " +:+ nid), cm)
  | Some n => ∃ n' cm', UpdateHeartbeat t nid used count cm = (Ok tt, cm') ∧
      cm' = mkChunkManager (<[nid := n']> (cm_nodes cm)) (cm_chunks cm) ∧
      dn_LastHeartbeat n' = t ∧ dn_UsedBytes n' = used ∧ dn_ChunkCount n' = count ∧
      dn_Chunks n' = dn_Chunks n ∧ dn_Status n' ≠ StatusDead ∧
      (dn_Status n = StatusDead → dn_Status n' = StatusHealthy ∧ dn_RiskScore n' = f64_zero) ∧
      (dn_Status n ≠ StatusDead →
         dn_Status n' = dn_Status n ∧ dn_RiskScore n' = dn_RiskScore n) ∧
      ∀ now ord, map_order (cm_nodes cm') ord → t ≤ now ≤ t + 15 * Second →
        cm_nodes (CheckDeadNodes now ord cm').2 !! nid = Some n'
  end.
Proof.
  intros Ht. unfold UpdateHeartbeat. destruct (cm_nodes cm !! nid) as [n|] eqn:Hn; [|done].
  eexists _, _. split; [done|]. split; [done|]. set (n' := if decide _ then _ else _).
  assert (dn_LastHeartbeat n' = t) as Hlast by (unfold n'; by case_decide).
  split; [done|]. split; [unfold n'; by case_decide|]. split; [unfold n'; by case_decide|].
  split; [unfold n'; by case_decide|]. split; [unfold n'; by case_decide|].
  split; [intros Hd; unfold n'; by rewrite decide_True|].
  split; [intros Hd; unfold n'; by rewrite decide_False|].
  intros now ord Hord Hnow. destruct (CheckDeadNodes_state now ord _ Hord) as (_ & _ & ->).
  simpl. rewrite lookup_insert_eq. simpl. unfold is_stale. rewrite Hlast.
  unfold Since, DeadNodeTimeout. rewrite Sub_gtb by (unfold Second; lia).
  destruct (Z.ltb_spec (15 * Second) (now - t)); [lia|]. by rewrite andb_false_r.
Qed.

(** ** Removal *)
Lemma remove_inner_addrs cid nids : ∀ addrs N,
  let s := foldl (λ (s : gset string * gmap string DataNodeInfo) nid,
            match s.2 !! nid with
            | Some node =>
                ({[dn_Address node]} ∪ s.1, alter (set_Chunks (λ X, X ∖ {[cid]})) nid s.2)
            | None => s
            end) (addrs, N) nids in
  ∀ a, a ∈ s.1 ↔ a ∈ addrs ∨ ∃ nid n, nid ∈ nids ∧ N !! nid = Some n ∧ dn_Address n = a.
Proof.
  induction nids as [|nid nids IH]; intros addrs N s a.
  { subst s. simpl. split; [by left|]. intros [?|(nid & n & ?%not_elem_of_nil & _)]; done. }
  subst s. cbn [foldl fst snd]. destruct (N !! nid) as [n|] eqn:Hn; rewrite IH; clear IH.
  - rewrite elem_of_union, elem_of_singleton. split.
    + intros [[->|?]|(nid' & n' & Hin & Hn' & <-)]; [|by left|].
      * right. exists nid, n. split; [left|done].
      * right. apply lookup_alter_Some in Hn' as [[-> (n0 & Hn0 & ->)]|[_ Hn']].
        -- exists nid, n0. split; [left|done].
        -- exists nid', n'. split; [by right|done].
    + intros [?|(nid' & n' & Hin & Hn' & <-)]; [by left; right|].
      destruct (decide (nid' = nid)) as [->|Hne]; [simplify_eq; by left; left|].
      right. exists nid', n'. split; [by apply elem_of_cons in Hin as [?|?]|].
      by rewrite lookup_alter_ne.
  - split; intros [?|(nid' & n' & Hin & Hn' & <-)]; try (by left); right; exists nid', n'.
    + split; [by right|done].
    + split; [|done]. apply elem_of_cons in Hin as [->|?]; [congruence|done].
Qed.

Lemma remove_fold_addrs ids : ∀ addrs cm a,
  a ∈ (foldl remove_chunk_step (addrs, cm) ids).1 ↔
    a ∈ addrs ∨ ∃ c nid n, c ∈ ids ∧ nid ∈ listed_nodes c cm ∧
      cm_nodes cm !! nid = Some n ∧ dn_Address n = a.
Proof.
  induction ids as [|cid ids IH]; intros addrs cm a.
  { simpl. split; [by left|]. intros [?|(c & nid & n & ?%not_elem_of_nil & _)]; done. }
  cbn [foldl]. pose proof (remove_chunk_step_eq addrs cm cid) as Hcm.
  assert (∀ a, a ∈ (remove_chunk_step (addrs, cm) cid).1 ↔ a ∈ addrs ∨
    ∃ nid n, nid ∈ listed_nodes cid cm ∧ cm_nodes cm !! nid = Some n ∧ dn_Address n = a) as Hone.
  { intros b. unfold remove_chunk_step, listed_nodes.
    destruct (cm_chunks cm !! cid) as [m|].
    - rewrite <- (remove_inner_addrs cid (ck_NodeIDs m) addrs (cm_nodes cm) b).
      by destruct (foldl _ _ _).
    - split; [by left|]. intros [?|(nid & n & ?%not_elem_of_nil & _)]; done. }
  destruct (remove_chunk_step (addrs, cm) cid) as [addrs1 cm1]. simpl in Hcm, Hone. subst cm1.
  rewrite IH, Hone. clear IH Hone. split.
  - intros [[?|(nid & n & ? & ? & ?)]|(c & nid & n & Hc & Hl & Hn & <-)]; [by left|right..].
    + exists cid, nid, n. split; [left|done].
    + apply drop_chunk_Some in Hn as (n0 & Hn0 & ->). exists c, nid, n0. split; [by right|].
      split; [|split; [done|by case_decide]]. unfold listed_nodes in *. simpl in Hl.
      destruct (decide (c = cid)) as [->|].
      * rewrite lookup_delete_eq in Hl. by apply not_elem_of_nil in Hl.
      * by rewrite lookup_delete_ne in Hl.
  - intros [?|(c & nid & n & Hc & Hl & Hn & <-)]; [by left; left|].
    destruct (decide (c = cid)) as [->|Hne]; [left; right; eauto|]. right.
    apply elem_of_cons in Hc as [?|Hc]; [done|].
    exists c, nid, (if decide (nid ∈ listed_nodes cid cm)
                    then set_Chunks (λ X, X ∖ {[cid]}) n else n).
    split; [done|]. split; [|split; [|by case_decide]].
    + unfold listed_nodes in *. simpl. by rewrite lookup_delete_ne.
    + apply drop_chunk_Some. eauto.
Qed.

(** Removal: RemoveChunks deletes exactly the given chunks (unknown ones are
    ignored), takes each of them out of the chunk set of every node it listed and
    out of no other set, changes no status, risk or heartbeat, and returns the
    addresses of exactly the nodes that held a listed replica, once each. *)
Theorem RemoveChunks_exact ord ids cm :
  set_order (foldl remove_chunk_step (∅, cm) ids).1 ord →
  let '(addrs, cm') := RemoveChunks ord ids cm in
  (∀ c, cm_chunks cm' !! c = if decide (c ∈ ids) then None else cm_chunks cm !! c) ∧
  (∀ k, is_Some (cm_nodes cm !! k) ↔ is_Some (cm_nodes cm' !! k)) ∧
  (∀ k n n', cm_nodes cm !! k = Some n → cm_nodes cm' !! k = Some n' →
     dn_Status n' = dn_Status n ∧ dn_RiskScore n' = dn_RiskScore n ∧
     dn_LastHeartbeat n' = dn_LastHeartbeat n ∧
     ∀ c, c ∈ dn_Chunks n' ↔ c ∈ dn_Chunks n ∧ ¬ (c ∈ ids ∧ k ∈ listed_nodes c cm)) ∧
  NoDup addrs ∧
  (∀ a, a ∈ addrs ↔ ∃ c nid n, c ∈ ids ∧ nid ∈ listed_nodes c cm ∧
     cm_nodes cm !! nid = Some n ∧ dn_Address n = a).
Proof.
  intros Hord. pose proof (remove_fold_spec ids ∅ cm) as (Hc & [Hdom _] & Hn).
  pose proof (remove_fold_addrs ids ∅ cm) as Ha. unfold RemoveChunks.
  destruct (foldl remove_chunk_step (∅, cm) ids) as [addrs cm']. simpl in *.
  pose proof (range_set_perm _ _ Hord) as Hp.
  split; [done|]. split; [done|]. split; [done|]. split.
  - rewrite Hp. apply NoDup_elements.
  - intros a. rewrite Hp, elem_of_elements, Ha. set_solver.
Qed.

(** ** Replication and statistics *)

(** Under-replication: the scan returns exactly the stored chunks with fewer
    than three live replicas; with the registry's invariant every reported chunk is
    listed once. *)
Theorem GetUnderReplicatedChunks_exact ord cm :
  cm_inv cm → map_order (cm_chunks cm) ord →
  NoDup (ck_ChunkID <$> GetUnderReplicatedChunks ord cm) ∧
  ∀ m, m ∈ GetUnderReplicatedChunks ord cm ↔
    cm_chunks cm !! ck_ChunkID m = Some m ∧ (liveCount cm m < 3)%nat.
Proof.
  intros Hinv Hord. unfold GetUnderReplicatedChunks. split.
  - eapply sublist_NoDup; [by eapply map_order_nodup|].
    assert (ord = ck_ChunkID <$> (range_map ord (cm_chunks cm)).*2) as Hids.
    { rewrite <- (range_map_fst (cm_chunks cm) ord Hord) at 1. rewrite <- list_fmap_compose.
      apply list_fmap_ext. intros i [k m] Hi%list_elem_of_lookup_2. simpl.
      apply elem_of_range_map in Hi as [_ Hk]. by rewrite (inv_chunk _ Hinv k m Hk). }
    rewrite Hids at 2. apply fmap_sublist, Listfilter_sublist.
  - intros m. rewrite list_elem_of_In, filter_In, <- list_elem_of_In.
    rewrite (elem_of_range_snd _ _ _ Hord), Z.ltb_lt. unfold DefaultReplicationFactor. split.
    + intros [[c Hc] Hl]. rewrite (inv_chunk _ Hinv c m Hc). split; [done|lia].
    + intros [Hc Hl]. split; [eauto|lia].
Qed.

Definition count_status (p : NodeStatus → bool) (l : list DataNodeInfo) : Z :=
  Z.of_nat (length (List.filter (λ n, p (dn_Status n)) l)).

Lemma count_status_cons p n l :
  count_status p (n :: l) = (if p (dn_Status n) then 1 else 0) + count_status p l.
Proof. unfold count_status. simpl. destruct (p (dn_Status n)); simpl; lia. Qed.

Lemma count_status_partition l :
  count_status (λ x, bool_decide (x = StatusHealthy)) l
  + count_status (λ x, bool_decide (x = StatusWarning)) l
  + count_status (λ x, bool_decide (x = StatusAtRisk ∨ x = StatusCritical)) l
  + count_status (λ x, bool_decide (x = StatusDead)) l = Z.of_nat (length l).
Proof.
  induction l as [|n l IH]; [done|]. rewrite !count_status_cons. cbn [length].
  destruct (dn_Status n); repeat case_bool_decide; try lia; naive_solver.
Qed.

Lemma sum_sizes_perm l l' : l ≡ₚ l' → sum_sizes l = sum_sizes l'.
Proof. unfold sum_sizes. induction 1; simpl; lia. Qed.

Lemma count_status_perm p l l' : l ≡ₚ l' → count_status p l = count_status p l'.
Proof. induction 1; rewrite ?count_status_cons; lia. Qed.

Lemma stats_fold l : ∀ s,
  let s' := foldl stats_step s l in
  cs_TotalNodes s' = cs_TotalNodes s + Z.of_nat (length l) ∧
  cs_HealthyNodes s' = cs_HealthyNodes s + count_status (λ x, bool_decide (x = StatusHealthy)) l ∧
  cs_WarningNodes s' = cs_WarningNodes s + count_status (λ x, bool_decide (x = StatusWarning)) l ∧
  cs_AtRiskNodes s' = cs_AtRiskNodes s +
    count_status (λ x, bool_decide (x = StatusAtRisk ∨ x = StatusCritical)) l ∧
  cs_DeadNodes s' = cs_DeadNodes s + count_status (λ x, bool_decide (x = StatusDead)) l ∧
  int64 (cs_TotalCap s') = int64 (cs_TotalCap s + sum_sizes (dn_CapacityBytes <$> l)) ∧
  int64 (cs_TotalUsed s') = int64 (cs_TotalUsed s + sum_sizes (dn_UsedBytes <$> l)) ∧
  cs_TotalChunks s' = cs_TotalChunks s.
Proof.
  induction l as [|n l IH]; intros s; [simpl; unfold count_status; simpl; by rewrite !Z.add_0_r|].
  cbn [foldl]. destruct (IH (stats_step s n)) as (-> & -> & -> & -> & -> & -> & -> & ->).
  clear IH. rewrite !count_status_cons, !fmap_cons. unfold stats_step.
  cbn [cs_TotalNodes cs_HealthyNodes cs_WarningNodes cs_AtRiskNodes cs_DeadNodes cs_TotalCap
    cs_TotalUsed cs_TotalChunks length]. rewrite !int64_add_l. cbn [sum_sizes foldr].
  fold (sum_sizes (dn_CapacityBytes <$> l)) (sum_sizes (dn_UsedBytes <$> l)).
  repeat split; try lia; f_equal; lia.
Qed.

(** Statistics: the four status counters partition the registered nodes, the
    totals are the sums of the nodes' numbers modulo 2^64 (exact when they fit),
    and the chunk count is the number of stored chunks, whatever the order in which
    the map is visited. *)
Theorem GetClusterStats_partition ord cm :
  map_order (cm_nodes cm) ord →
  let s := GetClusterStats ord cm in
  let nodes := (map_to_list (cm_nodes cm)).*2 in
  cs_TotalNodes s = Z.of_nat (size (cm_nodes cm)) ∧
  cs_HealthyNodes s + cs_WarningNodes s + cs_AtRiskNodes s + cs_DeadNodes s = cs_TotalNodes s ∧
  cs_HealthyNodes s = count_status (λ x, bool_decide (x = StatusHealthy)) nodes ∧
  cs_DeadNodes s = count_status (λ x, bool_decide (x = StatusDead)) nodes ∧
  int64 (cs_TotalCap s) = int64 (sum_sizes (dn_CapacityBytes <$> nodes)) ∧
  int64 (cs_TotalUsed s) = int64 (sum_sizes (dn_UsedBytes <$> nodes)) ∧
  cs_TotalChunks s = Z.of_nat (size (cm_chunks cm)).
Proof.
  intros Hord s nodes.
  assert (GetAllNodes ord cm ≡ₚ nodes) as Hp by (apply fmap_Permutation, range_map_perm, Hord).
  destruct (stats_fold (GetAllNodes ord cm)
    (mkClusterStats 0 0 0 0 0 0 0 (Z.of_nat (size (cm_chunks cm)))))
    as (Ht & Hh & Hw & Ha & Hd & Hc & Hu & Hn).
  fold (GetClusterStats ord cm) in *. fold s in Ht, Hh, Hw, Ha, Hd, Hc, Hu, Hn. simpl in *.
  assert (∀ p, count_status p (GetAllNodes ord cm) = count_status p nodes) as Hcount.
  { intros p. by apply count_status_perm. }
  assert (∀ f : DataNodeInfo → Z, sum_sizes (f <$> GetAllNodes ord cm) = sum_sizes (f <$> nodes)) as Hsum.
  { intros f. by apply sum_sizes_perm, fmap_Permutation. }
  split; [rewrite Ht; unfold GetAllNodes; by rewrite length_fmap, (range_map_length _ ord Hord)|].
  split.
  { rewrite Ht, Hh, Hw, Ha, Hd. apply count_status_partition. }
  by rewrite Hh, Hd, Hc, Hu, Hn, !Hcount, !Hsum.
Qed.

(** ** Concrete runs *)
Section witnesses.

Definition demo_register (addr : string) (cm : ChunkManager) : ChunkManager :=
  (RegisterNode 0 (map_keys (cm_nodes cm)) addr 1000 cm).2.

(** Four registered nodes, the last with a known risk. *)
Definition demo_cm : ChunkManager :=
  UpdateNodeHealth "node-4" (RiskToStatus (f64_const 3 10)) (f64_const 3 10)
    (demo_register "d:9000" (demo_register "c:9000" (demo_register "b:9000"
      (demo_register "a:9000" NewChunkManager)))).

Lemma demo_register_step addr cm : cm_step cm (demo_register addr cm).
Proof.
  unfold demo_register.
  destruct (RegisterNode 0 (map_keys (cm_nodes cm)) addr 1000 cm) as [r cm'] eqn:E.
  eapply step_register; [apply map_order_keys|exact E].
Qed.

Lemma demo_reach : rtc cm_step NewChunkManager demo_cm.
Proof.
  do 4 (eapply rtc_l; [apply demo_register_step|]).
  eapply rtc_l; [apply step_health|apply rtc_refl].
Qed.

Lemma demo_inv : cm_inv demo_cm.
Proof. exact (cm_steps_inv _ _ cm_inv_new demo_reach). Qed.

Definition demo_ord : list string := map_keys (cm_nodes demo_cm).
Definition demo_size : Z := 5 * 1024 * 1024.
Definition demo_alloc : go (list ChunkPlacementInfo) * ChunkManager :=
  AllocateChunks 0 demo_ord "/f" 2 demo_size demo_cm.
Definition demo_ps : list ChunkPlacementInfo :=
  Eval vm_compute in match demo_alloc.1 with Ok ps => ps | _ => [] end.
Definition demo_cm2 : ChunkManager := demo_alloc.2.

Lemma demo_order : map_order (cm_nodes demo_cm) demo_ord.
Proof. apply map_order_keys. Qed.

Lemma demo_alloc_ok :
  AllocateChunks 0 demo_ord "/f" 2 demo_size demo_cm = (Ok demo_ps, demo_cm2).
Proof. vm_compute. reflexivity. Qed.

Lemma demo_nodup : NoDup (cp_ChunkID <$> demo_ps).
Proof. apply (bool_decide_unpack _). vm_compute. exact I. Qed.

Lemma registry_invariant_witness : rtc cm_step NewChunkManager demo_cm ∧ cm_inv demo_cm.
Proof. split; [exact demo_reach|]. apply registry_invariant. exact demo_reach. Defined.

Lemma AllocateChunks_placement_witness :
  (cp_NodeIDs <$> demo_ps) = [["node-3"; "node-1"; "node-2"]; ["node-3"; "node-1"; "node-2"]] ∧
  Z.of_nat (length demo_ps) = 2.
Proof.
  split; [vm_compute; reflexivity|].
  exact (proj1 (AllocateChunks_placement 0 demo_ord "/f" 2 demo_size demo_cm demo_ps demo_cm2
    demo_inv demo_order demo_alloc_ok)).
Defined.

Lemma AllocateChunks_tables_witness :
  NoDup (cp_ChunkID <$> demo_ps) ∧
  (∀ c, c ∉ cp_ChunkID <$> demo_ps → cm_chunks demo_cm2 !! c = cm_chunks demo_cm !! c).
Proof.
  split; [exact demo_nodup|].
  exact (proj1 (proj2 (AllocateChunks_tables 0 demo_ord "/f" 2 demo_size demo_cm demo_ps demo_cm2
    demo_inv demo_order demo_alloc_ok demo_nodup))).
Defined.

Lemma AllocateChunks_sizes_witness :
  sum_sizes ((λ p, default 0 (ck_Size <$> cm_chunks demo_cm2 !! cp_ChunkID p)) <$> demo_ps)
    = demo_size.
Proof.
  exact (proj2 (AllocateChunks_sizes 0 demo_ord "/f" demo_size demo_cm demo_ps demo_cm2
    demo_inv demo_order (conj eq_refl eq_refl) demo_alloc_ok demo_nodup)).
Defined.

Lemma RegisterNode_spec_witness : cm_inv demo_cm ∧
  ∃ nid cm', RegisterNode 7 demo_ord "b:9000" 5 demo_cm = (Ok nid, cm') ∧ nid = "node-2".
Proof.
  split; [exact demo_inv|].
  destruct (RegisterNode_spec 7 demo_ord "b:9000" 5 demo_cm demo_inv demo_order)
    as (nid & cm' & Heq & _).
  exists nid, cm'. split; [exact Heq|]. apply (f_equal fst) in Heq. vm_compute in Heq.
  by injection Heq.
Defined.

Definition demo_now : Time := 16 * Second.

Lemma CheckDeadNodes_marks_stale_witness :
  (∀ k, k ∈ (CheckDeadNodes demo_now demo_ord demo_cm).1 ↔
     ∃ n, cm_nodes demo_cm !! k = Some n ∧ dn_Status n ≠ StatusDead ∧
       15 * Second < demo_now - dn_LastHeartbeat n) ∧
  length (CheckDeadNodes demo_now demo_ord demo_cm).1 = 4%nat.
Proof.
  split; [|vm_compute; reflexivity].
  assert (∀ k n, cm_nodes demo_cm !! k = Some n → 0 ≤ dn_LastHeartbeat n ≤ demo_now) as Hpast.
  { apply (bool_decide_unpack (map_Forall (λ _ n, 0 ≤ dn_LastHeartbeat n ≤ demo_now)
      (cm_nodes demo_cm))). vm_compute. exact I. }
  pose proof (CheckDeadNodes_marks_stale demo_now demo_ord demo_cm demo_inv demo_order
    ltac:(vm_compute; split; [discriminate|reflexivity]) Hpast) as H.
  destruct (CheckDeadNodes demo_now demo_ord demo_cm). exact (proj1 H).
Defined.

Definition demo_dead : DataNodeInfo :=
  mkDataNodeInfo "node-1" "a:9000" 1000 0 0 StatusDead f64_one 0 ∅.
Definition demo_one : ChunkManager := mkChunkManager {["node-1" := demo_dead]} ∅.

Lemma UpdateHeartbeat_keeps_alive_witness :
  ∃ n' cm', UpdateHeartbeat Second "node-1" 10 1 demo_one = (Ok tt, cm') ∧
    dn_Status n' = StatusHealthy ∧ cm_nodes cm' = <["node-1" := n']> (cm_nodes demo_one).
Proof.
  pose proof (UpdateHeartbeat_keeps_alive Second "node-1" 10 1 demo_one
    ltac:(vm_compute; split; [discriminate|reflexivity])) as H.
  replace (cm_nodes demo_one !! "node-1") with (Some demo_dead) in H by reflexivity.
  destruct H as (n' & cm' & H1 & H2 & _ & _ & _ & _ & _ & H3 & _). exists n', cm'.
  split; [exact H1|]. split; [exact (proj1 (H3 eq_refl))|]. rewrite H2. reflexivity.
Defined.

Definition demo_affected : list string :=
  elements (foldl remove_chunk_step (∅, demo_cm2) (cp_ChunkID <$> demo_ps)).1.

Lemma RemoveChunks_exact_witness :
  (RemoveChunks demo_affected (cp_ChunkID <$> demo_ps) demo_cm2).1
    = ["c:9000"; "a:9000"; "b:9000"] ∧
  NoDup (RemoveChunks demo_affected (cp_ChunkID <$> demo_ps) demo_cm2).1.
Proof.
  split; [vm_compute; reflexivity|].
  pose proof (RemoveChunks_exact demo_affected (cp_ChunkID <$> demo_ps) demo_cm2
    (set_order_elements _)) as H.
  destruct (RemoveChunks demo_affected (cp_ChunkID <$> demo_ps) demo_cm2) as [addrs cm'].
  apply H.
Defined.

Lemma demo_inv2 : cm_inv demo_cm2.
Proof.
  exact (proj1 (AllocateChunks_inv 0 demo_ord "/f" 2 demo_size demo_cm _ demo_cm2
    demo_inv demo_order demo_alloc_ok)).
Qed.

Lemma GetUnderReplicatedChunks_exact_witness :
  GetUnderReplicatedChunks (map_keys (cm_chunks demo_cm2)) demo_cm2 = [] ∧
  NoDup (ck_ChunkID <$> GetUnderReplicatedChunks (map_keys (cm_chunks demo_cm2)) demo_cm2).
Proof.
  split; [vm_compute; reflexivity|].
  exact (proj1 (GetUnderReplicatedChunks_exact _ demo_cm2 demo_inv2 (map_order_keys _))).
Defined.

Lemma GetClusterStats_partition_witness :
  cs_HealthyNodes (GetClusterStats demo_ord demo_cm) = 3 ∧
  cs_TotalNodes (GetClusterStats demo_ord demo_cm) = 4.
Proof.
  split; [vm_compute; reflexivity|].
  exact (proj1 (GetClusterStats_partition demo_ord demo_cm demo_order)).
Defined.
End witnesses.
