(* ===== verification/Metrics.v ===== *)
(** * internal/health/metrics.go: sliding windows and the metric store

    A [*NodeMetrics] is reached only through [ms.nodes] and its windows only
    through [nm.Windows]; writes through these pointers are updates of the store.
    The locks make each method atomic. *)
From stdpp Require Export sorting.
From S2P Require Export Common.
Local Open Scope Z_scope.

(** ** Data *)

(** [type MetricType string] *)
Definition MetricType : Type := string.
#[global] Instance MetricType_eq_dec : EqDecision MetricType := _ : EqDecision string.
#[global] Instance MetricType_countable : Countable MetricType := _ : Countable string.
#[global] Typeclasses Opaque MetricType.

Definition MetricDiskIOLatency : MetricType := "disk_io_latency"%string.
Definition MetricDiskUtil : MetricType := "disk_utilization"%string.
Definition MetricErrorRate : MetricType := "error_rate"%string.
Definition MetricResponseTime : MetricType := "response_time"%string.
Definition MetricCPUUsage : MetricType := "cpu_usage"%string.
Definition MetricMemoryUsage : MetricType := "memory_usage"%string.

Definition AllMetricTypes : list MetricType :=
  [MetricDiskIOLatency; MetricDiskUtil; MetricErrorRate; MetricResponseTime; MetricCPUUsage;
   MetricMemoryUsage].

Record MetricPoint := mkMetricPoint { mp_Value : float64; mp_Timestamp : Time }.

Record SlidingWindow := mkSlidingWindow {
  sw_points : list MetricPoint;
  sw_duration : Duration;
}.

Record MetricWindows := mkMetricWindows {
  mw_Short : SlidingWindow;
  mw_Medium : SlidingWindow;
  mw_Long : SlidingWindow;
}.

Record NodeMetrics := mkNodeMetrics {
  nm_NodeID : string;
  nm_Windows : gmap MetricType MetricWindows;
}.

Record MetricStore := mkMetricStore { ms_nodes : gmap string NodeMetrics }.

(** ** Sliding windows *)
Definition NewSlidingWindow (duration : Duration) : SlidingWindow := mkSlidingWindow [] duration.

(** The loop of [evict]: the number of leading points before the cutoff. *)
Fixpoint evict_idx (cutoff : Time) (points : list MetricPoint) : nat :=
  match points with
  | p :: rest => if Before (mp_Timestamp p) cutoff then S (evict_idx cutoff rest) else 0
  | [] => 0
  end.

Definition evict (now : Time) (sw : SlidingWindow) : SlidingWindow :=
  let cutoff := GoTime.Add now (- sw_duration sw) in
  let idx := evict_idx cutoff (sw_points sw) in
  if decide (0 < idx)%nat then mkSlidingWindow (drop idx (sw_points sw)) (sw_duration sw) else sw.

Definition SlidingWindow_Add (value : float64) (ts : Time) (sw : SlidingWindow)
    : SlidingWindow :=
  evict ts (mkSlidingWindow (sw_points sw ++ [mkMetricPoint value ts]) (sw_duration sw)).

Definition Points (sw : SlidingWindow) : list MetricPoint := sw_points sw.
Definition Values (sw : SlidingWindow) : list float64 := mp_Value <$> sw_points sw.
Definition Len (sw : SlidingWindow) : nat := length (sw_points sw).

Definition Latest (sw : SlidingWindow) : float64 :=
  match last (sw_points sw) with
  | None => f64_zero
  | Some p => mp_Value p
  end.

Definition Mean (sw : SlidingWindow) : float64 :=
  if decide (length (sw_points sw) = 0%nat) then f64_zero
  else
    let sum := foldl (λ s p, (s + mp_Value p)%float) f64_zero (sw_points sw) in
    (sum / f64_of_Z (Z.of_nat (length (sw_points sw))))%float.

(** ** Metrics of a node *)
Definition NewMetricWindows : MetricWindows :=
  mkMetricWindows (NewSlidingWindow (5 * Minute)) (NewSlidingWindow (15 * Minute))
    (NewSlidingWindow (1 * Hour)).

Definition NewNodeMetrics (nodeID : string) : NodeMetrics :=
  mkNodeMetrics nodeID (foldl (λ m mt, <[mt := NewMetricWindows]> m) ∅ AllMetricTypes).

Definition add_to_windows (value : float64) (ts : Time) (w : MetricWindows) : MetricWindows :=
  mkMetricWindows (SlidingWindow_Add value ts (mw_Short w))
    (SlidingWindow_Add value ts (mw_Medium w)) (SlidingWindow_Add value ts (mw_Long w)).

Definition Record_ (metricType : MetricType) (value : float64) (ts : Time) (nm : NodeMetrics)
    : NodeMetrics :=
  match nm_Windows nm !! metricType with
  | None => nm
  | Some w => mkNodeMetrics (nm_NodeID nm) (<[metricType := add_to_windows value ts w]> (nm_Windows nm))
  end.

Definition GetWindow (metricType : MetricType) (window : string) (nm : NodeMetrics)
    : option SlidingWindow :=
  match nm_Windows nm !! metricType with
  | None => None
  | Some w =>
      if decide (window = "short") then Some (mw_Short w)
      else if decide (window = "medium") then Some (mw_Medium w)
      else if decide (window = "long") then Some (mw_Long w)
      else Some (mw_Short w)
  end.

(** ** The store *)
Definition NewMetricStore : MetricStore := mkMetricStore ∅.

Definition GetOrCreate (nodeID : string) (ms : MetricStore) : NodeMetrics * MetricStore :=
  match ms_nodes ms !! nodeID with
  | Some nm => (nm, ms)
  | None =>
      let nm := NewNodeMetrics nodeID in
      (nm, mkMetricStore (<[nodeID := nm]> (ms_nodes ms)))
  end.

Definition MetricStore_Get (nodeID : string) (ms : MetricStore) : option NodeMetrics :=
  ms_nodes ms !! nodeID.

Definition AllNodeIDs (ord : list string) (ms : MetricStore) : list string :=
  (range_map ord (ms_nodes ms)).*1.

(** A write through the pointer [ms.nodes[k]]. *)
Definition upd_metrics (k : string) (f : NodeMetrics → NodeMetrics) (ms : MetricStore)
    : MetricStore := mkMetricStore (alter f k (ms_nodes ms)).

(** ** Lemmas on windows *)
Definition fresh_at (cutoff : Time) (p : MetricPoint) : bool := negb (Before (mp_Timestamp p) cutoff).

(** Points in the order of their timestamps. *)
Definition time_sorted (l : list MetricPoint) : Prop :=
  StronglySorted (λ p q, mp_Timestamp p ≤ mp_Timestamp q) l.

Lemma evict_points now sw :
  sw_points (evict now sw) =
    drop (evict_idx (GoTime.Add now (- sw_duration sw)) (sw_points sw)) (sw_points sw).
Proof.
  unfold evict. case_decide as Hi; [done|].
  replace (evict_idx (GoTime.Add now (- sw_duration sw)) (sw_points sw)) with 0%nat by lia. done.
Qed.

Lemma evict_duration now sw : sw_duration (evict now sw) = sw_duration sw.
Proof. unfold evict. by case_decide. Qed.

Lemma evict_idx_sorted cutoff l :
  time_sorted l → drop (evict_idx cutoff l) l = List.filter (fresh_at cutoff) l.
Proof.
  unfold time_sorted. induction 1 as [|p l Hl IH Hp]; [done|]. simpl. unfold fresh_at at 1.
  destruct (Before (mp_Timestamp p) cutoff) eqn:Hb; simpl; [exact IH|]. f_equal.
  clear IH Hl. induction Hp as [|q l Hq Hp IH]; [done|]. simpl. unfold fresh_at at 1.
  replace (Before (mp_Timestamp q) cutoff) with false by (unfold Before in *; lia).
  simpl. by rewrite <- IH.
Qed.

Lemma filter_filter_impl {A} (f g : A → bool) l :
  (∀ x, g x = true → f x = true) → List.filter g (List.filter f l) = List.filter g l.
Proof.
  intros Hfg. induction l as [|x l IH]; [done|]. simpl. destruct (f x) eqn:Hf; simpl; [by rewrite IH|].
  destruct (g x) eqn:Hg; [|done]. apply Hfg in Hg. congruence.
Qed.

Lemma SlidingWindow_Add_duration v ts sw :
  sw_duration (SlidingWindow_Add v ts sw) = sw_duration sw.
Proof. unfold SlidingWindow_Add. by rewrite evict_duration. Qed.

(** The new point always stays: its timestamp is not before the cutoff. *)
Lemma evict_idx_snoc cutoff l p :
  Before (mp_Timestamp p) cutoff = false → (evict_idx cutoff (l ++ [p]) ≤ length l)%nat.
Proof.
  intros Hp. induction l as [|q l IH]; simpl; [by rewrite Hp|].
  destruct (Before (mp_Timestamp q) cutoff); lia.
Qed.

Lemma SlidingWindow_Add_last v ts sw :
  0 ≤ sw_duration sw → last (sw_points (SlidingWindow_Add v ts sw)) = Some (mkMetricPoint v ts).
Proof.
  intros Hd. unfold SlidingWindow_Add. rewrite evict_points. simpl.
  set (cutoff := GoTime.Add ts (- sw_duration sw)).
  assert (evict_idx cutoff (sw_points sw ++ [mkMetricPoint v ts]) ≤ length (sw_points sw))%nat as Hi.
  { apply evict_idx_snoc. unfold Before, cutoff, GoTime.Add. simpl. apply Z.ltb_ge. lia. }
  rewrite drop_app_le by done. apply last_snoc.
Qed.

Lemma Latest_Add v ts sw : 0 ≤ sw_duration sw → Latest (SlidingWindow_Add v ts sw) = v.
Proof. intros Hd. unfold Latest. by rewrite SlidingWindow_Add_last. Qed.

Definition add_point (sw : SlidingWindow) (p : MetricPoint) : SlidingWindow :=
  SlidingWindow_Add (mp_Value p) (mp_Timestamp p) sw.

Lemma time_sorted_filter f l : time_sorted l → time_sorted (List.filter f l).
Proof.
  unfold time_sorted. induction 1 as [|p l Hl IH Hp]; [constructor|]. simpl.
  destruct (f p); [|done]. constructor; [done|]. rewrite Forall_forall in Hp |- *.
  intros q Hq. apply Hp. apply list_elem_of_In in Hq. apply filter_In in Hq as [Hq _].
  by apply list_elem_of_In.
Qed.

(** One step of a run: what a window that holds the recent points of [l] holds
    after the next point. *)
Lemma add_point_recent sw l p d :
  0 ≤ d → sw_duration sw = d → time_sorted (l ++ [p]) →
  (∀ q, last l = Some q → sw_points sw = List.filter (fresh_at (mp_Timestamp q - d)) l) →
  (l = [] → sw_points sw = []) →
  sw_points (add_point sw p) = List.filter (fresh_at (mp_Timestamp p - d)) (l ++ [p]).
Proof.
  intros Hd Hdur Hs Hlast Hnil. unfold add_point, SlidingWindow_Add.
  rewrite evict_points. cbn [sw_points sw_duration]. rewrite Hdur.
  change (GoTime.Add (mp_Timestamp p) (- d)) with (mp_Timestamp p - d).
  replace (mkMetricPoint (mp_Value p) (mp_Timestamp p)) with p by (by destruct p).
  destruct (last l) as [q|] eqn:Hq.
  - rewrite (Hlast q eq_refl).
    assert (mp_Timestamp q ≤ mp_Timestamp p) as Hqp.
    { apply StronglySorted_app in Hs as (Hall & _). apply Hall; [|set_solver].
      apply last_Some in Hq as [l' ->]. set_solver. }
    assert (fresh_at (mp_Timestamp q - d) p = true) as Hp.
    { unfold fresh_at, Before. lia. }
    replace (List.filter (fresh_at (mp_Timestamp q - d)) l ++ [p])
      with (List.filter (fresh_at (mp_Timestamp q - d)) (l ++ [p]))
      by (rewrite List.filter_app; simpl; by rewrite Hp).
    rewrite evict_idx_sorted by (by apply time_sorted_filter). apply filter_filter_impl.
    intros r. unfold fresh_at, Before. lia.
  - apply last_None in Hq as ->. rewrite Hnil by done. by rewrite evict_idx_sorted.
Qed.

Lemma window_run d l :
  0 ≤ d → time_sorted l →
  let sw := foldl add_point (NewSlidingWindow d) l in
  sw_duration sw = d ∧ (l = [] → sw_points sw = []) ∧
  ∀ q, last l = Some q → sw_points sw = List.filter (fresh_at (mp_Timestamp q - d)) l.
Proof.
  intros Hd. induction l as [|p l IH] using rev_ind; [done|]. intros Hs.
  assert (time_sorted l) as Hl by (by apply StronglySorted_app in Hs as (_ & ? & _)).
  destruct (IH Hl) as (Hdur & Hnil & Hpts). rewrite foldl_snoc.
  split; [unfold add_point; by rewrite SlidingWindow_Add_duration|].
  split; [by intros [_ ?]%app_eq_nil|]. intros q. rewrite last_snoc. intros [= <-].
  by apply add_point_recent.
Qed.

(** C34: Sliding window: after any sequence of points with non-decreasing
    timestamps, the window holds exactly those no older than its duration before
    the newest one, in the order they arrived; the newest is what [Latest]
    returns. *)
Theorem SlidingWindow_holds_recent d l p :
  0 ≤ d → time_sorted (l ++ [p]) →
  let sw := foldl add_point (NewSlidingWindow d) (l ++ [p]) in
  Points sw = List.filter (λ q, mp_Timestamp p - d <=? mp_Timestamp q) (l ++ [p]) ∧
  Latest sw = mp_Value p ∧ sw_duration sw = d.
Proof.
  intros Hd Hs sw. destruct (window_run d (l ++ [p]) Hd Hs) as (Hdur & _ & Hpts).
  fold sw in Hdur, Hpts. split; [|split; [|done]].
  - unfold Points. rewrite (Hpts p) by apply last_snoc. apply filter_ext.
    intros q. unfold fresh_at, Before. lia.
  - unfold sw. rewrite foldl_snoc. unfold add_point at 1. apply Latest_Add.
    by destruct (window_run d l Hd ltac:(by apply StronglySorted_app in Hs as (_ & ? & _))) as [-> _].
Qed.

Lemma SlidingWindow_holds_recent_witness :
  let p i := mkMetricPoint f64_one (i * Minute) in
  Points (foldl add_point (NewSlidingWindow (5 * Minute)) ([p 0; p 4] ++ [p 7])) = [p 4; p 7].
Proof.
  intros p. rewrite (proj1 (SlidingWindow_holds_recent (5 * Minute) [p 0; p 4] (p 7)
    ltac:(discriminate) ltac:(repeat constructor; discriminate))).
  reflexivity.
Defined.

(** ** Lemmas on node metrics *)

(** Every tracked metric has its three windows, with their durations. *)
Definition metrics_wf (nm : NodeMetrics) : Prop :=
  ∀ mt, mt ∈ AllMetricTypes → ∃ w, nm_Windows nm !! mt = Some w ∧
    sw_duration (mw_Short w) = 5 * Minute ∧ sw_duration (mw_Medium w) = 15 * Minute ∧
    sw_duration (mw_Long w) = 1 * Hour.

Lemma NewNodeMetrics_wf nodeID : metrics_wf (NewNodeMetrics nodeID).
Proof.
  intros mt Hmt. exists NewMetricWindows. split; [|done].
  unfold AllMetricTypes in Hmt. rewrite !elem_of_cons, elem_of_nil in Hmt.
  destruct Hmt as [->|[->|[->|[->|[->|[->|[]]]]]]]; reflexivity.
Qed.

Lemma Record__lookup mt v ts nm mt' :
  nm_Windows (Record_ mt v ts nm) !! mt' =
    if decide (mt' = mt) then add_to_windows v ts <$> nm_Windows nm !! mt'
    else nm_Windows nm !! mt'.
Proof.
  unfold Record_. destruct (nm_Windows nm !! mt) as [w|] eqn:Hw; simpl.
  - case_decide as Heq; [subst; by rewrite lookup_insert_eq, Hw|by rewrite lookup_insert_ne].
  - case_decide as Heq; [subst; by rewrite Hw|done].
Qed.

Lemma Record__wf mt v ts nm : metrics_wf nm → metrics_wf (Record_ mt v ts nm).
Proof.
  intros Hwf mt' Hmt'. rewrite Record__lookup. destruct (Hwf mt' Hmt') as (w & -> & H1 & H2 & H3).
  case_decide; [|by exists w]. exists (add_to_windows v ts w). split; [done|].
  simpl. by rewrite !SlidingWindow_Add_duration.
Qed.

Lemma GetWindow_short mt nm : metrics_wf nm → mt ∈ AllMetricTypes →
  ∃ w, GetWindow mt "short" nm = Some (mw_Short w) ∧ nm_Windows nm !! mt = Some w.
Proof.
  intros Hwf Hmt. destruct (Hwf mt Hmt) as (w & Hw & _). exists w.
  unfold GetWindow. rewrite Hw. by rewrite decide_True.
Qed.

Lemma GetOrCreate_spec nodeID ms :
  let '(nm, ms') := GetOrCreate nodeID ms in
  ms_nodes ms' !! nodeID = Some nm ∧
  nm = default (NewNodeMetrics nodeID) (ms_nodes ms !! nodeID) ∧
  ∀ k, k ≠ nodeID → ms_nodes ms' !! k = ms_nodes ms !! k.
Proof.
  unfold GetOrCreate. destruct (ms_nodes ms !! nodeID) as [nm|] eqn:Hn; [done|]. simpl.
  split; [apply lookup_insert_eq|]. split; [done|]. intros k Hk. by rewrite lookup_insert_ne.
Qed.
