(* ===== verification/Monitor.v ===== *)
(** * internal/health/monitor.go: ingestion of health reports *)
From S2P Require Export Metrics.
Local Open Scope Z_scope.

(** ** Data *)
Record HealthReport := mkHealthReport {
  hr_NodeID : string;
  hr_DiskIOLatency : float64;
  hr_DiskUtil : float64;
  hr_ErrorCount : Z;
  hr_ResponseTime : float64;
  hr_CPUUsage : float64;
  hr_MemoryUsage : float64;
  hr_Timestamp : Time;
}.

Record Monitor := mkMonitor {
  mon_store : MetricStore;
  mon_lastErrorCount : gmap string Z;
}.

Definition NewMonitor : Monitor := mkMonitor NewMetricStore ∅.

(** ** Operations *)

(** [nm] stays the pointer [store.nodes[report.NodeID]] throughout, so each
    [nm.Record] is an update of that entry. *)
Definition IngestReport (report : HealthReport) (m : Monitor) : Monitor :=
  let id := hr_NodeID report in
  let ts := hr_Timestamp report in
  let store := (GetOrCreate id (mon_store m)).2 in
  let store := upd_metrics id (Record_ MetricDiskIOLatency (hr_DiskIOLatency report) ts) store in
  let store := upd_metrics id (Record_ MetricDiskUtil (hr_DiskUtil report) ts) store in
  let store := upd_metrics id (Record_ MetricResponseTime (hr_ResponseTime report) ts) store in
  let store := upd_metrics id (Record_ MetricCPUUsage (hr_CPUUsage report) ts) store in
  let store := upd_metrics id (Record_ MetricMemoryUsage (hr_MemoryUsage report) ts) store in
  let store :=
    match mon_lastErrorCount m !! id with
    | Some lastCount =>
        let delta := int64 (hr_ErrorCount report - lastCount) in
        let delta := if delta <? 0 then 0 else delta in
        upd_metrics id (Record_ MetricErrorRate (f64_of_Z delta) ts) store
    | None => upd_metrics id (Record_ MetricErrorRate f64_zero ts) store
    end in
  mkMonitor store (<[id := hr_ErrorCount report]> (mon_lastErrorCount m)).

Definition GetNodeMetrics (nodeID : string) (m : Monitor) : option NodeMetrics :=
  MetricStore_Get nodeID (mon_store m).

Definition GetAllNodeIDs (ord : list string) (m : Monitor) : list string :=
  AllNodeIDs ord (mon_store m).

Definition GetLatestSnapshot (nodeID : string) (m : Monitor)
    : option (gmap MetricType float64) :=
  match MetricStore_Get nodeID (mon_store m) with
  | None => None
  | Some nm =>
      Some (foldl (λ snapshot mt,
              match GetWindow mt "short" nm with
              | Some w => <[mt := Latest w]> snapshot
              | None => snapshot
              end) ∅ AllMetricTypes)
  end.

(** ** Lemmas *)

(** The error rate recorded with a report. *)
Definition error_delta (m : Monitor) (report : HealthReport) : float64 :=
  match mon_lastErrorCount m !! hr_NodeID report with
  | Some lastCount => f64_of_Z (Z.max 0 (int64 (hr_ErrorCount report - lastCount)))
  | None => f64_zero
  end.

(** The six values a report records. *)
Definition reported (m : Monitor) (r : HealthReport) : gmap MetricType float64 :=
  {[ MetricDiskIOLatency := hr_DiskIOLatency r; MetricDiskUtil := hr_DiskUtil r;
     MetricErrorRate := error_delta m r; MetricResponseTime := hr_ResponseTime r;
     MetricCPUUsage := hr_CPUUsage r; MetricMemoryUsage := hr_MemoryUsage r ]}.

Definition recorded_in (m : Monitor) (r : HealthReport) (nm : NodeMetrics) : NodeMetrics :=
  let ts := hr_Timestamp r in
  Record_ MetricErrorRate (error_delta m r) ts
    (Record_ MetricMemoryUsage (hr_MemoryUsage r) ts
      (Record_ MetricCPUUsage (hr_CPUUsage r) ts
        (Record_ MetricResponseTime (hr_ResponseTime r) ts
          (Record_ MetricDiskUtil (hr_DiskUtil r) ts
            (Record_ MetricDiskIOLatency (hr_DiskIOLatency r) ts nm))))).

Definition metrics_of (id : string) (m : Monitor) : NodeMetrics :=
  default (NewNodeMetrics id) (ms_nodes (mon_store m) !! id).

Lemma IngestReport_eq r m :
  mon_store (IngestReport r m) =
    mkMetricStore (<[hr_NodeID r := recorded_in m r (metrics_of (hr_NodeID r) m)]>
      (ms_nodes (mon_store m))).
Proof.
  unfold IngestReport. cbv zeta. set (id := hr_NodeID r). cbn [mon_store].
  pose proof (GetOrCreate_spec id (mon_store m)) as Hgoc.
  destruct (GetOrCreate id (mon_store m)) as [nm ms'] eqn:Hms. cbn [snd] in *.
  destruct Hgoc as (Hid & Hnm & Hne). unfold upd_metrics.
  assert (∀ v, mkMetricStore (alter (Record_ MetricErrorRate v (hr_Timestamp r)) id
     (alter (Record_ MetricMemoryUsage (hr_MemoryUsage r) (hr_Timestamp r)) id
     (alter (Record_ MetricCPUUsage (hr_CPUUsage r) (hr_Timestamp r)) id
     (alter (Record_ MetricResponseTime (hr_ResponseTime r) (hr_Timestamp r)) id
     (alter (Record_ MetricDiskUtil (hr_DiskUtil r) (hr_Timestamp r)) id
     (alter (Record_ MetricDiskIOLatency (hr_DiskIOLatency r) (hr_Timestamp r)) id
       (ms_nodes ms')))))))
     = mkMetricStore (<[id := Record_ MetricErrorRate v (hr_Timestamp r)
     (Record_ MetricMemoryUsage (hr_MemoryUsage r) (hr_Timestamp r)
     (Record_ MetricCPUUsage (hr_CPUUsage r) (hr_Timestamp r)
     (Record_ MetricResponseTime (hr_ResponseTime r) (hr_Timestamp r)
     (Record_ MetricDiskUtil (hr_DiskUtil r) (hr_Timestamp r)
     (Record_ MetricDiskIOLatency (hr_DiskIOLatency r) (hr_Timestamp r)
       (metrics_of id m))))))]> (ms_nodes (mon_store m)))) as Halter.
  { intros v. f_equal. apply map_eq. intros k. destruct (decide (k = id)) as [->|Hk].
    - rewrite !lookup_alter_eq, lookup_insert_eq, Hid, Hnm. done.
    - rewrite !lookup_alter_ne, lookup_insert_ne by done. by apply Hne. }
  unfold recorded_in, error_delta. fold id.
  destruct (mon_lastErrorCount m !! id) as [c|]; cbn [ms_nodes]; rewrite Halter; [|done].
  do 3 f_equal. destruct (Z.ltb_spec (int64 (hr_ErrorCount r - c)) 0);
    [rewrite Z.max_l by lia|rewrite Z.max_r by lia]; done.
Qed.

Lemma recorded_in_wf m r nm : metrics_wf nm → metrics_wf (recorded_in m r nm).
Proof. intros Hwf. unfold recorded_in. by repeat apply Record__wf. Qed.

(** In the windows of a metric, a report changes nothing but to add the value it
    reports. *)
Lemma recorded_in_lookup m r nm mt :
  nm_Windows (recorded_in m r nm) !! mt =
    match reported m r !! mt with
    | Some v => add_to_windows v (hr_Timestamp r) <$> nm_Windows nm !! mt
    | None => nm_Windows nm !! mt
    end.
Proof.
  unfold recorded_in, reported. rewrite !Record__lookup, !lookup_insert, lookup_singleton.
  repeat (case_decide; subst; simplify_eq; try done);
    try (exfalso; discriminate).
Qed.

(** Every node of the store is well-formed and stored under its identifier. *)
Definition monitor_wf (m : Monitor) : Prop :=
  ∀ id nm, ms_nodes (mon_store m) !! id = Some nm → metrics_wf nm.

Lemma monitor_wf_new : monitor_wf NewMonitor.
Proof. intros id nm. unfold NewMonitor. simpl. by rewrite lookup_empty. Qed.

Lemma metrics_of_wf m id : monitor_wf m → metrics_wf (metrics_of id m).
Proof.
  intros Hwf. unfold metrics_of. destruct (ms_nodes (mon_store m) !! id) eqn:Hid; simpl;
    [by eapply Hwf|apply NewNodeMetrics_wf].
Qed.

Lemma IngestReport_wf r m : monitor_wf m → monitor_wf (IngestReport r m).
Proof.
  intros Hwf id nm. rewrite IngestReport_eq. simpl.
  intros [[<- <-]|[_ Hid]]%lookup_insert_Some; [|by eapply Hwf].
  by apply recorded_in_wf, metrics_of_wf.
Qed.

Lemma elem_AllMetricTypes mt (P : MetricType → Prop) :
  mt ∈ AllMetricTypes →
  P MetricDiskIOLatency → P MetricDiskUtil → P MetricErrorRate → P MetricResponseTime →
  P MetricCPUUsage → P MetricMemoryUsage → P mt.
Proof.
  unfold AllMetricTypes. rewrite !elem_of_cons, elem_of_nil.
  intros [->|[->|[->|[->|[->|[->|[]]]]]]]; done.
Qed.

Lemma reported_dom m r mt : is_Some (reported m r !! mt) ↔ mt ∈ AllMetricTypes.
Proof.
  unfold reported, AllMetricTypes. rewrite !elem_of_cons, elem_of_nil.
  rewrite !lookup_insert, lookup_singleton.
  split; [|by intros [->|[->|[->|[->|[->|[->|[]]]]]]]; eauto].
  repeat (case_decide; [subst; tauto|]). by intros [??].
Qed.

(** The values a node reports for a metric along a run, with their times. *)
Fixpoint metric_points (mt : MetricType) (id : string) (m : Monitor) (rs : list HealthReport)
    : list MetricPoint :=
  match rs with
  | [] => []
  | r :: rest =>
      (if decide (hr_NodeID r = id)
       then [mkMetricPoint (default f64_zero (reported m r !! mt)) (hr_Timestamp r)] else [])
      ++ metric_points mt id (IngestReport r m) rest
  end.

Definition ingest_all (rs : list HealthReport) (m : Monitor) : Monitor :=
  foldl (λ m r, IngestReport r m) m rs.

Definition add_point_to_windows (w : MetricWindows) (p : MetricPoint) : MetricWindows :=
  add_to_windows (mp_Value p) (mp_Timestamp p) w.

Lemma ingest_all_wf rs m : monitor_wf m → monitor_wf (ingest_all rs m).
Proof.
  revert m. induction rs as [|r rs IH]; intros m Hwf; [done|]. by apply IH, IngestReport_wf.
Qed.

Lemma metrics_of_ingest r m id mt :
  mt ∈ AllMetricTypes →
  nm_Windows (metrics_of id (IngestReport r m)) !! mt =
    (if decide (hr_NodeID r = id)
     then add_to_windows (default f64_zero (reported m r !! mt)) (hr_Timestamp r) <$>
            nm_Windows (metrics_of id m) !! mt
     else nm_Windows (metrics_of id m) !! mt).
Proof.
  intros Hmt. unfold metrics_of at 1. rewrite IngestReport_eq. cbn [ms_nodes].
  destruct (decide (hr_NodeID r = id)) as [<-|Hne]; [|by rewrite lookup_insert_ne].
  rewrite lookup_insert_eq. cbn [from_option]. unfold Datatypes.id. rewrite recorded_in_lookup.
  apply (reported_dom m r) in Hmt as [v Hv]. by rewrite Hv.
Qed.

Lemma windows_of_run rs : ∀ m id mt w,
  mt ∈ AllMetricTypes → nm_Windows (metrics_of id m) !! mt = Some w →
  nm_Windows (metrics_of id (ingest_all rs m)) !! mt =
    Some (foldl add_point_to_windows w (metric_points mt id m rs)).
Proof.
  induction rs as [|r rs IH]; intros m id mt w Hmt Hw; [done|].
  cbn [metric_points ingest_all foldl]. fold (ingest_all rs (IngestReport r m)).
  pose proof (metrics_of_ingest r m id mt Hmt) as Hstep. rewrite Hw in Hstep.
  destruct (decide (hr_NodeID r = id)); by apply IH.
Qed.

Lemma add_points_split l w :
  foldl add_point_to_windows w l =
    mkMetricWindows (foldl add_point (mw_Short w) l) (foldl add_point (mw_Medium w) l)
      (foldl add_point (mw_Long w) l).
Proof. revert w. induction l as [|p l IH]; intros w; [by destruct w|]. simpl. by rewrite IH. Qed.

Lemma metrics_of_stored rs : ∀ m id,
  (is_Some (ms_nodes (mon_store m) !! id) ∨ ∃ r, r ∈ rs ∧ hr_NodeID r = id) →
  ms_nodes (mon_store (ingest_all rs m)) !! id = Some (metrics_of id (ingest_all rs m)).
Proof.
  induction rs as [|r rs IH]; intros m id Hid.
  - destruct Hid as [[nm Hnm]|(r & ?%not_elem_of_nil & _)]; [|done].
    unfold metrics_of. simpl. by rewrite Hnm.
  - apply IH. rewrite IngestReport_eq. simpl.
    destruct (decide (hr_NodeID r = id)) as [<-|Hne].
    + left. rewrite lookup_insert_eq. eauto.
    + rewrite lookup_insert_ne by done. destruct Hid as [?|(r' & Hr' & <-)]; [by left|].
      right. exists r'. apply elem_of_cons in Hr' as [->|?]; done.
Qed.

Lemma metric_points_reporter rs : ∀ m mt id,
  metric_points mt id m rs ≠ [] → ∃ r, r ∈ rs ∧ hr_NodeID r = id.
Proof.
  induction rs as [|r rs IH]; intros m mt id Hne; [done|]. simpl in Hne.
  destruct (decide (hr_NodeID r = id)) as [Heq|Hneq].
  - exists r. split; [left|done].
  - destruct (IH _ _ _ Hne) as (r' & ? & ?). exists r'. split; [by right|done].
Qed.

(** Ingestion: a report becomes the node's latest snapshot, one entry for each
    of the six metrics and no other, where the error rate is the non-negative
    growth of the error counter since the node's previous report (0 at the first);
    the other nodes' metrics do not change. *)
Theorem IngestReport_snapshot r m :
  monitor_wf m →
  GetLatestSnapshot (hr_NodeID r) (IngestReport r m) = Some (reported m r) ∧
  mon_lastErrorCount (IngestReport r m) !! hr_NodeID r = Some (hr_ErrorCount r) ∧
  ∀ id, id ≠ hr_NodeID r →
    GetNodeMetrics id (IngestReport r m) = GetNodeMetrics id m ∧
    mon_lastErrorCount (IngestReport r m) !! id = mon_lastErrorCount m !! id.
Proof.
  intros Hwf. split; [|split].
  - unfold GetLatestSnapshot, MetricStore_Get. rewrite IngestReport_eq. simpl.
    rewrite lookup_insert_eq. f_equal.
    assert (∀ mt v, reported m r !! mt = Some v → ∃ w,
      GetWindow mt "short" (recorded_in m r (metrics_of (hr_NodeID r) m)) = Some w ∧
      Latest w = v) as Hget.
    { intros mt v Hv. assert (mt ∈ AllMetricTypes) as Hmt by (apply (reported_dom m r); eauto).
      destruct (metrics_of_wf m (hr_NodeID r) Hwf mt Hmt) as (w & Hw & Hd & _).
      unfold GetWindow. rewrite recorded_in_lookup, Hv, Hw. eexists. split; [done|].
      simpl. apply Latest_Add. rewrite Hd. unfold Minute, Second. lia. }
    unfold AllMetricTypes. cbn [foldl].
    repeat match goal with
    | |- context [GetWindow ?mt "short" ?nm] =>
        let w := fresh "w" in let H1 := fresh in let H2 := fresh in
        destruct (Hget mt _ eq_refl) as (w & H1 & H2); rewrite H1; cbv beta iota; rewrite H2;
        clear H1 H2
    end.
    unfold reported. apply map_eq. intros k. rewrite !lookup_insert, lookup_singleton, lookup_empty.
    repeat (case_decide; [subst; simplify_eq; try done|]); try done.
  - apply lookup_insert_eq.
  - intros id Hne. split.
    + unfold GetNodeMetrics, MetricStore_Get. rewrite IngestReport_eq. simpl.
      by rewrite lookup_insert_ne.
    + unfold IngestReport. simpl. by rewrite lookup_insert_ne.
Qed.

(** History: after any run of reports from an empty monitor, if the values a
    node reported for a metric arrived in time order, the node's short, medium and
    long windows hold exactly those of the last 5, 15 and 60 minutes, in order. *)
Theorem monitor_windows rs id mt pts p :
  mt ∈ AllMetricTypes →
  metric_points mt id NewMonitor rs = pts ++ [p] → time_sorted (pts ++ [p]) →
  ∃ nm, GetNodeMetrics id (ingest_all rs NewMonitor) = Some nm ∧
    ∀ window d, (window, d) ∈ [("short", 5 * Minute); ("medium", 15 * Minute); ("long", 1 * Hour)] →
      ∃ sw, GetWindow mt window nm = Some sw ∧
        Points sw = List.filter (λ q, mp_Timestamp p - d <=? mp_Timestamp q) (pts ++ [p]).
Proof.
  intros Hmt Hpts Hsorted. exists (metrics_of id (ingest_all rs NewMonitor)). split.
  { apply metrics_of_stored. right. apply (metric_points_reporter rs NewMonitor mt).
    rewrite Hpts. by destruct pts. }
  assert (nm_Windows (metrics_of id NewMonitor) !! mt = Some NewMetricWindows) as Hnew.
  { apply (elem_AllMetricTypes mt (λ mt, nm_Windows (metrics_of id NewMonitor) !! mt =
      Some NewMetricWindows)); done || reflexivity. }
  pose proof (windows_of_run rs NewMonitor id mt _ Hmt Hnew) as Hrun.
  rewrite add_points_split, Hpts in Hrun.
  assert (∀ d, 0 ≤ d → Points (foldl add_point (NewSlidingWindow d) (pts ++ [p])) =
    List.filter (λ q, mp_Timestamp p - d <=? mp_Timestamp q) (pts ++ [p])) as Hwin.
  { intros d Hd. destruct (window_run d (pts ++ [p]) Hd Hsorted) as (_ & _ & Hl).
    unfold Points. rewrite (Hl p) by apply last_snoc. apply filter_ext.
    intros q. unfold fresh_at, Before. lia. }
  intros window d. unfold GetWindow. rewrite Hrun, !elem_of_cons, elem_of_nil.
  intros [[= -> ->]|[[= -> ->]|[[= -> ->]|[]]]]; eexists; (split; [reflexivity|]);
    apply Hwin; unfold Hour, Minute, Second; lia.
Qed.

Definition demo_report (minute errors : Z) : HealthReport :=
  mkHealthReport "node-1" (f64_of_Z 12) (f64_const 1 2) errors (f64_of_Z 3) (f64_const 1 10)
    (f64_const 2 10) (minute * Minute).

Lemma IngestReport_snapshot_witness :
  GetLatestSnapshot "node-1"
    (IngestReport (demo_report 1 7) (IngestReport (demo_report 0 4) NewMonitor))
  = Some (reported (IngestReport (demo_report 0 4) NewMonitor) (demo_report 1 7)) ∧
  error_delta (IngestReport (demo_report 0 4) NewMonitor) (demo_report 1 7) = f64_of_Z 3.
Proof.
  split; [|vm_compute; reflexivity].
  exact (proj1 (IngestReport_snapshot (demo_report 1 7) (IngestReport (demo_report 0 4) NewMonitor)
    (IngestReport_wf (demo_report 0 4) NewMonitor monitor_wf_new))).
Defined.

Lemma monitor_windows_witness :
  let pt minute delta := mkMetricPoint (f64_of_Z delta) (minute * Minute) in
  ∃ nm, GetNodeMetrics "node-1"
    (ingest_all [demo_report 0 4; demo_report 6 7; demo_report 8 5] NewMonitor) = Some nm ∧
    Points <$> GetWindow MetricErrorRate "short" nm = Some [pt 6 3; pt 8 0].
Proof.
  intros pt.
  destruct (monitor_windows [demo_report 0 4; demo_report 6 7; demo_report 8 5] "node-1"
    MetricErrorRate [pt 0 0; pt 6 3] (pt 8 0)) as (nm & Hnm & Hwin).
  - apply (bool_decide_unpack _). vm_compute. exact I.
  - vm_compute. reflexivity.
  - repeat constructor; discriminate.
  - exists nm. split; [exact Hnm|].
    destruct (Hwin "short" (5 * Minute) ltac:(left)) as (sw & -> & Hpts). simpl. rewrite Hpts.
    reflexivity.
Defined.
