(* ===== verification/Predictor.v ===== *)
(** * internal/health/predictor.go: risk scores

    The arithmetic is the [float64] arithmetic of the source, operation by
    operation and in its order. *)
From S2P Require Export Monitor.
Local Open Scope Z_scope.

(** ** Data *)
Definition MetricWeight : gmap MetricType float64 :=
  {[ MetricDiskIOLatency := f64_const 25 100; MetricDiskUtil := f64_const 20 100;
     MetricErrorRate := f64_const 25 100; MetricResponseTime := f64_const 15 100;
     MetricCPUUsage := f64_const 5 100; MetricMemoryUsage := f64_const 10 100 ]}.

Definition MetricThreshold : gmap MetricType float64 :=
  {[ MetricDiskIOLatency := f64_of_Z 50; MetricDiskUtil := f64_const 90 100;
     MetricErrorRate := f64_of_Z 5; MetricResponseTime := f64_of_Z 30;
     MetricCPUUsage := f64_const 90 100; MetricMemoryUsage := f64_const 90 100 ]}.

(** [m[k]] of a [map[MetricType]float64]: zero when the key is absent. *)
Definition f64_at (m : gmap MetricType float64) (mt : MetricType) : float64 :=
  default f64_zero (m !! mt).

Record MetricRisk := mkMetricRisk {
  mr_CurrentValue : float64;
  mr_MeanValue : float64;
  mr_TrendSlope : float64;
  mr_RiskScore : float64;
  mr_Window : string;
}.

Record PredictionResult := mkPredictionResult {
  pr_NodeID : string;
  pr_OverallRisk : float64;
  pr_Status : NodeStatus;
  pr_MetricRisks : gmap MetricType MetricRisk;
  pr_Reasons : list string;
  pr_PredictedAt : Time;
}.

(** ** Statistics *)
Definition clampRisk (v : float64) : float64 :=
  if f64_ltb v f64_zero then f64_zero
  else if f64_gtb v f64_one then f64_one
  else v.

Record RegressionSums := mkRegressionSums {
  rs_X : float64; rs_Y : float64; rs_XY : float64; rs_X2 : float64;
}.

Definition regression_step (baseTime : Time) (s : RegressionSums) (p : MetricPoint)
    : RegressionSums :=
  let x := Seconds (Sub (mp_Timestamp p) baseTime) in
  let y := mp_Value p in
  mkRegressionSums (rs_X s + x)%float (rs_Y s + y)%float (rs_XY s + x * y)%float
    (rs_X2 s + x * x)%float.

Definition linearRegressionSlope (points : list MetricPoint) : float64 :=
  match points with
  | [] | [_] => f64_zero
  | p0 :: _ =>
      let baseTime := mp_Timestamp p0 in
      let s := foldl (regression_step baseTime)
                 (mkRegressionSums f64_zero f64_zero f64_zero f64_zero) points in
      let fn := f64_of_Z (Z.of_nat (length points)) in
      let denominator := (fn * rs_X2 s - rs_X s * rs_X s)%float in
      if f64_ltb (Abs denominator) (f64_const 1 (10 ^ 10)) then f64_zero
      else ((fn * rs_XY s - rs_X s * rs_Y s) / denominator)%float
  end.

Definition computeVolatility (values : list float64) : float64 :=
  let n := Z.of_nat (length values) in
  if n <? 2 then f64_zero
  else
    let sum := foldl (λ s v, (s + v)%float) f64_zero values in
    let mean := (sum / f64_of_Z n)%float in
    let variance :=
      foldl (λ s v, let diff := (v - mean)%float in (s + diff * diff)%float) f64_zero values in
    let variance := (variance / f64_of_Z (n - 1))%float in
    Sqrt variance.

Definition formatReason (mt : MetricType) (risk : MetricRisk) : string :=
  let value := fmt_f false 1 (mr_CurrentValue risk) in
  let percent := fmt_f false 1 (mr_CurrentValue risk * f64_of_Z 100)%float in
  let trend2 := fmt_f true 2 (mr_TrendSlope risk) in
  let trend4 := fmt_f true 4 (mr_TrendSlope risk) in
  if decide (mt = MetricDiskIOLatency) then
    "Disk I/O latency elevated: " +:+ value +:+ "ms (trend: " +:+ trend2 +:+ "/s)"
  else if decide (mt = MetricDiskUtil) then
    "Disk utilization high: " +:+ percent +:+ "% (trend: " +:+ trend4 +:+ "/s)"
  else if decide (mt = MetricErrorRate) then
    "Error rate increasing: " +:+ value +:+ " errors/interval (trend: " +:+ trend2 +:+ "/s)"
  else if decide (mt = MetricResponseTime) then
    "Response time degraded: " +:+ value +:+ "ms (trend: " +:+ trend2 +:+ "/s)"
  else if decide (mt = MetricCPUUsage) then
    "CPU usage high: " +:+ percent +:+ "% (trend: " +:+ trend4 +:+ "/s)"
  else if decide (mt = MetricMemoryUsage) then
    "Memory usage high: " +:+ percent +:+ "% (trend: " +:+ trend4 +:+ "/s)"
  else mt +:+ " risk: " +:+ fmt_f false 2 (mr_RiskScore risk).

(** ** Analysis of one metric *)

(** [min(v, 1.0)] as the source writes it. *)
Definition cap_one (v : float64) : float64 := if f64_gtb v f64_one then f64_one else v.

Definition zero_risk : MetricRisk := mkMetricRisk f64_zero f64_zero f64_zero f64_zero "".

Definition analyzeMetric (nm : NodeMetrics) (metricType : MetricType) (threshold : float64)
    : MetricRisk :=
  match GetWindow metricType "short" nm with
  | None => zero_risk
  | Some shortWin =>
      if decide (Len shortWin < 2)%nat then zero_risk
      else
        let current := Latest shortWin in
        let mean := Mean shortWin in
        let valueRisk := cap_one (current / threshold)%float in
        let '(trendWin, window) :=
          match GetWindow metricType "medium" nm with
          | Some mediumWin =>
              if decide (3 ≤ Len mediumWin)%nat then (mediumWin, "medium")
              else (shortWin, "short")
          | None => (shortWin, "short")
          end in
        let slope := linearRegressionSlope (Points trendWin) in
        let trendRisk :=
          if f64_gtb slope f64_zero
          then cap_one ((slope * f64_of_Z 60) / threshold)%float else f64_zero in
        let volatility := computeVolatility (Values shortWin) in
        let volRisk := cap_one (volatility / (threshold * f64_const 1 2))%float in
        let combined :=
          (f64_const 4 10 * valueRisk + f64_const 4 10 * trendRisk
           + f64_const 2 10 * volRisk)%float in
        let combined :=
          if f64_gtb valueRisk (f64_const 7 10)
          then (f64_const 6 10 * valueRisk + f64_const 25 100 * trendRisk
                + f64_const 15 100 * volRisk)%float
          else combined in
        mkMetricRisk current mean slope (clampRisk combined) window
  end.

(** ** Prediction *)
Record predict_state := mkPredictState {
  ps_sum : float64;
  ps_weight : float64;
  ps_risks : gmap MetricType MetricRisk;
  ps_reasons : list string;
}.

(** The body of the loop of [PredictNode]. *)
Definition predict_step (nm : NodeMetrics) (s : predict_state) (metricType : MetricType)
    : predict_state :=
  let weight := f64_at MetricWeight metricType in
  let threshold := f64_at MetricThreshold metricType in
  let risk := analyzeMetric nm metricType threshold in
  mkPredictState (ps_sum s + mr_RiskScore risk * weight)%float (ps_weight s + weight)%float
    (<[metricType := risk]> (ps_risks s))
    (if f64_geb (mr_RiskScore risk) (f64_const 6 10)
     then ps_reasons s ++ [formatReason metricType risk] else ps_reasons s).

Definition PredictNode (now : Time) (nodeID : string) (m : Monitor) : option PredictionResult :=
  match GetNodeMetrics nodeID m with
  | None => None
  | Some nm =>
      let s := foldl (predict_step nm) (mkPredictState f64_zero f64_zero ∅ []) AllMetricTypes in
      let overall :=
        if f64_gtb (ps_weight s) f64_zero then (ps_sum s / ps_weight s)%float else f64_zero in
      let overall := clampRisk overall in
      Some (mkPredictionResult nodeID overall (RiskToStatus overall) (ps_risks s)
              (ps_reasons s) now)
  end.

Definition PredictAll (now : Time) (ord : list string) (m : Monitor) : list PredictionResult :=
  omap (λ nodeID, PredictNode now nodeID m) (GetAllNodeIDs ord m).

(** ** Lemmas *)

(** A score: a number in [0, 1], or NaN. *)
Definition unit_or_nan (f : float64) : Prop :=
  is_nan f = true ∨ (f64_leb f64_zero f = true ∧ f64_leb f f64_one = true).

Lemma unit_zero : unit_or_nan f64_zero.
Proof. unfold unit_or_nan. right. split; reflexivity. Qed.

Lemma unit_one : unit_or_nan f64_one.
Proof. unfold unit_or_nan. right. split; reflexivity. Qed.

Lemma clampRisk_unit v : unit_or_nan (clampRisk v).
Proof.
  unfold clampRisk. destruct (f64_ltb v f64_zero) eqn:H0; [apply unit_zero|].
  destruct (f64_gtb v f64_one) eqn:H1; [apply unit_one|]. unfold unit_or_nan.
  change (f64_ltb f64_one v = false) in H1.
  destruct (is_nan v) eqn:Hv; [by left|]. right.
  rewrite !f64_leb_ltb by done. rewrite H0, H1. done.
Qed.

Lemma f64_gtb_nan_l f : f64_gtb S754_nan f = false.
Proof. by destruct f. Qed.

Lemma cap_one_nan : cap_one S754_nan = S754_nan.
Proof. reflexivity. Qed.

Lemma clampRisk_nan : clampRisk S754_nan = S754_nan.
Proof. reflexivity. Qed.

Lemma clampRisk_id v :
  f64_leb f64_zero v = true → f64_leb v f64_one = true → clampRisk v = v.
Proof.
  intros H0 H1. destruct (f64_leb_not_nan _ _ H0) as [_ Hv]. unfold clampRisk.
  change (f64_gtb v f64_one) with (f64_ltb f64_one v).
  rewrite f64_leb_ltb in H0, H1 by done. apply negb_true_iff in H0, H1. by rewrite H0, H1.
Qed.

Lemma analyzeMetric_unit nm mt thr : unit_or_nan (mr_RiskScore (analyzeMetric nm mt thr)).
Proof.
  unfold analyzeMetric. destruct (GetWindow mt "short" nm) as [w|]; [|right; by vm_compute].
  case_decide; [apply unit_zero|]. case_match. cbn [mr_RiskScore]. apply clampRisk_unit.
Qed.

(** The scores of a node's metrics. *)
Definition metric_risk (nm : NodeMetrics) (mt : MetricType) : MetricRisk :=
  analyzeMetric nm mt (f64_at MetricThreshold mt).

Definition score (nm : NodeMetrics) (mt : MetricType) : float64 := mr_RiskScore (metric_risk nm mt).

Definition weighted_sum (nm : NodeMetrics) (mts : list MetricType) (s : float64) : float64 :=
  foldl (λ s mt, (s + score nm mt * f64_at MetricWeight mt)%float) s mts.

Lemma predict_fold nm mts : ∀ s,
  foldl (predict_step nm) s mts =
    mkPredictState (weighted_sum nm mts (ps_sum s))
      (foldl (λ w mt, (w + f64_at MetricWeight mt)%float) (ps_weight s) mts)
      (foldl (λ m mt, <[mt := metric_risk nm mt]> m) (ps_risks s) mts)
      (ps_reasons s ++ ((λ mt, formatReason mt (metric_risk nm mt)) <$>
         List.filter (λ mt, f64_geb (score nm mt) (f64_const 6 10)) mts)).
Proof.
  induction mts as [|mt mts IH]; intros s.
  { destruct s. simpl. by rewrite app_nil_r. }
  cbn [foldl]. rewrite IH. unfold predict_step. cbn [ps_sum ps_weight ps_risks ps_reasons].
  cbn [List.filter]. fold (metric_risk nm mt). fold (score nm mt).
  unfold weighted_sum. cbn [foldl]. f_equal.
  destruct (f64_geb (score nm mt) (f64_const 6 10)); [|done].
  rewrite fmap_cons. by rewrite <- app_assoc.
Qed.

Definition total_weight : float64 :=
  foldl (λ w mt, (w + f64_at MetricWeight mt)%float) f64_zero AllMetricTypes.

Lemma total_weight_eq :
  foldl (λ w mt, (w + f64_at MetricWeight mt)%float) f64_zero AllMetricTypes = total_weight.
Proof. unfold total_weight. reflexivity. Qed.

Lemma total_weight_pos : f64_gtb total_weight f64_zero = true.
Proof. vm_compute. reflexivity. Qed.

Lemma PredictNode_eq now id m nm :
  GetNodeMetrics id m = Some nm →
  let overall := clampRisk (weighted_sum nm AllMetricTypes f64_zero / total_weight)%float in
  PredictNode now id m = Some (mkPredictionResult id overall (RiskToStatus overall)
    (foldl (λ m mt, <[mt := metric_risk nm mt]> m) ∅ AllMetricTypes)
    ((λ mt, formatReason mt (metric_risk nm mt)) <$>
       List.filter (λ mt, f64_geb (score nm mt) (f64_const 6 10)) AllMetricTypes) now).
Proof.
  intros Hnm overall. unfold PredictNode. rewrite Hnm, predict_fold.
  cbn [ps_sum ps_weight ps_risks ps_reasons].
  by rewrite total_weight_eq, total_weight_pos.
Qed.

Lemma risks_lookup nm mt :
  foldl (λ m mt, <[mt := metric_risk nm mt]> m) (∅ : gmap MetricType MetricRisk) AllMetricTypes
    !! mt = if decide (mt ∈ AllMetricTypes) then Some (metric_risk nm mt) else None.
Proof.
  assert (∀ l (m0 : gmap MetricType MetricRisk),
    foldl (λ m mt, <[mt := metric_risk nm mt]> m) m0 l !! mt =
      if decide (mt ∈ l) then Some (metric_risk nm mt) else m0 !! mt) as Hgen.
  { induction l as [|x l IH]; intros m0; [done|]. cbn [foldl]. rewrite IH.
    destruct (decide (mt ∈ l)) as [Hin|Hin]; [by rewrite decide_True by (by right)|].
    destruct (decide (mt = x)) as [->|Hne].
    - rewrite lookup_insert_eq. by rewrite decide_True by (by left).
    - rewrite lookup_insert_ne by done. rewrite decide_False; [done|].
      by intros [?|?]%elem_of_cons. }
  rewrite Hgen. by rewrite lookup_empty.
Qed.

Lemma weighted_sum_nan_acc nm mts : weighted_sum nm mts S754_nan = S754_nan.
Proof.
  induction mts as [|mt mts IH]; [done|]. unfold weighted_sum in *. cbn [foldl].
  by rewrite f64_add_nan_l.
Qed.

Lemma weighted_sum_nan nm mts mt : ∀ s,
  mt ∈ mts → score nm mt = S754_nan → weighted_sum nm mts s = S754_nan.
Proof.
  induction mts as [|x mts IH]; intros s Hin Hmt; [by apply not_elem_of_nil in Hin|].
  unfold weighted_sum. cbn [foldl]. apply elem_of_cons in Hin as [<-|Hin].
  - rewrite Hmt, f64_mul_nan_l, f64_add_nan_r. apply weighted_sum_nan_acc.
  - by apply IH.
Qed.

Lemma analyzeMetric_nan nm mt w thr :
  GetWindow mt "short" nm = Some w → (2 ≤ Len w)%nat → Latest w = S754_nan →
  mr_RiskScore (analyzeMetric nm mt thr) = S754_nan.
Proof.
  intros Hw Hlen Hlast. unfold analyzeMetric. rewrite Hw, decide_False by lia.
  case_match. cbn [mr_RiskScore]. rewrite Hlast, f64_div_nan_l, cap_one_nan, f64_gtb_nan_l.
  by rewrite f64_mul_nan_r, !f64_add_nan_l, clampRisk_nan.
Qed.

Lemma weighted_sum_zero nm :
  (∀ mt, mt ∈ AllMetricTypes → score nm mt = f64_zero) →
  weighted_sum nm AllMetricTypes f64_zero = f64_zero.
Proof.
  intros Hz. unfold AllMetricTypes, weighted_sum. cbn [foldl].
  rewrite !Hz by (unfold AllMetricTypes; set_solver). reflexivity.
Qed.

(** A node is not flagged before it has history: while every short window
    holds fewer than two points, the risk is exactly 0, the status HEALTHY, and
    there is no reason. *)
Theorem PredictNode_no_history now id m nm :
  GetNodeMetrics id m = Some nm →
  (∀ mt w, mt ∈ AllMetricTypes → GetWindow mt "short" nm = Some w → (Len w < 2)%nat) →
  ∃ r, PredictNode now id m = Some r ∧
    pr_OverallRisk r = f64_zero ∧ pr_Status r = StatusHealthy ∧ pr_Reasons r = [].
Proof.
  intros Hnm Hfew. eexists. split; [by apply PredictNode_eq|].
  assert (∀ mt, mt ∈ AllMetricTypes → score nm mt = f64_zero) as Hz.
  { intros mt Hmt. unfold score, metric_risk, analyzeMetric.
    destruct (GetWindow mt "short" nm) as [w|] eqn:Hw; [|done].
    by rewrite decide_True by (by eapply Hfew). }
  cbn [pr_OverallRisk pr_Status pr_Reasons]. rewrite weighted_sum_zero by done.
  split; [by vm_compute|]. split; [by vm_compute|].
  unfold AllMetricTypes. cbn [List.filter].
  rewrite !Hz by (unfold AllMetricTypes; set_solver). reflexivity.
Qed.

(** NaN is treated as an emergency: when the latest value of any tracked
    metric is NaN (and the short window has two points), the node's risk is NaN
    and its status CRITICAL, whatever the other metrics say, so a single
    malformed report makes the server evacuate the node. *)
Theorem PredictNode_nan_critical now id m nm mt w :
  GetNodeMetrics id m = Some nm → mt ∈ AllMetricTypes →
  GetWindow mt "short" nm = Some w → (2 ≤ Len w)%nat → Latest w = S754_nan →
  ∃ r, PredictNode now id m = Some r ∧
    pr_OverallRisk r = S754_nan ∧ pr_Status r = StatusCritical.
Proof.
  intros Hnm Hmt Hw Hlen Hlast. eexists. split; [by apply PredictNode_eq|].
  cbn [pr_OverallRisk pr_Status].
  rewrite (weighted_sum_nan nm AllMetricTypes mt) by (done || by eapply analyzeMetric_nan).
  rewrite f64_div_nan_l, clampRisk_nan. split; [done|apply RiskToStatus_nan].
Qed.

(** PredictAll yields exactly one result per monitored node, in the order in
    which the store's map is visited. *)
Theorem PredictAll_covers now ord m :
  map_order (ms_nodes (mon_store m)) ord →
  pr_NodeID <$> PredictAll now ord m = ord ∧
  ∀ id, is_Some (GetNodeMetrics id m) ↔ ∃ r, r ∈ PredictAll now ord m ∧ PredictNode now id m = Some r.
Proof.
  intros Hord. unfold PredictAll, GetAllNodeIDs, AllNodeIDs.
  rewrite range_map_fst by done.
  assert (∀ id, is_Some (GetNodeMetrics id m) → ∃ r, PredictNode now id m = Some r ∧ pr_NodeID r = id)
    as Hsome.
  { intros id [nm Hnm]. eexists. split; [by apply PredictNode_eq|done]. }
  assert (∀ id, id ∈ ord → is_Some (GetNodeMetrics id m)) as Hin.
  { intros id Hid. by apply (map_order_elem _ _ _ Hord). }
  split.
  - clear Hord. induction ord as [|id ord IH]; [done|]. simpl.
    destruct (Hsome id (Hin id ltac:(left))) as (r & -> & Hr). simpl. rewrite Hr. f_equal.
    apply IH. intros k Hk. apply Hin. by right.
  - intros id. split.
    + intros Hid. destruct (Hsome id Hid) as (r & Hr & _). exists r. split; [|done].
      apply list_elem_of_omap. exists id. split; [|done]. by apply (map_order_elem _ _ _ Hord).
    + intros (r & _ & Hr). unfold PredictNode in Hr. by destruct (GetNodeMetrics id m).
Qed.

(** ** Concrete runs *)

(** A node whose disk latency and response time sit at the danger threshold. *)
Definition bad_report (minute : Z) (latency : float64) : HealthReport :=
  mkHealthReport "node-1" latency (f64_const 1 2) 0 (f64_of_Z 30) (f64_const 9 10)
    (f64_const 9 10) (minute * Minute).

Definition demo_monitor (latency : float64) : Monitor :=
  ingest_all [bad_report 0 latency; bad_report 1 latency; bad_report 2 latency] NewMonitor.

Example demo_warning :
  pr_Status <$> PredictNode 0 "node-1" (demo_monitor (f64_of_Z 50)) = Some StatusWarning.
Proof. vm_compute. reflexivity. Qed.

Definition demo_metrics (m : Monitor) : NodeMetrics := metrics_of "node-1" m.

Definition demo_window (m : Monitor) (mt : MetricType) : SlidingWindow :=
  default (NewSlidingWindow 0) (GetWindow mt "short" (demo_metrics m)).

Lemma demo_stored rs : rs ≠ [] → (∀ r, r ∈ rs → hr_NodeID r = "node-1") →
  GetNodeMetrics "node-1" (ingest_all rs NewMonitor)
    = Some (demo_metrics (ingest_all rs NewMonitor)).
Proof.
  intros Hne Hall. apply metrics_of_stored. right. destruct rs as [|r rs]; [done|].
  exists r. split; [left|]. apply Hall. left.
Qed.

Lemma PredictNode_nan_critical_witness :
  ∃ r, PredictNode 0 "node-1" (demo_monitor S754_nan) = Some r ∧
    pr_OverallRisk r = S754_nan ∧ pr_Status r = StatusCritical.
Proof.
  apply (PredictNode_nan_critical 0 "node-1" (demo_monitor S754_nan)
    (demo_metrics (demo_monitor S754_nan)) MetricDiskIOLatency
    (demo_window (demo_monitor S754_nan) MetricDiskIOLatency)).
  - apply demo_stored; [discriminate|]. intros r. rewrite !elem_of_cons, elem_of_nil.
    intros [->|[->|[->|[]]]]; reflexivity.
  - left.
  - vm_compute. reflexivity.
  - vm_compute. repeat constructor.
  - vm_compute. reflexivity.
Defined.

Definition fresh_monitor : Monitor := ingest_all [bad_report 0 (f64_of_Z 50)] NewMonitor.

Lemma PredictNode_no_history_witness :
  ∃ r, PredictNode 0 "node-1" fresh_monitor = Some r ∧
    pr_OverallRisk r = f64_zero ∧ pr_Status r = StatusHealthy ∧ pr_Reasons r = [].
Proof.
  apply (PredictNode_no_history 0 "node-1" fresh_monitor (demo_metrics fresh_monitor)).
  - apply demo_stored; [discriminate|]. intros r. rewrite !elem_of_cons, elem_of_nil.
    intros [->|[]]; reflexivity.
  - intros mt w Hmt Hw. revert Hw.
    apply (elem_AllMetricTypes mt (λ mt, GetWindow mt "short" (demo_metrics fresh_monitor) = Some w
      → (Len w < 2)%nat) Hmt); vm_compute; intros [= <-]; repeat constructor.
Defined.

Lemma PredictAll_covers_witness :
  pr_NodeID <$> PredictAll 0 (map_keys (ms_nodes (mon_store fresh_monitor))) fresh_monitor
    = map_keys (ms_nodes (mon_store fresh_monitor)).
Proof.
  exact (proj1 (PredictAll_covers 0 _ fresh_monitor (map_order_keys _))).
Defined.
