(* ===== verification/RiskModel.v ===== *)
(** * What the risk score measures

    The predictor's arithmetic is floating point.  Here the same computation is
    written once for any arithmetic: over [float64] it is the program's, bit for bit;
    over the real numbers it has the meaning the program is written for: a least
    squares trend, a standard deviation, a weighted mean of six scores. *)
From Stdlib Require Import Reals Lra.
From S2P Require Export Predictor.
Local Open Scope Z_scope.

(** ** Arithmetics *)
Class Arith (A : Type) := {
  ar_add : A → A → A;
  ar_sub : A → A → A;
  ar_mul : A → A → A;
  ar_div : A → A → A;
  ar_sqrt : A → A;
  ar_abs : A → A;
  ar_ltb : A → A → bool;
  ar_of_Z : Z → A;
  (** the literal [n/d] *)
  ar_ratio : Z → Z → A;
  ar_seconds : Duration → A;
}.

#[export] Instance float_arith : Arith float64 := {
  ar_add := f64_add; ar_sub := f64_sub; ar_mul := f64_mul; ar_div := f64_div;
  ar_sqrt := Sqrt; ar_abs := Abs; ar_ltb := f64_ltb;
  ar_of_Z := f64_of_Z; ar_ratio := f64_const; ar_seconds := Seconds;
}.

Definition Rltb (x y : R) : bool := if Rlt_dec x y then true else false.

#[export] Instance real_arith : Arith R := {
  ar_add := Rplus; ar_sub := Rminus; ar_mul := Rmult; ar_div := Rdiv;
  ar_sqrt := sqrt; ar_abs := Rabs; ar_ltb := Rltb;
  ar_of_Z := IZR; ar_ratio n d := (IZR n / IZR d)%R; ar_seconds d := (IZR d / IZR Second)%R;
}.

(** ** The score, for any arithmetic *)
Section score.
Context {A : Type} `{Arith A}.
Infix "+!" := ar_add (at level 50, left associativity).
Infix "-!" := ar_sub (at level 50, left associativity).
Infix "*!" := ar_mul (at level 40, left associativity).
Infix "/!" := ar_div (at level 40, left associativity).

Definition total (l : list A) : A := foldl ar_add (ar_of_Z 0) l.
Definition count {B} (l : list B) : A := ar_of_Z (Z.of_nat (length l)).

(** The slope of a line through points [(x, y)]; 0 when there are fewer than two
    points or the abscissas hardly differ. *)
Definition slope_line (pts : list (A * A)) : A :=
  let X := total pts.*1 in
  let Y := total pts.*2 in
  let XY := total ((λ p, p.1 *! p.2) <$> pts) in
  let XX := total ((λ p, p.1 *! p.1) <$> pts) in
  let den := count pts *! XX -! X *! X in
  if ar_ltb (ar_abs den) (ar_ratio 1 (10 ^ 10)) then ar_of_Z 0
  else (count pts *! XY -! X *! Y) /! den.

Definition slope_of (pts : list (A * A)) : A :=
  match pts with [] | [_] => ar_of_Z 0 | _ => slope_line pts end.

(** The sample standard deviation. *)
Definition spread_of (vs : list A) : A :=
  if Z.of_nat (length vs) <? 2 then ar_of_Z 0
  else
    let mean := total vs /! count vs in
    ar_sqrt (total ((λ v, (v -! mean) *! (v -! mean)) <$> vs) /! ar_of_Z (Z.of_nat (length vs) - 1)).

Definition capped (v : A) : A := if ar_ltb (ar_of_Z 1) v then ar_of_Z 1 else v.
Definition clamped (v : A) : A :=
  if ar_ltb v (ar_of_Z 0) then ar_of_Z 0 else if ar_ltb (ar_of_Z 1) v then ar_of_Z 1 else v.

Definition current_of (recent : list A) : A := default (ar_of_Z 0) (last recent).

(** The score of one metric with danger threshold [thr], from its recent values and
    the points [(seconds, value)] its trend is taken from. *)
Definition score_of (thr : A) (recent : list A) (trend : list (A * A)) : A :=
  let value := capped (current_of recent /! thr) in
  let slope := slope_of trend in
  let worse := if ar_ltb (ar_of_Z 0) slope then capped ((slope *! ar_of_Z 60) /! thr) else ar_of_Z 0 in
  let noise := capped (spread_of recent /! (thr *! ar_ratio 1 2)) in
  clamped
    (if ar_ltb (ar_ratio 7 10) value
     then ar_ratio 6 10 *! value +! ar_ratio 25 100 *! worse +! ar_ratio 15 100 *! noise
     else ar_ratio 4 10 *! value +! ar_ratio 4 10 *! worse +! ar_ratio 2 10 *! noise).

(** The history of the metrics of a node: recent values and points of the trend. *)
Definition history : Type := MetricType → option (list A * list (A * A)).

Definition metric_score (h : history) (mt : MetricType) (thr : A) : A :=
  match h mt with
  | Some (recent, trend) =>
      if decide (length recent < 2)%nat then ar_of_Z 0 else score_of thr recent trend
  | None => ar_of_Z 0
  end.

(** Weights and danger thresholds: 50 ms, 90 %, 5 errors, 30 ms, 90 %, 90 %. *)
Definition risk_table : list (MetricType * (A * A)) :=
  [(MetricDiskIOLatency, (ar_ratio 25 100, ar_of_Z 50));
   (MetricDiskUtil, (ar_ratio 20 100, ar_ratio 90 100));
   (MetricErrorRate, (ar_ratio 25 100, ar_of_Z 5));
   (MetricResponseTime, (ar_ratio 15 100, ar_of_Z 30));
   (MetricCPUUsage, (ar_ratio 5 100, ar_ratio 90 100));
   (MetricMemoryUsage, (ar_ratio 10 100, ar_ratio 90 100))].

Definition risk_of (h : history) : A :=
  clamped (total ((λ row, metric_score h row.1 row.2.2 *! row.2.1) <$> risk_table)
           /! total ((λ row, row.2.1) <$> risk_table)).
End score.
#[global] Arguments history : clear implicits.

(** ** Over [float64] it is the program's *)

(** The window the trend is taken from, and its points in seconds from the first. *)
Definition trend_window (nm : NodeMetrics) (mt : MetricType) (short : SlidingWindow) : SlidingWindow :=
  match GetWindow mt "medium" nm with
  | Some medium => if decide (3 ≤ Len medium)%nat then medium else short
  | None => short
  end.

Definition offsets (points : list MetricPoint) : list (float64 * float64) :=
  match points with
  | [] => []
  | p0 :: _ => (λ p, (Seconds (Sub (mp_Timestamp p) (mp_Timestamp p0)), mp_Value p)) <$> points
  end.

Definition float_history (nm : NodeMetrics) : history float64 := λ mt,
  short ← GetWindow mt "short" nm;
  Some (Values short, offsets (Points (trend_window nm mt short))).

Lemma foldl_fmap {A B C} (f : C → B → C) (g : A → B) l : ∀ c,
  foldl f c (g <$> l) = foldl (λ c a, f c (g a)) c l.
Proof. induction l as [|a l IH]; intros c; [done|]. apply IH. Qed.

Lemma regression_sums base pts : ∀ s,
  foldl (regression_step base) s pts =
    let q := (λ p, (Seconds (Sub (mp_Timestamp p) base), mp_Value p)) <$> pts in
    mkRegressionSums (foldl f64_add (rs_X s) q.*1) (foldl f64_add (rs_Y s) q.*2)
      (foldl f64_add (rs_XY s) ((λ p, p.1 * p.2)%float <$> q))
      (foldl f64_add (rs_X2 s) ((λ p, p.1 * p.1)%float <$> q)).
Proof. induction pts as [|p pts IH]; intros s; [by destruct s|]. cbn [foldl]. by rewrite IH. Qed.

Lemma float_zero : ar_of_Z 0 = f64_zero.
Proof. reflexivity. Qed.

(** Both sides in the operations of [float64]. *)
Ltac float_ops :=
  unfold clampRisk, clamped, cap_one, capped, f64_one; rewrite ?float_zero;
  cbn [ar_add ar_sub ar_mul ar_div ar_ltb ar_of_Z ar_ratio float_arith];
  unfold f64_gtb, f64_ltb.

Lemma slope_float points : linearRegressionSlope points = slope_of (offsets points).
Proof.
  destruct points as [|p0 [|p1 points]]; [reflexivity..|].
  set (pts := p0 :: p1 :: points).
  assert (slope_of (offsets pts) = slope_line (offsets pts)) as -> by reflexivity.
  assert (count (offsets pts) = f64_of_Z (Z.of_nat (length pts))) as Hn
    by (unfold count, offsets; cbn [pts]; by rewrite length_fmap).
  unfold slope_line. rewrite Hn. clear Hn. unfold linearRegressionSlope. cbn [pts].
  fold pts. rewrite regression_sums. unfold total. rewrite float_zero. reflexivity.
Qed.

Lemma spread_float vs : computeVolatility vs = spread_of vs.
Proof.
  unfold computeVolatility, spread_of, total, count. case_match; [done|].
  by rewrite foldl_fmap.
Qed.

Lemma score_float nm mt thr : mr_RiskScore (analyzeMetric nm mt thr) = metric_score (float_history nm) mt thr.
Proof.
  unfold analyzeMetric, metric_score, float_history, trend_window.
  destruct (GetWindow mt "short" nm) as [short|]; [|reflexivity]. cbn [mbind option_bind].
  assert (length (Values short) = Len short) as -> by apply length_fmap.
  case_decide; [reflexivity|]. unfold score_of, current_of, Values.
  rewrite fmap_last.
  assert (Latest short = default f64_zero (mp_Value <$> last (sw_points short))) as Hl
    by (unfold Latest; by destruct (last _)).
  rewrite <- spread_float. 
  destruct (GetWindow mt "medium" nm) as [medium|]; [case_decide|]; rewrite <- slope_float;
    cbn [mr_RiskScore]; rewrite Hl; float_ops; reflexivity.
Qed.

Lemma tables_float :
  (λ mt, (mt, (f64_at MetricWeight mt, f64_at MetricThreshold mt))) <$> AllMetricTypes = risk_table.
Proof. vm_compute. reflexivity. Qed.

Lemma overall_float nm :
  clampRisk (weighted_sum nm AllMetricTypes f64_zero / total_weight)%float = risk_of (float_history nm).
Proof.
  unfold risk_of. rewrite <- tables_float. unfold total. rewrite !foldl_fmap. cbn [fst snd].
  assert (∀ l c, foldl (λ s mt, ar_add s (ar_mul (metric_score (float_history nm) mt (f64_at MetricThreshold mt))
    (f64_at MetricWeight mt))) c l = weighted_sum nm l c) as ->.
  { induction l as [|mt l IH]; intros c; [done|]. cbn [foldl]. rewrite IH.
    unfold weighted_sum. cbn [foldl]. unfold score, metric_risk. by rewrite score_float. }
  float_ops. reflexivity.
Qed.

(** ** Over the reals it is a trend, a deviation and a weighted mean *)
Section reals.
Local Open Scope R_scope.

Lemma Rltb_true x y : x < y → ar_ltb x y = true.
Proof. intros Hxy. simpl. unfold Rltb. by destruct (Rlt_dec x y). Qed.

Lemma Rltb_false x y : y <= x → ar_ltb x y = false.
Proof. intros Hxy. simpl. unfold Rltb. destruct (Rlt_dec x y); [lra|done]. Qed.

Lemma foldl_Rplus (l : list R) : ∀ c, foldl Rplus c l = c + foldr Rplus 0 l.
Proof. induction l as [|x l IH]; intros c; cbn [foldl foldr]; [lra|]. rewrite IH. lra. Qed.

Lemma total_sum (l : list R) : total l = foldr Rplus 0 l.
Proof. unfold total. simpl. rewrite foldl_Rplus. lra. Qed.

Lemma total_cons x (l : list R) : total (x :: l) = x + total l.
Proof. by rewrite !total_sum. Qed.

Lemma count_cons {B} (b : B) l : count (b :: l) = 1 + count (A := R) l.
Proof.
  unfold count. cbn [length]. rewrite Nat2Z.inj_succ. simpl. rewrite succ_IZR. lra.
Qed.

Lemma total_nil : total (A := R) [] = 0.
Proof. reflexivity. Qed.

Lemma count_nil {B} : count (A := R) (@nil B) = 0.
Proof. reflexivity. Qed.

Lemma total_nonneg (l : list R) : Forall (λ x, 0 <= x) l → 0 <= total l.
Proof.
  induction 1 as [|x l Hx _ IH]; [rewrite total_sum; simpl; lra|]. rewrite total_cons. lra.
Qed.

(** The squared error of the line [a + b x]. *)
Definition squared_error (a b : R) (pts : list (R * R)) : R :=
  total ((λ p, (p.2 - (a + b * p.1)) * (p.2 - (a + b * p.1))) <$> pts).

Lemma squared_error_sums a b pts :
  squared_error a b pts =
    total ((λ p, p.2 * p.2) <$> pts) - 2 * a * total pts.*2
    - 2 * b * total ((λ p, p.1 * p.2) <$> pts) + a * a * count pts + 2 * a * b * total pts.*1
    + b * b * total ((λ p, p.1 * p.1) <$> pts).
Proof.
  unfold squared_error. induction pts as [|p pts IH].
  - cbn [fmap list_fmap]. rewrite total_nil, (count_nil (B := R * R)). lra.
  - rewrite !fmap_cons, !total_cons, count_cons, IH. cbv beta. lra.
Qed.

Lemma square_of_line a b (pts : list (R * R)) :
  0 <= a * a * count pts + 2 * a * b * total pts.*1 + b * b * total ((λ p, p.1 * p.1) <$> pts).
Proof.
  assert (total ((λ p : R * R, (a + b * p.1) * (a + b * p.1)) <$> pts) =
    a * a * count pts + 2 * a * b * total pts.*1 + b * b * total ((λ p, p.1 * p.1) <$> pts)) as <-.
  { induction pts as [|p pts IH].
    - cbn [fmap list_fmap]. rewrite total_nil, (count_nil (B := R * R)). lra.
    - rewrite !fmap_cons, !total_cons, count_cons, IH. cbv beta. lra. }
  apply total_nonneg, Forall_fmap, Forall_forall. intros p _. apply Rle_0_sqr.
Qed.

(** How far the abscissas are apart: [n] times their sum of squares less the square of
    their sum. *)
Definition x_spread (pts : list (R * R)) : R :=
  count pts * total ((λ p, p.1 * p.1) <$> pts) - total pts.*1 * total pts.*1.

Definition well_spread (pts : list (R * R)) : Prop :=
  (2 <= length pts)%nat ∧ 1 / IZR (10 ^ 10) <= Rabs (x_spread pts).

Lemma x_spread_ne pts : well_spread pts → x_spread pts <> 0.
Proof.
  intros [_ Hd] Hz. rewrite Hz, Rabs_R0 in Hd.
  assert (0 < 1 / IZR (10 ^ 10)); [|lra]. apply Rdiv_lt_0_compat; [lra|]. by apply IZR_lt.
Qed.

Lemma slope_real pts :
  well_spread pts →
  slope_of pts = (count pts * total ((λ p, p.1 * p.2) <$> pts) - total pts.*1 * total pts.*2) / x_spread pts.
Proof.
  intros [Hlen Hd]. destruct pts as [|p0 [|p1 pts]]; [simpl in Hlen; lia..|].
  assert (slope_of (p0 :: p1 :: pts) = slope_line (p0 :: p1 :: pts)) as -> by reflexivity.
  set (q := p0 :: p1 :: pts) in *. unfold slope_line.
  rewrite (Rltb_false _ (ar_ratio 1 (10 ^ 10))); [reflexivity|exact Hd].
Qed.

Lemma count_ne (pts : list (R * R)) : (2 <= length pts)%nat → count pts <> (0 : R).
Proof. intros Hlen Hz. apply (eq_IZR _ 0) in Hz. lia. Qed.

(** The line with the computed slope through the centre has the least squared error. *)
Lemma slope_least_squares pts a b :
  well_spread pts →
  let s := slope_of pts in
  squared_error ((total pts.*2 - s * total pts.*1) / count pts) s pts <= squared_error a b pts.
Proof.
  intros Hw s. set (a0 := (total pts.*2 - s * total pts.*1) / count pts).
  pose proof (x_spread_ne pts Hw) as Hne. pose proof (count_ne pts (proj1 Hw)) as Hn.
  pose proof (square_of_line (a - a0) (b - s) pts) as Hsq.
  assert (count pts * a0 + s * total pts.*1 = total pts.*2) as H1 by (unfold a0; field; exact Hn).
  assert (a0 * total pts.*1 + s * total ((λ p, p.1 * p.1) <$> pts) = total ((λ p, p.1 * p.2) <$> pts)) as H2.
  { apply (Rmult_eq_reg_l (count pts)); [|exact Hn].
    transitivity (total pts.*1 * total pts.*2 + s * x_spread pts).
    - unfold a0, x_spread. field. exact Hn.
    - unfold s. rewrite slope_real by exact Hw. field. exact Hne. }
  rewrite !squared_error_sums, <- H1, <- H2. nra.
Qed.

(** Points on a line have its slope. *)
Lemma slope_line_exact pts a b :
  well_spread pts → Forall (λ p, p.2 = a + b * p.1) pts → slope_of pts = b.
Proof.
  intros Hw Hl. rewrite slope_real by done. pose proof (x_spread_ne pts Hw) as Hne.
  assert (total pts.*2 = a * count pts + b * total pts.*1 ∧
          total ((λ p, p.1 * p.2) <$> pts) = a * total pts.*1 + b * total ((λ p, p.1 * p.1) <$> pts)) as [-> ->].
  { clear Hw Hne. induction Hl as [|p pts Hp _ [IH1 IH2]].
    - cbn [fmap list_fmap]. rewrite total_nil, (count_nil (B := R * R)). lra.
    - rewrite !fmap_cons, !total_cons, count_cons, IH1, IH2, Hp. cbv beta. split; lra. }
  unfold x_spread in *. field. exact Hne.
Qed.

(** The square of the deviation, without the mean. *)
Lemma spread_squared vs :
  (2 <= length vs)%nat →
  count vs * (count vs - 1) * (spread_of vs * spread_of vs) =
    count vs * total ((λ v, v * v) <$> vs) - total vs * total vs.
Proof.
  intros Hlen. unfold spread_of. destruct (Z.ltb_spec (Z.of_nat (length vs)) 2) as [?|_]; [lia|].
  change (ar_div (total vs) (count vs)) with (total vs / count vs). set (mean := total vs / count vs).
  change (ar_of_Z (Z.of_nat (length vs) - 1)) with (IZR (Z.of_nat (length vs) - 1)). rewrite minus_IZR.
  change (IZR (Z.of_nat (length vs))) with (count vs). set (n := count vs).
  assert (2 <= n) as Hn by (apply (IZR_le 2); lia).
  set (dev := total _). cbn [ar_sqrt ar_div real_arith].
  assert (0 <= dev / (n - 1)) as Hdev.
  { apply Rmult_le_pos; [|left; apply Rinv_0_lt_compat; lra].
    apply total_nonneg, Forall_fmap, Forall_forall. intros v _. apply Rle_0_sqr. }
  rewrite sqrt_sqrt by exact Hdev.
  assert (dev = total ((λ v, v * v) <$> vs) - 2 * mean * total vs + mean * mean * n) as ->.
  { unfold dev, n. clear. generalize mean. intros m. induction vs as [|v vs IH].
    - cbn [fmap list_fmap]. rewrite total_nil, (count_nil (B := R)). lra.
    - rewrite !fmap_cons, !total_cons, count_cons, IH. cbv beta. simpl. lra. }
  unfold mean. fold n. field. lra.
Qed.

Lemma spread_nonneg vs : 0 <= spread_of vs.
Proof. unfold spread_of. destruct (_ <? _)%Z; [simpl; lra|apply sqrt_pos]. Qed.

(** *** Metrics that do not change *)
Lemma slope_flat v pts : Forall (λ p, p.2 = v) pts → slope_of pts = 0.
Proof.
  intros Hf.
  assert (total pts.*2 = v * count pts ∧ total ((λ p, p.1 * p.2) <$> pts) = v * total pts.*1) as [H1 H2].
  { induction Hf as [|p pts Hp _ [IH1 IH2]].
    - cbn [fmap list_fmap]. rewrite total_nil, (count_nil (B := R * R)). lra.
    - rewrite !fmap_cons, !total_cons, count_cons, IH1, IH2, Hp. cbv beta. split; lra. }
  destruct pts as [|p0 [|p1 pts]]; [reflexivity..|].
  assert (slope_of (p0 :: p1 :: pts) = slope_line (p0 :: p1 :: pts)) as -> by reflexivity.
  unfold slope_line. cbn [ar_mul ar_sub ar_div real_arith]. rewrite H1, H2.
  destruct (ar_ltb _ _); [reflexivity|]. unfold Rdiv.
  match goal with |- ?n * ?d = 0 => replace n with 0 by ring end. lra.
Qed.

Lemma spread_flat v vs : Forall (.= v) vs → spread_of vs = 0.
Proof.
  intros Hf. unfold spread_of. destruct (Z.ltb_spec (Z.of_nat (length vs)) 2) as [?|Hlen]; [reflexivity|].
  assert (total vs = v * count vs) as Ht.
  { clear Hlen. induction Hf as [|x vs -> _ IH].
    - rewrite total_nil, (count_nil (B := R)). lra.
    - rewrite total_cons, count_cons, IH. lra. }
  assert (count vs <> (0 : R)) as Hn by (intros Hz; apply (eq_IZR _ 0) in Hz; lia).
  assert (ar_div (total vs) (count vs) = v) as -> by (cbn [ar_div real_arith]; rewrite Ht; field; exact Hn).
  assert (total ((λ x, ar_mul (ar_sub x v) (ar_sub x v)) <$> vs) = 0) as ->.
  { clear -Hf. induction Hf as [|x vs -> _ IH]; [reflexivity|]. rewrite fmap_cons, total_cons, IH. simpl. lra. }
  cbn [ar_sqrt ar_div real_arith]. unfold Rdiv. rewrite Rmult_0_l. apply sqrt_0.
Qed.

Lemma capped_min v : capped v = Rmin v 1.
Proof.
  unfold capped. destruct (Rle_dec v 1) as [Hv|Hv].
  - rewrite Rltb_false by exact Hv. by rewrite Rmin_left.
  - rewrite Rltb_true by (simpl; lra). rewrite Rmin_right by lra. reflexivity.
Qed.

Lemma clamped_id v : 0 <= v <= 1 → clamped v = v.
Proof. intros Hv. unfold clamped. by rewrite !Rltb_false by (simpl; lra). Qed.

(** The score of a metric that stays at the fraction [f] of its threshold. *)
Definition steady_score (f : R) : R := if Rlt_dec (7 / 10) f then 6 / 10 * Rmin f 1 else 4 / 10 * f.

Definition steady (h : history R) (mt : MetricType) (v : R) : Prop :=
  ∃ recent trend, h mt = Some (recent, trend) ∧ (2 <= length recent)%nat ∧
    Forall (.= v) recent ∧ Forall (λ p, p.2 = v) trend.

Lemma score_steady h mt thr f :
  0 < thr → 0 <= f → steady h mt (f * thr) → metric_score h mt thr = steady_score f.
Proof.
  intros Hthr Hf (recent & trend & Hh & Hlen & Hrec & Htrend). unfold metric_score. rewrite Hh.
  rewrite decide_False by lia. unfold score_of. rewrite (slope_flat _ _ Htrend), (spread_flat _ _ Hrec).
  assert (ar_div (current_of recent) thr = f) as ->.
  { unfold current_of. destruct (last recent) as [x|] eqn:Hl.
    - apply last_Some_elem_of in Hl. rewrite Forall_forall in Hrec. rewrite (Hrec x Hl). simpl. field. lra.
    - apply last_None in Hl. subst recent. simpl in Hlen. lia. }
  rewrite (Rltb_false (ar_of_Z 0) 0) by (simpl; lra). rewrite !capped_min.
  assert (Rmin (ar_div 0 (ar_mul thr (ar_ratio 1 2))) 1 = 0) as ->
    by (cbn [ar_div real_arith]; unfold Rdiv; rewrite Rmult_0_l; apply Rmin_left; lra).
  cbn [ar_mul ar_add ar_of_Z ar_ratio real_arith].
  unfold steady_score. destruct (Rlt_dec (7 / 10) f) as [Hhigh|Hlow].
  - rewrite Rltb_true by (simpl; unfold Rmin; destruct (Rle_dec f 1); lra).
    rewrite clamped_id; [lra|]. unfold Rmin. destruct (Rle_dec f 1); lra.
  - rewrite Rmin_left by lra. rewrite Rltb_false by (simpl; lra).
    rewrite clamped_id; lra.
Qed.

Ltac in_table := repeat first [left | right].

Lemma risk_steady h f :
  (∀ mt w thr, (mt, (w, thr)) ∈ risk_table → 0 <= f mt ∧ steady h mt (f mt * thr)) →
  risk_of h = 25 / 100 * steady_score (f MetricDiskIOLatency) + 20 / 100 * steady_score (f MetricDiskUtil)
    + 25 / 100 * steady_score (f MetricErrorRate) + 15 / 100 * steady_score (f MetricResponseTime)
    + 5 / 100 * steady_score (f MetricCPUUsage) + 10 / 100 * steady_score (f MetricMemoryUsage).
Proof.
  intros Hall.
  assert (∀ mt w thr, (mt, (w, thr)) ∈ risk_table → 0 < thr →
    metric_score h mt thr = steady_score (f mt) ∧ 0 <= steady_score (f mt) <= 6 / 10) as Hs.
  { intros mt w thr Hin Hthr. destruct (Hall mt w thr Hin) as [Hf Hst].
    split; [by apply score_steady|]. unfold steady_score, Rmin.
    destruct (Rlt_dec (7 / 10) (f mt)), (Rle_dec (f mt) 1); lra. }
  unfold risk_of. unfold risk_table in *. cbn [fmap list_fmap fst snd].
  rewrite !total_cons, total_nil. cbn [ar_div ar_mul ar_ratio ar_of_Z real_arith] in *.
  destruct (Hs MetricDiskIOLatency (25 / 100) 50) as [-> ?]; [in_table|lra|].
  destruct (Hs MetricDiskUtil (20 / 100) (90 / 100)) as [-> ?]; [in_table|lra|].
  destruct (Hs MetricErrorRate (25 / 100) 5) as [-> ?]; [in_table|lra|].
  destruct (Hs MetricResponseTime (15 / 100) 30) as [-> ?]; [in_table|lra|].
  destruct (Hs MetricCPUUsage (5 / 100) (90 / 100)) as [-> ?]; [in_table|lra|].
  destruct (Hs MetricMemoryUsage (10 / 100) (90 / 100)) as [-> ?]; [in_table|lra|].
  rewrite clamped_id; [field|]. split; [|].
  all: match goal with |- context [?n / ?d] => replace d with 1 by field end.
  all: lra.
Qed.
End reals.

(** ** Properties *)



(** ** Concrete histories *)

(** All metrics stay at their thresholds. *)
Definition at_threshold : history R := λ mt,
  (λ row : MetricType * (R * R), ([row.2.2; row.2.2], [(0%R, row.2.2); (1%R, row.2.2)])) <$>
    List.find (λ row : MetricType * (R * R), bool_decide (row.1 = mt)) risk_table.

Lemma at_threshold_steady mt w thr :
  (mt, (w, thr)) ∈ risk_table → (0 <= 1)%R ∧ steady at_threshold mt (1 * thr).
Proof.
  intros Hin. split; [lra|]. rewrite Rmult_1_l. exists [thr; thr], [(0%R, thr); (1%R, thr)].
  split; [|by repeat constructor]. unfold risk_table in Hin.
  repeat (apply elem_of_cons in Hin as [[= -> -> ->]|Hin]; [reflexivity|]).
  by apply not_elem_of_nil in Hin.
Qed.


