(* ===== verification/Migrator.v ===== *)
(** * internal/health/migrator.go: moving chunks off a failing node

    The migrator reaches the registry only through the interface [ChunkLocator],
    and the data nodes only through the TransferChunk call; its theorems are
    proved against the laws [ChunkLocatorSpec] of the interface. *)
From S2P Require Export Predictor Messages.
Local Open Scope Z_scope.

(** ** The interface [ChunkLocator] *)
Record NodeTarget := mkNodeTarget { nt_NodeID : string; nt_Address : string }.

(** [L] is the state behind the interface.  The methods that range over a map
    take the order in which it is visited. *)
Class ChunkLocator (L : Type) := {
  loc_GetChunksOnNode : list string → string → L → list string;
  loc_GetChunkMeta : string → L → option (list string);
  loc_GetHealthyNodeAddresses : list string → list string → L → list NodeTarget;
  loc_AddChunkToNode : string → string → L → L;
  loc_RemoveChunkFromNode : string → string → L → L;
  loc_GetNodeAddress : string → L → option string;
}.

(** What the migrator relies on.  [loc_on n l] are the chunks recorded on a node,
    [loc_chunk_order] and [loc_node_order] the admissible visiting orders. *)
Class ChunkLocatorSpec (L : Type) `{ChunkLocator L} := {
  loc_wf : L → Prop;
  loc_on : string → L → gset string;
  loc_chunk_order : string → L → list string → Prop;
  loc_node_order : L → list string → Prop;
  loc_chunks_on l n ord :
    loc_chunk_order n l ord → loc_GetChunksOnNode ord n l ≡ₚ elements (loc_on n l);
  loc_targets l ord ex t :
    loc_wf l → loc_node_order l ord → t ∈ loc_GetHealthyNodeAddresses ord ex l →
    (nt_NodeID t ∉ ex) ∧ loc_GetNodeAddress (nt_NodeID t) l = Some (nt_Address t);
  loc_meta_nodup l c ns : loc_wf l → loc_GetChunkMeta c l = Some ns → NoDup ns;
  loc_meta_holds l c ns n :
    loc_wf l → loc_GetChunkMeta c l = Some ns → n ∈ ns → c ∈ loc_on n l;
  loc_add_meta l c n c' :
    loc_GetChunkMeta c' (loc_AddChunkToNode c n l) =
      if decide (c' = c) then
        (λ ns, if decide (n ∈ ns) then ns else ns ++ [n]) <$> loc_GetChunkMeta c' l
      else loc_GetChunkMeta c' l;
  loc_remove_meta l c n c' :
    loc_GetChunkMeta c' (loc_RemoveChunkFromNode c n l) =
      if decide (c' = c) then remove_first n <$> loc_GetChunkMeta c' l
      else loc_GetChunkMeta c' l;
  loc_add_on l c n n' :
    is_Some (loc_GetNodeAddress n l) →
    loc_on n' (loc_AddChunkToNode c n l) =
      if decide (n' = n) then {[c]} ∪ loc_on n' l else loc_on n' l;
  loc_remove_on l c n n' :
    loc_on n' (loc_RemoveChunkFromNode c n l) =
      if decide (n' = n) then loc_on n' l ∖ {[c]} else loc_on n' l;
  loc_add_wf l c n :
    loc_wf l → is_Some (loc_GetNodeAddress n l) → loc_wf (loc_AddChunkToNode c n l);
  loc_remove_wf l c n : loc_wf l → loc_wf (loc_RemoveChunkFromNode c n l);
  loc_add_addr l c n n' :
    loc_GetNodeAddress n' (loc_AddChunkToNode c n l) = loc_GetNodeAddress n' l;
  loc_remove_addr l c n n' :
    loc_GetNodeAddress n' (loc_RemoveChunkFromNode c n l) = loc_GetNodeAddress n' l;
  loc_add_order l c n ord : loc_node_order l ord → loc_node_order (loc_AddChunkToNode c n l) ord;
  loc_remove_order l c n ord :
    loc_node_order l ord → loc_node_order (loc_RemoveChunkFromNode c n l) ord;
}.

(** ** Data *)
Record MigrationEvent := mkMigrationEvent {
  me_ChunkID : string;
  me_FromNodeID : string;
  me_ToNodeID : string;
  me_ToAddress : string;
  me_Reason : string;
  me_Success : bool;
  me_Error : string;
  me_StartedAt : Time;
  me_Duration : Duration;
}.

Record MigrationReport := mkMigrationReport {
  mr_NodeID : string;
  mr_Risk : float64;
  mr_Status : NodeStatus;
  mr_TotalChunks : Z;
  mr_MigratedChunks : Z;
  mr_FailedChunks : Z;
  mr_Events : list MigrationEvent;
  mr_StartedAt : Time;
  mr_CompletedAt : Time;
  mr_Reasons : list string;
}.

(** The fields of [Migrator] guarded by its mutex; the locator is the state [L]. *)
Record Migrator := mkMigrator {
  mig_migrating : gset string;
  mig_history : list MigrationReport;
}.

Definition NewMigrator : Migrator := mkMigrator ∅ [].

(** What one run of [migrateChunk] meets: the order in which the registry visits
    its nodes, and the clock at the start and at the end. *)
Record chunk_plan := mkChunkPlan {
  pl_ord : list string;
  pl_start : Time;
  pl_end : Time;
}.

Definition IsMigrating (nodeID : string) (m : Migrator) : bool :=
  bool_decide (nodeID ∈ mig_migrating m).

Definition GetHistory (m : Migrator) : list MigrationReport := mig_history m.

(** The loop of [GetLastReport] runs from the end of the history. *)
Definition GetLastReport (nodeID : string) (m : Migrator) : option MigrationReport :=
  List.find (λ r, bool_decide (mr_NodeID r = nodeID)) (rev (mig_history m)).

(** ** Operations *)
Section migrator.
Context {L : Type} `{ChunkLocator L}.

(** The world beyond the metadata server: the data nodes.  [dial] is
    [grpc.NewClient], [call] the TransferChunk call on the connection. *)
Context {W : Type}.
Variable dial : string → W → go unit.
Variable call : string → TransferChunkRequest → gos W TransferChunkResponse.

Definition transferChunk (sourceAddr chunkID targetAddr : string) : gos W unit := λ w,
  match dial sourceAddr w with
  | Err e => (Err ("connect to source " +:+ sourceAddr +:+ ": " +:+ e), w)
  | Panic p => (Panic p, w)
  | Ok _ =>
      match call sourceAddr (mkTransferChunkRequest chunkID targetAddr) w with
      | (Err e, w') => (Err ("TransferChunk RPC: " +:+ e), w')
      | (Panic p, w') => (Panic p, w')
      | (Ok resp, w') =>
          if TransferChunkResponse_Success resp then (Ok tt, w')
          else (Err ("transfer failed: " +:+ TransferChunkResponse_Message resp), w')
      end
  end.

Definition migration_reason (fromNodeID : string) : string :=
  "proactive migration from at-risk node " +:+ fromNodeID +:+ " (risk: "
  +:+ fmt_f false 2 f64_zero +:+ ")".

(** The event a failed or successful [migrateChunk] returns. *)
Definition event_without_target (chunkID fromNodeID error : string) (pl : chunk_plan)
    : MigrationEvent :=
  mkMigrationEvent chunkID fromNodeID "" "" "" false error (pl_start pl)
    (Since (pl_end pl) (pl_start pl)).

Definition event_with_target (chunkID fromNodeID : string) (target : NodeTarget) (ok : bool)
    (error : string) (pl : chunk_plan) : MigrationEvent :=
  mkMigrationEvent chunkID fromNodeID (nt_NodeID target) (nt_Address target)
    (migration_reason fromNodeID) ok error (pl_start pl) (Since (pl_end pl) (pl_start pl)).

Definition migrateChunk (pl : chunk_plan) (chunkID fromNodeID sourceAddr : string)
    : gos (L * W) MigrationEvent := λ s,
  let '(l, w) := s in
  match loc_GetChunkMeta chunkID l with
  | None => (Ok (event_without_target chunkID fromNodeID "chunk metadata not found" pl), s)
  | Some existingNodeIDs =>
      match loc_GetHealthyNodeAddresses (pl_ord pl) existingNodeIDs l with
      | [] =>
          (Ok (event_without_target chunkID fromNodeID "no healthy target nodes available" pl), s)
      | target :: _ =>
          match transferChunk sourceAddr chunkID (nt_Address target) w with
          | (Err e, w') => (Ok (event_with_target chunkID fromNodeID target false e pl), (l, w'))
          | (Panic p, w') => (Panic p, (l, w'))
          | (Ok _, w') =>
              let l := loc_AddChunkToNode chunkID (nt_NodeID target) l in
              let l := loc_RemoveChunkFromNode chunkID fromNodeID l in
              (Ok (event_with_target chunkID fromNodeID target true "" pl), (l, w'))
          end
      end
  end.

(** The loop over the node's chunks; [i] is the index of the first one, [acc] the
    report's [Events], [MigratedChunks] and [FailedChunks] so far. *)
Fixpoint migrate_loop (plans : nat → chunk_plan) (nodeID sourceAddr : string) (i : nat)
    (chunkIDs : list string) (acc : list MigrationEvent * Z * Z)
    : gos (L * W) (list MigrationEvent * Z * Z) :=
  match chunkIDs with
  | [] => gos_ret acc
  | chunkID :: rest =>
      do! event <- migrateChunk (plans i) chunkID nodeID sourceAddr ;;
      let '(events, migrated, failed) := acc in
      let acc :=
        if me_Success event then (events ++ [event], migrated + 1, failed)
        else (events ++ [event], migrated, failed + 1) in
      migrate_loop plans nodeID sourceAddr (S i) rest acc
  end.

(** The part of [MigrateNode] between setting and clearing the flag.  The second
    component of the result says whether the report goes into the history. *)
Definition migrate_body (start done : Time) (ord : list string) (plans : nat → chunk_plan)
    (p : PredictionResult) : gos (L * W) (MigrationReport * bool) := λ s,
  let chunkIDs := loc_GetChunksOnNode ord (pr_NodeID p) s.1 in
  let report migrated failed events :=
    mkMigrationReport (pr_NodeID p) (pr_OverallRisk p) (pr_Status p)
      (Z.of_nat (length chunkIDs)) migrated failed events start done (pr_Reasons p) in
  if decide (length chunkIDs = 0%nat) then (Ok (report 0 0 [], true), s)
  else
    match loc_GetNodeAddress (pr_NodeID p) s.1 with
    | None => (Ok (report 0 0 [], false), s)
    | Some sourceAddr =>
        match migrate_loop plans (pr_NodeID p) sourceAddr 0 chunkIDs ([], 0, 0) s with
        | (Ok (events, migrated, failed), s') =>
            (Ok (report migrated failed events, true), s')
        | (Err e, s') => (Err e, s')
        | (Panic w, s') => (Panic w, s')
        end
    end.

Definition MigrateNode (start done : Time) (ord : list string) (plans : nat → chunk_plan)
    (p : PredictionResult) : gos (Migrator * (L * W)) (option MigrationReport) := λ s,
  let '(m, lw) := s in
  if decide (pr_NodeID p ∈ mig_migrating m) then (Ok None, s)
  else
    let m := mkMigrator ({[pr_NodeID p]} ∪ mig_migrating m) (mig_history m) in
    let clear m := mkMigrator (mig_migrating m ∖ {[pr_NodeID p]}) (mig_history m) in
    match migrate_body start done ord plans p lw with
    | (Ok (report, keep), lw') =>
        let m := if keep : bool
                 then mkMigrator (mig_migrating m) (mig_history m ++ [report]) else m in
        (Ok (Some report), (clear m, lw'))
    | (Err e, lw') => (Err e, (clear m, lw'))
    | (Panic w, lw') => (Panic w, (clear m, lw'))
    end.

(** ** Lemmas *)
Context `{!ChunkLocatorSpec L}.

(** The registry after a successful move. *)
Definition moved (c from to : string) (l : L) : L :=
  loc_RemoveChunkFromNode c from (loc_AddChunkToNode c to l).

(** One chunk: a failed attempt leaves the registry alone, a successful one moves
    the chunk to a node that did not list it, after its source confirmed. *)
Lemma migrateChunk_spec pl c from src l w :
  loc_wf l → loc_node_order l (pl_ord pl) →
  match migrateChunk pl c from src (l, w) with
  | (Ok e, (l', w')) => me_ChunkID e = c ∧ me_FromNodeID e = from ∧
      if me_Success e then
        ∃ ns, loc_GetChunkMeta c l = Some ns ∧ (me_ToNodeID e ∉ ns) ∧
          loc_GetNodeAddress (me_ToNodeID e) l = Some (me_ToAddress e) ∧
          transferChunk src c (me_ToAddress e) w = (Ok tt, w') ∧
          l' = moved c from (me_ToNodeID e) l
      else l' = l
  | (Err _, _) => False
  | (Panic _, (l', _)) => l' = l
  end.
Proof.
  intros Hwf Hord. unfold migrateChunk.
  destruct (loc_GetChunkMeta c l) as [ns|] eqn:Hmeta; [|done].
  pose proof (loc_targets l (pl_ord pl) ns) as Ht.
  destruct (loc_GetHealthyNodeAddresses (pl_ord pl) ns l) as [|t ts]; [done|].
  destruct (Ht t Hwf Hord ltac:(left)) as [Hnin Haddr].
  destruct (transferChunk src c (nt_Address t) w) as [[[]|e|p] w'] eqn:Htr; [|done..].
  split; [done|]. split; [done|]. exists ns. done.
Qed.

Lemma moved_wf c from to l :
  loc_wf l → is_Some (loc_GetNodeAddress to l) → loc_wf (moved c from to l).
Proof. intros. by apply loc_remove_wf, loc_add_wf. Qed.

Lemma moved_order c from to l ord : loc_node_order l ord → loc_node_order (moved c from to l) ord.
Proof. intros. by apply loc_remove_order, loc_add_order. Qed.

Lemma moved_addr c from to l n :
  loc_GetNodeAddress n (moved c from to l) = loc_GetNodeAddress n l.
Proof. unfold moved. by rewrite loc_remove_addr, loc_add_addr. Qed.

Lemma moved_meta c from to l ns :
  loc_GetChunkMeta c l = Some ns → to ∉ ns →
  loc_GetChunkMeta c (moved c from to l) = Some (remove_first from (ns ++ [to])).
Proof.
  intros Hmeta Hto. unfold moved.
  rewrite loc_remove_meta, loc_add_meta, !decide_True, Hmeta by done. simpl.
  by rewrite decide_False.
Qed.

Lemma moved_meta_other c from to l c' :
  c' ≠ c → loc_GetChunkMeta c' (moved c from to l) = loc_GetChunkMeta c' l.
Proof. intros. unfold moved. by rewrite loc_remove_meta, loc_add_meta, !decide_False. Qed.

Lemma moved_on_from c from to l :
  is_Some (loc_GetNodeAddress to l) →
  loc_on from (moved c from to l) = loc_on from l ∖ {[c]}.
Proof.
  intros Hto. unfold moved. rewrite loc_remove_on, loc_add_on, decide_True by done.
  case_decide; [|done]. set_solver.
Qed.

Lemma moved_on_to c from to l :
  is_Some (loc_GetNodeAddress to l) → to ≠ from →
  loc_on to (moved c from to l) = {[c]} ∪ loc_on to l.
Proof.
  intros Hto Hne. unfold moved. rewrite loc_remove_on, loc_add_on, decide_False by done.
  by rewrite decide_True.
Qed.

(** How many replicas a move leaves. *)
Lemma moved_replicas from to ns :
  NoDup ns → to ∉ ns →
  NoDup (remove_first from (ns ++ [to])) ∧
  (length ns ≤ length (remove_first from (ns ++ [to])))%nat ∧
  (from ∈ ns → length (remove_first from (ns ++ [to])) = length ns).
Proof.
  intros Hnd Hto. assert (NoDup (ns ++ [to])) as Hnd'.
  { apply NoDup_app. split; [done|]. split; [set_solver|apply NoDup_singleton]. }
  split; [by apply remove_first_nodup|].
  destruct (decide (from ∈ ns ++ [to])) as [Hin|Hin].
  - apply remove_first_length in Hin. rewrite length_app in Hin. simpl in Hin. lia.
  - rewrite remove_first_absent, length_app by done. simpl.
    split; [lia|]. intros Hf. destruct Hin. apply elem_of_app. by left.
Qed.

(** No chunk has fewer replicas in [l'] than in [l]. *)
Definition replicas_kept (l l' : L) : Prop :=
  ∀ c ns, loc_GetChunkMeta c l = Some ns →
    ∃ ns', loc_GetChunkMeta c l' = Some ns' ∧ NoDup ns' ∧ (length ns ≤ length ns')%nat.

Definition succeeded (events : list MigrationEvent) : gset string :=
  list_to_set (me_ChunkID <$> List.filter me_Success events).

Definition count_success (ok : bool) (events : list MigrationEvent) : Z :=
  Z.of_nat (length (List.filter (λ e, Bool.eqb (me_Success e) ok) events)).

(** What a run of moves off [nodeID] did to the registry. *)
Definition evacuated (nodeID : string) (l l' : L) (events : list MigrationEvent) : Prop :=
  loc_wf l' ∧ (∀ n, loc_GetNodeAddress n l' = loc_GetNodeAddress n l) ∧
  loc_on nodeID l' = loc_on nodeID l ∖ succeeded events ∧ replicas_kept l l'.

Lemma evacuated_nil nodeID l : loc_wf l → evacuated nodeID l l [].
Proof.
  intros Hwf. split; [done|]. split; [done|]. split; [set_solver|].
  intros c ns Hc. exists ns. split; [done|]. split; [by eapply loc_meta_nodup|done].
Qed.

Lemma replicas_kept_moved c from to l ns :
  loc_wf l → loc_GetChunkMeta c l = Some ns → to ∉ ns → replicas_kept l (moved c from to l).
Proof.
  intros Hwf Hmeta Hto c' ns' Hc'. destruct (decide (c' = c)) as [->|Hne].
  - assert (ns' = ns) as -> by congruence.
    exists (remove_first from (ns ++ [to])). rewrite (moved_meta c from to l ns) by done.
    split; [done|]. pose proof (loc_meta_nodup l c ns Hwf Hmeta).
    destruct (moved_replicas from to ns) as (? & ? & _); done.
  - exists ns'. rewrite moved_meta_other by done. split; [done|].
    split; [by eapply loc_meta_nodup|done].
Qed.

Lemma replicas_kept_trans l1 l2 l3 :
  replicas_kept l1 l2 → replicas_kept l2 l3 → replicas_kept l1 l3.
Proof.
  intros H12 H23 c ns Hc. destruct (H12 c ns Hc) as (ns2 & Hc2 & _ & ?).
  destruct (H23 c ns2 Hc2) as (ns3 & ? & ? & ?). exists ns3. split; [done|]. split; [done|]. lia.
Qed.

Lemma evacuated_cons nodeID l l1 l' e events :
  (if me_Success e then
     ∃ ns, loc_GetChunkMeta (me_ChunkID e) l = Some ns ∧ (me_ToNodeID e ∉ ns) ∧
       is_Some (loc_GetNodeAddress (me_ToNodeID e) l) ∧
       l1 = moved (me_ChunkID e) nodeID (me_ToNodeID e) l
   else l1 = l) →
  loc_wf l → evacuated nodeID l1 l' events → evacuated nodeID l l' (e :: events).
Proof.
  intros Hstep Hwf (Hwf' & Haddr & Hon & Hrep). unfold evacuated, succeeded. simpl.
  destruct (me_Success e); [|by subst l1].
  destruct Hstep as (ns & Hmeta & Hto & Hreg & ->). split; [done|]. split; [|split].
  - intros n. by rewrite Haddr, moved_addr.
  - rewrite Hon, moved_on_from by done. simpl. unfold succeeded. set_solver.
  - eapply replicas_kept_trans; [|done]. by eapply replicas_kept_moved.
Qed.

Lemma migrate_loop_spec plans nodeID src cs : ∀ i evs mg fl l w,
  loc_wf l → (∀ j, loc_node_order l (pl_ord (plans j))) →
  match migrate_loop plans nodeID src i cs (evs, mg, fl) (l, w) with
  | (Ok (evs', mg', fl'), (l', w')) =>
      ∃ new, evs' = evs ++ new ∧ me_ChunkID <$> new = cs ∧
        mg' = mg + count_success true new ∧ fl' = fl + count_success false new ∧
        evacuated nodeID l l' new
  | (Err _, _) => False
  | (Panic _, (l', _)) => loc_wf l' ∧ replicas_kept l l'
  end.
Proof.
  induction cs as [|c cs IH]; intros i evs mg fl l w Hwf Hord.
  { simpl. exists []. rewrite app_nil_r. do 2 (split; [done|]). unfold count_success. simpl.
    do 2 (split; [lia|]). by apply evacuated_nil. }
  cbn [migrate_loop]. unfold gos_bind.
  pose proof (migrateChunk_spec (plans i) c nodeID src l w Hwf (Hord i)) as Hc.
  destruct (migrateChunk (plans i) c nodeID src (l, w)) as [[e|err|pn] [l1 w1]]; [|done|].
  2: { subst l1. split; [done|]. by destruct (evacuated_nil nodeID l Hwf) as (_ & _ & _ & ?). }
  destruct Hc as (Hid & _ & Hstep).
  assert (if me_Success e then
     ∃ ns, loc_GetChunkMeta (me_ChunkID e) l = Some ns ∧ (me_ToNodeID e ∉ ns) ∧
       is_Some (loc_GetNodeAddress (me_ToNodeID e) l) ∧
       l1 = moved (me_ChunkID e) nodeID (me_ToNodeID e) l
     else l1 = l) as Hstep'.
  { destruct (me_Success e); [|done]. destruct Hstep as (ns & ? & ? & ? & _ & ?).
    exists ns. rewrite Hid. eauto. }
  assert (loc_wf l1 ∧ (∀ j, loc_node_order l1 (pl_ord (plans j))) ∧ replicas_kept l l1)
    as (Hwf1 & Hord1 & Hkeep).
  { destruct (me_Success e).
    - destruct Hstep' as (ns & ? & ? & ? & ->). split; [by apply moved_wf|].
      split; [intros j; by apply moved_order|]. by eapply replicas_kept_moved.
    - subst l1. split; [done|]. split; [done|].
      by destruct (evacuated_nil nodeID l Hwf) as (_ & _ & _ & ?). }
  set (acc := if me_Success e then _ else _).
  assert (acc = (evs ++ [e], mg + count_success true [e], fl + count_success false [e])) as ->.
  { unfold acc, count_success. simpl. destruct (me_Success e); simpl; by rewrite Z.add_0_r. }
  specialize (IH (S i) (evs ++ [e]) (mg + count_success true [e])
    (fl + count_success false [e]) l1 w1 Hwf1 Hord1).
  destruct (migrate_loop plans nodeID src (S i) cs _ (l1, w1))
    as [[[[evs' mg'] fl']|err|pn] [l' w']]; [|done|].
  - destruct IH as (new & -> & Hids & -> & -> & Hev). exists (e :: new).
    rewrite <- app_assoc, fmap_cons, Hids, Hid. do 2 (split; [done|]).
    assert (∀ b, count_success b (e :: new) = count_success b [e] + count_success b new) as Hcnt.
    { intros b. unfold count_success. simpl. destruct (Bool.eqb (me_Success e) b); simpl; lia. }
    rewrite !Hcnt. do 2 (split; [lia|]). by eapply evacuated_cons.
  - destruct IH as [? ?]. split; [done|]. by eapply replicas_kept_trans.
Qed.

Lemma count_success_total events :
  count_success true events + count_success false events = Z.of_nat (length events).
Proof.
  unfold count_success. induction events as [|e events IH]; [done|]. simpl.
  destruct (me_Success e); simpl; lia.
Qed.

(** A migration, whatever it does, keeps the registry well-formed and every
    replica count. *)
Lemma MigrateNode_keeps start done ord plans p m l w :
  loc_wf l → (∀ j, loc_node_order l (pl_ord (plans j))) →
  loc_wf (MigrateNode start done ord plans p (m, (l, w))).2.2.1 ∧
  replicas_kept l (MigrateNode start done ord plans p (m, (l, w))).2.2.1.
Proof.
  intros Hwf Hord. destruct (evacuated_nil (pr_NodeID p) l Hwf) as (_ & _ & _ & Hrefl).
  unfold MigrateNode. case_decide; [done|]. unfold migrate_body. cbn [fst].
  case_decide; [done|]. destruct (loc_GetNodeAddress (pr_NodeID p) l) as [src|]; [|done].
  pose proof (migrate_loop_spec plans (pr_NodeID p) src
    (loc_GetChunksOnNode ord (pr_NodeID p) l) 0 [] 0 0 l w Hwf Hord) as Hloop.
  destruct (migrate_loop plans (pr_NodeID p) src 0 _ ([], 0, 0) (l, w))
    as [[[[evs mg] fl]|err|pn] [l' w']]; [|done|done].
  destruct Hloop as (new & _ & _ & _ & _ & Hwf' & _ & _ & Hrep). done.
Qed.

(** What every single move preserves, a migration preserves; a move may use that
    the chunk is on the node. *)
Section preserves.
Variable I : L → W → Prop.
Variable from : string.
Hypothesis move_preserves : ∀ pl c src l w r l' w',
  loc_wf l → loc_node_order l (pl_ord pl) → loc_GetNodeAddress from l = Some src →
  c ∈ loc_on from l → I l w → migrateChunk pl c from src (l, w) = (r, (l', w')) → I l' w'.

Lemma migrate_loop_preserves plans src cs : ∀ i acc l w r l' w',
  NoDup cs → (∀ c, c ∈ cs → c ∈ loc_on from l) → loc_wf l →
  (∀ j, loc_node_order l (pl_ord (plans j))) → loc_GetNodeAddress from l = Some src →
  I l w → migrate_loop plans from src i cs acc (l, w) = (r, (l', w')) → I l' w'.
Proof.
  induction cs as [|c cs IH]; intros i acc l w r l' w' Hnd Hon Hwf Hord Hsrc HI Hrun.
  { by injection Hrun as _ <- <-. }
  cbn [migrate_loop] in Hrun. unfold gos_bind in Hrun.
  apply NoDup_cons in Hnd as [Hc Hnd].
  pose proof (migrateChunk_spec (plans i) c from src l w Hwf (Hord i)) as Hspec.
  destruct (migrateChunk (plans i) c from src (l, w)) as [r1 [l1 w1]] eqn:Hstep.
  assert (I l1 w1) as HI1.
  { eapply move_preserves; [done|exact (Hord i)|exact Hsrc| |done|exact Hstep]. apply Hon. by left. }
  destruct r1 as [e|err|pn]; [|by injection Hrun as _ <- <-..].
  destruct acc as [[evs mg] fl]. destruct Hspec as (_ & _ & Hspec).
  eapply IH; [done| | | | |exact HI1|exact Hrun];
    (destruct (me_Success e); [destruct Hspec as (ns & ? & ? & ? & _ & ->)|subst l1]);
    [|by intros; apply Hon; right| |done| |done| |done].
  - intros c' Hc'. rewrite moved_on_from by eauto.
    assert (c' ∈ loc_on from l) by (apply Hon; by right). set_solver.
  - apply moved_wf; eauto.
  - intros j. by apply moved_order.
  - by rewrite moved_addr.
Qed.

Lemma MigrateNode_preserves start done ord plans p m l w r m' l' w' :
  pr_NodeID p = from → loc_wf l → loc_chunk_order from l ord →
  (∀ j, loc_node_order l (pl_ord (plans j))) → I l w →
  MigrateNode start done ord plans p (m, (l, w)) = (r, (m', (l', w'))) → I l' w'.
Proof.
  intros Hp Hwf Hcord Hord HI. unfold MigrateNode. rewrite Hp.
  case_decide; [by intros [= _ _ <- <-]|]. unfold migrate_body. cbn [fst]. rewrite Hp.
  pose proof (loc_chunks_on l from ord Hcord) as Hperm.
  case_decide; [by intros [= _ _ <- <-]|].
  destruct (loc_GetNodeAddress from l) as [src|] eqn:Hsrc; [|by intros [= _ _ <- <-]].
  destruct (migrate_loop _ _ _ _ _ _ _) as [rl [l1 w1]] eqn:Hloop.
  assert (I l1 w1) as HI1.
  { eapply migrate_loop_preserves; [| |done|done|done|done|exact Hloop].
    - rewrite Hperm. apply NoDup_elements.
    - intros c. by rewrite Hperm, elem_of_elements. }
  destruct rl as [[[evs mg] fl]|err|pn]; by intros [= _ _ <- <-].
Qed.
End preserves.

(** One chunk move: the attempt never fails as a call; if it succeeds, the
    source node confirmed the transfer to a healthy target that did not list the
    chunk, the target now holds and the source no longer holds it, the replica
    list stays duplicate-free and keeps its length when the source was listed (a
    stale copy adds a replica), and no other chunk is touched; if it does not
    succeed, the registry is unchanged. *)
Theorem migrateChunk_moves_replica pl c from src l w :
  loc_wf l → loc_node_order l (pl_ord pl) →
  match migrateChunk pl c from src (l, w) with
  | (Ok e, (l', w')) =>
      me_ChunkID e = c ∧ me_FromNodeID e = from ∧
      if me_Success e then
        ∃ ns ns', loc_GetChunkMeta c l = Some ns ∧ loc_GetChunkMeta c l' = Some ns' ∧
          NoDup ns' ∧ (me_ToNodeID e ∉ ns) ∧
          transferChunk src c (me_ToAddress e) w = (Ok tt, w') ∧
          loc_GetNodeAddress (me_ToNodeID e) l = Some (me_ToAddress e) ∧
          (from ∈ ns → length ns' = length ns ∧ c ∈ loc_on (me_ToNodeID e) l') ∧
          (from ∉ ns → length ns' = S (length ns) ∨ me_ToNodeID e = from) ∧
          (c ∉ loc_on from l') ∧ (from ∉ ns') ∧
          (∀ c', c' ≠ c → loc_GetChunkMeta c' l' = loc_GetChunkMeta c' l) ∧
          loc_wf l'
      else l' = l
  | (Err _, _) => False
  | (Panic _, (l', _)) => l' = l
  end.
Proof.
  intros Hwf Hord. pose proof (migrateChunk_spec pl c from src l w Hwf Hord) as Hspec.
  destruct (migrateChunk pl c from src (l, w)) as [[e|err|p] [l' w']]; [|done..].
  destruct Hspec as (? & ? & Hstep). split; [done|]. split; [done|].
  destruct (me_Success e); [|done].
  destruct Hstep as (ns & Hmeta & Hto & Haddr & Htr & ->). set (to := me_ToNodeID e) in *.
  pose proof (loc_meta_nodup l c ns Hwf Hmeta) as Hnd.
  destruct (moved_replicas from to ns Hnd Hto) as (Hnd' & Hge & Hlen).
  exists ns, (remove_first from (ns ++ [to])).
  assert (is_Some (loc_GetNodeAddress to l)) as Hreg by eauto.
  assert (NoDup (ns ++ [to])) as Hnda.
  { apply NoDup_app. split; [done|]. split; [set_solver|apply NoDup_singleton]. }
  split; [done|]. split; [by apply moved_meta|]. do 4 (split; [done|]).
  split; [|split; [|split; [|split; [|split]]]].
  - intros Hf. split; [by apply Hlen|]. rewrite moved_on_to by (done || congruence). set_solver.
  - intros Hf. destruct (decide (to = from)) as [|Hne]; [by right|]. left.
    rewrite remove_first_absent, length_app by set_solver. simpl. lia.
  - rewrite moved_on_from by done. set_solver.
  - rewrite remove_first_elem by done. by intros [_ ?].
  - intros c' Hc'. by apply moved_meta_other.
  - by apply moved_wf.
Qed.

(** A run of [MigrateNode] against the abstract registry. *)
Lemma MigrateNode_spec start done ord plans p m l w :
  loc_wf l → loc_chunk_order (pr_NodeID p) l ord →
  (∀ j, loc_node_order l (pl_ord (plans j))) →
  is_Some (loc_GetNodeAddress (pr_NodeID p) l) →
  if decide (pr_NodeID p ∈ mig_migrating m)
  then MigrateNode start done ord plans p (m, (l, w)) = (Ok None, (m, (l, w)))
  else
    match MigrateNode start done ord plans p (m, (l, w)) with
    | (Ok None, _) | (Err _, _) => False
    | (Ok (Some r), (m', (l', w'))) =>
        mr_NodeID r = pr_NodeID p ∧
        mr_TotalChunks r = Z.of_nat (size (loc_on (pr_NodeID p) l)) ∧
        mr_MigratedChunks r + mr_FailedChunks r = mr_TotalChunks r ∧
        mr_FailedChunks r = count_success false (mr_Events r) ∧
        me_ChunkID <$> mr_Events r ≡ₚ elements (loc_on (pr_NodeID p) l) ∧
        loc_on (pr_NodeID p) l' = loc_on (pr_NodeID p) l ∖ succeeded (mr_Events r) ∧
        replicas_kept l l' ∧ loc_wf l' ∧
        m' = mkMigrator (mig_migrating m) (mig_history m ++ [r])
    | (Panic _, (m', (l', _))) => m' = m ∧ replicas_kept l l' ∧ loc_wf l'
    end.
Proof.
  intros Hwf Hcord Hord [src Hsrc]. case_decide as Hmig.
  { unfold MigrateNode. by rewrite decide_True. }
  unfold MigrateNode. rewrite decide_False by done. unfold migrate_body. cbn [fst].
  pose proof (loc_chunks_on l (pr_NodeID p) ord Hcord) as Hperm.
  set (cs := loc_GetChunksOnNode ord (pr_NodeID p) l) in *.
  assert (length cs = size (loc_on (pr_NodeID p) l)) as Hsize.
  { by rewrite (Permutation_length Hperm). }
  assert (∀ X : gset string, pr_NodeID p ∉ X → ({[pr_NodeID p]} ∪ X) ∖ {[pr_NodeID p]} = X)
    as Hclear by set_solver.
  cbn [mig_migrating mig_history]. rewrite Hsrc.
  case_decide as Hz.
  - cbn. rewrite Hclear by done. cbn. apply nil_length_inv in Hz.
    destruct (evacuated_nil (pr_NodeID p) l Hwf) as (? & ? & ? & ?).
    split; [done|]. split; [by rewrite Hsize|]. split; [by rewrite Hz|].
    split; [done|]. split; [by rewrite <- Hperm, Hz|]. done.
  - pose proof (migrate_loop_spec plans (pr_NodeID p) src cs 0 [] 0 0 l w Hwf Hord) as Hloop.
    destruct (migrate_loop plans (pr_NodeID p) src 0 cs ([], 0, 0) (l, w))
      as [[[[evs mg] fl]|err|pn] [l' w']]; [|done|].
    + destruct Hloop as (new & -> & Hids & -> & -> & Hwf' & _ & Hon & Hrep).
      cbn [mr_NodeID mr_TotalChunks mr_MigratedChunks mr_FailedChunks mr_Events mig_migrating
        mig_history app].
      rewrite Hclear by done. split; [done|]. split; [by rewrite Hsize|].
      split; [rewrite !Z.add_0_l, count_success_total, <- Hids; by rewrite length_fmap|].
      split; [done|]. split; [by rewrite Hids|]. done.
    + destruct Hloop as [Hwf' Hrep]. cbn [mig_migrating mig_history].
      rewrite Hclear by done. by destruct m.
Qed.

(** A run without failures empties the node. *)
Lemma MigrateNode_all start done ord plans p m l w r m' l' w' :
  loc_wf l → loc_chunk_order (pr_NodeID p) l ord →
  (∀ j, loc_node_order l (pl_ord (plans j))) →
  is_Some (loc_GetNodeAddress (pr_NodeID p) l) →
  MigrateNode start done ord plans p (m, (l, w)) = (Ok (Some r), (m', (l', w'))) →
  mr_FailedChunks r = 0 → loc_on (pr_NodeID p) l' = ∅.
Proof.
  intros Hwf Hcord Hord Hp Hrun Hf.
  pose proof (MigrateNode_spec start done ord plans p m l w Hwf Hcord Hord Hp) as Hspec.
  case_decide; [by rewrite Hspec in Hrun|]. rewrite Hrun in Hspec.
  destruct Hspec as (_ & _ & _ & Hcount & Hperm & -> & _). rewrite Hf in Hcount.
  assert (∀ evs, 0 = count_success false evs → List.filter me_Success evs = evs) as Hall.
  { induction evs as [|e evs IH]; [done|]. unfold count_success in *. simpl.
    destruct (me_Success e); simpl; [intros; by rewrite IH|lia]. }
  unfold succeeded. rewrite Hall by done. apply set_eq. intros c.
  rewrite elem_of_difference, elem_of_list_to_set, Hperm, elem_of_elements. set_solver.
Qed.

(** C25: Evacuation: a run of MigrateNode on a node that is not being migrated
    returns a report in which every chunk of the node appears once and
    total = migrated + failed; afterwards the node still holds exactly the chunks
    whose move failed, no chunk anywhere has lost a replica, the in-progress flag
    is cleared and the report is appended to the history.  While the node is being
    migrated, a second call does nothing. *)
Theorem MigrateNode_evacuates start done ord plans p m l w :
  loc_wf l → loc_chunk_order (pr_NodeID p) l ord →
  (∀ j, loc_node_order l (pl_ord (plans j))) →
  is_Some (loc_GetNodeAddress (pr_NodeID p) l) →
  if decide (pr_NodeID p ∈ mig_migrating m)
  then MigrateNode start done ord plans p (m, (l, w)) = (Ok None, (m, (l, w)))
  else
    match MigrateNode start done ord plans p (m, (l, w)) with
    | (Ok None, _) | (Err _, _) => False
    | (Ok (Some r), (m', (l', w'))) =>
        mr_NodeID r = pr_NodeID p ∧
        mr_TotalChunks r = Z.of_nat (size (loc_on (pr_NodeID p) l)) ∧
        mr_MigratedChunks r + mr_FailedChunks r = mr_TotalChunks r ∧
        mr_FailedChunks r = count_success false (mr_Events r) ∧
        me_ChunkID <$> mr_Events r ≡ₚ elements (loc_on (pr_NodeID p) l) ∧
        loc_on (pr_NodeID p) l' = loc_on (pr_NodeID p) l ∖ succeeded (mr_Events r) ∧
        replicas_kept l l' ∧ loc_wf l' ∧
        m' = mkMigrator (mig_migrating m) (mig_history m ++ [r])
    | (Panic _, (m', (l', _))) => m' = m ∧ replicas_kept l l' ∧ loc_wf l'
    end.
Proof. by apply MigrateNode_spec. Qed.
End migrator.
