(* ===== verification/Adapter.v ===== *)
(** * internal/metaserver/locator_adapter.go: the registry as a [ChunkLocator]

    The adapter forwards to the chunk manager; the instance below discharges the
    laws the migrator is proved against. *)
From S2P Require Export ChunkManagerSpec Migrator.
Local Open Scope Z_scope.

Definition adapter_GetChunkMeta (chunkID : string) (cm : ChunkManager) : option (list string) :=
  match GetChunkMeta chunkID cm with
  | None => None
  | Some meta => Some (ck_NodeIDs meta)
  end.

Definition adapter_GetHealthyNodeAddresses (ord excludeNodeIDs : list string)
    (cm : ChunkManager) : list NodeTarget :=
  let excludeSet : gset string := foldl (λ s id, {[id]} ∪ s) ∅ excludeNodeIDs in
  foldl (λ targets n,
           if decide (dn_NodeID n ∈ excludeSet) then targets
           else if decide (dn_Status n = StatusHealthy ∨ dn_Status n = StatusWarning)
           then targets ++ [mkNodeTarget (dn_NodeID n) (dn_Address n)]
           else targets) [] (GetAllNodes ord cm).

Definition adapter_GetNodeAddress (nodeID : string) (cm : ChunkManager) : option string :=
  match GetNode nodeID cm with
  | None => None
  | Some node => Some (dn_Address node)
  end.

#[export] Instance ChunkManagerAdapter : ChunkLocator ChunkManager := {
  loc_GetChunksOnNode := GetChunksOnNode;
  loc_GetChunkMeta := adapter_GetChunkMeta;
  loc_GetHealthyNodeAddresses := adapter_GetHealthyNodeAddresses;
  loc_AddChunkToNode := AddChunkToNode;
  loc_RemoveChunkFromNode := RemoveChunkFromNode;
  loc_GetNodeAddress := adapter_GetNodeAddress;
}.

(** ** Lemmas *)
Definition target_of (ex : list string) (n : DataNodeInfo) : option NodeTarget :=
  if decide ((dn_NodeID n ∉ ex) ∧ (dn_Status n = StatusHealthy ∨ dn_Status n = StatusWarning))
  then Some (mkNodeTarget (dn_NodeID n) (dn_Address n)) else None.

Lemma exclude_set_elem ex k : ∀ s : gset string,
  k ∈ foldl (λ s id, {[id]} ∪ s) s ex ↔ k ∈ s ∨ k ∈ ex.
Proof.
  induction ex as [|id ex IH]; intros s; simpl; [set_solver|]. rewrite IH. set_solver.
Qed.

Lemma GetHealthyNodeAddresses_omap ord ex cm :
  adapter_GetHealthyNodeAddresses ord ex cm = omap (target_of ex) (GetAllNodes ord cm).
Proof.
  unfold adapter_GetHealthyNodeAddresses. cbv zeta.
  set (excl := foldl _ _ ex).
  assert (∀ k, k ∈ excl ↔ k ∈ ex) as Hexcl.
  { intros k. unfold excl. rewrite exclude_set_elem. set_solver. }
  assert (∀ l acc, foldl (λ targets n,
           if decide (dn_NodeID n ∈ excl) then targets
           else if decide (dn_Status n = StatusHealthy ∨ dn_Status n = StatusWarning)
           then targets ++ [mkNodeTarget (dn_NodeID n) (dn_Address n)]
           else targets) acc l = acc ++ omap (target_of ex) l) as Hgen.
  { induction l as [|n l IH]; intros acc; [by rewrite app_nil_r|]. cbn [foldl omap list_omap].
    unfold target_of at 1. destruct (decide (dn_NodeID n ∈ excl)) as [Hin|Hout].
    - rewrite decide_False by (rewrite <- Hexcl; tauto). apply IH.
    - destruct (decide (dn_Status n = StatusHealthy ∨ dn_Status n = StatusWarning)).
      + rewrite decide_True by (rewrite <- Hexcl; tauto). by rewrite IH, <- app_assoc.
      + rewrite decide_False by tauto. apply IH. }
  apply Hgen.
Qed.

Lemma adapter_target_elem ord ex cm t :
  cm_inv cm → map_order (cm_nodes cm) ord →
  t ∈ adapter_GetHealthyNodeAddresses ord ex cm ↔
    (nt_NodeID t ∉ ex) ∧ ∃ n, cm_nodes cm !! nt_NodeID t = Some n ∧
      dn_Address n = nt_Address t ∧ (dn_Status n = StatusHealthy ∨ dn_Status n = StatusWarning).
Proof.
  intros Hinv Hord. rewrite GetHealthyNodeAddresses_omap, list_elem_of_omap. unfold target_of. split.
  - intros (n & Hn & Ht). apply (elem_of_range_snd _ _ _ Hord) in Hn as [k Hk].
    case_decide as Hc; [|done]. injection Ht as <-. simpl. destruct Hc as [? ?].
    split; [done|]. exists n. by rewrite (inv_key _ Hinv k n Hk).
  - intros (Hex & n & Hn & Ha & Hs). exists n.
    split; [apply (elem_of_range_snd _ _ _ Hord); eauto|].
    pose proof (inv_key _ Hinv _ _ Hn) as Hid.
    rewrite decide_True by (rewrite Hid; done). rewrite Hid, Ha. by destruct t.
Qed.

Definition on_node (nid : string) (cm : ChunkManager) : gset string :=
  match cm_nodes cm !! nid with Some n => dn_Chunks n | None => ∅ end.

Lemma adapter_addr_alter cm cm' n :
  (∀ k, dn_Address <$> cm_nodes cm' !! k = dn_Address <$> cm_nodes cm !! k) →
  adapter_GetNodeAddress n cm' = adapter_GetNodeAddress n cm.
Proof.
  intros Ha. specialize (Ha n). unfold adapter_GetNodeAddress, GetNode.
  destruct (cm_nodes cm !! n), (cm_nodes cm' !! n); simpl in Ha; congruence.
Qed.

Lemma alter_chunks_addr g k (N : gmap string DataNodeInfo) j :
  dn_Address <$> alter (set_Chunks g) k N !! j = dn_Address <$> N !! j.
Proof.
  destruct (decide (j = k)) as [->|].
  - rewrite lookup_alter_eq. by destruct (N !! k).
  - by rewrite lookup_alter_ne.
Qed.

Lemma alter_order g k (N : gmap string DataNodeInfo) ord :
  map_order N ord → map_order (alter (set_Chunks g) k N) ord.
Proof.
  apply map_order_dom_eq. intros j. destruct (decide (j = k)) as [->|].
  - by rewrite lookup_alter_eq, fmap_is_Some.
  - by rewrite lookup_alter_ne.
Qed.

#[export] Instance ChunkManagerAdapter_spec : ChunkLocatorSpec ChunkManager.
Proof.
  refine {| loc_wf := cm_inv; loc_on := on_node;
            loc_chunk_order n cm ord := set_order (on_node n cm) ord;
            loc_node_order cm ord := map_order (cm_nodes cm) ord |}.
  - intros cm n ord Hord. simpl. unfold GetChunksOnNode, on_node in *.
    destruct (cm_nodes cm !! n); [by apply range_set_perm|]. by rewrite elements_empty.
  - intros cm ord ex t Hinv Hord Ht. simpl in *.
    apply adapter_target_elem in Ht as (Hex & n & Hn & Ha & _); [|done..].
    split; [done|]. unfold adapter_GetNodeAddress, GetNode. by rewrite Hn, Ha.
  - intros cm c ns Hinv. simpl. unfold adapter_GetChunkMeta, GetChunkMeta.
    destruct (cm_chunks cm !! c) as [m|] eqn:Hm; [|done]. intros [= <-].
    by apply (inv_nodup _ Hinv c).
  - intros cm c ns n Hinv. simpl. unfold adapter_GetChunkMeta, GetChunkMeta.
    destruct (cm_chunks cm !! c) as [m|] eqn:Hm; [|done]. intros [= <-] Hin.
    destruct (inv_holds _ Hinv c m n Hm Hin) as (nd & Hnd & Hc). unfold on_node. by rewrite Hnd.
  - intros cm c n c'. simpl. unfold adapter_GetChunkMeta, GetChunkMeta.
    rewrite AddChunkToNode_chunk. case_decide as Heq; [|done].
    destruct (cm_chunks cm !! c') as [m|]; [|done]. simpl. by case_decide.
  - intros cm c n c'. simpl. unfold adapter_GetChunkMeta, GetChunkMeta.
    rewrite RemoveChunkFromNode_chunk. case_decide as Heq; [|done].
    by destruct (cm_chunks cm !! c').
  - intros cm c n n' [a Ha]. simpl in *. unfold adapter_GetNodeAddress, GetNode in Ha.
    unfold on_node. rewrite AddChunkToNode_nodes. destruct (decide (n' = n)) as [->|].
    + rewrite lookup_alter_eq. by destruct (cm_nodes cm !! n).
    + by rewrite lookup_alter_ne.
  - intros cm c n n'. simpl. unfold on_node. rewrite RemoveChunkFromNode_nodes.
    destruct (decide (n' = n)) as [->|].
    + rewrite lookup_alter_eq. destruct (cm_nodes cm !! n); simpl; [done|set_solver].
    + by rewrite lookup_alter_ne.
  - intros cm c n Hinv [a Ha]. apply AddChunkToNode_inv; [done|].
    simpl in Ha. unfold adapter_GetNodeAddress, GetNode in Ha.
    destruct (cm_nodes cm !! n); [eauto|done].
  - intros cm c n. apply RemoveChunkFromNode_inv.
  - intros cm c n n'. apply adapter_addr_alter. intros k. rewrite AddChunkToNode_nodes.
    apply alter_chunks_addr.
  - intros cm c n n'. apply adapter_addr_alter. intros k. rewrite RemoveChunkFromNode_nodes.
    apply alter_chunks_addr.
  - intros cm c n ord. simpl. rewrite AddChunkToNode_nodes. apply alter_order.
  - intros cm c n ord. simpl. rewrite RemoveChunkFromNode_nodes. apply alter_order.
Defined.

(** Migration targets: the adapter offers exactly the registered nodes that are
    not excluded and whose status is HEALTHY or WARNING, each once and with its own
    address.  (Unlike the placement of new chunks it does not ask for a fresh
    heartbeat: a silent node not yet marked dead is still offered.) *)
Theorem GetHealthyNodeAddresses_exact ord ex cm :
  cm_inv cm → map_order (cm_nodes cm) ord →
  NoDup (nt_NodeID <$> adapter_GetHealthyNodeAddresses ord ex cm) ∧
  ∀ t, t ∈ adapter_GetHealthyNodeAddresses ord ex cm ↔
    (nt_NodeID t ∉ ex) ∧ ∃ n, cm_nodes cm !! nt_NodeID t = Some n ∧
      dn_Address n = nt_Address t ∧ (dn_Status n = StatusHealthy ∨ dn_Status n = StatusWarning).
Proof.
  intros Hinv Hord. split; [|intros t; by apply adapter_target_elem].
  rewrite GetHealthyNodeAddresses_omap. eapply sublist_NoDup; [by eapply map_order_nodup|].
  assert (ord = dn_NodeID <$> GetAllNodes ord cm) as Hids.
  { rewrite <- (range_map_fst (cm_nodes cm) ord Hord) at 1. unfold GetAllNodes.
    rewrite <- list_fmap_compose. apply list_fmap_ext.
    intros i [k n] Hi%list_elem_of_lookup_2. simpl.
    apply elem_of_range_map in Hi as [_ Hk]. by rewrite (inv_key _ Hinv k n Hk). }
  rewrite Hids at 2. clear. induction (GetAllNodes ord cm) as [|n l IH]; [constructor|]. rewrite fmap_cons.
  change (omap (target_of ex) (n :: l)) with
    (match target_of ex n with Some t => t :: omap (target_of ex) l | None => omap (target_of ex) l end).
  destruct (target_of ex n) as [t|] eqn:Ht; [|by apply sublist_cons].
  rewrite fmap_cons. unfold target_of in Ht. case_decide; [|done]. injection Ht as <-.
  by apply sublist_skip.
Qed.

Lemma GetHealthyNodeAddresses_exact_witness :
  NoDup (nt_NodeID <$> adapter_GetHealthyNodeAddresses demo_ord ["node-1"] demo_cm) ∧
  length (adapter_GetHealthyNodeAddresses demo_ord ["node-1"] demo_cm) = 3%nat.
Proof.
  split; [|vm_compute; reflexivity].
  exact (proj1 (GetHealthyNodeAddresses_exact demo_ord ["node-1"] demo_cm demo_inv demo_order)).
Defined.

(** ** Concrete migrations *)
Section witnesses.

Definition demo_dial (addr : string) (w : unit) : go unit := Ok tt.
Definition demo_call (addr : string) (req : TransferChunkRequest) : gos unit TransferChunkResponse :=
  λ w, (Ok (mkTransferChunkResponse true "chunk transferred"), w).
Definition demo_plan : chunk_plan := mkChunkPlan demo_ord Second (2 * Second).
Definition demo_chunk : string :=
  Eval vm_compute in default "" (cp_ChunkID <$> demo_ps !! 0%nat).

Lemma demo_order2 : map_order (cm_nodes demo_cm2) demo_ord.
Proof.
  refine (map_order_dom_eq (cm_nodes demo_cm) _ _ _ demo_order).
  exact (proj1 (proj2 (AllocateChunks_inv 0 demo_ord "/f" 2 demo_size demo_cm _ demo_cm2
    demo_inv demo_order demo_alloc_ok))).
Qed.

Lemma migrateChunk_moves_replica_witness :
  ∃ e l', migrateChunk demo_dial demo_call demo_plan demo_chunk "node-1" "a:9000" (demo_cm2, tt)
      = (Ok e, (l', tt)) ∧ me_ToNodeID e = "node-4" ∧ demo_chunk ∉ on_node "node-1" l'.
Proof.
  pose proof (migrateChunk_moves_replica demo_dial demo_call demo_plan demo_chunk "node-1" "a:9000"
    demo_cm2 tt demo_inv2 demo_order2) as H.
  assert (match migrateChunk demo_dial demo_call demo_plan demo_chunk "node-1" "a:9000"
            (demo_cm2, tt) with
          | (Ok e, _) => me_Success e = true ∧ me_ToNodeID e = "node-4" | _ => False end) as Hrun
    by (vm_compute; split; reflexivity).
  destruct (migrateChunk demo_dial demo_call demo_plan demo_chunk "node-1" "a:9000" (demo_cm2, tt))
    as [[e|err|p] [l' []]]; [|destruct Hrun..].
  exists e, l'. destruct Hrun as [Hs Ht]. rewrite Hs in H.
  destruct H as (_ & _ & ns & ns' & _ & _ & _ & _ & _ & _ & _ & _ & Hc & _).
  split; [reflexivity|]. split; [exact Ht|exact Hc].
Defined.

Definition demo_prediction : PredictionResult :=
  mkPredictionResult "node-1" f64_one StatusCritical ∅ [] Second.

Definition demo_chunk_ord : list string := elements (on_node "node-1" demo_cm2).

Lemma MigrateNode_evacuates_witness :
  ∃ r l', MigrateNode demo_dial demo_call Second (2 * Second) demo_chunk_ord (λ _, demo_plan)
      demo_prediction (NewMigrator, (demo_cm2, tt))
    = (Ok (Some r), (mkMigrator ∅ [r], (l', tt))) ∧
    mr_MigratedChunks r = 2 ∧ mr_MigratedChunks r + mr_FailedChunks r = mr_TotalChunks r.
Proof.
  pose proof (MigrateNode_evacuates demo_dial demo_call Second (2 * Second) demo_chunk_ord
    (λ _, demo_plan) demo_prediction NewMigrator demo_cm2 tt demo_inv2 (set_order_elements _)
    (λ _, demo_order2) ltac:(eexists; vm_compute; reflexivity)) as H.
  rewrite decide_False in H by (apply not_elem_of_empty).
  assert (match MigrateNode demo_dial demo_call Second (2 * Second) demo_chunk_ord
            (λ _, demo_plan) demo_prediction (NewMigrator, (demo_cm2, tt)) with
          | (Ok (Some r), _) => mr_MigratedChunks r = 2 | _ => False end) as Hrun
    by (vm_compute; reflexivity).
  destruct (MigrateNode demo_dial demo_call Second (2 * Second) demo_chunk_ord
    (λ _, demo_plan) demo_prediction (NewMigrator, (demo_cm2, tt)))
    as [[[r|]|err|p] [m' [l' []]]]; [|destruct Hrun..].
  exists r, l'. destruct H as (_ & _ & Hsum & _ & _ & _ & _ & _ & ->).
  split; [reflexivity|]. split; [exact Hrun|exact Hsum].
Defined.
End witnesses.
