(* ===== verification/MigrationRace.v ===== *)
(** * Concurrent migrations

    [server.go] starts every migration in its own goroutine, and a migration only
    holds the registry's lock during each single call.  Here [migrateChunk] is a
    thread whose steps are those calls; threads interleave on one registry. *)
From S2P Require Export Adapter.
Local Open Scope Z_scope.

(** Where a thread is in [migrateChunk]. *)
Inductive mig_pc :=
  | PcStart                             (* about to call GetChunkMeta *)
  | PcMeta (existing : list string)     (* about to look for targets *)
  | PcTarget (target : NodeTarget)      (* about to transfer *)
  | PcTransferred (target : NodeTarget) (* about to call AddChunkToNode *)
  | PcAdded (target : NodeTarget)       (* about to call RemoveChunkFromNode *)
  | PcDone (success : bool).

Record mig_thread := mkMigThread {
  th_chunk : string;
  th_from : string;
  th_src : string;
  th_pc : mig_pc;
}.

Definition at_pc (th : mig_thread) (pc : mig_pc) : mig_thread :=
  mkMigThread (th_chunk th) (th_from th) (th_src th) pc.

Section threads.
Context {L : Type} `{ChunkLocator L} {W : Type}.
Variable dial : string → W → go unit.
Variable call : string → TransferChunkRequest → gos W TransferChunkResponse.

(** One atomic step of a thread; [ord] is the order in which the registry visits
    its nodes during the step. *)
Definition thread_step (ord : list string) (th : mig_thread) (s : L * W)
    : option ((L * W) * mig_thread) :=
  let '(l, w) := s in
  match th_pc th with
  | PcStart =>
      match loc_GetChunkMeta (th_chunk th) l with
      | None => Some (s, at_pc th (PcDone false))
      | Some existing => Some (s, at_pc th (PcMeta existing))
      end
  | PcMeta existing =>
      match loc_GetHealthyNodeAddresses ord existing l with
      | [] => Some (s, at_pc th (PcDone false))
      | target :: _ => Some (s, at_pc th (PcTarget target))
      end
  | PcTarget target =>
      match transferChunk dial call (th_src th) (th_chunk th) (nt_Address target) w with
      | (Ok _, w') => Some ((l, w'), at_pc th (PcTransferred target))
      | (Err _, w') => Some ((l, w'), at_pc th (PcDone false))
      | (Panic _, _) => None
      end
  | PcTransferred target =>
      Some ((loc_AddChunkToNode (th_chunk th) (nt_NodeID target) l, w), at_pc th (PcAdded target))
  | PcAdded target =>
      Some ((loc_RemoveChunkFromNode (th_chunk th) (th_from th) l, w), at_pc th (PcDone true))
  | PcDone _ => None
  end.

(** Any thread of the pool may take the next step. *)
Inductive pool_step : (L * W) * list mig_thread → (L * W) * list mig_thread → Prop :=
  | pool_step_intro i ord th th' s s' ths :
      ths !! i = Some th → thread_step ord th s = Some (s', th') →
      pool_step (s, ths) (s', <[i := th']> ths).

(** An executable scheduler: thread [i] steps, with visiting order [ord]. *)
Fixpoint run_schedule (sched : list (nat * list string)) (c : (L * W) * list mig_thread)
    : option ((L * W) * list mig_thread) :=
  match sched with
  | [] => Some c
  | (i, ord) :: rest =>
      th ← c.2 !! i;
      '(s', th') ← thread_step ord th c.1;
      run_schedule rest (s', <[i := th']> c.2)
  end.

Lemma run_schedule_steps sched : ∀ c c', run_schedule sched c = Some c' → rtc pool_step c c'.
Proof.
  induction sched as [|[i ord] sched IH]; intros [s ths] c'; simpl; [by intros [= <-]; apply rtc_refl|].
  destruct (ths !! i) as [th|] eqn:Hth; [|done]. simpl.
  destruct (thread_step ord th s) as [[s' th']|] eqn:Hst; [|done]. simpl. intros Hrun.
  eapply rtc_l; [by econstructor|by apply IH].
Qed.

(** A thread that runs without interference does what [migrateChunk] does: for
    every outcome of the sequential function the thread reaches its end with the
    same registry, the same data nodes and the same success flag. *)
Theorem migrateChunk_refined_by_thread pl c from src s s' e :
  migrateChunk dial call pl c from src s = (Ok e, s') →
  rtc pool_step (s, [mkMigThread c from src PcStart])
    (s', [mkMigThread c from src (PcDone (me_Success e))]).
Proof.
  destruct s as [l w]. unfold migrateChunk.
  assert (∀ sched s1 th1, run_schedule sched ((l, w), [mkMigThread c from src PcStart])
    = Some (s1, [th1]) → rtc pool_step ((l, w), [mkMigThread c from src PcStart]) (s1, [th1]))
    as Hrun by (intros; by eapply run_schedule_steps).
  pose (o := pl_ord pl).
  destruct (loc_GetChunkMeta c l) as [ns|] eqn:Hmeta.
  2: { intros [= <- <-]. apply (Hrun [(0%nat, o)]). simpl. by rewrite Hmeta. }
  destruct (loc_GetHealthyNodeAddresses (pl_ord pl) ns l) as [|t ts] eqn:Ht.
  { intros [= <- <-]. apply (Hrun [(0%nat, o); (0%nat, o)]). simpl. rewrite Hmeta. simpl.
    unfold o. by rewrite Ht. }
  destruct (transferChunk dial call src c (nt_Address t) w) as [[[]|err|p] w'] eqn:Htr;
    intros [= <- <-].
  - apply (Hrun (replicate 5 (0%nat, o))). simpl. rewrite Hmeta. simpl. unfold o. rewrite Ht. simpl.
    by rewrite Htr.
  - apply (Hrun (replicate 3 (0%nat, o))). simpl. rewrite Hmeta. simpl. unfold o. rewrite Ht. simpl.
    by rewrite Htr.
Qed.

(** ** A whole migration as a thread

    [MigrateNode] call by call: it raises the node's flag, lists the node's chunks,
    looks up the node's address, moves the chunks one after the other, and clears the
    flag.  Of the report the thread keeps the number of failed chunks. *)
Inductive node_pc :=
  | NodeStart
  | NodeFlagged                     (* about to call GetChunksOnNode *)
  | NodeListed (ids : list string)  (* about to call GetNodeAddress *)
  | NodeMoving (src : string) (rest : list string) (failed : Z) (pc : mig_pc)
                                    (* moving the first chunk of [rest] *)
  | NodeEnding (failed : Z)         (* about to clear the flag *)
  | NodeReturned (report : option Z).

Record node_thread := mkNodeThread { nh_node : string; nh_pc : node_pc }.

Definition at_node_pc (th : node_thread) (pc : node_pc) : node_thread := mkNodeThread (nh_node th) pc.

(** One step; [busy] is the migrator's map of flags, [cord] and [ord] are the orders in
    which the node's chunks and the registry are visited. *)
Definition node_step (cord ord : list string) (th : node_thread) (s : gset string * (L * W))
    : option ((gset string * (L * W)) * node_thread) :=
  let '(busy, lw) := s in
  match nh_pc th with
  | NodeStart =>
      if decide (nh_node th ∈ busy) then Some (s, at_node_pc th (NodeReturned None))
      else Some (({[nh_node th]} ∪ busy, lw), at_node_pc th NodeFlagged)
  | NodeFlagged =>
      let ids := loc_GetChunksOnNode cord (nh_node th) lw.1 in
      if decide (length ids = 0%nat) then Some (s, at_node_pc th (NodeEnding 0))
      else Some (s, at_node_pc th (NodeListed ids))
  | NodeListed ids =>
      match loc_GetNodeAddress (nh_node th) lw.1 with
      | None => Some (s, at_node_pc th (NodeEnding 0))
      | Some src => Some (s, at_node_pc th (NodeMoving src ids 0 PcStart))
      end
  | NodeMoving src [] failed _ => Some (s, at_node_pc th (NodeEnding failed))
  | NodeMoving src (c :: rest) failed pc =>
      match thread_step ord (mkMigThread c (nh_node th) src pc) lw with
      | None => None
      | Some (lw', th') =>
          Some ((busy, lw'), at_node_pc th
            match th_pc th' with
            | PcDone true => NodeMoving src rest failed PcStart
            | PcDone false => NodeMoving src rest (failed + 1) PcStart
            | pc' => NodeMoving src (c :: rest) failed pc'
            end)
      end
  | NodeEnding failed => Some ((busy ∖ {[nh_node th]}, lw), at_node_pc th (NodeReturned (Some failed)))
  | NodeReturned _ => None
  end.
End threads.

(** ** Two nodes failing at once

    Two threads move one chunk away from two of its replicas.  Both read the replica
    list before either changes it, so both choose the same target. *)
Section race.
Context {L : Type} `{ChunkLocatorSpec L} {W : Type}.
Variable dial : string → W → go unit.
Variable call : string → TransferChunkRequest → gos W TransferChunkResponse.

Definition two_migrations (c from1 src1 from2 src2 : string) (pc1 pc2 : mig_pc) : list mig_thread :=
  [mkMigThread c from1 src1 pc1; mkMigThread c from2 src2 pc2].

(** The threads in turn, each visiting the nodes in the order [ord]. *)
Definition in_turn (ord : list string) (n : nat) : list (nat * list string) :=
  mjoin (replicate n [(0%nat, ord); (1%nat, ord)]).

Lemma add_present c t ns l :
  loc_GetChunkMeta c l = Some ns → t ∈ ns →
  loc_GetChunkMeta c (loc_AddChunkToNode c t l) = Some ns.
Proof. intros Hm Ht. rewrite loc_add_meta, decide_True, Hm by done. simpl. by rewrite decide_True. Qed.

Lemma add_absent c t ns l :
  loc_GetChunkMeta c l = Some ns → t ∉ ns →
  loc_GetChunkMeta c (loc_AddChunkToNode c t l) = Some (ns ++ [t]).
Proof. intros Hm Ht. rewrite loc_add_meta, decide_True, Hm by done. simpl. by rewrite decide_False. Qed.

Lemma remove_listed c x ns l :
  loc_GetChunkMeta c l = Some ns →
  loc_GetChunkMeta c (loc_RemoveChunkFromNode c x l) = Some (remove_first x ns).
Proof. intros Hm. by rewrite loc_remove_meta, decide_True, Hm. Qed.

(** C31: Concurrent migrations lose a replica: in every well-formed registry, for every
    chunk with replicas on two nodes [from1] and [from2], let the registry offer
    [target] first to a migration of the chunk, and let the transfers to it succeed;
    then two migrations of the chunk, away from the two nodes, have an interleaving in
    which both are about to transfer to this one target, both end in success, and the
    replicas are the old ones with the two nodes replaced by the target alone: one
    replica fewer than before. *)
Theorem concurrent_migrations_lose_replica l w c ns from1 src1 from2 src2 ord target others w1 w2 :
  loc_wf l → loc_node_order l ord → loc_GetChunkMeta c l = Some ns →
  from1 ∈ ns → from2 ∈ ns → from1 ≠ from2 →
  loc_GetHealthyNodeAddresses ord ns l = target :: others →
  transferChunk dial call src1 c (nt_Address target) w = (Ok tt, w1) →
  transferChunk dial call src2 c (nt_Address target) w1 = (Ok tt, w2) →
  ∃ l' ns',
    rtc (pool_step dial call) ((l, w), two_migrations c from1 src1 from2 src2 PcStart PcStart)
      ((l, w), two_migrations c from1 src1 from2 src2 (PcTarget target) (PcTarget target)) ∧
    rtc (pool_step dial call)
      ((l, w), two_migrations c from1 src1 from2 src2 (PcTarget target) (PcTarget target))
      ((l', w2), two_migrations c from1 src1 from2 src2 (PcDone true) (PcDone true)) ∧
    loc_GetChunkMeta c l' = Some ns' ∧
    (∀ x, x ∈ ns' ↔ (x ∈ ns ∧ x ≠ from1 ∧ x ≠ from2) ∨ x = nt_NodeID target) ∧
    length ns' = (length ns - 1)%nat.
Proof.
  intros Hwf Hord Hm H1 H2 Hne Ht Htr1 Htr2. set (t := nt_NodeID target).
  destruct (loc_targets l ord ns target Hwf Hord ltac:(rewrite Ht; left)) as [Hnin _].
  set (la := loc_AddChunkToNode c t (loc_AddChunkToNode c t l)).
  exists (loc_RemoveChunkFromNode c from2 (loc_RemoveChunkFromNode c from1 la)).
  exists (remove_first from2 (remove_first from1 (ns ++ [t]))).
  assert (loc_GetChunkMeta c la = Some (ns ++ [t])) as Hma.
  { apply add_present; [by apply add_absent|]. apply elem_of_app. right. by left. }
  pose proof (loc_meta_nodup l c ns Hwf Hm) as Hnd.
  assert (NoDup (ns ++ [t])) as Hnd' by (by apply NoDup_app; repeat split; [done|set_solver|apply NoDup_singleton]).
  split; [|split; [|split; [|split]]].
  - apply (run_schedule_steps dial call (in_turn ord 2)). simpl. rewrite Hm. simpl. rewrite Hm. simpl.
    rewrite Ht. simpl. by rewrite Ht.
  - apply (run_schedule_steps dial call (in_turn ord 3)). simpl. rewrite Htr1. simpl. by rewrite Htr2.
  - by do 2 apply remove_listed.
  - intros x. rewrite !remove_first_elem, elem_of_app, list_elem_of_singleton by auto using remove_first_nodup.
    set_solver.
  - assert (from1 ∈ ns ++ [t]) as Hin1 by set_solver.
    assert (from2 ∈ remove_first from1 (ns ++ [t])) as Hin2 by (rewrite remove_first_elem by done; set_solver).
    apply remove_first_length in Hin1, Hin2. rewrite length_app in Hin1. simpl in Hin1. lia.
Qed.
End race.

(** *** A concrete race

    Four nodes, one chunk on three of them; then two of the three turn critical. *)
Section race_run.
Definition race_alloc : go (list ChunkPlacementInfo) * ChunkManager :=
  AllocateChunks 0 demo_ord "/f" 1 100 demo_cm.
Definition race_cm : ChunkManager :=
  UpdateNodeHealth "node-2" (RiskToStatus f64_one) f64_one
    (UpdateNodeHealth "node-1" (RiskToStatus f64_one) f64_one race_alloc.2).
Definition race_chunk : string := demo_chunk.

Lemma race_reach : rtc cm_step NewChunkManager race_cm.
Proof.
  etrans; [exact demo_reach|].
  eapply rtc_l; [|eapply rtc_l; [apply step_health|eapply rtc_l; [apply step_health|apply rtc_refl]]].
  refine (step_allocate 0 demo_ord "/f" 1 100 race_alloc.1 demo_cm race_alloc.2 demo_order _).
  apply surjective_pairing.
Qed.

Definition race_target : NodeTarget := mkNodeTarget "node-4" "d:9000".

Lemma race_order : map_order (cm_nodes race_cm) demo_ord.
Proof.
  assert (demo_ord = map_keys (cm_nodes race_cm)) as -> by (vm_compute; reflexivity).
  apply map_order_keys.
Qed.

Lemma concurrent_migrations_lose_replica_witness :
  (dn_Status <$> cm_nodes race_cm !! "node-1") = Some StatusCritical ∧
  (dn_Status <$> cm_nodes race_cm !! "node-2") = Some StatusCritical ∧
  ∃ l' ns',
    rtc (pool_step demo_dial demo_call)
      ((race_cm, tt), two_migrations race_chunk "node-1" "a:9000" "node-2" "b:9000" PcStart PcStart)
      ((l', tt), two_migrations race_chunk "node-1" "a:9000" "node-2" "b:9000" (PcDone true) (PcDone true)) ∧
    loc_GetChunkMeta race_chunk l' = Some ns' ∧ length ns' = 2%nat.
Proof.
  split; [vm_compute; reflexivity|]. split; [vm_compute; reflexivity|].
  destruct (concurrent_migrations_lose_replica demo_dial demo_call race_cm tt race_chunk
    ["node-3"; "node-1"; "node-2"] "node-1" "a:9000" "node-2" "b:9000" demo_ord race_target [] tt tt)
    as (l' & ns' & Hrun1 & Hrun2 & Hm & _ & Hlen).
  - exact (cm_steps_inv _ _ cm_inv_new race_reach).
  - exact race_order.
  - vm_compute. reflexivity.
  - right. left.
  - do 2 right. left.
  - discriminate.
  - vm_compute. reflexivity.
  - reflexivity.
  - reflexivity.
  - exists l', ns'. split; [by etrans|]. split; [exact Hm|exact Hlen].
Defined.
End race_run.

Lemma migrateChunk_refined_by_thread_witness :
  ∃ s', rtc (pool_step demo_dial demo_call)
    ((demo_cm2, tt), [mkMigThread demo_chunk "node-1" "a:9000" PcStart])
    (s', [mkMigThread demo_chunk "node-1" "a:9000" (PcDone true)]).
Proof.
  assert (match migrateChunk demo_dial demo_call demo_plan demo_chunk "node-1" "a:9000"
            (demo_cm2, tt) with (Ok e, _) => me_Success e = true | _ => False end) as Hrun
    by (vm_compute; reflexivity).
  destruct (migrateChunk demo_dial demo_call demo_plan demo_chunk "node-1" "a:9000" (demo_cm2, tt))
    as [[e|err|p] s'] eqn:E; [|destruct Hrun..].
  exists s'.
  pose proof (migrateChunk_refined_by_thread demo_dial demo_call demo_plan demo_chunk "node-1"
    "a:9000" (demo_cm2, tt) s' e E) as H.
  rewrite Hrun in H. exact H.
Defined.
