(* ===== verification/ChunkStore.v ===== *)
(** * internal/datanode/store.go: chunks on the local disk

    The store's memory (the chunk table and the byte counter) and the file system
    are one state; what the operating system does at each call is an argument. *)
From S2P Require Export Common.
Local Open Scope Z_scope.

(** ** Data *)
Record StoredChunk := mkStoredChunk {
  sc_ChunkID : string;
  sc_Size : Z;
  sc_Checksum : string;
  sc_FilePath : string;
}.

Record ChunkStore := mkChunkStore {
  cs_dataDir : string;
  cs_chunks : gmap string StoredChunk;
  cs_usedBytes : Z;
}.

(** The store together with the disk. *)
Definition disk_state : Type := ChunkStore * FileSys.

(** ** Operations *)
Definition chunkPath (cs : ChunkStore) (chunkID : string) : string :=
  PathJoin (cs_dataDir cs) (chunkID +:+ ".chunk").

(** [int64(len(data))] *)
Definition data_size (data : bytes) : Z := int64 (Z.of_nat (length data)).

(** Entering a chunk into the table and adding its size to the counter. *)
Definition enter_chunk (c : StoredChunk) (cs : ChunkStore) : ChunkStore :=
  mkChunkStore (cs_dataDir cs) (<[sc_ChunkID c := c]> (cs_chunks cs))
    (int64 (cs_usedBytes cs + sc_Size c)).

Definition StoreChunk (plan : write_plan) (chunkID : string) (data : bytes)
    (expectedChecksum : string) : gos disk_state unit := λ s,
  let '(cs, fs) := s in
  let actualChecksum := DataChecksum data in
  if decide (expectedChecksum ≠ "" ∧ actualChecksum ≠ expectedChecksum)
  then (Err ("checksum mismatch for chunk " +:+ chunkID +:+ ": expected " +:+ expectedChecksum
             +:+ ", got " +:+ actualChecksum), s)
  else
    let path := chunkPath cs chunkID in
    match WriteFile fs path data plan with
    | (Err e, fs') => (Err ("write chunk " +:+ chunkID +:+ ": " +:+ e), (cs, fs'))
    | (Panic w, fs') => (Panic w, (cs, fs'))
    | (Ok _, fs') =>
        (Ok tt, (enter_chunk (mkStoredChunk chunkID (data_size data) actualChecksum path) cs, fs'))
    end.

Definition GetChunk (fault : option string) (chunkID : string) (s : disk_state)
    : go (bytes * string) :=
  let '(cs, fs) := s in
  match cs_chunks cs !! chunkID with
  | None => Err ("chunk not found: " +:+ chunkID)
  | Some meta =>
      let! data := go_wrap ("read chunk " +:+ chunkID +:+ ": ")
                     (ReadFile fs (sc_FilePath meta) fault) in
      let checksum := DataChecksum data in
      if decide (checksum ≠ sc_Checksum meta)
      then Err ("chunk " +:+ chunkID +:+ " corrupted on disk")
      else Ok (data, checksum)
  end.

Definition DeleteChunk (fault : option string) (chunkID : string) : gos disk_state unit := λ s,
  let '(cs, fs) := s in
  match cs_chunks cs !! chunkID with
  | None => (Err ("chunk not found: " +:+ chunkID), s)
  | Some meta =>
      let '(r, isNotExist, fs') := Remove fs (sc_FilePath meta) fault in
      match r with
      | Err e =>
          if isNotExist : bool then
            (Ok tt, (mkChunkStore (cs_dataDir cs) (delete chunkID (cs_chunks cs))
                       (int64 (cs_usedBytes cs + int64 (- sc_Size meta))), fs'))
          else (Err ("delete chunk " +:+ chunkID +:+ ": " +:+ e), (cs, fs'))
      | Panic w => (Panic w, (cs, fs'))
      | Ok _ =>
          (Ok tt, (mkChunkStore (cs_dataDir cs) (delete chunkID (cs_chunks cs))
                     (int64 (cs_usedBytes cs + int64 (- sc_Size meta))), fs'))
      end
  end.

Definition HasChunk (chunkID : string) (cs : ChunkStore) : bool :=
  bool_decide (is_Some (cs_chunks cs !! chunkID)).

Definition ChunkCount (cs : ChunkStore) : Z := int32 (Z.of_nat (size (cs_chunks cs))).

Definition UsedBytes (cs : ChunkStore) : Z := cs_usedBytes cs.

Definition GetAllChunkIDs (ord : list string) (cs : ChunkStore) : list string :=
  (range_map ord (cs_chunks cs)).*1.

(** ** Starting up *)

(** An entry of [os.ReadDir]. *)
Record DirEnt := mkDirEnt { ent_Name : string; ent_IsDir : bool }.

#[global] Instance DirEnt_eq_dec : EqDecision DirEnt.
Proof. solve_decision. Defined.

(** [name[:len(name)-6]]; an extension ".chunk" makes the name long enough. *)
Definition strip_chunk (name : string) : string :=
  String.substring 0 (String.length name - 6) name.

(** The body of the loop of [loadExisting]; [fault] is the failure of ReadFile. *)
Definition load_entry (fs : FileSys) (faults : string → option string) (cs : ChunkStore)
    (e : DirEnt) : ChunkStore :=
  if decide (ent_IsDir e = true ∨ Ext (ent_Name e) ≠ ".chunk") then cs
  else
    let chunkID := strip_chunk (ent_Name e) in
    let path := PathJoin (cs_dataDir cs) (ent_Name e) in
    match ReadFile fs path (faults path) with
    | Ok data => enter_chunk (mkStoredChunk chunkID (data_size data) (DataChecksum data) path) cs
    | _ => cs
    end.

Definition loadExisting (fs : FileSys) (listing : go (list DirEnt))
    (faults : string → option string) (cs : ChunkStore) : go unit * ChunkStore :=
  match listing with
  | Err e => (Err e, cs)
  | Panic w => (Panic w, cs)
  | Ok entries => (Ok tt, foldl (load_entry fs faults) cs entries)
  end.

(** A failed scan is logged and ignored. *)
Definition NewChunkStore (fs : FileSys) (dataDir : string) (mkdir_fault : option string)
    (listing : go (list DirEnt)) (faults : string → option string) : go ChunkStore :=
  match mkdir_fault with
  | Some e => Err ("create data dir: " +:+ e)
  | None => Ok (loadExisting fs listing faults (mkChunkStore dataDir ∅ 0)).2
  end.

(** ** Lemmas *)

Lemma plain_id_name id : plain_id id → simple_name (id +:+ ".chunk").
Proof.
  intros Hid. split; [by rewrite has_char_app, Hid|].
  split; [|split]; intros Heq; apply (f_equal String.length) in Heq;
    rewrite string_app_length in Heq; simpl in Heq; lia.
Qed.

Lemma chunkPath_inj cs id1 id2 :
  plain_id id1 → plain_id id2 → chunkPath cs id1 = chunkPath cs id2 → id1 = id2.
Proof.
  intros H1 H2 Heq. apply PathJoin_inj in Heq; [|by apply plain_id_name..].
  by eapply string_app_inj_r.
Qed.

(** The accounting invariant: the counter is the sum of the recorded sizes. *)
Definition stored_bytes (cs : ChunkStore) : Z := map_fold (λ _ c s, sc_Size c + s) 0 (cs_chunks cs).

Definition store_wf (cs : ChunkStore) : Prop :=
  map_Forall (λ id c, sc_ChunkID c = id ∧ plain_id id ∧ sc_FilePath c = chunkPath cs id) (cs_chunks cs).

Lemma stored_bytes_insert cs id c :
  cs_chunks cs !! id = None →
  map_fold (λ _ c s, sc_Size c + s) 0 (<[id := c]> (cs_chunks cs)) = sc_Size c + stored_bytes cs.
Proof.
  intros Hid. unfold stored_bytes. rewrite map_fold_insert_L; [done| |done]. intros. lia.
Qed.

Lemma stored_bytes_delete cs id c :
  cs_chunks cs !! id = Some c →
  map_fold (λ _ c s, sc_Size c + s) 0 (delete id (cs_chunks cs)) = stored_bytes cs - sc_Size c.
Proof.
  intros Hid. unfold stored_bytes.
  rewrite (map_fold_delete_L (λ _ c s, sc_Size c + s) 0 id c (cs_chunks cs)); [lia| |done].
  intros. lia.
Qed.

Lemma int64_add_r a b : int64 (a + int64 b) = int64 (a + b).
Proof. rewrite Z.add_comm, int64_add_l. f_equal. lia. Qed.

Lemma GetChunk_other fault cs cs' fs fs' id id' path :
  store_wf cs → plain_id id → path = chunkPath cs id → id' ≠ id →
  cs_chunks cs' !! id' = cs_chunks cs !! id' →
  (∀ p, p ≠ path → fs' !! p = fs !! p) →
  GetChunk fault id' (cs', fs') = GetChunk fault id' (cs, fs).
Proof.
  intros Hwf Hid -> Hne Hsame Hfs. unfold GetChunk. rewrite Hsame.
  destruct (cs_chunks cs !! id') as [c|] eqn:Hc; [|done].
  destruct (Hwf id' c Hc) as (_ & Hid' & Hpath).
  unfold ReadFile, Open. rewrite Hfs; [done|]. rewrite Hpath.
  by intros ?%chunkPath_inj.
Qed.

Lemma enter_chunk_wf c cs :
  store_wf cs → plain_id (sc_ChunkID c) → sc_FilePath c = chunkPath cs (sc_ChunkID c) →
  store_wf (enter_chunk c cs).
Proof.
  intros Hwf Hid Hp id c'. simpl. intros [[<- <-]|[_ Hc]]%lookup_insert_Some; [done|].
  by apply Hwf.
Qed.

Lemma GetChunk_checked fault id cs fs :
  match GetChunk fault id (cs, fs) with
  | Ok (data, checksum) => ∃ c, cs_chunks cs !! id = Some c ∧
      fs !! sc_FilePath c = Some data ∧ checksum = sc_Checksum c ∧
      DataChecksum data = sc_Checksum c
  | Err _ => True
  | Panic _ => False
  end.
Proof.
  unfold GetChunk. destruct (cs_chunks cs !! id) as [c|]; [|done].
  unfold ReadFile, Open. destruct fault as [msg|]; simpl; [done|].
  destruct (fs !! sc_FilePath c) as [data|] eqn:Hd; simpl; [|done].
  case_decide as Hsum; [done|]. exists c. done.
Qed.

Lemma StoreChunk_cases plan id data exp cs fs :
  StoreChunk plan id data exp (cs, fs) =
    if decide (exp ≠ "" ∧ DataChecksum data ≠ exp)
    then (Err ("checksum mismatch for chunk " +:+ id +:+ ": expected " +:+ exp
             +:+ ", got " +:+ DataChecksum data), (cs, fs))
    else match plan with
    | WriteOk => (Ok tt, (enter_chunk (mkStoredChunk id (data_size data) (DataChecksum data)
                            (chunkPath cs id)) cs, <[chunkPath cs id := data]> fs))
    | WriteNotOpened e => (Err ("write chunk " +:+ id +:+ ": " +:+ e), (cs, fs))
    | WritePartial n e =>
        (Err ("write chunk " +:+ id +:+ ": " +:+ e), (cs, <[chunkPath cs id := take n data]> fs))
    end.
Proof. unfold StoreChunk. case_decide; [done|]. by destruct plan. Qed.

(** Storing a chunk, with and without the right checksum. *)
Lemma StoreChunk_stored cs fs id data exp :
  store_wf cs → plain_id id →
  if decide (exp = "" ∨ exp = DataChecksum data) then
    ∃ cs' fs', StoreChunk WriteOk id data exp (cs, fs) = (Ok tt, (cs', fs')) ∧
      GetChunk None id (cs', fs') = Ok (data, DataChecksum data) ∧
      store_wf cs' ∧
      ∀ fault id', id' ≠ id → GetChunk fault id' (cs', fs') = GetChunk fault id' (cs, fs)
  else ∀ plan, ∃ e, StoreChunk plan id data exp (cs, fs) = (Err e, (cs, fs)).
Proof.
  intros Hwf Hid. case_decide as Hexp.
  - eexists _, _. rewrite StoreChunk_cases, decide_False by naive_solver.
    split; [done|]. split; [|split].
    + unfold GetChunk, enter_chunk. simpl. rewrite lookup_insert_eq. simpl.
      unfold ReadFile, Open. rewrite lookup_insert_eq. simpl. by rewrite decide_False by naive_solver.
    + by apply enter_chunk_wf.
    + intros fault id' Hne. apply (GetChunk_other fault cs _ fs _ id id' (chunkPath cs id)); try done.
      * simpl. by rewrite lookup_insert_ne.
      * intros p Hp. by rewrite lookup_insert_ne.
  - intros plan. eexists. rewrite StoreChunk_cases, decide_True by naive_solver. done.
Qed.

(** C27: Store and read back: a chunk offered without checksum or with the right one
    is stored, and reading it returns exactly the stored bytes and their checksum;
    every other chunk of the store reads as before; this for a well-formed store, an
    identifier without path separators and file operations that succeed.  With a wrong checksum the chunk
    is refused and nothing changes, in memory or on disk. *)
Theorem StoreChunk_GetChunk_roundtrip cs fs id data exp :
  store_wf cs → plain_id id →
  if decide (exp = "" ∨ exp = DataChecksum data) then
    ∃ cs' fs', StoreChunk WriteOk id data exp (cs, fs) = (Ok tt, (cs', fs')) ∧
      GetChunk None id (cs', fs') = Ok (data, DataChecksum data) ∧
      store_wf cs' ∧
      ∀ fault id', id' ≠ id → GetChunk fault id' (cs', fs') = GetChunk fault id' (cs, fs)
  else ∀ plan, ∃ e, StoreChunk plan id data exp (cs, fs) = (Err e, (cs, fs)).
Proof. apply StoreChunk_stored. Qed.

(** Integrity: whatever is on the disk, a successful read returns the recorded
    checksum together with data that has it; content with any other checksum is
    reported as corruption, and unknown or unreadable chunks as errors. *)
Theorem GetChunk_integrity fault id cs fs :
  match GetChunk fault id (cs, fs) with
  | Ok (data, checksum) => ∃ c, cs_chunks cs !! id = Some c ∧
      fs !! sc_FilePath c = Some data ∧ checksum = sc_Checksum c ∧
      DataChecksum data = sc_Checksum c
  | Err e =>
      match cs_chunks cs !! id with
      | None => e = "chunk not found: " +:+ id
      | Some c =>
          (∃ msg, fault = Some msg ∧ e = "read chunk " +:+ id +:+ ": " +:+ msg) ∨
          (fs !! sc_FilePath c = None ∧ fault = None) ∨
          (∃ data, fs !! sc_FilePath c = Some data ∧ DataChecksum data ≠ sc_Checksum c ∧
             e = "chunk " +:+ id +:+ " corrupted on disk")
      end
  | Panic _ => False
  end.
Proof.
  unfold GetChunk. destruct (cs_chunks cs !! id) as [c|] eqn:Hc; [|done].
  unfold ReadFile, Open. destruct fault as [msg|]; simpl.
  { left. exists msg. split; [done|]. by rewrite <- !string_app_assoc. }
  destruct (fs !! sc_FilePath c) as [data|] eqn:Hd; simpl; [|right; left; done].
  case_decide as Hsum; [right; right; eauto|].
  exists c. done.
Qed.

(** Deletion: a chunk the store knows is removed from table and disk also when
    its file had already disappeared; afterwards it is unknown, and every other
    chunk reads as before.  When the removal fails the store is unchanged. *)
Theorem DeleteChunk_spec cs fs id fault c :
  store_wf cs → cs_chunks cs !! id = Some c →
  match DeleteChunk fault id (cs, fs) with
  | (Ok _, (cs', fs')) => fault = None ∧
      GetChunk None id (cs', fs') = Err ("chunk not found: " +:+ id) ∧
      fs' !! chunkPath cs id = None ∧ store_wf cs' ∧
      ∀ f id', id' ≠ id → GetChunk f id' (cs', fs') = GetChunk f id' (cs, fs)
  | (Err e, s') => (∃ msg, fault = Some msg) ∧ s' = (cs, fs)
  | (Panic _, _) => False
  end.
Proof.
  intros Hwf Hc. destruct (Hwf id c Hc) as (_ & Hid & Hpath).
  unfold DeleteChunk. rewrite Hc. unfold Remove. destruct fault as [msg|]; [eauto|].
  assert (∀ used fs', (∀ p, p ≠ chunkPath cs id → fs' !! p = fs !! p) →
    let cs' := mkChunkStore (cs_dataDir cs) (delete id (cs_chunks cs)) used in
    GetChunk None id (cs', fs') = Err ("chunk not found: " +:+ id) ∧ store_wf cs' ∧
    ∀ f id', id' ≠ id → GetChunk f id' (cs', fs') = GetChunk f id' (cs, fs)) as Hdel.
  { intros used fs' Hfs cs'. split; [|split].
    - unfold GetChunk. simpl. by rewrite lookup_delete_eq.
    - intros i x. simpl. intros [_ Hx]%lookup_delete_Some. by apply (Hwf i).
    - intros f id' Hne. apply (GetChunk_other f cs cs' fs fs' id id' (chunkPath cs id)); try done.
      simpl. by rewrite lookup_delete_ne. }
  rewrite Hpath. destruct (fs !! chunkPath cs id) as [d|] eqn:Hd.
  - destruct (Hdel (int64 (cs_usedBytes cs + int64 (- sc_Size c)))
      (delete (chunkPath cs id) fs)) as (? & ? & ?).
    { intros p Hp. by rewrite lookup_delete_ne. }
    split; [done|]. split; [done|]. split; [apply lookup_delete_eq|]. done.
  - destruct (Hdel (int64 (cs_usedBytes cs + int64 (- sc_Size c))) fs) as (? & ? & ?); done.
Qed.

(** C40: Accounting: starting from a counter equal to the recorded sizes (modulo
    2^64), storing a new chunk, failing to store, and deleting keep it equal; but
    overwriting a stored chunk leaves the counter too high by the size of the
    version it replaced. *)
Theorem usedBytes_accounting cs fs id :
  cs_usedBytes cs = int64 (stored_bytes cs) →
  (∀ plan data exp r cs' fs', StoreChunk plan id data exp (cs, fs) = (r, (cs', fs')) →
     UsedBytes cs' = int64 (stored_bytes cs' +
       (if is_ok r then default 0 (sc_Size <$> cs_chunks cs !! id) else 0))) ∧
  (∀ fault r cs' fs', DeleteChunk fault id (cs, fs) = (r, (cs', fs')) →
     UsedBytes cs' = int64 (stored_bytes cs')).
Proof.
  intros Hused. split.
  - intros plan data exp r cs' fs'. rewrite StoreChunk_cases.
    case_decide; [intros [= <- <- <-]; simpl; by rewrite Z.add_0_r|].
    destruct plan; intros [= <- <- <-]; simpl; rewrite ?Z.add_0_r; try done.
    unfold UsedBytes. cbn [cs_usedBytes enter_chunk]. rewrite Hused, int64_add_l.
    cbn [sc_Size sc_ChunkID]. unfold stored_bytes at 2. cbn [cs_chunks].
    destruct (cs_chunks cs !! id) as [c|] eqn:Hc; simpl.
    + rewrite <- insert_delete_eq. f_equal.
      pose proof (stored_bytes_insert (mkChunkStore "" (delete id (cs_chunks cs)) 0) id
        (mkStoredChunk id (data_size data) (DataChecksum data) (chunkPath cs id))
        (lookup_delete_eq _ _)) as Hins. simpl in Hins. rewrite Hins.
      unfold stored_bytes at 2. simpl. rewrite (stored_bytes_delete cs id c Hc). lia.
    + rewrite stored_bytes_insert by done. simpl. f_equal. lia.
  - intros fault r cs' fs'. unfold DeleteChunk.
    destruct (cs_chunks cs !! id) as [c|] eqn:Hc; [|by intros [= <- <- <-]].
    assert (int64 (cs_usedBytes cs + int64 (- sc_Size c)) =
      int64 (map_fold (λ _ c s, sc_Size c + s) 0 (delete id (cs_chunks cs)))) as Hdel.
    { rewrite (stored_bytes_delete cs id c Hc), Hused, int64_add_r, int64_add_l. f_equal; lia. }
    destruct (Remove fs (sc_FilePath c) fault) as [[[[]|e|w] []] fs1]; intros [= <- <- <-];
      unfold UsedBytes, stored_bytes; simpl; done.
Qed.

(** ** Restart *)
Lemma ext_go_suffix p best : ext_go p best = best ∨ ext_go p best = "" ∨ ∃ q, p = q +:+ ext_go p best.
Proof.
  revert best. induction p as [|a p IH]; intros best; [by left|]. cbn [ext_go].
  repeat case_decide; [destruct (IH (String a p)) as [->|[->|[q Hq]]]|
    destruct (IH "") as [->|[->|[q Hq]]]|destruct (IH best) as [->|[->|[q Hq]]]];
    try (by left); try (by right; left); right; right.
  - by exists "".
  - exists (String a q). by rewrite string_app_cons, <- Hq.
  - exists (String a q). by rewrite string_app_cons, <- Hq.
  - exists (String a q). by rewrite string_app_cons, <- Hq.
Qed.

Lemma Ext_chunk_inv name : Ext name = ".chunk" → ∃ id, name = id +:+ ".chunk".
Proof.
  intros He. unfold Ext in He. destruct (ext_go_suffix name "") as [H|[H|[q Hq]]]; [congruence..|].
  exists q. by rewrite He in Hq.
Qed.

Lemma Ext_chunk id : Ext (id +:+ ".chunk") = ".chunk".
Proof. by apply Ext_suffix. Qed.

Lemma substring_prefix s t : String.substring 0 (String.length s) (s +:+ t) = s.
Proof.
  induction s as [|a s IH]; [by destruct t|]. rewrite string_app_cons. simpl. by rewrite IH.
Qed.

Lemma strip_chunk_app id : strip_chunk (id +:+ ".chunk") = id.
Proof.
  unfold strip_chunk. rewrite string_app_length. simpl.
  replace (String.length id + 6 - 6)%nat with (String.length id) by lia. apply substring_prefix.
Qed.

(** The record a scan makes of a file of the data directory. *)
Definition scanned (dir id : string) (data : bytes) : StoredChunk :=
  mkStoredChunk id (data_size data) (DataChecksum data) (PathJoin dir (id +:+ ".chunk")).

Lemma load_entry_chunk fs cs id :
  load_entry fs (λ _, None) cs (mkDirEnt (id +:+ ".chunk") false) =
    match fs !! PathJoin (cs_dataDir cs) (id +:+ ".chunk") with
    | Some data => enter_chunk (scanned (cs_dataDir cs) id data) cs
    | None => cs
    end.
Proof.
  unfold load_entry. cbn [ent_IsDir ent_Name]. rewrite Ext_chunk, strip_chunk_app.
  rewrite decide_False by naive_solver. unfold ReadFile, Open.
  by destruct (fs !! PathJoin (cs_dataDir cs) (id +:+ ".chunk")).
Qed.

(** Every entry is either passed over or the file of one chunk. *)
Lemma load_entry_cases (e : DirEnt) :
  (∀ fs faults cs, load_entry fs faults cs e = cs) ∨ ∃ id, e = mkDirEnt (id +:+ ".chunk") false.
Proof.
  destruct (decide (ent_IsDir e = true ∨ Ext (ent_Name e) ≠ ".chunk")) as [Hskip|Hload].
  - left. intros. unfold load_entry. by rewrite decide_True.
  - right. destruct e as [name []]; simpl in *; [tauto|].
    destruct (Ext_chunk_inv name) as [id ->]; [|by exists id].
    apply dec_stable. tauto.
Qed.

Lemma load_fold fs entries : ∀ cs,
  NoDup entries → cs_usedBytes cs = int64 (stored_bytes cs) →
  (∀ id, mkDirEnt (id +:+ ".chunk") false ∈ entries → cs_chunks cs !! id = None) →
  let cs' := foldl (load_entry fs (λ _, None)) cs entries in
  cs_dataDir cs' = cs_dataDir cs ∧ cs_usedBytes cs' = int64 (stored_bytes cs') ∧
  ∀ id, cs_chunks cs' !! id =
    if decide (mkDirEnt (id +:+ ".chunk") false ∈ entries)
    then scanned (cs_dataDir cs) id <$> fs !! PathJoin (cs_dataDir cs) (id +:+ ".chunk")
    else cs_chunks cs !! id.
Proof.
  induction entries as [|e entries IH]; intros cs Hnd Hused Hnew; [done|].
  apply NoDup_cons in Hnd as [He Hnd]. cbn [foldl].
  destruct (load_entry_cases e) as [Hskip|[i ->]].
  - rewrite Hskip. destruct (IH cs Hnd Hused) as (Hdir & Hu & Hch).
    { intros id Hid. apply Hnew. by right. }
    split; [done|]. split; [done|]. intros id. rewrite Hch.
    destruct (decide (mkDirEnt (id +:+ ".chunk") false ∈ entries)) as [Hin|Hout].
    { by rewrite decide_True by (by right). }
    case_decide as Hin; [|done]. apply elem_of_cons in Hin as [<-|?]; [|done].
    pose proof (Hskip fs (λ _, None) cs) as Heq. rewrite load_entry_chunk in Heq.
    destruct (fs !! _) as [data|]; simpl.
    + rewrite <- Heq. simpl. apply lookup_insert_eq.
    + apply Hnew. left.
  - rewrite load_entry_chunk.
    assert (∀ id, mkDirEnt (id +:+ ".chunk") false ∈ entries → id ≠ i) as Hne.
    { by intros id Hid ->. }
    set (cs1 := match _ with Some _ => _ | None => _ end).
    assert (cs_dataDir cs1 = cs_dataDir cs ∧ cs_usedBytes cs1 = int64 (stored_bytes cs1) ∧
      cs_chunks cs1 !! i = (scanned (cs_dataDir cs) i <$>
        fs !! PathJoin (cs_dataDir cs) (i +:+ ".chunk")) ∧
      ∀ id, id ≠ i → cs_chunks cs1 !! id = cs_chunks cs !! id) as (Hdir1 & Hu1 & Hi & Hother).
    { unfold cs1. pose proof (Hnew i ltac:(left)) as Hi0.
      destruct (fs !! _) as [data|]; [|done]. simpl. split; [done|]. split.
      - rewrite Hused, int64_add_l. unfold stored_bytes at 2. simpl.
        rewrite stored_bytes_insert by done. f_equal. simpl. lia.
      - split; [apply lookup_insert_eq|]. intros id Hid. by rewrite lookup_insert_ne. }
    destruct (IH cs1 Hnd Hu1) as (Hdir & Hu & Hch).
    { intros id Hid. rewrite Hother by (by apply Hne). apply Hnew. by right. }
    split; [by rewrite Hdir|]. split; [done|]. intros id. rewrite Hch, Hdir1.
    destruct (decide (id = i)) as [->|Hid].
    + rewrite decide_False by done. by rewrite decide_True by (by left).
    + rewrite (Hother id Hid).
      destruct (decide (mkDirEnt (id +:+ ".chunk") false ∈ entries)) as [Hin|Hout].
      * by rewrite decide_True by (by right).
      * rewrite decide_False; [done|]. intros [Heq|?]%elem_of_cons; [|done].
        injection Heq as Heq. apply string_app_inj_r in Heq. done.
Qed.

(** Restart: a new store on a data directory finds exactly the chunk files that
    are there, each with its actual size and checksum, and counts their bytes; so
    every intact chunk of the previous store is found again with an identical
    record, whatever the counter had drifted to. *)
Theorem NewChunkStore_recovers cs fs entries :
  store_wf cs → NoDup entries →
  (∀ id, plain_id id →
     mkDirEnt (id +:+ ".chunk") false ∈ entries ↔ is_Some (fs !! chunkPath cs id)) →
  ∃ cs', NewChunkStore fs (cs_dataDir cs) None (Ok entries) (λ _, None) = Ok cs' ∧
    UsedBytes cs' = int64 (stored_bytes cs') ∧
    (∀ id, plain_id id →
       cs_chunks cs' !! id = scanned (cs_dataDir cs) id <$> fs !! chunkPath cs id) ∧
    (∀ id c data, cs_chunks cs !! id = Some c → fs !! chunkPath cs id = Some data →
       sc_Checksum c = DataChecksum data → sc_Size c = data_size data →
       cs_chunks cs' !! id = Some c ∧
       GetChunk None id (cs', fs) = Ok (data, DataChecksum data)).
Proof.
  intros Hwf Hnd Hentries. eexists. split; [reflexivity|].
  destruct (load_fold fs entries (mkChunkStore (cs_dataDir cs) ∅ 0) Hnd) as (Hdir & Hu & Hch).
  { unfold stored_bytes. simpl. by rewrite map_fold_empty. }
  { intros id _. apply lookup_empty. }
  cbn [loadExisting snd]. set (cs' := foldl _ _ entries) in *. cbn [cs_dataDir cs_chunks] in *.
  assert (∀ id, plain_id id →
    cs_chunks cs' !! id = scanned (cs_dataDir cs) id <$> fs !! chunkPath cs id) as Hall.
  { intros id Hid. rewrite Hch. case_decide as Hin; [done|].
    destruct (fs !! chunkPath cs id) as [d|] eqn:Hd; [|by rewrite lookup_empty].
    destruct Hin. apply Hentries; eauto. }
  split; [done|]. split; [done|]. intros id c data Hc Hd Hsum Hsize.
  destruct (Hwf id c Hc) as (Hid & Hplain & Hpath).
  assert (cs_chunks cs' !! id = Some c) as Hc'.
  { rewrite Hall, Hd by done. simpl. unfold scanned. destruct c; simpl in *. by subst. }
  split; [done|]. unfold GetChunk. rewrite Hc'. unfold ReadFile, Open. rewrite Hpath, Hd. simpl.
  by rewrite decide_False by naive_solver.
Qed.

(** C28: A torn write is adopted by the next start: when the disk fills up in the middle
    of a store, the call fails and the chunk is not served; but the beginning of the
    data stays in the chunk's file, and the start-up scan computes the checksum
    of what it finds, so after a restart the truncated bytes are served as the
    chunk, with a checksum that matches them. *)
Theorem torn_write_adopted cs fs id data n e entries :
  store_wf cs → plain_id id → cs_chunks cs !! id = None →
  NoDup entries → mkDirEnt (id +:+ ".chunk") false ∈ entries →
  ∃ fs' cs',
    StoreChunk (WritePartial n e) id data (DataChecksum data) (cs, fs)
      = (Err ("write chunk " +:+ id +:+ ": " +:+ e), (cs, fs')) ∧
    GetChunk None id (cs, fs') = Err ("chunk not found: " +:+ id) ∧
    NewChunkStore fs' (cs_dataDir cs) None (Ok entries) (λ _, None) = Ok cs' ∧
    GetChunk None id (cs', fs') = Ok (take n data, DataChecksum (take n data)).
Proof.
  intros Hwf Hid Hnone Hnd Hin. eexists (<[chunkPath cs id := take n data]> fs), _.
  split; [by rewrite StoreChunk_cases, decide_False by naive_solver|].
  split; [unfold GetChunk; by rewrite Hnone|]. split; [reflexivity|].
  destruct (load_fold (<[chunkPath cs id := take n data]> fs) entries
    (mkChunkStore (cs_dataDir cs) ∅ 0) Hnd) as (_ & _ & Hch).
  { unfold stored_bytes. simpl. by rewrite map_fold_empty. }
  { intros i _. apply lookup_empty. }
  specialize (Hch id). rewrite decide_True in Hch by done.
  cbn [loadExisting snd]. unfold GetChunk. rewrite Hch. cbn [cs_dataDir].
  change (PathJoin (cs_dataDir cs) (id +:+ ".chunk")) with (chunkPath cs id).
  rewrite lookup_insert_eq. cbn [fmap option_fmap option_map scanned sc_FilePath sc_Checksum].
  unfold ReadFile, Open. change (PathJoin (cs_dataDir cs) (id +:+ ".chunk")) with (chunkPath cs id).
  rewrite lookup_insert_eq. simpl. by rewrite decide_False by naive_solver.
Qed.

(** ** Concrete runs *)
Section witnesses.
Definition demo_store : ChunkStore := mkChunkStore "/data" ∅ 0.
Definition demo_bytes : bytes := bytes_of_string "hello".

Lemma demo_store_wf : store_wf demo_store.
Proof. apply map_Forall_empty. Qed.

Lemma StoreChunk_GetChunk_roundtrip_witness :
  ∃ cs' fs', StoreChunk WriteOk "c1" demo_bytes "" (demo_store, ∅) = (Ok tt, (cs', fs')) ∧
    GetChunk None "c1" (cs', fs') = Ok (demo_bytes, DataChecksum demo_bytes).
Proof.
  destruct (StoreChunk_GetChunk_roundtrip demo_store ∅ "c1" demo_bytes "" demo_store_wf eq_refl)
    as (cs' & fs' & H1 & H2 & _).
  exists cs', fs'. exact (conj H1 H2).
Defined.

Definition demo_disk : disk_state :=
  (enter_chunk (mkStoredChunk "c1" 5 (DataChecksum demo_bytes) (chunkPath demo_store "c1")) demo_store,
   <[chunkPath demo_store "c1" := demo_bytes]> ∅).

Lemma demo_disk_wf : store_wf demo_disk.1.
Proof. apply enter_chunk_wf; [exact demo_store_wf|reflexivity|reflexivity]. Qed.

Lemma DeleteChunk_spec_witness :
  (DeleteChunk None "c1" demo_disk).1 = Ok tt ∧
  (DeleteChunk None "c1" demo_disk).2.2 !! chunkPath demo_store "c1" = None.
Proof.
  pose proof (DeleteChunk_spec demo_disk.1 demo_disk.2 "c1" None
    (mkStoredChunk "c1" 5 (DataChecksum demo_bytes) (chunkPath demo_store "c1"))
    demo_disk_wf ltac:(apply lookup_insert_eq)) as H.
  change (demo_disk.1, demo_disk.2) with demo_disk in H.
  destruct (DeleteChunk None "c1" demo_disk) as [[[]|e|w] [cs' fs']].
  - destruct H as (_ & _ & Hgone & _). split; [reflexivity|exact Hgone].
  - destruct H as [[msg Hmsg] _]. discriminate Hmsg.
  - destruct H.
Defined.

Lemma usedBytes_accounting_witness :
  UsedBytes (StoreChunk WriteOk "c1" demo_bytes "" demo_disk).2.1 = 10 ∧
  ∀ plan data exp r cs' fs', StoreChunk plan "c1" data exp demo_disk = (r, (cs', fs')) →
     UsedBytes cs' = int64 (stored_bytes cs' + (if is_ok r then 5 else 0)).
Proof.
  split; [vm_compute; reflexivity|].
  exact (proj1 (usedBytes_accounting demo_disk.1 demo_disk.2 "c1" ltac:(vm_compute; reflexivity))).
Defined.

Lemma NewChunkStore_recovers_witness :
  ∃ cs', NewChunkStore demo_disk.2 "/data" None (Ok [mkDirEnt "c1.chunk" false]) (λ _, None) = Ok cs' ∧
    GetChunk None "c1" (cs', demo_disk.2) = Ok (demo_bytes, DataChecksum demo_bytes).
Proof.
  destruct (NewChunkStore_recovers demo_disk.1 demo_disk.2 [mkDirEnt "c1.chunk" false])
    as (cs' & Hnew & _ & _ & Hrec).
  - exact demo_disk_wf.
  - apply NoDup_singleton.
  - intros id Hid. rewrite list_elem_of_singleton. split.
    + intros Heq. injection Heq as Heq.
      change "c1.chunk" with ("c1" +:+ ".chunk") in Heq. apply string_app_inj_r in Heq as ->.
      exists demo_bytes. apply lookup_insert_eq.
    + intros [d Hd]. unfold demo_disk in Hd. cbn [fst snd] in Hd.
      apply lookup_insert_Some in Hd as [[Hp _]|[_ Hd]]; [|by rewrite lookup_empty in Hd].
      apply (chunkPath_inj demo_store "c1" id eq_refl Hid) in Hp as <-. reflexivity.
  - exists cs'. split; [exact Hnew|].
    apply (Hrec "c1" (mkStoredChunk "c1" 5 (DataChecksum demo_bytes) (chunkPath demo_store "c1")));
      reflexivity.
Defined.

Lemma torn_write_adopted_witness :
  ∃ fs' cs',
    StoreChunk (WritePartial 2 "no space left on device") "c1" demo_bytes (DataChecksum demo_bytes)
      (demo_store, ∅) = (Err "write chunk c1: no space left on device", (demo_store, fs')) ∧
    NewChunkStore fs' "/data" None (Ok [mkDirEnt "c1.chunk" false]) (λ _, None) = Ok cs' ∧
    GetChunk None "c1" (cs', fs') = Ok (bytes_of_string "he", DataChecksum (bytes_of_string "he")).
Proof.
  destruct (torn_write_adopted demo_store ∅ "c1" demo_bytes 2 "no space left on device"
    [mkDirEnt "c1.chunk" false] demo_store_wf eq_refl (lookup_empty _) (NoDup_singleton _)
    (list_elem_of_here _ _)) as (fs' & cs' & Hs & _ & Hn & Hg).
  exists fs', cs'. exact (conj Hs (conj Hn Hg)).
Defined.
End witnesses.
