(* ===== verification/StoreRace.v ===== *)
(** * internal/datanode/store.go under parallel requests

    The node's gRPC server runs every request in its own goroutine.  [StoreChunk] and
    [DeleteChunk] hold the store's lock for their whole length, [GetChunk] only for
    the lookup: it opens and reads the file after it has released the lock.  Here a
    method is the sequence of its accesses to what is shared (the lock, the table,
    the counter, the files), and a pool of requests interleaves at that grain.  A
    file is an inode: a write truncates the inode under the path, a removal takes
    the path away, and an open file keeps its inode. *)
From S2P Require Export ChunkStore.
Local Open Scope Z_scope.

(** ** The disk *)
Record Disk := mkDisk {
  dk_names : gmap string nat;
  dk_inodes : gmap nat bytes;
}.

(** What [ChunkStore.v] sees of it. *)
Definition files (d : Disk) : FileSys := omap (λ ino, dk_inodes d !! ino) (dk_names d).

(** [os.OpenFile(path, O_WRONLY|O_CREATE|O_TRUNC)] *)
Definition open_trunc (path : string) (d : Disk) : nat * Disk :=
  let ino := default (fresh (dom (dk_inodes d))) (dk_names d !! path) in
  (ino, mkDisk (<[path := ino]> (dk_names d)) (<[ino := []]> (dk_inodes d))).

(** One [write]: at the end of the file. *)
Definition append (ino : nat) (bs : bytes) (d : Disk) : Disk :=
  mkDisk (dk_names d) (alter (.++ bs) ino (dk_inodes d)).

Definition unlink (path : string) (d : Disk) : Disk :=
  mkDisk (delete path (dk_names d)) (dk_inodes d).

(** Every path has its own file. *)
Record disk_wf (d : Disk) : Prop := {
  dk_named : ∀ p ino, dk_names d !! p = Some ino → is_Some (dk_inodes d !! ino);
  dk_unlinked : ∀ p q ino, dk_names d !! p = Some ino → dk_names d !! q = Some ino → p = q;
}.

Lemma files_lookup d p : files d !! p = dk_names d !! p ≫= (dk_inodes d !!.).
Proof. unfold files. by rewrite lookup_omap. Qed.

Lemma open_trunc_spec path d ino d' :
  disk_wf d → open_trunc path d = (ino, d') →
  disk_wf d' ∧ dk_names d' !! path = Some ino ∧ files d' = <[path := []]> (files d).
Proof.
  intros [Hn Hu] [= <- <-]. set (ino := default _ _).
  assert (∀ q, dk_names d !! q = Some ino → q = path) as Hown.
  { intros q Hq. unfold ino in Hq. destruct (dk_names d !! path) as [i|] eqn:Hp; [by eapply Hu|].
    simpl in Hq. destruct (Hn _ _ Hq) as [bs Hbs]. exfalso.
    apply (is_fresh (dom (dk_inodes d))). by eapply elem_of_dom_2. }
  split; [|split; [apply lookup_insert_eq|]].
  - split; cbn [dk_names dk_inodes].
    + intros p i [[_ <-]|[_ Hp]]%lookup_insert_Some; [rewrite lookup_insert_eq; eauto|].
      rewrite lookup_insert_is_Some. destruct (decide (ino = i)); [by left|right; eauto].
    + intros p q i [[<- <-]|[Hp1 Hp]]%lookup_insert_Some [[<- Hi]|[Hq1 Hq]]%lookup_insert_Some;
        [done|by symmetry; apply Hown|subst; by apply Hown|by eapply Hu].
  - apply map_eq. intros p. rewrite files_lookup. cbn [dk_names dk_inodes].
    destruct (decide (p = path)) as [->|Hp]; [by rewrite !lookup_insert_eq; simpl; rewrite lookup_insert_eq|].
    rewrite !lookup_insert_ne by done. rewrite files_lookup.
    destruct (dk_names d !! p) as [i|] eqn:Hi; [|done]. simpl.
    rewrite lookup_insert_ne; [done|]. intros <-. by apply Hp, Hown.
Qed.

Lemma append_spec path ino bs old d :
  disk_wf d → dk_names d !! path = Some ino → files d !! path = Some old →
  disk_wf (append ino bs d) ∧ files (append ino bs d) = <[path := old ++ bs]> (files d).
Proof.
  intros [Hn Hu] Hp Hold. split.
  - split; cbn [append dk_names dk_inodes]; [|done].
    intros q i Hq. rewrite lookup_alter_is_Some. eauto.
  - apply map_eq. intros q. rewrite files_lookup. cbn [append dk_names dk_inodes].
    rewrite files_lookup, Hp in Hold. simpl in Hold. destruct (decide (q = path)) as [->|Hq].
    + rewrite lookup_insert_eq, Hp. simpl. by rewrite lookup_alter_eq, Hold.
    + rewrite lookup_insert_ne by done. rewrite files_lookup.
      destruct (dk_names d !! q) as [i|] eqn:Hi; [|done]. simpl.
      rewrite lookup_alter_ne; [done|]. intros <-. by apply Hq, (Hu q path ino).
Qed.

Lemma unlink_spec path d :
  disk_wf d → disk_wf (unlink path d) ∧ files (unlink path d) = delete path (files d).
Proof.
  intros [Hn Hu]. split.
  - split; cbn [unlink dk_names dk_inodes].
    + intros p i [_ Hp]%lookup_delete_Some. eauto.
    + intros p q i [_ Hp]%lookup_delete_Some [_ Hq]%lookup_delete_Some. eauto.
  - apply map_eq. intros p. rewrite files_lookup. cbn [unlink dk_names dk_inodes].
    destruct (decide (p = path)) as [->|Hp]; [by rewrite !lookup_delete_eq|].
    rewrite !lookup_delete_ne by done. by rewrite files_lookup.
Qed.

Lemma files_None path d : disk_wf d → files d !! path = None ↔ dk_names d !! path = None.
Proof.
  intros [Hn _]. rewrite files_lookup. destruct (dk_names d !! path) as [ino|] eqn:Hp; [|done].
  simpl. destruct (Hn path ino Hp) as [bs ->]. done.
Qed.

(** ** What the goroutines share *)
Record Shared := mkShared {
  sh_store : ChunkStore;
  sh_disk : Disk;
  sh_writer : bool;   (* the lock is held for writing *)
  sh_readers : nat;   (* how often it is held for reading *)
}.

Definition set_store (cs : ChunkStore) (s : Shared) : Shared :=
  mkShared cs (sh_disk s) (sh_writer s) (sh_readers s).
Definition set_files (d : Disk) (s : Shared) : Shared :=
  mkShared (sh_store s) d (sh_writer s) (sh_readers s).

(** The [sync.RWMutex]; [None] is waiting. *)
Definition Lock (s : Shared) : option Shared :=
  if sh_writer s || negb (sh_readers s =? 0)%nat then None
  else Some (mkShared (sh_store s) (sh_disk s) true (sh_readers s)).
Definition Unlock (s : Shared) : Shared :=
  mkShared (sh_store s) (sh_disk s) false (sh_readers s).
Definition RLock (s : Shared) : option Shared :=
  if sh_writer s then None
  else Some (mkShared (sh_store s) (sh_disk s) (sh_writer s) (S (sh_readers s))).
Definition RUnlock (s : Shared) : Shared :=
  mkShared (sh_store s) (sh_disk s) (sh_writer s) (pred (sh_readers s)).

(** The two halves of [enter_chunk] and of dropping a chunk. *)
Definition put_entry (c : StoredChunk) (cs : ChunkStore) : ChunkStore :=
  mkChunkStore (cs_dataDir cs) (<[sc_ChunkID c := c]> (cs_chunks cs)) (cs_usedBytes cs).
Definition drop_entry (id : string) (cs : ChunkStore) : ChunkStore :=
  mkChunkStore (cs_dataDir cs) (delete id (cs_chunks cs)) (cs_usedBytes cs).
Definition add_used (n : Z) (cs : ChunkStore) : ChunkStore :=
  mkChunkStore (cs_dataDir cs) (cs_chunks cs) (int64 (cs_usedBytes cs + n)).

(** ** Requests and where they are *)
Inductive request :=
  | ReqStore (id : string) (data : bytes) (exp : string)
  | ReqGet (id : string)
  | ReqDelete (id : string)
  | ReqHas (id : string)
  | ReqCount
  | ReqAllIDs (ord : list string)
  | ReqUsed.

Inductive response :=
  | ResUnit (r : go unit)
  | ResData (r : go (bytes * string))
  | ResBool (b : bool)
  | ResInt (n : Z)
  | ResIDs (ids : list string).

Inductive pc :=
  | Start (q : request)
  | StoreLocked (id : string) (data : bytes) (exp : string)
  | StoreOpening (id : string) (data : bytes)
  | StoreWriting (id : string) (data : bytes) (ino : nat) (todo : bytes)
  | StoreWritten (id : string) (data : bytes)
  | StoreEntered (id : string) (data : bytes)
  | DeleteLocked (id : string)
  | DeleteRemoving (id : string) (m : StoredChunk)
  | DeleteCounting (id : string) (m : StoredChunk)
  | DeleteDropping (id : string)
  | Unlocking (r : response)
  | GetLooking (id : string)
  | GetRUnlocking (id : string) (m : option StoredChunk)
  | GetOpening (id : string) (m : StoredChunk)
  | GetReading (id : string) (m : StoredChunk) (ino : nat) (buf : bytes)
  | Looking (q : request)
  | RUnlocking (r : response)
  | Done (r : response).

(** What a method that only looks at the store answers. *)
Definition look (q : request) (cs : ChunkStore) : response :=
  match q with
  | ReqHas id => ResBool (HasChunk id cs)
  | ReqCount => ResInt (ChunkCount cs)
  | ReqAllIDs ord => ResIDs (GetAllChunkIDs ord cs)
  | _ => ResInt (UsedBytes cs)
  end.

(** The entry [StoreChunk] makes. *)
Definition new_entry (id : string) (data : bytes) (cs : ChunkStore) : StoredChunk :=
  mkStoredChunk id (data_size data) (DataChecksum data) (chunkPath cs id).

(** The end of [GetChunk]. *)
Definition verified (id : string) (m : StoredChunk) (data : bytes) : go (bytes * string) :=
  if decide (DataChecksum data ≠ sc_Checksum m)
  then Err ("chunk " +:+ id +:+ " corrupted on disk") else Ok (data, DataChecksum data).

(** ** One access

    [k] is how many bytes the operating system takes or hands out at most, [fault] its
    failure at this call. *)
Definition step (k : nat) (fault : option string) (p : pc) (s : Shared) : option (pc * Shared) :=
  match p with
  | Start (ReqStore id data exp) => (λ s', (StoreLocked id data exp, s')) <$> Lock s
  | Start (ReqDelete id) => (λ s', (DeleteLocked id, s')) <$> Lock s
  | Start (ReqGet id) => (λ s', (GetLooking id, s')) <$> RLock s
  | Start ReqUsed => Some (Done (look ReqUsed (sh_store s)), s)
  | Start q => (λ s', (Looking q, s')) <$> RLock s

  | StoreLocked id data exp =>
      let actualChecksum := DataChecksum data in
      Some (if decide (exp ≠ "" ∧ actualChecksum ≠ exp)
            then Unlocking (ResUnit (Err ("checksum mismatch for chunk " +:+ id +:+ ": expected " +:+ exp
                                          +:+ ", got " +:+ actualChecksum)))
            else StoreOpening id data, s)
  | StoreOpening id data =>
      match fault with
      | Some e => Some (Unlocking (ResUnit (Err ("write chunk " +:+ id +:+ ": " +:+ e))), s)
      | None =>
          let '(ino, d) := open_trunc (chunkPath (sh_store s) id) (sh_disk s) in
          Some (StoreWriting id data ino data, set_files d s)
      end
  | StoreWriting id data ino todo =>
      match fault, todo with
      | Some e, _ => Some (Unlocking (ResUnit (Err ("write chunk " +:+ id +:+ ": " +:+ e))), s)
      | None, [] => Some (StoreWritten id data, s)
      | None, _ =>
          let n := Nat.max 1 k in
          Some (StoreWriting id data ino (drop n todo), set_files (append ino (take n todo) (sh_disk s)) s)
      end
  | StoreWritten id data =>
      Some (StoreEntered id data, set_store (put_entry (new_entry id data (sh_store s)) (sh_store s)) s)
  | StoreEntered id data =>
      Some (Unlocking (ResUnit (Ok tt)), set_store (add_used (data_size data) (sh_store s)) s)

  | DeleteLocked id =>
      Some (match cs_chunks (sh_store s) !! id with
            | None => Unlocking (ResUnit (Err ("chunk not found: " +:+ id)))
            | Some m => DeleteRemoving id m
            end, s)
  | DeleteRemoving id m =>
      match fault with
      | Some e => Some (Unlocking (ResUnit (Err ("delete chunk " +:+ id +:+ ": " +:+ e))), s)
      | None => Some (DeleteCounting id m, set_files (unlink (sc_FilePath m) (sh_disk s)) s)
      end
  | DeleteCounting id m =>
      Some (DeleteDropping id, set_store (add_used (int64 (- sc_Size m)) (sh_store s)) s)
  | DeleteDropping id => Some (Unlocking (ResUnit (Ok tt)), set_store (drop_entry id (sh_store s)) s)
  | Unlocking r => Some (Done r, Unlock s)

  | GetLooking id => Some (GetRUnlocking id (cs_chunks (sh_store s) !! id), s)
  | GetRUnlocking id m =>
      Some (match m with
            | None => Done (ResData (Err ("chunk not found: " +:+ id)))
            | Some m => GetOpening id m
            end, RUnlock s)
  | GetOpening id m =>
      match fault, dk_names (sh_disk s) !! sc_FilePath m with
      | Some e, _ => Some (Done (ResData (Err ("read chunk " +:+ id +:+ ": " +:+ e))), s)
      | None, None =>
          Some (Done (ResData (Err ("read chunk " +:+ id +:+ ": open " +:+ sc_FilePath m
                                    +:+ ": no such file or directory"))), s)
      | None, Some ino => Some (GetReading id m ino [], s)
      end
  | GetReading id m ino buf =>
      let rest := drop (length buf) (default [] (dk_inodes (sh_disk s) !! ino)) in
      match fault, rest with
      | Some e, _ => Some (Done (ResData (Err ("read chunk " +:+ id +:+ ": " +:+ e))), s)
      | None, [] => Some (Done (ResData (verified id m buf)), s)
      | None, _ => Some (GetReading id m ino (buf ++ take (Nat.max 1 k) rest), s)
      end

  | Looking q => Some (RUnlocking (look q (sh_store s)), s)
  | RUnlocking r => Some (Done r, RUnlock s)
  | Done _ => None
  end.

(** ** Requests in parallel *)
Definition pool : Type := Shared * list (request * pc).

Inductive pool_step : pool → pool → Prop :=
  | pool_arrive q s ths : pool_step (s, ths) (s, ths ++ [(q, Start q)])
  | pool_access i k fault q p s p' s' ths :
      ths !! i = Some (q, p) → step k fault p s = Some (p', s') →
      pool_step (s, ths) (s', <[i := (q, p')]> ths).

(** An executable scheduler; a request that waits keeps waiting. *)
Fixpoint schedule (sched : list (nat * (nat * option string))) (c : pool) : pool :=
  match sched with
  | [] => c
  | (i, (k, fault)) :: rest =>
      schedule rest
        (match c.2 !! i with
         | Some (q, p) =>
             match step k fault p c.1 with
             | Some (p', s') => (s', <[i := (q, p')]> c.2)
             | None => c
             end
         | None => c
         end)
  end.

Lemma store_schedule_steps sched : ∀ c, rtc pool_step c (schedule sched c).
Proof.
  induction sched as [|[i [k fault]] sched IH]; intros [s ths]; [apply rtc_refl|]. cbn [schedule fst snd].
  destruct (ths !! i) as [[q p]|] eqn:Hi; [|apply IH].
  destruct (step k fault p s) as [[p' s']|] eqn:Hst; [|apply IH].
  eapply rtc_l; [by eapply pool_access|apply IH].
Qed.

(** ** The reference: one change of the store after the other *)
Inductive event :=
  | EvStore (id : string) (data : bytes) (exp : string) (plan : write_plan)
  | EvDelete (id : string) (fault : option string).

Definition exec (ev : event) : gos disk_state unit :=
  match ev with
  | EvStore id data exp plan => StoreChunk plan id data exp
  | EvDelete id fault => DeleteChunk fault id
  end.

Definition replay (evs : list event) (s : disk_state) : disk_state :=
  foldl (λ s ev, (exec ev s).2) s evs.

(** The methods that hold the lock for reading while they look. *)
Definition looks (q : request) : bool :=
  match q with ReqHas _ | ReqCount | ReqAllIDs _ => true | _ => false end.

Definition event_of (q : request) (ev : event) : Prop :=
  match q, ev with
  | ReqStore id data exp, EvStore id' data' exp' _ => id = id' ∧ data = data' ∧ exp = exp'
  | ReqDelete id, EvDelete id' _ => id = id'
  | _, _ => False
  end.

Definition changes (q : request) : bool :=
  match q with ReqStore _ _ _ | ReqDelete _ => true | _ => false end.

(** The requests that have changed the store, in the order in which they released the
    lock, each with what it did. *)
Abbreviation history := (list (nat * event)).

Definition before (n : nat) (h : history) : list event := (take n h).*2.

(** ** Invariant *)
Definition in_write (p : pc) : bool :=
  match p with
  | StoreLocked _ _ _ | StoreOpening _ _ | StoreWriting _ _ _ _ | StoreWritten _ _ | StoreEntered _ _
  | DeleteLocked _ | DeleteRemoving _ _ | DeleteCounting _ _ | DeleteDropping _ | Unlocking _ => true
  | _ => false
  end.

Definition in_read (p : pc) : bool :=
  match p with GetLooking _ | GetRUnlocking _ _ | Looking _ | RUnlocking _ => true | _ => false end.

Definition disk_of (s : Shared) : disk_state := (sh_store s, files (sh_disk s)).

(** The checksum offered with a chunk, if any, is the right one. *)
Definition accepted (data : bytes) (exp : string) : Prop := ¬ (exp ≠ "" ∧ DataChecksum data ≠ exp).

(** How far the holder of the lock has come from the state [base] it found. *)
Definition inside (q : request) (p : pc) (base : disk_state) (s : Shared) : Prop :=
  let '(cs, fs) := base in
  match p with
  | StoreLocked id data exp => q = ReqStore id data exp ∧ disk_of s = base
  | StoreOpening id data => ∃ exp, q = ReqStore id data exp ∧ accepted data exp ∧ disk_of s = base
  | StoreWriting id data ino todo => ∃ exp written,
      q = ReqStore id data exp ∧ accepted data exp ∧ data = written ++ todo ∧
      dk_names (sh_disk s) !! chunkPath cs id = Some ino ∧
      disk_of s = (cs, <[chunkPath cs id := written]> fs)
  | StoreWritten id data => ∃ exp,
      q = ReqStore id data exp ∧ accepted data exp ∧ disk_of s = (cs, <[chunkPath cs id := data]> fs)
  | StoreEntered id data => ∃ exp,
      q = ReqStore id data exp ∧ accepted data exp ∧
      disk_of s = (put_entry (new_entry id data cs) cs, <[chunkPath cs id := data]> fs)
  | DeleteLocked id => q = ReqDelete id ∧ disk_of s = base
  | DeleteRemoving id m => q = ReqDelete id ∧ cs_chunks cs !! id = Some m ∧ disk_of s = base
  | DeleteCounting id m =>
      q = ReqDelete id ∧ cs_chunks cs !! id = Some m ∧ disk_of s = (cs, delete (sc_FilePath m) fs)
  | DeleteDropping id => ∃ m, q = ReqDelete id ∧ cs_chunks cs !! id = Some m ∧
      disk_of s = (add_used (int64 (- sc_Size m)) cs, delete (sc_FilePath m) fs)
  | Unlocking r => ∃ ev res, event_of q ev ∧ r = ResUnit res ∧ exec ev base = (res, disk_of s)
  | _ => False
  end.

Lemma DeleteChunk_removed id m cs fs :
  cs_chunks cs !! id = Some m →
  DeleteChunk None id (cs, fs)
    = (Ok tt, (drop_entry id (add_used (int64 (- sc_Size m)) cs), delete (sc_FilePath m) fs)).
Proof.
  intros Hm. unfold DeleteChunk. rewrite Hm. unfold Remove.
  destruct (fs !! sc_FilePath m) eqn:Hf; [done|]. by rewrite (delete_id fs) by done.
Qed.

(** The holder of the lock makes an access and keeps the lock. *)
Definition keeps_lock (q : request) (p' : pc) (base : disk_state) (s s' : Shared) : Prop :=
  disk_wf (sh_disk s') ∧ inside q p' base s' ∧ sh_writer s' = sh_writer s ∧ sh_readers s' = sh_readers s.

Lemma keeps_unlocking ev q base s res :
  disk_wf (sh_disk s) → event_of q ev → exec ev base = (res, disk_of s) →
  keeps_lock q (Unlocking (ResUnit res)) base s s.
Proof. intros Hd Hev Hex. split; [done|]. split; [|done]. destruct base. by exists ev, res. Qed.

(** Taking apart what [disk_of] is known to be, and putting it together. *)
Ltac at_disk Hs :=
  unfold disk_of in Hs; let Hcs := fresh "Hcs" in let Hfs := fresh "Hfs" in injection Hs as Hcs Hfs.
Ltac by_disk :=
  unfold disk_of; cbn [set_files set_store sh_disk sh_store];
  repeat match goal with
         | H : sh_store _ = _ |- _ => rewrite H; clear H
         | H : files _ = _ |- _ => rewrite H; clear H
         end; done.

Lemma store_inside_step q id data exp p base s k fault p' s' :
  q = ReqStore id data exp →
  disk_wf (sh_disk s) → inside q p base s → step k fault p s = Some (p', s') → in_write p' = true →
  keeps_lock q p' base s s'.
Proof.
  intros Hq Hd Hin Hstep Hw. destruct base as [cs fs].
  destruct p as [q0|i dat e0|i dat|i dat ino todo|i dat|i dat|i|i m|i m|i|r| | | | | | |];
    try done; cbn [step inside] in *.
  - destruct Hin as [-> Hs]. at_disk Hs. case_decide as Hbad; injection Hstep as <- <-.
    + apply (keeps_unlocking (EvStore i dat e0 WriteOk)); [done..|].
      cbn [exec]. rewrite StoreChunk_cases, decide_True by done. by_disk.
    + split; [done|]. split; [|done]. exists e0. split; [done|]. split; [done|]. by_disk.
  - destruct Hin as (e0 & -> & Hacc & Hs). at_disk Hs. destruct fault as [e|].
    + injection Hstep as <- <-. apply (keeps_unlocking (EvStore i dat e0 (WriteNotOpened e))); [done..|].
      cbn [exec]. rewrite StoreChunk_cases, decide_False by done. by_disk.
    + destruct (open_trunc _ _) as [ino d] eqn:Hopen. injection Hstep as <- <-.
      apply open_trunc_spec in Hopen as (Hd' & Hino & Hf); [|done]. split; [done|]. split; [|done].
      rewrite Hcs in Hino, Hf. rewrite Hfs in Hf. exists e0, []. split_and!; [done..|]. by_disk.
  - destruct Hin as (e0 & written & -> & Hacc & -> & Hino & Hs). at_disk Hs.
    destruct fault as [e|]; [|destruct todo as [|b todo]]; injection Hstep as <- <-.
    + apply (keeps_unlocking (EvStore i (written ++ todo) e0 (WritePartial (length written) e))); [done..|].
      cbn [exec]. rewrite StoreChunk_cases, decide_False, take_app_length by done. by_disk.
    + split; [done|]. split; [|done]. exists e0. rewrite app_nil_r in *. split_and!; [done..|]. by_disk.
    + set (piece := take (Nat.max 1 k) (b :: todo)).
      pose proof (append_spec (chunkPath cs i) ino piece written (sh_disk s) Hd Hino) as [Hd' Hf].
      { by rewrite Hfs, lookup_insert_eq. }
      rewrite Hfs, insert_insert_eq in Hf. split; [done|]. split; [|done].
      exists e0, (written ++ piece). split_and!; [done|done|rewrite <- app_assoc; unfold piece; by rewrite take_drop|done|].
      clear Hfs. by_disk.
  - destruct Hin as (e0 & -> & Hacc & Hs). at_disk Hs. injection Hstep as <- <-.
    split; [done|]. split; [|done]. exists e0. split_and!; [done..|]. by_disk.
  - destruct Hin as (e0 & -> & Hacc & Hs). at_disk Hs. injection Hstep as <- <-.
    split; [done|]. split; [|done]. exists (EvStore i dat e0 WriteOk), (Ok tt). split_and!; [done..|].
    cbn [exec]. rewrite StoreChunk_cases, decide_False by done. by_disk.
  - by destruct Hin as [-> _].
  - by destruct Hin as [-> _].
  - by destruct Hin as [-> _].
  - by destruct Hin as (? & -> & _).
  - by injection Hstep as <- <-.
Qed.

Lemma delete_inside_step q id p base s k fault p' s' :
  q = ReqDelete id →
  disk_wf (sh_disk s) → inside q p base s → step k fault p s = Some (p', s') → in_write p' = true →
  keeps_lock q p' base s s'.
Proof.
  intros Hq Hd Hin Hstep Hw. destruct base as [cs fs].
  destruct p as [q0|i dat e0|i dat|i dat ino todo|i dat|i dat|i|i m|i m|i|r| | | | | | |];
    try done; cbn [step inside] in *.
  - by destruct Hin as [-> _].
  - by destruct Hin as (? & -> & _).
  - by destruct Hin as (? & ? & -> & _).
  - by destruct Hin as (? & -> & _).
  - by destruct Hin as (? & -> & _).
  - destruct Hin as [-> Hs]. at_disk Hs. injection Hstep as <- <-. rewrite Hcs.
    destruct (cs_chunks cs !! i) as [m|] eqn:Hm.
    + split; [done|]. split; [|done]. split_and!; [done..|]. by_disk.
    + apply (keeps_unlocking (EvDelete i None)); [done..|]. cbn [exec]. unfold DeleteChunk. rewrite Hm. by_disk.
  - destruct Hin as (-> & Hm & Hs). at_disk Hs. destruct fault as [e|]; injection Hstep as <- <-.
    + apply (keeps_unlocking (EvDelete i (Some e))); [done..|].
      cbn [exec]. unfold DeleteChunk. rewrite Hm. by_disk.
    + destruct (unlink_spec (sc_FilePath m) (sh_disk s) Hd) as [Hd' Hf]. rewrite Hfs in Hf.
      split; [done|]. split; [|done]. split_and!; [done..|]. clear Hfs. by_disk.
  - destruct Hin as (-> & Hm & Hs). at_disk Hs. injection Hstep as <- <-.
    split; [done|]. split; [|done]. exists m. split_and!; [done..|]. by_disk.
  - destruct Hin as (m & -> & Hm & Hs). at_disk Hs. injection Hstep as <- <-.
    split; [done|]. split; [|done]. exists (EvDelete i None), (Ok tt). split_and!; [done..|].
    cbn [exec]. rewrite (DeleteChunk_removed i m) by done. by_disk.
  - by injection Hstep as <- <-.
Qed.

Lemma inside_step q p base s k fault p' s' :
  changes q = true →
  disk_wf (sh_disk s) → inside q p base s → step k fault p s = Some (p', s') → in_write p' = true →
  keeps_lock q p' base s s'.
Proof. destruct q; [intros _|done|intros _|done..]; [by eapply store_inside_step|by eapply delete_inside_step]. Qed.

(** An access of a request that does not hold the lock for writing leaves the store
    and the disk alone; it may take the lock, when nobody else holds it. *)
Definition b2n (b : bool) : nat := if b then 1%nat else 0%nat.

Lemma outside_step k fault p s p' s' :
  in_write p = false → (in_read p = true → (0 < sh_readers s)%nat) → step k fault p s = Some (p', s') →
  disk_of s' = disk_of s ∧ sh_disk s' = sh_disk s ∧
  (sh_readers s' + b2n (in_read p) = sh_readers s + b2n (in_read p'))%nat ∧
  if in_write p' then sh_writer s = false ∧ sh_writer s' = true ∧ sh_readers s' = 0%nat ∧
    ∃ q, p = Start q ∧ changes q = true ∧ inside q p' (disk_of s) s'
  else sh_writer s' = sh_writer s ∧ (in_read p' = true → in_read p = false → sh_writer s = false).
Proof.
  intros Hw Hr Hstep.
  destruct p as [[id data exp|id|id|id| |ord|]| | | | | | | | | | |id|id m|id m|id m ino buf|q|r|r];
    try done; cbn [step] in Hstep.
  - unfold Lock in Hstep. destruct (sh_writer s) eqn:Hsw; [done|].
    destruct (sh_readers s) as [|n] eqn:Hsr; [|done]. injection Hstep as <- <-. simpl.
    split_and!; [done..|]. by exists (ReqStore id data exp).
  - unfold RLock in Hstep. destruct (sh_writer s) eqn:Hsw; [done|]. injection Hstep as <- <-.
    simpl. split_and!; [done|done|lia|done|done].
  - unfold Lock in Hstep. destruct (sh_writer s) eqn:Hsw; [done|].
    destruct (sh_readers s) as [|n] eqn:Hsr; [|done]. injection Hstep as <- <-. simpl.
    split_and!; [done..|]. by exists (ReqDelete id).
  - unfold RLock in Hstep. destruct (sh_writer s) eqn:Hsw; [done|]. injection Hstep as <- <-.
    simpl. split_and!; [done|done|lia|done|done].
  - unfold RLock in Hstep. destruct (sh_writer s) eqn:Hsw; [done|]. injection Hstep as <- <-.
    simpl. split_and!; [done|done|lia|done|done].
  - unfold RLock in Hstep. destruct (sh_writer s) eqn:Hsw; [done|]. injection Hstep as <- <-.
    simpl. split_and!; [done|done|lia|done|done].
  - by injection Hstep as <- <-.
  - by injection Hstep as <- <-.
  - injection Hstep as <- <-. specialize (Hr eq_refl).
    destruct m; simpl; split_and!; try done; lia.
  - destruct fault; [by injection Hstep as <- <-|].
    destruct (dk_names _ !! _); by injection Hstep as <- <-.
  - destruct fault; [by injection Hstep as <- <-|].
    destruct (drop _ _); by injection Hstep as <- <-.
  - by injection Hstep as <- <-.
  - injection Hstep as <- <-. specialize (Hr eq_refl). simpl. split_and!; try done; lia.
Qed.

Lemma before_app n h h' : (n ≤ length h)%nat → before n (h ++ h') = before n h.
Proof. intros Hn. unfold before. by rewrite take_app_le. Qed.

Lemma before_all h : before (length h) h = h.*2.
Proof. unfold before. by rewrite take_ge. Qed.

Section history.
Variable init : disk_state.

(** A lookup in the table of some state the changes went through. *)
Definition looked_up (h : history) (id : string) (m : option StoredChunk) : Prop :=
  ∃ n, (n ≤ length h)%nat ∧ cs_chunks (replay (before n h) init).1 !! id = m.

(** The answers of the methods that do not change the store. *)
Definition get_answer (h : history) (id : string) (r : response) : Prop :=
  match r with
  | ResData (Ok (data, sum)) => ∃ m, looked_up h id (Some m) ∧ sum = sc_Checksum m ∧ DataChecksum data = sum
  | ResData (Err e) =>
      looked_up h id None ∧ e = "chunk not found: " +:+ id ∨
      ∃ m, looked_up h id (Some m) ∧
        ((∃ msg, e = "read chunk " +:+ id +:+ ": " +:+ msg) ∨ e = "chunk " +:+ id +:+ " corrupted on disk")
  | _ => False
  end.

Definition look_answer (h : history) (q : request) (r : response) : Prop :=
  ∃ n, (n ≤ length h)%nat ∧ r = look q (replay (before n h) init).1.

(** What a request may be waiting to do or to answer. *)
Definition thread_ok (h : history) (q : request) (p : pc) : Prop :=
  match p with
  | Start q' => q' = q
  | GetLooking id => q = ReqGet id
  | GetRUnlocking id m => q = ReqGet id ∧ looked_up h id m
  | GetOpening id m | GetReading id m _ _ => q = ReqGet id ∧ looked_up h id (Some m)
  | Looking q' => q' = q ∧ looks q = true
  | RUnlocking r => looks q = true ∧ look_answer h q r
  | Done r =>
      match q with
      | ReqGet id => get_answer h id r
      | ReqHas _ | ReqCount | ReqAllIDs _ => look_answer h q r
      | ReqStore _ _ _ | ReqDelete _ => ∃ res, r = ResUnit res
      | ReqUsed => ∃ n, r = ResInt n
      end
  | _ => changes q = true
  end.

Lemma looked_up_app h h' id m : looked_up h id m → looked_up (h ++ h') id m.
Proof.
  intros (n & Hn & Hm). exists n. rewrite length_app, before_app by done. split; [lia|done].
Qed.

Lemma thread_ok_app h h' q p : thread_ok h q p → thread_ok (h ++ h') q p.
Proof.
  assert (∀ q r, look_answer h q r → look_answer (h ++ h') q r) as Hlook.
  { intros q0 r (n & Hn & ->). exists n. rewrite length_app, before_app by done. split; [lia|done]. }
  assert (∀ id r, get_answer h id r → get_answer (h ++ h') id r) as Hget.
  { intros id r. unfold get_answer. destruct r as [|[[data sum]|e|w]| | |]; try done.
    - intros (m & Hm & H). exists m. split; [by apply looked_up_app|done].
    - intros [[Hm ->]|(m & Hm & H)]; [left|right; exists m]; (split; [by apply looked_up_app|done]). }
  destruct p; simpl; try done; try (intros [-> Hm]; split; [done|by apply looked_up_app]);
    try (intros [Hq Hm]; split; [done|by apply Hlook]); destruct q; simpl; try done; eauto.
Qed.

(** What an observer can say of the pool: the requests that have changed the store did
    so one after the other, in the order of [h], with the answers the reference
    gives; what the others saw are states in between. *)
Record linearized (c : pool) (h : history) : Prop := {
  li_once : NoDup h.*1;
  li_answers : ∀ n i ev, h !! n = Some (i, ev) →
    ∃ q, c.2 !! i = Some (q, Done (ResUnit (exec ev (replay (before n h) init)).1)) ∧ event_of q ev;
  li_changes : ∀ i q r, c.2 !! i = Some (q, Done r) → changes q = true → i ∈ h.*1;
  li_reads : ∀ i id r, c.2 !! i = Some (ReqGet id, Done r) → get_answer h id r;
  li_looks : ∀ i q r, c.2 !! i = Some (q, Done r) → looks q = true → look_answer h q r;
  li_state : sh_writer c.1 = false → disk_of c.1 = replay h.*2 init;
}.

(** The invariant: it also knows who holds the lock and how far they are. *)
Record pool_inv (c : pool) (h : history) (w : option nat) : Prop := {
  pi_disk : disk_wf (sh_disk c.1);
  pi_once : NoDup h.*1;
  pi_answers : ∀ n i ev, h !! n = Some (i, ev) →
    ∃ q, c.2 !! i = Some (q, Done (ResUnit (exec ev (replay (before n h) init)).1)) ∧ event_of q ev;
  pi_changes : ∀ i q r, c.2 !! i = Some (q, Done r) → changes q = true → i ∈ h.*1;
  pi_threads : ∀ i q p, c.2 !! i = Some (q, p) → thread_ok h q p;
  pi_holder : ∀ i q p, c.2 !! i = Some (q, p) → in_write p = true ↔ w = Some i;
  pi_readers : sh_readers c.1 = sum_list_with (λ t, b2n (in_read t.2)) c.2;
  pi_lock : match w with
    | None => sh_writer c.1 = false ∧ disk_of c.1 = replay h.*2 init
    | Some i => sh_writer c.1 = true ∧ sh_readers c.1 = 0%nat ∧
        ∃ q p, c.2 !! i = Some (q, p) ∧ inside q p (replay h.*2 init) c.1
    end;
}.

Lemma pool_inv_linearized c h w : pool_inv c h w → linearized c h.
Proof.
  intros [Hd Ho Ha Hc Ht Hh Hr Hl]. split; [done|done|done| | |].
  - intros i id r Hi. apply (Ht i _ _ Hi).
  - intros i q r Hi Hq. pose proof (Ht i _ _ Hi) as Hok. by destruct q.
  - intros Hw. destruct w as [i|]; [destruct Hl as [Hl _]; congruence|by destruct Hl].
Qed.

Lemma sum_list_with_insert {A} (f : A → nat) l i x y :
  l !! i = Some y → (sum_list_with f (<[i := x]> l) + f y = sum_list_with f l + f x)%nat.
Proof.
  revert i. induction l as [|z l IH]; intros [|i]; simpl; [done|done| |].
  - intros [= ->]. lia.
  - intros Hi. specialize (IH i Hi). lia.
Qed.

Lemma sum_list_with_ge {A} (f : A → nat) l i y : l !! i = Some y → (f y ≤ sum_list_with f l)%nat.
Proof.
  revert i. induction l as [|z l IH]; intros [|i]; simpl; [done|done| |].
  - intros [= ->]. lia.
  - intros Hi. specialize (IH i Hi). lia.
Qed.

(** A thread that is not done moves on: what does not depend on it. *)
Lemma others_insert s ths i q p p' s' h :
  ths !! i = Some (q, p) → (∀ r, p ≠ Done r) →
  (∀ n j ev, h !! n = Some (j, ev) →
    ∃ q, ths !! j = Some (q, Done (ResUnit (exec ev (replay (before n h) init)).1)) ∧ event_of q ev) →
  sh_readers s = sum_list_with (λ t, b2n (in_read t.2)) ths →
  (sh_readers s' + b2n (in_read p) = sh_readers s + b2n (in_read p'))%nat →
  (∀ n j ev, h !! n = Some (j, ev) → ∃ q0,
    <[i := (q, p')]> ths !! j = Some (q0, Done (ResUnit (exec ev (replay (before n h) init)).1)) ∧
    event_of q0 ev) ∧
  sh_readers s' = sum_list_with (λ t, b2n (in_read t.2)) (<[i := (q, p')]> ths) ∧
  i ∉ h.*1.
Proof.
  intros Hi Hp Ha Hr Hr'. assert (i ∉ h.*1) as Hnin.
  { intros ([j ev] & -> & [n Hn]%list_elem_of_lookup)%list_elem_of_fmap.
    destruct (Ha n j ev Hn) as (q0 & Hq0 & _). simpl in Hi. rewrite Hi in Hq0. simplify_eq. by eapply Hp. }
  split; [|split; [|done]].
  - intros n j ev Hn. destruct (Ha n j ev Hn) as (q0 & Hq0 & Hev). exists q0. split; [|done].
    rewrite list_lookup_insert_ne; [done|]. intros ->. rewrite Hi in Hq0. simplify_eq. by eapply Hp.
  - pose proof (sum_list_with_insert (λ t : request * pc, b2n (in_read t.2)) ths i (q, p') (q, p) Hi) as Hs.
    simpl in Hs. lia.
Qed.

(** What a request that does not hold the lock for writing may do or answer next. *)
Lemma thread_ok_step h q k fault p s p' s' :
  in_write p = false → thread_ok h q p →
  (in_read p = true → sh_store s = (replay h.*2 init).1) → step k fault p s = Some (p', s') →
  thread_ok h q p'.
Proof.
  intros Hw Hok Hsee Hstep.
  assert (∀ id, in_read p = true → looked_up h id (cs_chunks (sh_store s) !! id)) as Hup.
  { intros id Hr. exists (length h). by rewrite before_all, Hsee. }
  destruct p as [q0| | | | | | | | | | |id|id m|id m|id m ino buf|q0|r|r]; try done; cbn [step] in Hstep.
  - simpl in Hok. subst q0.
    destruct q; try (by injection Hstep as <- <-; eexists);
      apply fmap_Some in Hstep as (s1 & _ & [= -> ->]); done.
  - injection Hstep as <- <-. split; [done|]. by apply Hup.
  - injection Hstep as <- <-. destruct Hok as [-> Hm]. destruct m; [done|]. by left.
  - destruct Hok as [-> Hm]. destruct fault as [e|]; [|destruct (dk_names _ !! _)]; injection Hstep as <- <-;
      [right; exists m; eauto|done|right; exists m]. split; [done|]. left. eexists. done.
  - destruct Hok as [-> Hm]. destruct fault as [e|]; [|destruct (drop _ _)]; injection Hstep as <- <-;
      [right; exists m; eauto| |done].
    unfold thread_ok, get_answer, verified. case_decide as Hsum; [right|]; exists m; [eauto|].
    split; [done|]. split; [|done]. destruct (decide (DataChecksum buf = sc_Checksum m)); [done|by destruct Hsum].
  - injection Hstep as <- <-. destruct Hok as [-> Hq]. split; [done|]. exists (length h).
    by rewrite before_all, <- Hsee.
  - injection Hstep as <- <-. destruct Hok as [Hq Hl]. by destruct q.
Qed.

Lemma arrive_inv s ths h w q : pool_inv (s, ths) h w → pool_inv (s, ths ++ [(q, Start q)]) h w.
Proof.
  intros [Hd Ho Ha Hc Ht Hh Hr Hl]. cbn [fst snd] in *.
  assert (∀ i x, (ths ++ [(q, Start q)]) !! i = Some x → ths !! i = Some x ∨ x = (q, Start q)) as Hsplit.
  { intros i x [Hi|[_ Hx]]%lookup_app_Some; [by left|right]. by apply list_lookup_singleton_Some in Hx as [_ <-]. }
  assert (∀ i x, ths !! i = Some x → (ths ++ [(q, Start q)]) !! i = Some x) as Hkeep
    by (intros i x; apply lookup_app_l_Some).
  split; cbn [fst snd]; [done|done| | | | | |].
  - intros n i ev Hn. destruct (Ha n i ev Hn) as (q0 & Hq0 & Hev). eauto.
  - intros i q0 r [Hi|[=]]%Hsplit Hq. by eapply Hc.
  - intros i q0 p [Hi|[= -> ->]]%Hsplit; [by eapply Ht|done].
  - intros i q0 p [Hi|[Hge Hx]]%lookup_app_Some; [by eapply Hh|].
    apply list_lookup_singleton_Some in Hx as [Hz [= <- <-]]. split; [done|]. intros ->.
    destruct Hl as (_ & _ & q1 & p1 & Hi & _). apply lookup_lt_Some in Hi. simpl in Hge. lia.
  - rewrite sum_list_with_app. simpl. lia.
  - destruct w as [i|]; [|done]. destruct Hl as (? & ? & q0 & p0 & Hi & Hin).
    split; [done|]. split; [done|]. exists q0, p0. split; [by apply Hkeep|done].
Qed.

Lemma insert_thread {A} (ths : list A) i x y : ths !! i = Some y → <[i := x]> ths !! i = Some x.
Proof. intros Hi. apply list_lookup_insert_eq. by eapply lookup_lt_Some. Qed.

Lemma inside_not_done q p base s : inside q p base s → in_write p = true.
Proof. by destruct base, p. Qed.


Lemma inside_same q p base s s' :
  disk_of s' = disk_of s → sh_disk s' = sh_disk s → inside q p base s → inside q p base s'.
Proof. intros Hs Hd. unfold inside. destruct base, p; by rewrite ?Hs, ?Hd. Qed.

Lemma outside_done h q k fault p s r s' :
  in_write p = false → thread_ok h q p → step k fault p s = Some (Done r, s') → changes q = false.
Proof.
  intros Hw Hok Hstep.
  destruct p as [q0| | | | | | | | | | |id|id m|id m|id m ino buf|q0|r0|r0]; try done; cbn [step] in Hstep.
  - simpl in Hok. subst q0. destruct q; try done; by apply fmap_Some in Hstep as (s1 & _ & ?).
  - by destruct Hok as [-> _].
  - by destruct Hok as [-> _].
  - by destruct Hok as [-> _].
  - destruct Hok as [Hl _]. by destruct q.
Qed.

(** The other threads after thread [i] has moved. *)
Lemma insert_cases (ths : list (request * pc)) i q p' j q0 p0 :
  <[i := (q, p')]> ths !! j = Some (q0, p0) →
  j = i ∧ q0 = q ∧ p' = p0 ∨ j ≠ i ∧ ths !! j = Some (q0, p0).
Proof. intros [(<- & [= <- <-] & _)|[Hne Hj]]%list_lookup_insert_Some; [by left|by right]. Qed.

(** The holder of the lock keeps it. *)
Lemma hold_inv i k fault q p s p' s' ths h w :
  pool_inv (s, ths) h w → ths !! i = Some (q, p) → step k fault p s = Some (p', s') →
  in_write p = true → in_write p' = true → pool_inv (s', <[i := (q, p')]> ths) h w.
Proof.
  intros [Hd Ho Ha Hc Ht Hh Hr Hl] Hi Hstep Hw Hw'. cbn [fst snd] in *.
  pose proof (proj1 (Hh i q p Hi) Hw) as ->. destruct Hl as (Hlw & Hlr & q0 & p0 & Hi' & Hin).
  rewrite Hi in Hi'. injection Hi' as <- <-.
  assert (∀ p, in_write p = true → ∀ r, p ≠ Done r) as Hnd by (by intros ? ? ? ->).
  assert (changes q = true) as Hq by (pose proof (Ht i q p Hi); by destruct p).
  destruct (inside_step q p _ s k fault p' s' Hq Hd Hin Hstep Hw') as (Hd' & Hin' & Hsw & Hsr).
  destruct (others_insert s ths i q p p' s' h Hi (Hnd p Hw) Ha Hr) as (Ha' & Hr' & _).
  { rewrite Hsr. by destruct p, p'. }
  split; cbn [fst snd]; [done|done|done| | | |done|].
  - intros j q0 r [(-> & -> & ->)|[_ Hj]]%insert_cases Hq0; [done|by eapply Hc].
  - intros j q0 p0 [(-> & -> & <-)|[_ Hj]]%insert_cases; [by destruct p'|by eapply Ht].
  - intros j q0 p0 [(-> & -> & <-)|[_ Hj]]%insert_cases; [done|by eapply Hh].
  - split; [congruence|]. split; [congruence|]. exists q, p'. split; [by eapply insert_thread|done].
Qed.

(** The holder of the lock releases it: its change is the next of the history. *)
Lemma release_inv i q r s ths h w :
  pool_inv (s, ths) h w → ths !! i = Some (q, Unlocking r) →
  ∃ ev, pool_inv (Unlock s, <[i := (q, Done r)]> ths) (h ++ [(i, ev)]) None.
Proof.
  intros [Hd Ho Ha Hc Ht Hh Hr Hl] Hi. cbn [fst snd] in *.
  pose proof (proj1 (Hh i q _ Hi) eq_refl) as ->. destruct Hl as (Hlw & Hlr & q0 & p0 & Hi' & Hin).
  rewrite Hi in Hi'. injection Hi' as <- <-. unfold inside in Hin.
  destruct (replay h.*2 init) as [cs fs] eqn:Hrep. destruct Hin as (ev & res & Hev & -> & Hexec).
  destruct (others_insert s ths i q (Unlocking (ResUnit res)) (Done (ResUnit res)) (Unlock s) h Hi)
    as (Ha' & Hr' & Hnin); [done..|]. exists ev. split; cbn [fst snd]; [done| | | | | |done|].
  - rewrite fmap_app. apply NoDup_app. split; [done|]. split; [set_solver|apply NoDup_singleton].
  - intros n j ev0 [Hn|[Hge [Hz [= <- <-]]%list_lookup_singleton_Some]]%lookup_app_Some.
    + destruct (Ha' n j ev0 Hn) as (q0 & Hq0 & Hev0). exists q0. split; [|done].
      rewrite before_app; [done|]. apply lookup_lt_Some in Hn. lia.
    + exists q. split; [|done]. rewrite before_app by lia.
      assert (n = length h) as -> by lia. rewrite before_all, Hrep, Hexec. by eapply insert_thread.
  - intros j q0 r [(-> & _ & _)|[_ Hj]]%insert_cases Hq0; rewrite fmap_app; apply elem_of_app;
      [right; by left|left; by eapply Hc].
  - intros j q0 p0 [(-> & -> & <-)|[_ Hj]]%insert_cases; apply thread_ok_app; [|by eapply Ht].
    pose proof (Ht i q _ Hi) as Hok. simpl in Hok. destruct q; [by eexists|done|by eexists|done..].
  - intros j q0 p0 [(-> & _ & <-)|[Hne Hj]]%insert_cases; [done|]. rewrite (Hh j q0 p0 Hj). split; congruence.
  - split; [done|]. rewrite fmap_app. unfold replay. rewrite foldl_app. fold (replay h.*2 init).
    simpl. by rewrite Hrep, Hexec.
Qed.

(** A request that does not hold the lock for writing moves, perhaps by taking it. *)
Lemma outside_inv i k fault q p s p' s' ths h w :
  pool_inv (s, ths) h w → ths !! i = Some (q, p) → step k fault p s = Some (p', s') →
  in_write p = false → pool_inv (s', <[i := (q, p')]> ths) h (if in_write p' then Some i else w).
Proof.
  intros [Hd Ho Ha Hc Ht Hh Hr Hl] Hi Hstep Hw. cbn [fst snd] in *. pose proof (Ht i q p Hi) as Hok.
  assert (∀ r, p ≠ Done r) as Hnd by (by intros r ->).
  assert (in_read p = true → (0 < sh_readers s)%nat) as Hpos.
  { intros Hrd. rewrite Hr. pose proof (sum_list_with_ge (λ t : request * pc, b2n (in_read t.2)) ths i _ Hi) as Hge.
    simpl in Hge. rewrite Hrd in Hge. simpl in Hge. lia. }
  assert (in_read p = true → sh_store s = (replay h.*2 init).1) as Hsee.
  { intros Hrd. specialize (Hpos Hrd). destruct w as [j|]; [destruct Hl as (_ & Hz & _); lia|].
    by destruct Hl as [_ <-]. }
  pose proof (thread_ok_step h q k fault p s p' s' Hw Hok Hsee Hstep) as Hok'.
  destruct (outside_step k fault p s p' s' Hw Hpos Hstep) as (Hdisk & Hds & Hrd & Hcase).
  destruct (others_insert s ths i q p p' s' h Hi Hnd Ha Hr Hrd) as (Ha' & Hr' & _).
  assert (w ≠ Some i) as Hwi by (intros ->; by rewrite (proj2 (Hh i q p Hi) eq_refl) in Hw).
  split; cbn [fst snd]; [by rewrite Hds|done|done| | | |done|].
  - intros j q0 r [(-> & -> & ->)|[_ Hj]]%insert_cases Hq0; [|by eapply Hc].
    pose proof (outside_done h q k fault p s r s' Hw Hok Hstep). congruence.
  - intros j q0 p0 [(-> & -> & <-)|[_ Hj]]%insert_cases; [done|by eapply Ht].
  - intros j q0 p0 [(-> & -> & <-)|[Hne Hj]]%insert_cases.
    + destruct (in_write p'); [done|]. split; [done|congruence].
    + rewrite (Hh j q0 p0 Hj). destruct (in_write p'); [|done]. split; [|congruence]. intros ->.
      destruct Hl as [Hl _], Hcase as [Hcw _]. congruence.
  - destruct (in_write p').
    + destruct Hcase as (Hsw & Hsw' & Hsr' & q1 & -> & Hq1 & Hin). simpl in Hok. subst q1.
      split; [done|]. split; [done|]. exists q, p'. split; [by eapply insert_thread|].
      destruct w as [j|]; [destruct Hl; congruence|]. destruct Hl as [_ <-]. done.
    + destruct Hcase as [Hsw Hnew]. destruct w as [j|].
      * destruct Hl as (Hlw & Hlr & q0 & p0 & Hj & Hin). split; [congruence|].
        assert (in_read p = false) as Hrp by (destruct (in_read p); [specialize (Hpos eq_refl); lia|done]).
        assert (in_read p' = false) as Hrp'.
        { destruct (in_read p'); [|done]. rewrite Hnew in Hlw by done. done. }
        rewrite Hrp, Hrp', Hlr in Hrd. split; [simpl in Hrd; lia|]. exists q0, p0.
        rewrite list_lookup_insert_ne by congruence. split; [done|].
        by eapply inside_same.
      * destruct Hl as [Hlw Hrep]. split; [congruence|]. by rewrite Hdisk.
Qed.

Lemma access_inv i k fault q p s p' s' ths h w :
  pool_inv (s, ths) h w → ths !! i = Some (q, p) → step k fault p s = Some (p', s') →
  ∃ ext w', pool_inv (s', <[i := (q, p')]> ths) (h ++ ext) w'.
Proof.
  intros HI Hi Hstep. destruct (in_write p) eqn:Hw.
  - destruct (in_write p') eqn:Hw'.
    + exists [], w. rewrite app_nil_r. by eapply hold_inv.
    + destruct p as [| | | | | | | | | |r| | | | | | |]; try done; cbn [step] in Hstep;
        try (repeat case_match; by simplify_eq).
      injection Hstep as <- <-. destruct (release_inv i q r s ths h w HI Hi) as [ev Hev]. eauto.
  - exists [], (if in_write p' then Some i else w). rewrite app_nil_r. by eapply outside_inv.
Qed.

Lemma pool_steps_inv c c' : rtc pool_step c c' →
  ∀ h w, pool_inv c h w → ∃ ext w', pool_inv c' (h ++ ext) w'.
Proof.
  induction 1 as [c|c c1 c2 Hs _ IH]; intros h w HI; [exists [], w; by rewrite app_nil_r|].
  assert (∃ ext w', pool_inv c1 (h ++ ext) w') as (e1 & w1 & HI1).
  { destruct Hs as [q s ths|i k fault q p s p' s' ths Hi Hst].
    - exists [], w. rewrite app_nil_r. by apply arrive_inv.
    - by eapply access_inv. }
  destruct (IH _ _ HI1) as (e2 & w2 & HI2). exists (e1 ++ e2), w2. by rewrite app_assoc.
Qed.

Lemma start_inv s :
  disk_of s = init → disk_wf (sh_disk s) → sh_writer s = false → sh_readers s = 0%nat →
  pool_inv (s, []) [] None.
Proof. intros <- Hd Hw Hr. split; cbn [fst snd]; try done. apply NoDup_nil_2. Qed.

(** A request that is not finished can always make its next access, or waits for
    another that can. *)
Lemma can_step p s : (∀ r, p ≠ Done r) → in_write p = true ∨ in_read p = true ∨
    (sh_writer s = false ∧ sh_readers s = 0%nat) ∨ (∀ q, p ≠ Start q) →
  is_Some (step 1 None p s).
Proof.
  intros Hnd Hcase. destruct p as [q| | | | | | | | | | | | | | | | |r]; cbn [step];
    try (repeat case_match; by eexists); [|by destruct (Hnd r)].
  destruct Hcase as [?|[?|[[Hw Hr]|Hq]]]; [done|done| |by destruct (Hq q)].
  destruct q; unfold Lock, RLock; rewrite ?Hw; simpl; rewrite ?Hr; by eexists.
Qed.

Lemma pool_inv_moves c h w i q p :
  pool_inv c h w → c.2 !! i = Some (q, p) → (∀ r, p ≠ Done r) →
  ∃ j q' p', c.2 !! j = Some (q', p') ∧ is_Some (step 1 None p' c.1).
Proof.
  intros [_ _ _ _ _ Hh Hr Hl] Hi Hnd. destruct w as [j|].
  - destruct Hl as (_ & _ & q' & p' & Hj & Hin). exists j, q', p'. split; [done|].
    apply inside_not_done in Hin. apply can_step; [by intros r ->|by left].
  - destruct Hl as [Hw _]. destruct (decide (sh_readers c.1 = 0%nat)) as [Hz|Hz].
    + exists i, q, p. split; [done|]. apply can_step; [done|]. right. right. by left.
    + rewrite Hr in Hz. assert (∃ j t, c.2 !! j = Some t ∧ in_read t.2 = true) as (j & [q' p'] & Hj & Hrd).
      { clear -Hz. induction c.2 as [|t l IH]; [done|]. simpl in Hz.
        destruct (in_read t.2) eqn:Ht; [by exists 0%nat, t|]. destruct IH as (j & t' & Hj & Ht'); [done|].
        by exists (S j), t'. }
      exists j, q', p'. split; [done|]. simpl in Hrd. apply can_step; [by intros r ->|by right; left].
Qed.
End history.

(** C8: The chunk store is linearizable for changes: let any number of [StoreChunk],
    [DeleteChunk], [GetChunk] and looking requests arrive and interleave at every
    access to the lock, the table, the counter and the files, with faults of the disk
    at any call.  In every reachable state there is one history of the finished
    changes, which only grows, such that every change gave the answer, and when no
    writer is inside the table, the counter and the files are, what the sequential
    store of [ChunkStore.v] gives after the changes before it; a lookup sees a
    state of that history, and a successful read returns data with the checksum
    recorded in one. *)
Theorem store_linearizable s0 s ths :
  disk_wf (sh_disk s0) → sh_writer s0 = false → sh_readers s0 = 0%nat →
  rtc pool_step (s0, []) (s, ths) →
  ∃ h, linearized (disk_of s0) (s, ths) h ∧
    ∀ c', rtc pool_step (s, ths) c' → ∃ ext, linearized (disk_of s0) c' (h ++ ext).
Proof.
  intros Hd Hw Hr Hreach.
  destruct (pool_steps_inv (disk_of s0) _ _ Hreach _ _ (start_inv _ _ eq_refl Hd Hw Hr)) as (h & w & HI).
  exists h. split; [by eapply pool_inv_linearized|]. intros c' Hlater.
  destruct (pool_steps_inv (disk_of s0) _ _ Hlater _ _ HI) as (ext & w' & HI').
  exists ext. by eapply pool_inv_linearized.
Qed.

(** C12: No deadlock: in every state the pool can reach, whatever failed before, as long
    as some request is unfinished some request can make its next access; every error
    path has released the lock it took. *)
Theorem store_never_stuck s0 s ths i q p :
  disk_wf (sh_disk s0) → sh_writer s0 = false → sh_readers s0 = 0%nat →
  rtc pool_step (s0, []) (s, ths) →
  ths !! i = Some (q, p) → (∀ r, p ≠ Done r) →
  ∃ j q' p', ths !! j = Some (q', p') ∧ is_Some (step 1 None p' s).
Proof.
  intros Hd Hw Hr Hreach Hi Hnd.
  destruct (pool_steps_inv (disk_of s0) _ _ Hreach _ _ (start_inv _ _ eq_refl Hd Hw Hr)) as (h & w & HI).
  exact (pool_inv_moves _ _ h w i q p HI Hi Hnd).
Qed.

(** ** A request by itself *)
Definition access (x y : pc * Shared) : Prop := ∃ k fault, step k fault x.1 x.2 = Some y.

Lemma access_l k fault p s p1 s1 z :
  step k fault p s = Some (p1, s1) → rtc access (p1, s1) z → rtc access (p, s) z.
Proof. intros Hs Hr. eapply rtc_l; [|exact Hr]. by exists k, fault. Qed.

(** A run of one request is a run of the pool. *)
Lemma access_pool i q ths x y :
  rtc access x y → ths !! i = Some (q, x.1) →
  rtc pool_step (x.2, ths) (y.2, <[i := (q, y.1)]> ths).
Proof.
  intros Hr. revert ths. induction Hr as [[p s]|[p s] [p1 s1] z (k & fault & Hs) Hr IH]; intros ths Hi.
  - simpl in *. by rewrite list_insert_id.
  - eapply rtc_l; [by eapply pool_access|]. cbn [fst snd] in *.
    specialize (IH (<[i := (q, p1)]> ths) (insert_thread _ _ _ _ Hi)).
    by rewrite list_insert_insert_eq in IH.
Qed.

Definition unlocked (s : Shared) : Prop :=
  disk_wf (sh_disk s) ∧ sh_writer s = false ∧ sh_readers s = 0%nat.

Definition locked (s : Shared) : Shared := mkShared (sh_store s) (sh_disk s) true (sh_readers s).

Lemma Lock_unlocked s : unlocked s → Lock s = Some (locked s).
Proof. intros (_ & Hw & Hr). unfold Lock, locked. by rewrite Hw, Hr. Qed.

(** The end of a change, from where the lock is released. *)
Lemma unlocking_runs r s : rtc access (Unlocking r, s) (Done r, Unlock s).
Proof. by apply rtc_once; exists 0%nat, None. Qed.

Lemma Unlock_unlocked s : disk_wf (sh_disk s) → sh_readers s = 0%nat → unlocked (Unlock s).
Proof. done. Qed.

(** The file after [n] bytes. *)
Lemma writing_runs n id data s :
  disk_wf (sh_disk s) →
  ∃ ino s', rtc access (StoreOpening id data, s) (StoreWriting id data ino (drop n data), s') ∧
    disk_wf (sh_disk s') ∧ sh_readers s' = sh_readers s ∧
    disk_of s' = (sh_store s, <[chunkPath (sh_store s) id := take n data]> (files (sh_disk s))).
Proof.
  intros Hd. destruct (open_trunc (chunkPath (sh_store s) id) (sh_disk s)) as [ino d] eqn:Ho.
  pose proof (open_trunc_spec _ _ _ _ Hd Ho) as (Hd1 & Hino & Hf).
  assert (∀ z, rtc access (StoreWriting id data ino data, set_files d s) z →
    rtc access (StoreOpening id data, s) z) as Hopen.
  { intros z. apply (access_l 0 None). cbn [step]. by rewrite Ho. }
  exists ino. destruct n as [|n].
  { exists (set_files d s). split; [by apply Hopen|]. split; [done|]. split; [done|].
    unfold disk_of. cbn [set_files sh_store sh_disk]. by rewrite Hf. }
  destruct data as [|b data].
  { exists (set_files d s). split; [by apply Hopen|]. split; [done|]. split; [done|].
    unfold disk_of. cbn [set_files sh_store sh_disk]. by rewrite Hf. }
  pose proof (append_spec _ ino (take (S n) (b :: data)) [] d Hd1 Hino) as [Hd2 Hf2].
  { by rewrite Hf, lookup_insert_eq. }
  eexists. split; [apply Hopen; by eapply (access_l (S n) None); [reflexivity|]|].
  split; [exact Hd2|]. split; [done|]. unfold disk_of. cbn [set_files sh_store sh_disk].
  cbn [Nat.max]. by rewrite Hf2, Hf, insert_insert_eq.
Qed.

(** The four ways a [StoreChunk] can go, one for each plan. *)
Lemma StoreChunk_runs plan id data exp s :
  unlocked s →
  ∃ s', rtc access (Start (ReqStore id data exp), s)
          (Done (ResUnit (StoreChunk plan id data exp (disk_of s)).1), s') ∧
    disk_of s' = (StoreChunk plan id data exp (disk_of s)).2 ∧ unlocked s'.
Proof.
  intros Hun. pose proof Hun as (Hd & Hw & Hr). change (disk_of s) with (sh_store s, files (sh_disk s)).
  set (s1 := locked s). rewrite StoreChunk_cases.
  assert (∀ z, rtc access (StoreLocked id data exp, s1) z → rtc access (Start (ReqStore id data exp), s) z)
    as Hstart.
  { intros z. apply (access_l 0 None). cbn [step]. by rewrite Lock_unlocked. }
  assert (step 0 None (StoreLocked id data exp) s1 = _) as Hcheck by (cbn [step]; reflexivity).
  case_decide as Hbad; rewrite ?(decide_True _ _ Hbad), ?(decide_False _ _ Hbad) in Hcheck.
  { exists (Unlock s1). split; [|split; [done|by apply Unlock_unlocked]]. apply Hstart.
    eapply (access_l 0 None); [exact Hcheck|apply unlocking_runs]. }
  assert (∀ z, rtc access (StoreOpening id data, s1) z → rtc access (Start (ReqStore id data exp), s) z)
    as Hopening by (intros z Hz; apply Hstart; by eapply access_l).
  destruct plan as [|e|n e]; cbn [fst snd].
  - destruct (writing_runs (length data) id data s1 Hd) as (ino & s2 & Hrun & Hd2 & Hr2 & Hs2).
    rewrite drop_all, take_ge in * by done. injection Hs2 as Hcs Hfs.
    set (s3 := set_store (put_entry (new_entry id data (sh_store s2)) (sh_store s2)) s2).
    set (s4 := set_store (add_used (data_size data) (sh_store s3)) s3).
    exists (Unlock s4). split; [|split].
    + apply Hopening. etrans; [exact Hrun|]. do 3 (eapply (access_l 0 None); [reflexivity|]).
      apply unlocking_runs.
    + unfold disk_of. cbn [Unlock s4 s3 set_store sh_store sh_disk]. by rewrite Hcs, Hfs.
    + apply Unlock_unlocked; [done|exact (eq_trans Hr2 Hr)].
  - exists (Unlock s1). split; [|split; [done|by apply Unlock_unlocked]]. apply Hopening.
    eapply (access_l 0 (Some e)); [reflexivity|apply unlocking_runs].
  - destruct (writing_runs n id data s1 Hd) as (ino & s2 & Hrun & Hd2 & Hr2 & Hs2).
    exists (Unlock s2). split; [|split; [exact Hs2|]].
    + apply Hopening. etrans; [exact Hrun|]. eapply (access_l 0 (Some e)); [|apply unlocking_runs].
      cbn [step]. by destruct (drop n data).
    + apply Unlock_unlocked; [done|exact (eq_trans Hr2 Hr)].
Qed.

Lemma DeleteChunk_runs fault id s :
  unlocked s →
  ∃ s', rtc access (Start (ReqDelete id), s)
          (Done (ResUnit (DeleteChunk fault id (disk_of s)).1), s') ∧
    disk_of s' = (DeleteChunk fault id (disk_of s)).2 ∧ unlocked s'.
Proof.
  intros Hun. pose proof Hun as (Hd & Hw & Hr). change (disk_of s) with (sh_store s, files (sh_disk s)).
  set (s1 := locked s).
  assert (∀ z, rtc access (DeleteLocked id, s1) z → rtc access (Start (ReqDelete id), s) z) as Hstart.
  { intros z. apply (access_l 0 None). cbn [step]. by rewrite Lock_unlocked. }
  destruct (cs_chunks (sh_store s) !! id) as [m|] eqn:Hm.
  2: { exists (Unlock s1). unfold DeleteChunk. rewrite Hm. split; [|split; [done|by apply Unlock_unlocked]].
       apply Hstart. eapply (access_l 0 None); [|apply unlocking_runs]. cbn [step locked sh_store s1]. by rewrite Hm. }
  assert (∀ z, rtc access (DeleteRemoving id m, s1) z → rtc access (Start (ReqDelete id), s) z) as Hrem.
  { intros z Hz. apply Hstart. eapply (access_l 0 None); [|exact Hz]. cbn [step locked sh_store s1]. by rewrite Hm. }
  destruct fault as [e|].
  - exists (Unlock s1). unfold DeleteChunk. rewrite Hm. split; [|split; [done|by apply Unlock_unlocked]].
    apply Hrem. eapply (access_l 0 (Some e)); [reflexivity|apply unlocking_runs].
  - rewrite (DeleteChunk_removed id m) by done.
    destruct (unlink_spec (sc_FilePath m) (sh_disk s) Hd) as [Hd2 Hf].
    set (s2 := set_store (drop_entry id (add_used (int64 (- sc_Size m)) (sh_store s)))
      (set_files (unlink (sc_FilePath m) (sh_disk s)) s1)).
    exists (Unlock s2). split; [|split; [|by apply Unlock_unlocked]].
    + apply Hrem. do 3 (eapply (access_l 0 None); [reflexivity|]). apply unlocking_runs.
    + unfold disk_of. cbn [Unlock s2 set_store set_files sh_store sh_disk]. by rewrite Hf.
Qed.

Definition rlocked (s : Shared) : Shared :=
  mkShared (sh_store s) (sh_disk s) (sh_writer s) (S (sh_readers s)).

Lemma RLock_unlocked s : sh_writer s = false → RLock s = Some (rlocked s).
Proof. intros Hw. unfold RLock, rlocked. by rewrite Hw. Qed.

Lemma RUnlock_rlocked s : RUnlock (rlocked s) = s.
Proof. by destruct s. Qed.

(** [GetChunk] up to where it has released the lock. *)
Lemma GetChunk_looks id s :
  sh_writer s = false →
  rtc access (Start (ReqGet id), s)
    (match cs_chunks (sh_store s) !! id with
     | None => Done (ResData (Err ("chunk not found: " +:+ id)))
     | Some m => GetOpening id m
     end, s).
Proof.
  intros Hw. eapply (access_l 0 None); [cbn [step]; by rewrite RLock_unlocked|].
  eapply (access_l 0 None); [reflexivity|]. eapply (access_l 0 None); [reflexivity|].
  rewrite RUnlock_rlocked. apply rtc_refl.
Qed.

(** Opening and reading a file that nobody writes to meanwhile. *)
Lemma GetChunk_reads id m data s :
  files (sh_disk s) !! sc_FilePath m = Some data →
  rtc access (GetOpening id m, s) (Done (ResData (verified id m data)), s).
Proof.
  rewrite files_lookup. intros (ino & Hino & Hdata)%bind_Some.
  eapply (access_l 0 None); [cbn [step]; by rewrite Hino|].
  destruct data as [|b data].
  - eapply (access_l 0 None); [cbn [step]; by rewrite Hdata|apply rtc_refl].
  - eapply (access_l (length (b :: data)) None); [cbn [step]; by rewrite Hdata|].
    eapply (access_l 0 None); [|apply rtc_refl].
    cbn [step app length drop Nat.max]. rewrite take_ge by (simpl; lia). by rewrite Hdata, drop_all.
Qed.

Lemma GetChunk_runs fault id s :
  unlocked s →
  rtc access (Start (ReqGet id), s) (Done (ResData (GetChunk fault id (disk_of s))), s).
Proof.
  intros (Hd & Hw & _). etrans; [by apply GetChunk_looks|]. unfold GetChunk, disk_of.
  destruct (cs_chunks (sh_store s) !! id) as [m|]; [|apply rtc_refl].
  unfold ReadFile, Open. destruct fault as [e|].
  { eapply (access_l 0 (Some e)); [reflexivity|]. cbn [go_wrap go_bind].
    rewrite <- !string_app_assoc. apply rtc_refl. }
  destruct (files (sh_disk s) !! sc_FilePath m) as [data|] eqn:Hf.
  - by apply GetChunk_reads.
  - eapply (access_l 0 None); [|apply rtc_refl]. cbn [step].
    rewrite (proj1 (files_None _ _ Hd) Hf). cbn [go_wrap go_bind]. by rewrite <- !string_app_assoc.
Qed.

Lemma look_runs q s : unlocked s → looks q = true → rtc access (Start q, s) (Done (look q (sh_store s)), s).
Proof.
  intros (_ & Hw & _) Hq. eapply (access_l 0 None _ _ (Looking q) (rlocked s)).
  { destruct q; try done; cbn [step]; rewrite RLock_unlocked by done; reflexivity. }
  eapply (access_l 0 None); [reflexivity|]. eapply (access_l 0 None); [reflexivity|].
  rewrite RUnlock_rlocked. destruct q; try done; apply rtc_refl.
Qed.

(** What the methods of [ChunkStore.v] answer, for one choice of what the disk does. *)
Definition alone (plan : write_plan) (fault : option string) (q : request) (ds : disk_state)
    : response * disk_state :=
  match q with
  | ReqStore id data exp => let '(r, ds') := StoreChunk plan id data exp ds in (ResUnit r, ds')
  | ReqDelete id => let '(r, ds') := DeleteChunk fault id ds in (ResUnit r, ds')
  | ReqGet id => (ResData (GetChunk fault id ds), ds)
  | q => (look q ds.1, ds)
  end.

(** C13: Without interference a method of the store, run access by access, is the one of
    [ChunkStore.v]: whatever the disk does there, there is a run of the request that
    ends, with that answer and that state, and with the lock free. *)
Theorem request_alone plan fault q s :
  unlocked s →
  ∃ s', rtc pool_step (s, [(q, Start q)]) (s', [(q, Done (alone plan fault q (disk_of s)).1)]) ∧
    disk_of s' = (alone plan fault q (disk_of s)).2 ∧ unlocked s'.
Proof.
  intros Hs.
  assert (∀ r s', rtc access (Start q, s) (Done r, s') → rtc pool_step (s, [(q, Start q)]) (s', [(q, Done r)]))
    as Hpool by (intros r s' Hrun; by apply (access_pool 0 q [(q, Start q)]) in Hrun).
  destruct q as [id data exp|id|id|id| |ord|]; unfold alone.
  - destruct (StoreChunk_runs plan id data exp s Hs) as (s' & Hrun & Hds & Hu).
    destruct (StoreChunk plan id data exp (disk_of s)). exists s'. split; [by apply Hpool|done].
  - exists s. split; [by apply Hpool, GetChunk_runs|done].
  - destruct (DeleteChunk_runs fault id s Hs) as (s' & Hrun & Hds & Hu).
    destruct (DeleteChunk fault id (disk_of s)). exists s'. split; [by apply Hpool|done].
  - exists s. split; [by apply Hpool, look_runs|done].
  - exists s. split; [by apply Hpool, look_runs|done].
  - exists s. split; [by apply Hpool, look_runs|done].
  - exists s. split; [|done]. apply Hpool, rtc_once. by exists 0%nat, None.
Qed.

(** C19: Reading an overwritten chunk reports corruption that is not there: when a chunk
    that is intact is stored again with other content while a read of it is under
    way, there is an interleaving in which the store succeeds and the read answers
    that the chunk is corrupted on disk, although it can be read before and after. *)
Theorem read_during_overwrite id old new sum s :
  unlocked s → store_wf (sh_store s) →
  GetChunk None id (disk_of s) = Ok (old, sum) → DataChecksum new ≠ sum →
  ∃ s', rtc pool_step (s, [(ReqGet id, Start (ReqGet id)); (ReqStore id new "", Start (ReqStore id new ""))])
      (s', [(ReqGet id, Done (ResData (Err ("chunk " +:+ id +:+ " corrupted on disk"))));
            (ReqStore id new "", Done (ResUnit (Ok tt)))]) ∧
    GetChunk None id (disk_of s') = Ok (new, DataChecksum new).
Proof.
  intros Hs Hwf Hold Hnew. pose proof (GetChunk_checked None id (sh_store s) (files (sh_disk s))) as Hc.
  fold (disk_of s) in Hc. rewrite Hold in Hc. destruct Hc as (m & Hm & _ & -> & _).
  destruct (Hwf id m Hm) as (_ & Hid & Hpath).
  pose proof (GetChunk_looks id s (proj1 (proj2 Hs))) as Hlook. rewrite Hm in Hlook.
  destruct (StoreChunk_runs WriteOk id new "" s Hs) as (s' & Hrun & Hds & Hu).
  destruct (StoreChunk_stored (sh_store s) (files (sh_disk s)) id new "" Hwf Hid)
    as (cs' & fs' & Hst & Hget & _).
  change (disk_of s) with (sh_store s, files (sh_disk s)) in Hrun, Hds.
  rewrite StoreChunk_cases, decide_False in Hst, Hrun, Hds by naive_solver.
  cbn [fst snd] in Hrun, Hds. exists s'. split; [|rewrite Hds; injection Hst as <- <-; exact Hget].
  assert (files (sh_disk s') !! sc_FilePath m = Some new) as Hf.
  { rewrite Hpath. injection Hds as _ ->. apply lookup_insert_eq. }
  pose proof (GetChunk_reads id m new s' Hf) as Hread. unfold verified in Hread.
  rewrite decide_True in Hread by done.
  etrans; [exact (access_pool 0 (ReqGet id) [_; _] _ _ Hlook eq_refl)|].
  etrans; [exact (access_pool 1 (ReqStore id new "") [_; _] _ _ Hrun eq_refl)|].
  exact (access_pool 0 (ReqGet id) [_; _] _ _ Hread eq_refl).
Qed.

(** ** Concrete runs *)
Section witnesses.
Definition demo_shared : Shared :=
  mkShared demo_disk.1 (mkDisk {[chunkPath demo_store "c1" := 7%nat]} {[7%nat := demo_bytes]}) false 0.

Lemma demo_shared_unlocked : unlocked demo_shared.
Proof.
  split; [|done]. split; cbn [demo_shared sh_disk dk_names dk_inodes].
  - intros p ino [<- <-]%lookup_singleton_Some. rewrite lookup_singleton_eq. by eexists.
  - intros p q ino [<- _]%lookup_singleton_Some [<- _]%lookup_singleton_Some. done.
Qed.

(** A chunk is stored again while it is read, and a delete waits for the store. *)
Definition demo_requests : list request := [ReqGet "c1"; ReqStore "c1" (bytes_of_string "bye") ""; ReqDelete "c1"].
Definition demo_pool : pool := (demo_shared, (λ q, (q, Start q)) <$> demo_requests).
Definition demo_schedule : list (nat * (nat * option string)) :=
  (λ i, (i, (2%nat, None))) <$>
    [0; 0; 1; 0; 1; 2; 1; 1; 0; 0; 1; 0; 1; 2; 1; 1; 0; 1; 1; 1; 2; 2; 2; 2; 2; 2; 2; 0; 0]%nat.
Definition demo_run : pool := schedule demo_schedule demo_pool.

Lemma store_demo_reach : rtc pool_step (demo_shared, []) demo_run.
Proof.
  etrans; [|apply store_schedule_steps].
  eapply rtc_l; [apply (pool_arrive (ReqGet "c1") demo_shared [])|].
  eapply rtc_l; [apply pool_arrive|]. eapply rtc_l; [apply pool_arrive|]. apply rtc_refl.
Qed.

Lemma store_linearizable_witness :
  snd <$> demo_run.2 = [Done (ResData (Err "chunk c1 corrupted on disk"));
                        Done (ResUnit (Ok tt)); Done (ResUnit (Ok tt))] ∧
  ∃ h, linearized (disk_of demo_shared) demo_run h ∧ (1%nat ∈ h.*1) ∧ (2%nat ∈ h.*1).
Proof.
  assert (snd <$> demo_run.2 = [Done (ResData (Err "chunk c1 corrupted on disk"));
    Done (ResUnit (Ok tt)); Done (ResUnit (Ok tt))]) as Hrun by (vm_compute; reflexivity).
  split; [exact Hrun|]. pose proof store_demo_reach as Hr. rewrite (surjective_pairing demo_run) in Hr.
  destruct demo_shared_unlocked as (Hd & Hw & Hn).
  destruct (store_linearizable demo_shared demo_run.1 demo_run.2 Hd Hw Hn Hr) as (h & Hh & _).
  rewrite <- surjective_pairing in Hh. exists h. split; [exact Hh|].
  split; (eapply (li_changes _ _ _ Hh); [vm_compute; reflexivity|reflexivity]).
Defined.

Lemma store_never_stuck_witness :
  ∃ j q p, (schedule (take 6 demo_schedule) demo_pool).2 !! j = Some (q, p) ∧
    is_Some (step 1 None p (schedule (take 6 demo_schedule) demo_pool).1).
Proof.
  assert (rtc pool_step (demo_shared, []) (schedule (take 6 demo_schedule) demo_pool)) as Hr.
  { etrans; [|apply store_schedule_steps].
    eapply rtc_l; [apply (pool_arrive (ReqGet "c1") demo_shared [])|].
    eapply rtc_l; [apply pool_arrive|]. eapply rtc_l; [apply pool_arrive|]. apply rtc_refl. }
  rewrite (surjective_pairing (schedule _ _)) in Hr. destruct demo_shared_unlocked as (Hd & Hw & Hn).
  apply (store_never_stuck demo_shared _ _ 2 (ReqDelete "c1") (Start (ReqDelete "c1")) Hd Hw Hn Hr).
  - vm_compute. reflexivity.
  - intros r. discriminate.
Defined.

Lemma request_alone_witness :
  ∃ s', rtc pool_step (demo_shared, [(ReqStore "c2" demo_bytes "", Start (ReqStore "c2" demo_bytes ""))])
      (s', [(ReqStore "c2" demo_bytes "", Done (ResUnit (Err "write chunk c2: no space")))]) ∧
    files (sh_disk s') !! chunkPath demo_store "c2" = Some (bytes_of_string "hel") ∧ unlocked s'.
Proof.
  destruct (request_alone (WritePartial 3 "no space") None (ReqStore "c2" demo_bytes "") demo_shared
    demo_shared_unlocked) as (s' & Hrun & Hds & Hu).
  exists s'. split; [exact Hrun|]. split; [|exact Hu].
  apply (f_equal snd) in Hds. cbn [disk_of snd] in Hds. rewrite Hds. vm_compute. reflexivity.
Defined.

Lemma read_during_overwrite_witness :
  ∃ s', rtc pool_step (demo_shared, [(ReqGet "c1", Start (ReqGet "c1"));
      (ReqStore "c1" (bytes_of_string "bye") "", Start (ReqStore "c1" (bytes_of_string "bye") ""))])
    (s', [(ReqGet "c1", Done (ResData (Err "chunk c1 corrupted on disk")));
          (ReqStore "c1" (bytes_of_string "bye") "", Done (ResUnit (Ok tt)))]).
Proof.
  destruct (read_during_overwrite "c1" demo_bytes (bytes_of_string "bye") (DataChecksum demo_bytes) demo_shared
    demo_shared_unlocked demo_disk_wf) as (s' & Hrun & _).
  - vm_compute. reflexivity.
  - apply (bool_decide_unpack (¬ _)). vm_compute. exact I.
  - exists s'. exact Hrun.
Defined.
End witnesses.
