(* ===== verification/HealthCollector.v ===== *)
(** * internal/datanode/health.go and admin.go: metrics of a data node

    The collector simulates a disk: it adds jitter to base values and, while a
    degradation is running, worsens the base values at every collection.  The
    random numbers and the run-time's memory statistics are arguments. *)
From S2P Require Export Common.
Local Open Scope Z_scope.

(** ** Data *)
Record HealthCollector := mkHealthCollector {
  hc_diskIOLatency : float64;
  hc_diskUtil : float64;
  hc_errorCount : Z;
  hc_responseTime : float64;
  hc_cpuUsage : float64;
  hc_memoryUsage : float64;
  hc_degrading : bool;
  hc_degradeSpeed : float64;
  hc_degradeStarted : Time;
}.

Record Metrics := mkMetrics {
  mt_DiskIOLatency : float64;
  mt_DiskUtil : float64;
  mt_ErrorCount : Z;
  mt_ResponseTime : float64;
  mt_CPUUsage : float64;
  mt_MemoryUsage : float64;
  mt_Timestamp : Time;
}.

(** [rand.Float64()]: the draws of one call, in order. *)
Definition draws : Type := nat → float64.

(** What [runtime.ReadMemStats] reports. *)
Record MemStats := mkMemStats { mem_Alloc : Z; mem_Sys : Z }.

(** The zero value of [time.Time] of a field that was never set. *)
Definition zero_time : Time := 0.

(** ** Operations *)
Definition NewHealthCollector (rnd : draws) : HealthCollector :=
  mkHealthCollector
    (f64_one + rnd 0%nat * f64_of_Z 2)%float
    (f64_const 1 10 + rnd 1%nat * f64_const 2 10)%float
    0
    (f64_const 5 10 + rnd 2%nat * f64_one)%float
    (f64_const 5 100 + rnd 3%nat * f64_const 15 100)%float
    (f64_const 2 10 + rnd 4%nat * f64_const 1 10)%float
    false f64_zero zero_time.

Definition clamp (v lo hi : float64) : float64 :=
  if f64_ltb v lo then lo else if f64_gtb v hi then hi else v.

(** The closure [jitter] of [Collect], with its draw. *)
Definition jitter (draw base amount : float64) : float64 :=
  let v := (base + (draw - f64_const 5 10) * amount)%float in
  if f64_ltb v f64_zero then f64_zero else v.

(** [if v > 0.99 { v = 0.99 }] *)
Definition cap99 (v : float64) : float64 :=
  if f64_gtb v (f64_const 99 100) then f64_const 99 100 else v.

(** The degradation branch of [Collect]. *)
Definition degrade (now : Time) (hc : HealthCollector) : HealthCollector :=
  let elapsed := Seconds (Since now (hc_degradeStarted hc)) in
  let factor := (elapsed * hc_degradeSpeed hc)%float in
  mkHealthCollector
    (hc_diskIOLatency hc + factor * f64_const 8 10)%float
    (cap99 (hc_diskUtil hc + factor * f64_const 5 1000)%float)
    (int64 (hc_errorCount hc + f64_to_int64 (factor * f64_one)%float))
    (hc_responseTime hc + factor * f64_const 5 10)%float
    (cap99 (hc_cpuUsage hc + factor * f64_const 5 1000)%float)
    (cap99 (hc_memoryUsage hc + factor * f64_const 3 1000)%float)
    (hc_degrading hc) (hc_degradeSpeed hc) (hc_degradeStarted hc).

Definition Collect (now : Time) (rnd : draws) (mem : MemStats) (hc : HealthCollector)
    : Metrics * HealthCollector :=
  let hc := if hc_degrading hc then degrade now hc else hc in
  let realMemUsage := (f64_of_Z (mem_Alloc mem) / f64_of_Z (mem_Sys mem))%float in
  let realMemUsage := if f64_gtb realMemUsage f64_one then f64_one else realMemUsage in
  (mkMetrics
     (jitter (rnd 0%nat) (hc_diskIOLatency hc) f64_one)
     (clamp (jitter (rnd 1%nat) (hc_diskUtil hc) (f64_const 5 100)) f64_zero f64_one)
     (hc_errorCount hc)
     (jitter (rnd 2%nat) (hc_responseTime hc) (f64_const 5 10))
     (clamp (jitter (rnd 3%nat) (hc_cpuUsage hc) (f64_const 5 100)) f64_zero f64_one)
     (clamp (jitter (rnd 4%nat) (hc_memoryUsage hc) (f64_const 3 100)
             + realMemUsage * f64_const 1 10)%float f64_zero f64_one)
     now, hc).

Definition StartDegradation (now : Time) (speed : float64) (hc : HealthCollector)
    : HealthCollector :=
  mkHealthCollector (hc_diskIOLatency hc) (hc_diskUtil hc) (hc_errorCount hc)
    (hc_responseTime hc) (hc_cpuUsage hc) (hc_memoryUsage hc) true speed now.

Definition StopDegradation (hc : HealthCollector) : HealthCollector :=
  mkHealthCollector (hc_diskIOLatency hc) (hc_diskUtil hc) (hc_errorCount hc)
    (hc_responseTime hc) (hc_cpuUsage hc) (hc_memoryUsage hc) false (hc_degradeSpeed hc)
    (hc_degradeStarted hc).

Definition IsDegrading (hc : HealthCollector) : bool := hc_degrading hc.

(** ** The admin endpoints

    A request is its method and the query parameter [speed] ("" when absent), a
    reply its status code and the fields of the JSON object or the error text.
    [ParseFloat] is [strconv.ParseFloat(_, 64)]. *)
Inductive json := JStr (s : string) | JNum (f : float64) | JInt (z : Z) | JBool (b : bool).

Inductive http_reply :=
  | HttpError (text : string) (code : Z)
  | HttpJSON (fields : list (string * json)).

Section admin.
Variable ParseFloat : string → go float64.

Definition handleDegrade (now : Time) (nodeID method speedStr : string) (hc : HealthCollector)
    : http_reply * HealthCollector :=
  if decide (method ≠ "POST") then (HttpError "POST only" 405, hc)
  else
    let speed :=
      if decide (speedStr ≠ "") then ParseFloat speedStr else Ok (f64_const 1 10) in
    match speed with
    | Ok speed =>
        (HttpJSON [("status", JStr "degrading"); ("node_id", JStr nodeID); ("speed", JNum speed);
                   ("message", JStr "Disk degradation simulation started")],
         StartDegradation now speed hc)
    | _ => (HttpError "invalid speed parameter" 400, hc)
    end.
End admin.

Definition handleRecover (nodeID method : string) (hc : HealthCollector)
    : http_reply * HealthCollector :=
  if decide (method ≠ "POST") then (HttpError "POST only" 405, hc)
  else
    (HttpJSON [("status", JStr "recovered"); ("node_id", JStr nodeID);
               ("message", JStr "Degradation simulation stopped")], StopDegradation hc).

Definition percent1 (f : float64) : string := fmt_f false 1 (f * f64_of_Z 100)%float +:+ "%".

Definition handleStatus (now : Time) (rnd : draws) (mem : MemStats) (nodeID : string)
    (hc : HealthCollector) : http_reply * HealthCollector :=
  let '(metrics, hc) := Collect now rnd mem hc in
  (HttpJSON
     [("node_id", JStr nodeID); ("degrading", JBool (IsDegrading hc));
      ("disk_io_latency", JStr (fmt_f false 2 (mt_DiskIOLatency metrics) +:+ " ms"));
      ("disk_utilization", JStr (percent1 (mt_DiskUtil metrics)));
      ("error_count", JInt (mt_ErrorCount metrics));
      ("response_time", JStr (fmt_f false 2 (mt_ResponseTime metrics) +:+ " ms"));
      ("cpu_usage", JStr (percent1 (mt_CPUUsage metrics)));
      ("memory_usage", JStr (percent1 (mt_MemoryUsage metrics)))], hc).

(** ** Properties *)
Definition fraction_or_nan (f : float64) : Prop :=
  is_nan f = true ∨ (f64_leb f64_zero f = true ∧ f64_leb f f64_one = true).

Definition nonneg_or_nan (f : float64) : Prop := is_nan f = true ∨ f64_leb f64_zero f = true.

Lemma clamp_fraction v : fraction_or_nan (clamp v f64_zero f64_one).
Proof.
  unfold clamp, fraction_or_nan. destruct (f64_ltb v f64_zero) eqn:H0; [right; by split|].
  destruct (f64_gtb v f64_one) eqn:H1; [right; split; reflexivity|].
  change (f64_ltb f64_one v = false) in H1.
  destruct (is_nan v) eqn:Hv; [by left|]. right. rewrite !f64_leb_ltb by done. by rewrite H0, H1.
Qed.

Lemma jitter_nonneg d b a : nonneg_or_nan (jitter d b a).
Proof.
  unfold jitter, nonneg_or_nan. set (v := f64_add b _).
  destruct (f64_ltb v f64_zero) eqn:H0; [by right|].
  destruct (is_nan v) eqn:Hv; [by left|]. right. rewrite f64_leb_ltb by done. by rewrite H0.
Qed.

Lemma cap99_bound v : f64_ltb (f64_const 99 100) (cap99 v) = false.
Proof.
  unfold cap99, f64_gtb. change (SFltb (f64_const 99 100) v) with (f64_ltb (f64_const 99 100) v).
  destruct (f64_ltb (f64_const 99 100) v) eqn:H; [apply f64_ltb_irrefl|exact H].
Qed.

(** Collected metrics stay in range whatever the random draws and however far a
    degradation has gone: utilisations are in [0, 1] and latencies non-negative
    (or NaN), the error count is the collector's; without a degradation a
    collection changes nothing, with one the stored utilisations never exceed
    0.99. *)
Theorem Collect_in_range now rnd mem hc :
  let '(m, hc') := Collect now rnd mem hc in
  fraction_or_nan (mt_DiskUtil m) ∧ fraction_or_nan (mt_CPUUsage m) ∧
  fraction_or_nan (mt_MemoryUsage m) ∧
  nonneg_or_nan (mt_DiskIOLatency m) ∧ nonneg_or_nan (mt_ResponseTime m) ∧
  mt_ErrorCount m = hc_errorCount hc' ∧ mt_Timestamp m = now ∧
  (hc_degrading hc = false → hc' = hc) ∧
  (hc_degrading hc = true →
     f64_ltb (f64_const 99 100) (hc_diskUtil hc') = false ∧
     f64_ltb (f64_const 99 100) (hc_cpuUsage hc') = false ∧
     f64_ltb (f64_const 99 100) (hc_memoryUsage hc') = false ∧
     in_int64 (hc_errorCount hc')).
Proof.
  unfold Collect. cbn [mt_DiskUtil mt_CPUUsage mt_MemoryUsage mt_DiskIOLatency mt_ResponseTime
    mt_ErrorCount mt_Timestamp].
  do 3 (split; [apply clamp_fraction|]). do 2 (split; [apply jitter_nonneg|]).
  split; [done|]. split; [done|]. split; [by intros ->|]. intros ->. unfold degrade.
  cbn [hc_diskUtil hc_cpuUsage hc_memoryUsage hc_errorCount].
  do 3 (split; [apply cap99_bound|]). apply int64_range.
Qed.

(** The admin endpoints: starting or stopping a degradation needs POST and, for
    the start, a speed that parses; every refused request leaves the collector
    unchanged, and after an accepted start or stop [IsDegrading] answers
    accordingly with all metrics untouched. *)
Theorem admin_degradation ParseFloat now nodeID method speedStr hc :
  (let '(reply, hc') := handleDegrade ParseFloat now nodeID method speedStr hc in
   match reply with
   | HttpError _ _ => hc' = hc
   | HttpJSON _ => method = "POST" ∧ IsDegrading hc' = true ∧ hc_degradeStarted hc' = now ∧
       hc_diskUtil hc' = hc_diskUtil hc ∧ hc_errorCount hc' = hc_errorCount hc ∧
       (speedStr = "" ∧ hc_degradeSpeed hc' = f64_const 1 10 ∨
        ParseFloat speedStr = Ok (hc_degradeSpeed hc'))
   end) ∧
  (let '(reply, hc') := handleRecover nodeID method hc in
   match reply with
   | HttpError _ _ => hc' = hc ∧ method ≠ "POST"
   | HttpJSON _ => method = "POST" ∧ IsDegrading hc' = false ∧
       hc_diskUtil hc' = hc_diskUtil hc ∧ hc_errorCount hc' = hc_errorCount hc
   end).
Proof.
  unfold handleDegrade, handleRecover. split.
  - case_decide as Hm; [done|]. case_decide as Hs.
    + destruct (ParseFloat speedStr) as [speed|e|w] eqn:Hp; simpl; [|done..].
      split; [done|]. do 4 (split; [done|]). by right.
    + simpl. split; [done|]. do 4 (split; [done|]). by left.
  - case_decide as Hm; [done|]. simpl. done.
Qed.
