(* ===== verification/DataNode.v ===== *)
(** * internal/datanode/server.go: the data node's service

    The handlers of the gRPC service and the calls the node makes to the metadata
    server.  A handler never returns a gRPC error: failures travel in the
    response.  The network is a state [W]; [dial] is [grpc.NewClient]. *)
From S2P Require Export ChunkStore HealthCollector Messages.
Local Open Scope Z_scope.

(** [Server] without the gRPC object. *)
Record DataServer := mkDataServer {
  dsv_disk : disk_state;
  dsv_health : HealthCollector;
  dsv_nodeID : string;
  dsv_address : string;
  dsv_port : Z;
  dsv_adminPort : Z;
  dsv_metaAddr : string;
  dsv_capacity : Z;
}.

Definition set_disk (d : disk_state) (s : DataServer) : DataServer :=
  mkDataServer d (dsv_health s) (dsv_nodeID s) (dsv_address s) (dsv_port s) (dsv_adminPort s)
    (dsv_metaAddr s) (dsv_capacity s).
Definition set_health (h : HealthCollector) (s : DataServer) : DataServer :=
  mkDataServer (dsv_disk s) h (dsv_nodeID s) (dsv_address s) (dsv_port s) (dsv_adminPort s)
    (dsv_metaAddr s) (dsv_capacity s).
Definition set_nodeID (n : string) (s : DataServer) : DataServer :=
  mkDataServer (dsv_disk s) (dsv_health s) n (dsv_address s) (dsv_port s) (dsv_adminPort s)
    (dsv_metaAddr s) (dsv_capacity s).

Definition health_metrics (nodeID : string) (m : Metrics) : HealthMetrics :=
  mkHealthMetrics nodeID (mt_DiskIOLatency m) (mt_DiskUtil m) (mt_ErrorCount m)
    (mt_ResponseTime m) (mt_CPUUsage m) (mt_MemoryUsage m) (UnixMilli (mt_Timestamp m)).

Module Server.

Definition NewServer (fs : FileSys) (port adminPort : Z) (metaAddr dataDir : string)
    (capacity : Z) (advertiseAddr : string) (mkdir_fault : option string)
    (listing : go (list DirEnt)) (faults : string → option string) (rnd : draws)
    : go DataServer :=
  let! store := go_wrap "create chunk store: "
                  (NewChunkStore fs dataDir mkdir_fault listing faults) in
  let addr :=
    if decide (advertiseAddr = "") then "localhost:" +:+ fmt_d port else advertiseAddr in
  Ok (mkDataServer (store, fs) (NewHealthCollector rnd) "" addr port adminPort metaAddr capacity).

(** ** The service *)
Definition StoreChunk (plan : write_plan) (req : StoreChunkRequest)
    : gos disk_state StoreChunkResponse := λ d,
  match ChunkStore.StoreChunk plan (StoreChunkRequest_ChunkId req) (StoreChunkRequest_Data req)
          (StoreChunkRequest_Checksum req) d with
  | (Err e, d') => (Ok (mkStoreChunkResponse false e), d')
  | (Panic w, d') => (Panic w, d')
  | (Ok _, d') => (Ok (mkStoreChunkResponse true "chunk stored"), d')
  end.

Definition GetChunk (fault : option string) (req : GetChunkRequest) (d : disk_state)
    : go GetChunkResponse :=
  match ChunkStore.GetChunk fault (GetChunkRequest_ChunkId req) d with
  | Err _ => Ok (mkGetChunkResponse false [] "")
  | Panic w => Panic w
  | Ok (data, checksum) => Ok (mkGetChunkResponse true data checksum)
  end.

Definition DeleteChunk (fault : option string) (req : DeleteChunkRequest)
    : gos disk_state DeleteChunkResponse := λ d,
  match ChunkStore.DeleteChunk fault (DeleteChunkRequest_ChunkId req) d with
  | (Err e, d') => (Ok (mkDeleteChunkResponse false e), d')
  | (Panic w, d') => (Panic w, d')
  | (Ok _, d') => (Ok (mkDeleteChunkResponse true "chunk deleted"), d')
  end.

Definition GetHealth (now : Time) (rnd : draws) (mem : MemStats) (s : DataServer)
    : GetHealthResponse * DataServer :=
  let '(metrics, h) := Collect now rnd mem (dsv_health s) in
  (mkGetHealthResponse (Some (health_metrics (dsv_nodeID s) metrics)), set_health h s).

Section network.
Context {W : Type}.
Variable dial : string → W → go unit.

(** [TransferChunk] reads locally and stores at the target; [d] is the node's own
    disk, which it only reads. *)
Definition TransferChunk (call_StoreChunk : string → StoreChunkRequest → gos W StoreChunkResponse)
    (fault : option string) (req : TransferChunkRequest) (d : disk_state)
    : gos W TransferChunkResponse := λ w,
  match ChunkStore.GetChunk fault (TransferChunkRequest_ChunkId req) d with
  | Err e => (Ok (mkTransferChunkResponse false e), w)
  | Panic p => (Panic p, w)
  | Ok (data, checksum) =>
      let target := TransferChunkRequest_TargetAddress req in
      match dial target w with
      | Err e => (Ok (mkTransferChunkResponse false e), w)
      | Panic p => (Panic p, w)
      | Ok _ =>
          match call_StoreChunk target
                  (mkStoreChunkRequest (TransferChunkRequest_ChunkId req) data checksum) w with
          | (Err e, w') => (Ok (mkTransferChunkResponse false e), w')
          | (Panic p, w') => (Panic p, w')
          | (Ok resp, w') =>
              if StoreChunkResponse_Success resp
              then (Ok (mkTransferChunkResponse true "chunk transferred"), w')
              else (Ok (mkTransferChunkResponse false (StoreChunkResponse_Message resp)), w')
          end
      end
  end.

(** ** Calls to the metadata server *)
Definition register (call : RegisterNodeRequest → gos W RegisterNodeResponse)
    : gos (DataServer * W) unit := λ '(s, w),
  match dial (dsv_metaAddr s) w with
  | Err e => (Err ("connect to metadata server: " +:+ e), (s, w))
  | Panic p => (Panic p, (s, w))
  | Ok _ =>
      match call (mkRegisterNodeRequest (dsv_address s) (dsv_capacity s)) w with
      | (Err e, w') => (Err ("register RPC: " +:+ e), (s, w'))
      | (Panic p, w') => (Panic p, (s, w'))
      | (Ok resp, w') =>
          if RegisterNodeResponse_Success resp
          then (Ok tt, (set_nodeID (RegisterNodeResponse_NodeId resp) s, w'))
          else (Err ("registration failed: " +:+ RegisterNodeResponse_Message resp), (s, w'))
      end
  end.

Definition sendHeartbeat (call : HeartbeatRequest → gos W HeartbeatResponse)
    : gos (DataServer * W) unit := λ '(s, w),
  match dial (dsv_metaAddr s) w with
  | Err e => (Err e, (s, w))
  | Panic p => (Panic p, (s, w))
  | Ok _ =>
      let store := (dsv_disk s).1 in
      let '(r, w') := call (mkHeartbeatRequest (dsv_nodeID s) (UsedBytes store) (ChunkCount store)) w in
      (go_map (λ _, tt) r, (s, w'))
  end.

Definition sendHealthReport (now : Time) (rnd : draws) (mem : MemStats)
    (call : ReportHealthRequest → gos W ReportHealthResponse)
    : gos (DataServer * W) unit := λ '(s, w),
  let '(metrics, h) := Collect now rnd mem (dsv_health s) in
  let s := set_health h s in
  match dial (dsv_metaAddr s) w with
  | Err e => (Err e, (s, w))
  | Panic p => (Panic p, (s, w))
  | Ok _ =>
      let '(r, w') := call (mkReportHealthRequest (Some (health_metrics (dsv_nodeID s) metrics))) w in
      (go_map (λ _, tt) r, (s, w'))
  end.
End network.
End Server.

(** ** Properties *)

(** Transfer: a transfer reports success only after the target accepted a chunk
    with exactly the bytes and the checksum the source verified on its own disk;
    if the source cannot read the chunk intact, the target is never contacted. *)
Theorem TransferChunk_verified {W} (dial : string → W → go unit) call fault req cs fs w :
  match Server.TransferChunk dial call fault req (cs, fs) w with
  | (Ok resp, w') =>
      (TransferChunkResponse_Success resp = true →
         ∃ c data r, cs_chunks cs !! TransferChunkRequest_ChunkId req = Some c ∧
           fs !! sc_FilePath c = Some data ∧ DataChecksum data = sc_Checksum c ∧
           call (TransferChunkRequest_TargetAddress req)
             (mkStoreChunkRequest (TransferChunkRequest_ChunkId req) data (sc_Checksum c)) w
             = (Ok r, w') ∧ StoreChunkResponse_Success r = true) ∧
      (is_ok (ChunkStore.GetChunk fault (TransferChunkRequest_ChunkId req) (cs, fs)) = false →
         TransferChunkResponse_Success resp = false ∧ w' = w)
  | (Err _, _) => False
  | (Panic _, _) =>
      is_ok (ChunkStore.GetChunk fault (TransferChunkRequest_ChunkId req) (cs, fs)) = true
  end.
Proof.
  unfold Server.TransferChunk.
  pose proof (GetChunk_checked fault (TransferChunkRequest_ChunkId req) cs fs) as Hget.
  destruct (ChunkStore.GetChunk fault _ _) as [[data sum]|e|p]; [| |done].
  - destruct Hget as (c & Hc & Hd & -> & Hsum).
    destruct (dial _ w) as [[]|e|p]; [|simpl; done..].
    destruct (call _ _ w) as [[r|e|p] w'] eqn:Hcall; simpl; [|done..].
    destruct (StoreChunkResponse_Success r) eqn:Hs; simpl; (split; [|done]); [|done].
    intros _. exists c, data, r. done.
  - simpl. done.
Qed.

(** Registration: the node takes over the identifier of a successful response
    and nothing else changes; on any failure the node is unchanged. *)
Theorem register_adopts_id {W} (dial : string → W → go unit) call s w :
  match Server.register dial call (s, w) with
  | (Ok _, (s', w')) => ∃ resp,
      call (mkRegisterNodeRequest (dsv_address s) (dsv_capacity s)) w = (Ok resp, w') ∧
      RegisterNodeResponse_Success resp = true ∧
      s' = set_nodeID (RegisterNodeResponse_NodeId resp) s
  | (_, (s', _)) => s' = s
  end.
Proof.
  unfold Server.register. destruct (dial _ w) as [[]|e|p]; [|done..].
  destruct (call _ w) as [[r|e|p] w'] eqn:Hcall; [|done..].
  destruct (RegisterNodeResponse_Success r) eqn:Hs; [|done]. exists r. done.
Qed.
