(* ===== verification/MetaServer.v ===== *)
(** * internal/metaserver/server.go and admin.go: the metadata server

    The handlers of the gRPC service, the ticks of the two background routines,
    and the admin endpoints, over the state the server owns: the namespace, the
    chunk manager, the health monitor and the migrator.  A handler runs to its end
    without interference here; [MigrationRace.v] covers what interleaves inside a
    migration. *)
From S2P Require Export Namespace Adapter.
Local Open Scope Z_scope.

Record MetaServer := mkMetaServer {
  srv_namespace : Namespace;
  srv_chunkMgr : ChunkManager;
  srv_monitor : Monitor;
  srv_migrator : Migrator;
  srv_port : Z;
  srv_adminPort : Z;
}.

Definition set_namespace (ns : Namespace) (s : MetaServer) : MetaServer :=
  mkMetaServer ns (srv_chunkMgr s) (srv_monitor s) (srv_migrator s) (srv_port s) (srv_adminPort s).
Definition set_chunkMgr (cm : ChunkManager) (s : MetaServer) : MetaServer :=
  mkMetaServer (srv_namespace s) cm (srv_monitor s) (srv_migrator s) (srv_port s) (srv_adminPort s).
Definition set_monitor (m : Monitor) (s : MetaServer) : MetaServer :=
  mkMetaServer (srv_namespace s) (srv_chunkMgr s) m (srv_migrator s) (srv_port s) (srv_adminPort s).
Definition set_migrator (m : Migrator) (s : MetaServer) : MetaServer :=
  mkMetaServer (srv_namespace s) (srv_chunkMgr s) (srv_monitor s) m (srv_port s) (srv_adminPort s).

Definition nil_deref : string := "invalid memory address or nil pointer dereference".

(** ** Building responses *)
Definition pb_placement (p : ChunkPlacementInfo) : ChunkPlacement :=
  mkChunkPlacement (cp_ChunkID p) (int32 (cp_ChunkIndex p)) (cp_NodeAddresses p) (cp_NodeIDs p).

Definition pb_location (l : ChunkLocationInfo) : ChunkLocation :=
  mkChunkLocation (cl_ChunkID l) (int32 (cl_ChunkIndex l)) (cl_NodeAddresses l) (cl_NodeIDs l).

Definition pb_chunk (m : ChunkMeta) : ChunkInfo :=
  mkChunkInfo (ck_ChunkID m) (int32 (ck_ChunkIndex m)) (ck_Size m) (ck_Checksum m) (ck_NodeIDs m).

Definition pb_file (meta : FileMeta) (chunks : list (option ChunkInfo)) : FileInfo :=
  mkFileInfo (fm_Path meta) (fm_Size meta) (int32 (fm_ChunkCount meta))
    (int32 (fm_ReplicationFactor meta)) chunks (Unix (fm_CreatedAt meta)).

Definition pb_node (n : DataNodeInfo) : NodeInfo :=
  mkNodeInfo (dn_NodeID n) (dn_Address n) (dn_CapacityBytes n) (dn_UsedBytes n) (dn_ChunkCount n)
    (status_string (dn_Status n)) (dn_RiskScore n).

Module Server.

Definition NewServer (port adminPort : Z) : MetaServer :=
  mkMetaServer NewNamespace NewChunkManager NewMonitor NewMigrator port adminPort.

(** ** File operations *)
Section files.
Context `{SliceSort}.

Definition PutFile (now : Time) (ord : list string) (req : PutFileRequest)
    : gos MetaServer PutFileResponse := λ s,
  match AllocateChunks now ord (PutFileRequest_Path req) (PutFileRequest_ChunkCount req)
          (PutFileRequest_FileSize req) (srv_chunkMgr s) with
  | (Err e, cm) => (Ok (mkPutFileResponse false e []), set_chunkMgr cm s)
  | (Panic w, cm) => (Panic w, set_chunkMgr cm s)
  | (Ok placements, cm) =>
      let s := set_chunkMgr cm s in
      let chunkIDs := cp_ChunkID <$> placements in
      let meta := mkFileMeta (PutFileRequest_Path req) (PutFileRequest_FileSize req)
                    (PutFileRequest_ChunkCount req) DefaultReplicationFactor
                    (PutFileRequest_Checksum req) chunkIDs now in
      match CreateFile (PutFileRequest_Path req) meta (srv_namespace s) with
      | (Err e, ns) => (Ok (mkPutFileResponse false e []), set_namespace ns s)
      | (Panic w, ns) => (Panic w, set_namespace ns s)
      | (Ok _, ns) =>
          (Ok (mkPutFileResponse true "file registered" (pb_placement <$> placements)),
           set_namespace ns s)
      end
  end.
End files.

(** The loop of [GetFile] that fills [chunkInfos]. *)
Fixpoint chunk_infos (cm : ChunkManager) (locs : list ChunkLocationInfo)
    : go (list (option ChunkInfo)) :=
  match locs with
  | [] => Ok []
  | loc :: rest =>
      match GetChunkMeta (cl_ChunkID loc) cm with
      | None => Panic nil_deref
      | Some m => let! infos := chunk_infos cm rest in Ok (Some (pb_chunk m) :: infos)
      end
  end.

Definition GetFile (req : GetFileRequest) (s : MetaServer) : go GetFileResponse :=
  match Namespace.GetFile (GetFileRequest_Path req) (srv_namespace s) with
  | Err e => Ok (mkGetFileResponse false e None [])
  | Panic w => Panic w
  | Ok None => Panic nil_deref
  | Ok (Some meta) =>
      match GetChunkLocations (fm_ChunkIDs meta) (srv_chunkMgr s) with
      | Err e => Ok (mkGetFileResponse false e None [])
      | Panic w => Panic w
      | Ok locs =>
          let! chunkInfos := chunk_infos (srv_chunkMgr s) locs in
          Ok (mkGetFileResponse true "" (Some (pb_file meta chunkInfos)) (pb_location <$> locs))
      end
  end.

(** [ord] is the order in which the affected addresses are collected. *)
Definition DeleteFile (ord : list string) (req : DeleteFileRequest)
    : gos MetaServer DeleteFileResponse := λ s,
  match Namespace.DeleteFile (DeleteFileRequest_Path req) (srv_namespace s) with
  | (Err e, ns) => (Ok (mkDeleteFileResponse false e), set_namespace ns s)
  | (Panic w, ns) => (Panic w, set_namespace ns s)
  | (Ok None, ns) => (Panic nil_deref, set_namespace ns s)
  | (Ok (Some meta), ns) =>
      let s := set_namespace ns s in
      let '(_, cm) := RemoveChunks ord (fm_ChunkIDs meta) (srv_chunkMgr s) in
      (Ok (mkDeleteFileResponse true "file deleted"), set_chunkMgr cm s)
  end.

Fixpoint list_infos (path : string) (ns : Namespace) (entries : list loc) : go (list FileInfo) :=
  match entries with
  | [] => Ok []
  | l :: rest =>
      let! e := deref l ns in
      let! files := list_infos path ns rest in
      if de_IsDir e
      then Ok (mkFileInfo (path +:+ "/" +:+ de_Name e) 0 0 0 [] 0 :: files)
      else match de_File e with
           | Some meta => Ok (pb_file meta [] :: files)
           | None => Ok files
           end
  end.

Definition ListFiles (ord : list string) (req : ListFilesRequest) (s : MetaServer)
    : go ListFilesResponse :=
  let path := if decide (ListFilesRequest_Path req = "") then "/" else ListFilesRequest_Path req in
  match ListDir path ord (srv_namespace s) with
  | Err _ => Ok (mkListFilesResponse false [])
  | Panic w => Panic w
  | Ok entries =>
      let! files := list_infos path (srv_namespace s) entries in
      Ok (mkListFilesResponse true files)
  end.

Definition GetFileInfo (req : GetFileInfoRequest) (s : MetaServer) : go GetFileInfoResponse :=
  match Namespace.GetFile (GetFileInfoRequest_Path req) (srv_namespace s) with
  | Err _ => Ok (mkGetFileInfoResponse false None)
  | Panic w => Panic w
  | Ok None => Panic nil_deref
  | Ok (Some meta) =>
      let chunkInfos := (λ cid, pb_chunk <$> GetChunkMeta cid (srv_chunkMgr s)) <$> fm_ChunkIDs meta in
      Ok (mkGetFileInfoResponse true (Some (pb_file meta chunkInfos)))
  end.

(** ** Node management *)
Definition RegisterNode (now : Time) (ord : list string) (req : RegisterNodeRequest)
    : gos MetaServer RegisterNodeResponse := λ s,
  match ChunkManager.RegisterNode now ord (RegisterNodeRequest_Address req)
          (RegisterNodeRequest_CapacityBytes req) (srv_chunkMgr s) with
  | (Err e, cm) => (Ok (mkRegisterNodeResponse false "" e), set_chunkMgr cm s)
  | (Panic w, cm) => (Panic w, set_chunkMgr cm s)
  | (Ok nodeID, cm) => (Ok (mkRegisterNodeResponse true nodeID "node registered"), set_chunkMgr cm s)
  end.

Definition Heartbeat (now : Time) (req : HeartbeatRequest) : gos MetaServer HeartbeatResponse := λ s,
  match UpdateHeartbeat now (HeartbeatRequest_NodeId req) (HeartbeatRequest_UsedBytes req)
          (HeartbeatRequest_ChunkCount req) (srv_chunkMgr s) with
  | (Ok _, cm) => (Ok (mkHeartbeatResponse true []), set_chunkMgr cm s)
  | (Err _, cm) => (Ok (mkHeartbeatResponse false []), set_chunkMgr cm s)
  | (Panic w, cm) => (Panic w, set_chunkMgr cm s)
  end.

Definition health_report (m : HealthMetrics) : HealthReport :=
  mkHealthReport (HealthMetrics_NodeId m) (HealthMetrics_DiskIoLatencyMs m)
    (HealthMetrics_DiskUtilization m) (HealthMetrics_ErrorCount m)
    (HealthMetrics_ResponseTimeMs m) (HealthMetrics_CpuUsage m) (HealthMetrics_MemoryUsage m)
    (TimeOfUnixMilli (HealthMetrics_Timestamp m)).

Definition ReportHealth (req : ReportHealthRequest) : gos MetaServer ReportHealthResponse := λ s,
  match ReportHealthRequest_Metrics req with
  | None => (Ok (mkReportHealthResponse false "no metrics"), s)
  | Some m =>
      let s := set_monitor (IngestReport (health_report m) (srv_monitor s)) s in
      match GetNode (HealthMetrics_NodeId m) (srv_chunkMgr s) with
      | None => (Ok (mkReportHealthResponse false "unknown node"), s)
      | Some node => (Ok (mkReportHealthResponse true (status_string (dn_Status node))), s)
      end
  end.

(** ** Cluster information *)
Definition GetClusterInfo (ord : list string) (ns_ord : loc → list string)
    (req : GetClusterInfoRequest) (s : MetaServer) : go GetClusterInfoResponse :=
  let stats := GetClusterStats ord (srv_chunkMgr s) in
  let! allFiles := GetAllFiles ns_ord (srv_namespace s) in
  let nodes := GetAllNodes ord (srv_chunkMgr s) in
  Ok (mkGetClusterInfoResponse (int32 (cs_TotalNodes stats)) (int32 (cs_HealthyNodes stats))
        (int32 (cs_WarningNodes stats)) (int32 (cs_AtRiskNodes stats))
        (int32 (cs_DeadNodes stats)) (cs_TotalCap stats) (cs_TotalUsed stats)
        (int32 (Z.of_nat (length allFiles))) (int32 (cs_TotalChunks stats)) (pb_node <$> nodes)).

Definition GetNodeInfo (ord : list string) (req : GetNodeInfoRequest) (s : MetaServer)
    : GetNodeInfoResponse :=
  if decide (GetNodeInfoRequest_NodeId req ≠ "") then
    match GetNode (GetNodeInfoRequest_NodeId req) (srv_chunkMgr s) with
    | None => mkGetNodeInfoResponse []
    | Some n => mkGetNodeInfoResponse (pb_node <$> [n])
    end
  else mkGetNodeInfoResponse (pb_node <$> GetAllNodes ord (srv_chunkMgr s)).

(** ** Background routines: one tick *)
Definition deadNodeChecker (now : Time) (ord : list string) (s : MetaServer) : MetaServer :=
  set_chunkMgr (CheckDeadNodes now ord (srv_chunkMgr s)).2 s.

(** The body of the loop over the results: the status is written, and a critical
    node starts a migration in a goroutine of its own. *)
Definition prediction_result (st : list PredictionResult * ChunkManager) (r : PredictionResult)
    : list PredictionResult * ChunkManager :=
  let '(spawned, cm) := st in
  let cm := UpdateNodeHealth (pr_NodeID r) (pr_Status r) (pr_OverallRisk r) cm in
  (if decide (pr_Status r = StatusCritical) then spawned ++ [r] else spawned, cm).

(** The result says which migrations were started. *)
Definition predictionLoop (now : Time) (ord : list string) (s : MetaServer)
    : list PredictionResult * MetaServer :=
  let results := PredictAll now ord (srv_monitor s) in
  let '(spawned, cm) := foldl prediction_result ([], srv_chunkMgr s) results in
  (spawned, set_chunkMgr cm s).

(** A started migration, run to its end. *)
Definition migrate {W} (dial : string → W → go unit)
    (call : string → TransferChunkRequest → gos W TransferChunkResponse)
    (start finish : Time) (ord : list string) (plans : nat → chunk_plan) (p : PredictionResult)
    : gos (MetaServer * W) (option MigrationReport) := λ '(s, w),
  let '(r, (m, (cm, w'))) :=
    MigrateNode dial call start finish ord plans p (srv_migrator s, (srv_chunkMgr s, w)) in
  (r, (set_migrator m (set_chunkMgr cm s), w')).
End Server.

(** ** Admin endpoints *)
Record NodeSummary := mkNodeSummary {
  sum_NodeID : string; sum_Status : string; sum_Risk : float64; sum_Chunks : Z;
}.

Record HealthSummary := mkHealthSummary {
  sum_total_nodes : Z; sum_healthy_nodes : Z; sum_total_chunks : Z; sum_nodes : list NodeSummary;
}.

(** [GET /health] *)
Definition handleHealth (ord : list string) (s : MetaServer) : HealthSummary :=
  let stats := GetClusterStats ord (srv_chunkMgr s) in
  mkHealthSummary (cs_TotalNodes stats) (cs_HealthyNodes stats) (cs_TotalChunks stats)
    ((λ n, mkNodeSummary (dn_NodeID n) (status_string (dn_Status n)) (dn_RiskScore n)
             (dn_ChunkCount n)) <$> GetAllNodes ord (srv_chunkMgr s)).

(** [GET /migrations]; the times are formatted by the standard library. *)
Record MigrationSummary := mkMigrationSummary {
  sum_MNodeID : string; sum_MRisk : float64; sum_Total : Z; sum_Migrated : Z; sum_Failed : Z;
  sum_Duration : Duration; sum_StartedAt : Time;
}.

Definition handleMigrations (s : MetaServer) : Z * list MigrationSummary :=
  let reports := GetHistory (srv_migrator s) in
  let summaries := (λ r, mkMigrationSummary (mr_NodeID r) (mr_Risk r) (mr_TotalChunks r)
     (mr_MigratedChunks r) (mr_FailedChunks r) (Sub (mr_CompletedAt r) (mr_StartedAt r))
     (mr_StartedAt r)) <$> reports in
  (Z.of_nat (length summaries), summaries).
