(* ===== verification/MetaServerSpec.v ===== *)
(** * What the metadata server promises

    The step relation of the whole server with its invariant, and the properties
    of its handlers and background routines.  The handlers are defined in
    [MetaServer.v]. *)
From S2P Require Export MetaServer.
Local Open Scope Z_scope.

(** The parts' invariants together. *)
Record srv_inv (s : MetaServer) : Prop := {
  srv_inv_ns : wf (srv_namespace s);
  srv_inv_cm : cm_inv (srv_chunkMgr s);
  srv_inv_mon : monitor_wf (srv_monitor s);
}.

Lemma PredictAll_status now ord m r :
  r ∈ PredictAll now ord m →
  pr_Status r = RiskToStatus (pr_OverallRisk r) ∧ PredictNode now (pr_NodeID r) m = Some r.
Proof.
  unfold PredictAll. rewrite list_elem_of_omap. intros (id & _ & Hr).
  assert (pr_NodeID r = id ∧ pr_Status r = RiskToStatus (pr_OverallRisk r)) as [-> Hs].
  { destruct (GetNodeMetrics id m) as [nm|] eqn:Hnm.
    - rewrite (PredictNode_eq now id m nm Hnm) in Hr. apply (inj Some) in Hr. subst r.
      cbn [pr_Status pr_OverallRisk pr_NodeID]. split; reflexivity.
    - unfold PredictNode in Hr. by rewrite Hnm in Hr. }
  done.
Qed.

Lemma prediction_fold_inv rs : ∀ acc cm,
  cm_inv cm → (∀ r, r ∈ rs → pr_Status r = RiskToStatus (pr_OverallRisk r)) →
  cm_inv (foldl Server.prediction_result (acc, cm) rs).2.
Proof.
  induction rs as [|r rs IH]; intros acc cm Hinv Hrs; [done|]. cbn [foldl Server.prediction_result].
  apply IH; [|intros r' Hr'; apply Hrs; by right].
  rewrite (Hrs r) by (by left). by apply UpdateNodeHealth_inv.
Qed.

Section reach.
Context `{SliceSort} `{!SliceSortSpec}.

(** ** The server as a state machine *)
Inductive srv_step : MetaServer → MetaServer → Prop :=
  | srv_PutFile now ord req r s s' :
      map_order (cm_nodes (srv_chunkMgr s)) ord →
      Server.PutFile now ord req s = (r, s') → srv_step s s'
  | srv_DeleteFile ord req r s s' : Server.DeleteFile ord req s = (r, s') → srv_step s s'
  | srv_RegisterNode now ord req r s s' :
      map_order (cm_nodes (srv_chunkMgr s)) ord →
      Server.RegisterNode now ord req s = (r, s') → srv_step s s'
  | srv_Heartbeat now req r s s' : Server.Heartbeat now req s = (r, s') → srv_step s s'
  | srv_ReportHealth req r s s' : Server.ReportHealth req s = (r, s') → srv_step s s'
  | srv_deadNodeChecker now ord s : srv_step s (Server.deadNodeChecker now ord s)
  | srv_predictionLoop now ord s : srv_step s (Server.predictionLoop now ord s).2
  | srv_migrate W dial call start finish ord plans p (w w' : W) r s s' :
      (∀ j, map_order (cm_nodes (srv_chunkMgr s)) (pl_ord (plans j))) →
      Server.migrate dial call start finish ord plans p (s, w) = (r, (s', w')) → srv_step s s'.

Lemma srv_step_inv s s' : srv_inv s → srv_step s s' → srv_inv s'.
Proof.
  intros [Hns Hcm Hmon]. destruct 1 as
    [now ord req r s s' Hord Hrun|ord req r s s' Hrun|now ord req r s s' Hord Hrun
    |now req r s s' Hrun|req r s s' Hrun|now ord s|now ord s
    |W dial call start finish ord plans p w w' r s s' Hord Hrun].
  - unfold Server.PutFile in Hrun. destruct (AllocateChunks _ _ _ _ _ _) as [[ps|e|p] cm] eqn:Ha;
      apply AllocateChunks_inv in Ha as [Hcm' _]; try done.
    + destruct (CreateFile _ _ _) as [[[]|e|p] ns] eqn:Hc;
        apply CreateFile_wf in Hc as [Hns' _]; try done; injection Hrun as <- <-; by split.
    + injection Hrun as <- <-; by split.
    + injection Hrun as <- <-; by split.
  - unfold Server.DeleteFile in Hrun.
    destruct (DeleteFile _ _) as [[[meta|]|e|p] ns] eqn:Hd;
      apply DeleteFile_wf in Hd as [Hns' _]; try done.
    + pose proof (RemoveChunks_inv ord (fm_ChunkIDs meta) (srv_chunkMgr s) Hcm) as Hr.
      simpl in Hrun. destruct (RemoveChunks _ _ _) as [addrs cm]. injection Hrun as <- <-. by split.
    + injection Hrun as <- <-; by split.
    + injection Hrun as <- <-; by split.
    + injection Hrun as <- <-; by split.
  - unfold Server.RegisterNode in Hrun.
    destruct (ChunkManager.RegisterNode _ _ _ _ _) as [[nid|e|p] cm] eqn:Hr;
      apply RegisterNode_inv in Hr; try done; injection Hrun as <- <-; by split.
  - unfold Server.Heartbeat in Hrun.
    destruct (UpdateHeartbeat _ _ _ _ _) as [[[]|e|p] cm] eqn:Hr;
      apply UpdateHeartbeat_inv in Hr; try done; injection Hrun as <- <-; by split.
  - unfold Server.ReportHealth in Hrun. destruct (ReportHealthRequest_Metrics req) as [m|].
    + cbn [set_monitor srv_chunkMgr] in Hrun.
      destruct (GetNode _ _); injection Hrun as <- <-; split; try done; by apply IngestReport_wf.
    + injection Hrun as <- <-; by split.
  - split; [done| |done]. by apply CheckDeadNodes_inv.
  - unfold Server.predictionLoop.
    pose proof (prediction_fold_inv (PredictAll now ord (srv_monitor s)) [] (srv_chunkMgr s) Hcm) as Hp.
    destruct (foldl _ _ _) as [sp cm]. split; [done| |done]. apply Hp.
    intros r Hr. by destruct (PredictAll_status _ _ _ _ Hr).
  - pose proof (MigrateNode_keeps dial call start finish ord plans p (srv_migrator s)
      (srv_chunkMgr s) w Hcm Hord) as [Hk _].
    unfold Server.migrate in Hrun.
    destruct (MigrateNode _ _ _ _ _ _ _ _) as [r0 [m [cm w0]]]. injection Hrun as <- <- <-.
    by split.
Qed.

Lemma srv_inv_new port adminPort : srv_inv (Server.NewServer port adminPort).
Proof. split; [apply wf_NewNamespace|apply cm_inv_new|apply monitor_wf_new]. Qed.

Lemma srv_steps_inv s s' : srv_inv s → rtc srv_step s s' → srv_inv s'.
Proof. intros Hinv Hsteps. induction Hsteps; eauto using srv_step_inv. Qed.

(** ** Answers of the read handlers *)
Lemma GetChunkLocations_chunks ids cm locs :
  cm_inv cm → GetChunkLocations ids cm = Ok locs →
  ∀ loc, loc ∈ locs → is_Some (cm_chunks cm !! cl_ChunkID loc).
Proof.
  intros Hinv. revert locs. induction ids as [|cid ids IH]; intros locs; simpl.
  { intros [= <-] loc ?%not_elem_of_nil. done. }
  destruct (cm_chunks cm !! cid) as [m|] eqn:Hm; [|done]. case_decide; [done|].
  intros (ls & Hls & [= <-])%go_bind_ok. intros loc [->|Hl]%elem_of_cons; [|by eapply IH].
  simpl. rewrite (inv_chunk _ Hinv cid m Hm). eauto.
Qed.

Lemma chunk_infos_no_panic cm locs :
  (∀ loc, loc ∈ locs → is_Some (cm_chunks cm !! cl_ChunkID loc)) →
  ∃ infos, Server.chunk_infos cm locs = Ok infos.
Proof.
  induction locs as [|loc locs IH]; intros Hl; [by eexists|]. cbn [Server.chunk_infos].
  destruct (Hl loc ltac:(left)) as [m Hm]. unfold GetChunkMeta. rewrite Hm.
  destruct IH as [infos ->]; [intros l' Hl'; apply Hl; by right|]. by eexists.
Qed.

Lemma GetFile_no_panic s req : srv_inv s → no_panic (Server.GetFile req s).
Proof.
  intros [Hns Hcm _] w. unfold Server.GetFile. rewrite GetFile_view by done.
  destruct (view _ _) as [[|meta]|]; [done| |done].
  destruct (GetChunkLocations (fm_ChunkIDs meta) (srv_chunkMgr s)) as [locs|e|p] eqn:Hl; [|done|].
  - destruct (chunk_infos_no_panic (srv_chunkMgr s) locs) as [infos ->]; [|done].
    by eapply GetChunkLocations_chunks.
  - exfalso. clear -Hl. revert p Hl.
    induction (fm_ChunkIDs meta) as [|c ids IH]; intros p; simpl; [done|].
    destruct (cm_chunks _ !! c); [|done]. case_decide; [done|].
    destruct (GetChunkLocations ids (srv_chunkMgr s)); [done|done|by eapply IH].
Qed.

(** The entries of a listing are children of a directory. *)
Lemma ListDir_children path ord ns ls :
  wf ns → ListDir path ord ns = Ok ls →
  Forall (λ l, ∃ p e, walk ns (ns_root ns) p = Some l ∧ ns_heap ns !! l = Some e) ls.
Proof.
  intros Hwf. unfold ListDir. intros (d & Hd & Hls)%go_bind_ok.
  assert (∃ p, walk ns (ns_root ns) p = Some d) as [p Hw].
  { case_decide; [exists []; injection Hd as <-; done|]. rewrite resolve_spec in Hd by done.
    destruct (walk _ _ _) as [l|] eqn:Hw; [|done]. injection Hd as <-. eauto. }
  destruct (walk_defined ns Hwf _ _ Hw) as [e He]. unfold deref in Hls. rewrite He in Hls. cbn [go_bind] in Hls.
  destruct (de_IsDir e) eqn:Hdir; [|done]. injection Hls as <-.
  apply Forall_fmap, Forall_forall. intros [n c] [_ Hc]%elem_of_range_map. simpl.
  assert (child e n = Some c) as Hch by (unfold child; by destruct (de_Children e)).
  destruct (wf_child _ Hwf _ _ _ _ He Hch) as (_ & ce & Hce & _). exists (p ++ [n]), ce. split; [|done].
  rewrite walk_snoc, Hw. apply step_Some. eauto.
Qed.

Lemma ListDir_no_panic path ord ns : wf ns → no_panic (ListDir path ord ns).
Proof.
  intros Hwf w. unfold ListDir. assert (∀ l p, walk ns (ns_root ns) p = Some l →
    (let! d := deref l ns in
     if de_IsDir d then Ok (range_map ord (default ∅ (de_Children d))).*2
     else Err ("path " +:+ path +:+ " is not a directory")) ≠ Panic w) as Hd.
  { intros l p Hw. destruct (walk_defined ns Hwf _ _ Hw) as [e He]. unfold deref. rewrite He.
    cbn [go_bind]. by destruct (de_IsDir e). }
  case_decide; [by apply (Hd (ns_root ns) [])|]. rewrite resolve_spec by done.
  destruct (walk _ _ _) as [l|] eqn:Hw; [by eapply Hd|done].
Qed.

Lemma list_infos_ok path ns ls :
  Forall (λ l, ∃ p e, walk ns (ns_root ns) p = Some l ∧ ns_heap ns !! l = Some e) ls →
  ∃ files, Server.list_infos path ns ls = Ok files.
Proof.
  induction 1 as [|l ls (p & e & _ & He) _ [files IH]]; [by eexists|].
  cbn [Server.list_infos]. unfold deref. rewrite He. cbn [go_bind]. rewrite IH. cbn [go_bind].
  destruct (de_IsDir e); [by eexists|]. destruct (de_File e); by eexists.
Qed.

Lemma ListFiles_answers ord req s :
  srv_inv s → ∃ resp, Server.ListFiles ord req s = Ok resp.
Proof.
  intros [Hns _ _]. unfold Server.ListFiles.
  set (path := if decide _ then _ else _).
  pose proof (ListDir_no_panic path ord (srv_namespace s) Hns) as Hnp.
  destruct (ListDir path ord (srv_namespace s)) as [ls|e|w] eqn:Hl; [|by eexists|by destruct (Hnp w)].
  destruct (list_infos_ok path (srv_namespace s) ls) as [files ->]; [by eapply ListDir_children|by eexists].
Qed.

Lemma GetClusterInfo_answers ord ns_ord req s :
  srv_inv s → valid_orders (srv_namespace s) ns_ord →
  ∃ resp, Server.GetClusterInfo ord ns_ord req s = Ok resp.
Proof.
  intros [Hns _ _] Hord. unfold Server.GetClusterInfo.
  destruct (GetAllFiles_view _ _ Hns Hord) as (L & -> & _). by eexists.
Qed.

(** C21: Server invariant, each handler taken as one step: in every state the server
    reaches through its handlers, its background ticks and its migrations, the namespace
    is a well-formed tree, the registry and the monitor satisfy their invariants, and no
    request that runs without another one in between can crash the server, with one
    exception: PutFile panics exactly when the client sends a negative chunk count
    while a healthy node exists.  (Requests that run in parallel keep the invariant too,
    see [parallel_requests_sound], but a read can then crash, see
    [delete_crashes_read].) *)
Theorem server_invariant port adminPort s :
  rtc srv_step (Server.NewServer port adminPort) s →
  srv_inv s ∧
  (∀ req, no_panic (Server.GetFile req s)) ∧
  (∀ req, no_panic (Server.GetFileInfo req s)) ∧
  (∀ ord req, no_panic (Server.ListFiles ord req s)) ∧
  (∀ ord ns_ord req, valid_orders (srv_namespace s) ns_ord →
     no_panic (Server.GetClusterInfo ord ns_ord req s)) ∧
  (∀ ord req, no_panic (Server.DeleteFile ord req s).1) ∧
  (∀ now ord req, no_panic (Server.RegisterNode now ord req s).1) ∧
  (∀ now req, no_panic (Server.Heartbeat now req s).1) ∧
  (∀ req, no_panic (Server.ReportHealth req s).1) ∧
  (∀ now ord req,
     (∃ w, (Server.PutFile now ord req s).1 = Panic w) ↔
     healthyNodes now ord (srv_chunkMgr s) ≠ [] ∧ PutFileRequest_ChunkCount req < 0).
Proof.
  intros Hreach. pose proof (srv_steps_inv _ _ (srv_inv_new port adminPort) Hreach) as Hinv.
  pose proof Hinv as [Hns Hcm Hmon].
  split; [done|]. split; [intros req; by apply GetFile_no_panic|].
  split; [|split; [|split; [|split; [|split; [|split; [|split]]]]]].
  - intros req w. unfold Server.GetFileInfo. rewrite GetFile_view by done.
    by destruct (view _ _) as [[|meta]|].
  - intros ord req w. by destruct (ListFiles_answers ord req s Hinv) as [resp ->].
  - intros ord ns_ord req Hord w. by destruct (GetClusterInfo_answers ord ns_ord req s Hinv Hord) as [resp ->].
  - intros ord req w. unfold Server.DeleteFile.
    destruct (splitPath (DeleteFileRequest_Path req)) as [[dir name]|e|p] eqn:Hs.
    + pose proof (DeleteFile_post _ _ _ _ Hns Hs) as Hpost.
      destruct (Namespace.DeleteFile _ _) as [[r|e|p] ns']; [|done|by destruct Hpost].
      destruct Hpost as (_ & _ & meta & -> & _). by destruct (RemoveChunks _ _ _).
    + destruct (splitPath_Err_ops _ e (mkFileMeta "" 0 0 0 "" [] 0) (srv_namespace s) Hs) as [_ ->].
      done.
    + by apply splitPath_no_panic in Hs.
  - intros now ord req w. unfold Server.RegisterNode, ChunkManager.RegisterNode.
    by destruct (List.find _ _) as [[k n]|].
  - intros now req w. unfold Server.Heartbeat, UpdateHeartbeat. by destruct (cm_nodes _ !! _).
  - intros req w. unfold Server.ReportHealth.
    destruct (ReportHealthRequest_Metrics req); [|done]. by destruct (GetNode _ _).
  - intros now ord req. unfold Server.PutFile, AllocateChunks. case_decide as Hh.
    { split; [by intros [w ?]|]. intros [Hne _]. apply nil_length_inv in Hh. done. }
    assert (healthyNodes now ord (srv_chunkMgr s) ≠ []) as Hne by (intros Heq; by rewrite Heq in Hh).
    destruct (Z.ltb_spec (PutFileRequest_ChunkCount req) 0) as [Hlt|Hge].
    { split; [done|]. intros _. by eexists. }
    destruct (allocate_loop _ _ _ _ _ _ _) as [ps cm]. split; [|intros [_ ?]; lia].
    intros [w Hw]. simpl in Hw. destruct (CreateFile _ _ _) as [r ns'] eqn:Hc.
    apply CreateFile_wf in Hc as [_ Hnp]; [|done]. destruct r as [[]|e|p]; [done|done|].
    by destruct (Hnp p).
Qed.
End reach.

(** ** Files through the server *)
Section files.
Context `{SliceSort} `{!SliceSortSpec}.

Lemma live_locations_zip cm nids addrs :
  Forall2 (λ k a, ∃ n, cm_nodes cm !! k = Some n ∧ dn_Status n ≠ StatusDead ∧ dn_Address n = a)
    nids addrs →
  live_locations cm nids = zip addrs nids.
Proof.
  unfold live_locations. induction 1 as [|k a nids addrs (n & Hn & Hs & Ha) Hall IH]; [done|].
  simpl. rewrite Hn, decide_False, Ha by done. f_equal. exact IH.
Qed.

(** The locations a placement turns into. *)
Definition placement_location (p : ChunkPlacementInfo) : ChunkLocationInfo :=
  mkChunkLocationInfo (cp_ChunkID p) (cp_ChunkIndex p) (cp_NodeAddresses p) (cp_NodeIDs p).

Lemma GetChunkLocations_all cm ps :
  (∀ p, p ∈ ps → ∃ m, cm_chunks cm !! cp_ChunkID p = Some m ∧
     ck_ChunkID m = cp_ChunkID p ∧ ck_ChunkIndex m = cp_ChunkIndex p ∧
     ck_NodeIDs m = cp_NodeIDs p ∧ cp_NodeIDs p ≠ [] ∧
     Forall2 (λ k a, ∃ n, cm_nodes cm !! k = Some n ∧ dn_Status n ≠ StatusDead ∧
       dn_Address n = a) (cp_NodeIDs p) (cp_NodeAddresses p)) →
  GetChunkLocations (cp_ChunkID <$> ps) cm = Ok (placement_location <$> ps).
Proof.
  induction ps as [|p ps IH]; intros Hps; [done|]. rewrite !fmap_cons. cbn [GetChunkLocations].
  destruct (Hps p ltac:(left)) as (m & -> & Hid & Hidx & Hn & Hne & Hall).
  rewrite Hn, (live_locations_zip _ _ _ Hall).
  pose proof (Forall2_length _ _ _ Hall) as Hlen.
  rewrite decide_False.
  - rewrite IH by (intros q Hq; apply Hps; by right). cbn [go_bind].
    rewrite fst_zip, snd_zip by lia. by rewrite Hid, Hidx.
  - rewrite length_zip_with_l_eq by done. destruct (cp_NodeAddresses p), (cp_NodeIDs p); done.
Qed.

Lemma allocated_locations now ord path count size cm ps cm' :
  cm_inv cm → map_order (cm_nodes cm) ord →
  AllocateChunks now ord path count size cm = (Ok ps, cm') → NoDup (cp_ChunkID <$> ps) →
  GetChunkLocations (cp_ChunkID <$> ps) cm' = Ok (placement_location <$> ps).
Proof.
  intros Hinv Hord Ha Hnd.
  destruct (AllocateChunks_placed _ _ _ _ _ _ _ _ Hinv Hord Ha) as [_ Hps].
  destruct (AllocateChunks_stored _ _ _ _ _ _ _ _ Hinv Hord Ha Hnd) as (Htab & _ & _ & Hnodes).
  destruct (AllocateChunks_Ok _ _ _ _ _ _ _ _ Ha) as (Hhealthy & _ & _).
  apply GetChunkLocations_all. intros p Hp. eexists. split; [by apply Htab|].
  do 3 (split; [done|]).
  apply list_elem_of_lookup in Hp as [i Hi].
  destruct (Hps i p Hi) as (_ & _ & _ & Hlen & Hhl & Haddr & _). split.
  - intros Hnil. rewrite Hnil in Hlen. simpl in Hlen.
    destruct (healthyNodes now ord cm); [done|]. unfold DefaultReplicationFactor in Hlen.
    simpl in Hlen. lia.
  - clear Hlen. induction Haddr as [|k a ks adrs Hk Hall IH]; constructor.
    + destruct (Hhl k ltac:(left)) as (n & Hn & Hs & _).
      destruct (Hnodes k n Hn) as (X & HX & _). exists (set_Chunks (λ _, X) n).
      split; [done|]. split; [simpl; by destruct Hs as [-> | ->]|].
      rewrite Hn in Hk. by injection Hk.
    + apply IH. intros k' Hk'. apply Hhl. by right.
Qed.

Lemma chunk_infos_length cm locs infos :
  Server.chunk_infos cm locs = Ok infos → length infos = length locs.
Proof.
  revert infos. induction locs as [|l locs IH]; intros infos; simpl; [by intros [= <-]|].
  destruct (GetChunkMeta _ _); [|done]. intros (r & Hr & [= <-])%go_bind_ok. simpl. by rewrite (IH r).
Qed.

(** What a successful PutFile did. *)
Lemma PutFile_Ok now ord req s resp s' :
  Server.PutFile now ord req s = (Ok resp, s') → PutFileResponse_Success resp = true →
  ∃ ps cm' ns', AllocateChunks now ord (PutFileRequest_Path req) (PutFileRequest_ChunkCount req)
      (PutFileRequest_FileSize req) (srv_chunkMgr s) = (Ok ps, cm') ∧
    CreateFile (PutFileRequest_Path req)
      (mkFileMeta (PutFileRequest_Path req) (PutFileRequest_FileSize req)
         (PutFileRequest_ChunkCount req) DefaultReplicationFactor (PutFileRequest_Checksum req)
         (cp_ChunkID <$> ps) now) (srv_namespace s) = (Ok tt, ns') ∧
    PutFileResponse_Placements resp = pb_placement <$> ps ∧
    s' = set_namespace ns' (set_chunkMgr cm' s).
Proof.
  unfold Server.PutFile. destruct (AllocateChunks _ _ _ _ _ _) as [[ps|e|w] cm'];
    [|by intros [= <- <-]|done].
  destruct (CreateFile _ _ _) as [[[]|e|w] ns'] eqn:Hc; [|by intros [= <- <-]|done].
  intros [= <- <-] _. exists ps, cm', ns'. done.
Qed.

(** A file that was put can be located. *)
Lemma put_get now ord abs1 abs2 comps size count sum s resp s' :
  srv_inv s → map_order (cm_nodes (srv_chunkMgr s)) ord →
  comps ≠ [] → Forall good_name comps →
  Server.PutFile now ord (mkPutFileRequest (path_of abs1 comps) size count sum) s = (Ok resp, s') →
  PutFileResponse_Success resp = true →
  NoDup (ChunkPlacement_ChunkId <$> PutFileResponse_Placements resp) →
  Z.of_nat (length (PutFileResponse_Placements resp)) = count ∧
  ∃ chunks, Server.GetFile (mkGetFileRequest (path_of abs2 comps)) s' =
    Ok (mkGetFileResponse true ""
          (Some (mkFileInfo (path_of abs1 comps) size (int32 count) 3 chunks (Unix now)))
          ((λ p, mkChunkLocation (ChunkPlacement_ChunkId p) (ChunkPlacement_ChunkIndex p)
                   (ChunkPlacement_NodeAddresses p) (ChunkPlacement_NodeIds p))
             <$> PutFileResponse_Placements resp)) ∧
    length chunks = length (PutFileResponse_Placements resp).
Proof.
  intros [Hns Hcm _] Hord Hne Hg Hput Hsucc Hnd.
  destruct (PutFile_Ok _ _ _ _ _ _ Hput Hsucc) as (ps & cm' & ns' & Ha & Hc & Hpl & ->).
  rewrite Hpl in *. cbn [PutFileRequest_Path PutFileRequest_FileSize PutFileRequest_ChunkCount
    PutFileRequest_Checksum] in *.
  assert (NoDup (cp_ChunkID <$> ps)) as Hnd'.
  { rewrite <- list_fmap_compose in Hnd. exact Hnd. }
  destruct (AllocateChunks_inv _ _ _ _ _ _ _ _ Hcm Hord Ha) as [Hcm' _].
  destruct (create_get _ comps abs1 abs2 _ ns' Hns Hne Hg Hc) as [Hget _].
  pose proof (allocated_locations _ _ _ _ _ _ _ _ Hcm Hord Ha Hnd') as Hlocs.
  destruct (AllocateChunks_shape _ _ _ _ _ _ _ _ Hcm Hord Ha) as [Hlen _].
  split; [by rewrite length_fmap|].
  unfold Server.GetFile.
  cbn [GetFileRequest_Path srv_namespace srv_chunkMgr set_namespace set_chunkMgr].
  rewrite Hget. cbn [fm_ChunkIDs]. rewrite Hlocs.
  destruct (chunk_infos_no_panic cm' (placement_location <$> ps)) as [infos Hinfos].
  { by eapply GetChunkLocations_chunks. }
  rewrite Hinfos. cbn [go_bind]. exists infos. split.
  - unfold pb_file. cbn [fm_Path fm_Size fm_ChunkCount fm_ReplicationFactor fm_CreatedAt].
    do 2 f_equal. rewrite <- !list_fmap_compose. done.
  - rewrite (chunk_infos_length _ _ _ Hinfos), !length_fmap. done.
Qed.

(** Put, then get: after a successful PutFile under a canonical path (and with
    distinct chunk identifiers), GetFile under either spelling of the path answers
    with the file's path, size and chunk count, and with one location per chunk, in
    order, that names exactly the nodes and addresses the placements named; the
    files under other paths keep their metadata. *)
Theorem PutFile_GetFile now ord abs1 abs2 comps size count sum s resp s' :
  srv_inv s → map_order (cm_nodes (srv_chunkMgr s)) ord →
  comps ≠ [] → Forall good_name comps →
  Server.PutFile now ord (mkPutFileRequest (path_of abs1 comps) size count sum) s = (Ok resp, s') →
  PutFileResponse_Success resp = true →
  NoDup (ChunkPlacement_ChunkId <$> PutFileResponse_Placements resp) →
  Z.of_nat (length (PutFileResponse_Placements resp)) = count ∧
  ∃ chunks, Server.GetFile (mkGetFileRequest (path_of abs2 comps)) s' =
    Ok (mkGetFileResponse true ""
          (Some (mkFileInfo (path_of abs1 comps) size (int32 count) 3 chunks (Unix now)))
          ((λ p, mkChunkLocation (ChunkPlacement_ChunkId p) (ChunkPlacement_ChunkIndex p)
                   (ChunkPlacement_NodeAddresses p) (ChunkPlacement_NodeIds p))
             <$> PutFileResponse_Placements resp)) ∧
    length chunks = length (PutFileResponse_Placements resp).
Proof. apply put_get. Qed.
End files.

(** ** Deletion through the server *)

(** Delete: DeleteFile of a canonical path succeeds exactly when the path denotes
    a file; then the path is gone for GetFile, every other path answers as before
    from the namespace, the file's chunks are forgotten by the chunk table and by
    the nodes listed for them, and all other chunks keep their records.  Otherwise
    the server's state is unchanged. *)
Theorem DeleteFile_forgets ord abs comps s :
  srv_inv s → comps ≠ [] → Forall good_name comps →
  match Server.DeleteFile ord (mkDeleteFileRequest (path_of abs comps)) s with
  | (Ok resp, s') =>
      if DeleteFileResponse_Success resp then
        ∃ meta, view (srv_namespace s) comps = Some (NFile meta) ∧
          (∀ p, view (srv_namespace s') p = tree_delete (view (srv_namespace s)) comps p) ∧
          (∀ abs2, ∃ e, Server.GetFile (mkGetFileRequest (path_of abs2 comps)) s' =
             Ok (mkGetFileResponse false e None [])) ∧
          (∀ c, GetChunkMeta c (srv_chunkMgr s') =
             if decide (c ∈ fm_ChunkIDs meta) then None else GetChunkMeta c (srv_chunkMgr s)) ∧
          (∀ c k, c ∈ fm_ChunkIDs meta → k ∈ listed_nodes c (srv_chunkMgr s) →
             c ∉ on_node k (srv_chunkMgr s'))
      else s' = s ∧ ∀ meta, view (srv_namespace s) comps ≠ Some (NFile meta)
  | _ => False
  end.
Proof.
  intros [Hns Hcm _] Hne Hg. unfold Server.DeleteFile. cbn [DeleteFileRequest_Path].
  destruct comps as [|name d _] using rev_ind; [done|].
  apply Forall_app in Hg as Hg'. destruct Hg' as [Hgd _].
  pose proof (DeleteFile_post _ _ _ _ Hns (splitPath_path_of abs d name Hg)) as Hpost.
  rewrite cleanPath_path_of in Hpost by done.
  destruct (Namespace.DeleteFile _ _) as [[r|e|p] ns']; [| |done].
  2: { cbn. destruct Hpost as [-> Hno]. split; [by destruct s|done]. }
  destruct Hpost as (Hns' & Hview & meta & -> & Hmeta).
  pose proof (remove_fold_spec (fm_ChunkIDs meta) ∅ (srv_chunkMgr s)) as (Hc & Hsame & Hn).
  cbn [set_namespace srv_chunkMgr]. unfold RemoveChunks.
  destruct (foldl remove_chunk_step (∅, srv_chunkMgr s) (fm_ChunkIDs meta)) as [addrs cm'].
  cbn [snd] in *. cbn [DeleteFileResponse_Success set_chunkMgr srv_namespace srv_chunkMgr].
  exists meta. split; [done|]. split; [done|]. split; [|split; [exact Hc|]].
  - intros abs2. eexists. unfold Server.GetFile. cbn [srv_namespace GetFileRequest_Path].
    rewrite GetFile_view, cleanPath_path_of, Hview by done. unfold tree_delete.
    by rewrite decide_True.
  - intros c k Hin Hk. unfold on_node. destruct (cm_nodes cm' !! k) as [n'|] eqn:Hn'; [|set_solver].
    destruct (same_ids_inv _ _ _ _ Hsame Hn') as (n & Hn0 & _).
    destruct (Hn k n n' Hn0 Hn') as (_ & _ & _ & Hch). rewrite Hch. tauto.
Qed.

(** ** The prediction tick *)
Definition write_prediction (r : PredictionResult) (n : DataNodeInfo) : DataNodeInfo :=
  set_RiskScore (pr_OverallRisk r) (set_Status (pr_Status r) n).

Lemma UpdateNodeHealth_lookup nid st risk cm k :
  cm_nodes (UpdateNodeHealth nid st risk cm) !! k =
    if decide (k = nid) then (λ n, set_RiskScore risk (set_Status st n)) <$> cm_nodes cm !! k
    else cm_nodes cm !! k.
Proof.
  unfold UpdateNodeHealth. destruct (cm_nodes cm !! nid) as [n|] eqn:Hn; simpl.
  - case_decide as Hk; [subst; by rewrite lookup_insert_eq, Hn|by rewrite lookup_insert_ne].
  - case_decide as Hk; [subst; by rewrite Hn|done].
Qed.

Lemma prediction_fold rs : ∀ acc cm,
  NoDup (pr_NodeID <$> rs) →
  let st := foldl Server.prediction_result (acc, cm) rs in
  st.1 = acc ++ List.filter (λ r, bool_decide (pr_Status r = StatusCritical)) rs ∧
  cm_chunks st.2 = cm_chunks cm ∧
  (∀ k, k ∉ pr_NodeID <$> rs → cm_nodes st.2 !! k = cm_nodes cm !! k) ∧
  (∀ r, r ∈ rs → cm_nodes st.2 !! pr_NodeID r = write_prediction r <$> cm_nodes cm !! pr_NodeID r).
Proof.
  induction rs as [|r rs IH]; intros acc cm Hnd.
  { simpl. rewrite app_nil_r. split; [done|]. split; [done|]. split; [done|].
    by intros r ?%not_elem_of_nil. }
  rewrite fmap_cons in Hnd. apply NoDup_cons in Hnd as [Hr Hnd].
  cbn [foldl Server.prediction_result].
  set (cm1 := UpdateNodeHealth _ _ _ cm).
  destruct (IH (if decide (pr_Status r = StatusCritical) then acc ++ [r] else acc) cm1 Hnd)
    as (H1 & H2 & H3 & H4).
  assert (cm_chunks cm1 = cm_chunks cm) as Hch.
  { unfold cm1, UpdateNodeHealth. by destruct (cm_nodes cm !! pr_NodeID r). }
  split; [|split; [by rewrite H2|split]].
  - rewrite H1. cbn [List.filter]. destruct (decide (pr_Status r = StatusCritical)) as [Hs|Hs].
    + rewrite bool_decide_true by done. by rewrite <- app_assoc.
    + by rewrite bool_decide_false.
  - intros k. rewrite fmap_cons, not_elem_of_cons. intros [Hk Hks]. rewrite H3 by done.
    unfold cm1. rewrite UpdateNodeHealth_lookup. by rewrite decide_False.
  - intros r' [->|Hr']%elem_of_cons.
    + rewrite H3 by done. unfold cm1. rewrite UpdateNodeHealth_lookup. by rewrite decide_True.
    + rewrite (H4 r' Hr'). unfold cm1. rewrite UpdateNodeHealth_lookup.
      rewrite decide_False; [done|]. intros Heq. apply Hr. rewrite <- Heq.
      by apply list_elem_of_fmap_2.
Qed.

Lemma PredictAll_ids now ord m :
  map_order (ms_nodes (mon_store m)) ord → NoDup (pr_NodeID <$> PredictAll now ord m).
Proof.
  intros Hord. eapply sublist_NoDup; [by eapply map_order_nodup|].
  unfold PredictAll, GetAllNodeIDs, AllNodeIDs. rewrite range_map_fst by done. clear Hord.
  induction ord as [|id ord IH]; [constructor|].
  change (omap (λ nodeID, PredictNode now nodeID m) (id :: ord)) with
    (match PredictNode now id m with
     | Some r => r :: omap (λ nodeID, PredictNode now nodeID m) ord
     | None => omap (λ nodeID, PredictNode now nodeID m) ord end).
  destruct (PredictNode now id m) as [r|] eqn:Hr; [|by apply sublist_cons].
  rewrite fmap_cons.
  assert (pr_NodeID r = id) as ->; [|by apply sublist_skip].
  destruct (GetNodeMetrics id m) as [nm|] eqn:Hnm.
  - rewrite (PredictNode_eq now id m nm Hnm) in Hr. apply (inj Some) in Hr. subst r. reflexivity.
  - unfold PredictNode in Hr. by rewrite Hnm in Hr.
Qed.

(** What a tick does, node by node. *)
Lemma prediction_tick now ord s :
  map_order (ms_nodes (mon_store (srv_monitor s))) ord →
  let '(spawned, s') := Server.predictionLoop now ord s in
  srv_namespace s' = srv_namespace s ∧ srv_monitor s' = srv_monitor s ∧
  cm_chunks (srv_chunkMgr s') = cm_chunks (srv_chunkMgr s) ∧
  (∀ k, cm_nodes (srv_chunkMgr s') !! k =
     match PredictNode now k (srv_monitor s) with
     | None => cm_nodes (srv_chunkMgr s) !! k
     | Some r => (λ n, set_RiskScore (pr_OverallRisk r)
                         (set_Status (RiskToStatus (pr_OverallRisk r)) n))
                   <$> cm_nodes (srv_chunkMgr s) !! k
     end) ∧
  (∀ r, r ∈ spawned ↔
     PredictNode now (pr_NodeID r) (srv_monitor s) = Some r ∧
     RiskToStatus (pr_OverallRisk r) = StatusCritical) ∧
  (∀ k n, is_Some (GetNodeMetrics k (srv_monitor s)) →
     cm_nodes (srv_chunkMgr s') !! k = Some n → dn_Status n ≠ StatusDead).
Proof.
  intros Hord. unfold Server.predictionLoop. set (m := srv_monitor s) in *.
  pose proof (prediction_fold (PredictAll now ord m) [] (srv_chunkMgr s)
    (PredictAll_ids now ord m Hord)) as (H1 & H2 & H3 & H4).
  destruct (foldl _ _ _) as [spawned cm']. cbn [fst snd] in *.
  assert (∀ k r, PredictNode now k m = Some r → r ∈ PredictAll now ord m ∧ pr_NodeID r = k) as Hin.
  { intros k r Hr. destruct (GetNodeMetrics k m) as [nm|] eqn:Hnm;
      [|unfold PredictNode in Hr; by rewrite Hnm in Hr].
    split; [|rewrite (PredictNode_eq now k m nm Hnm) in Hr; apply (inj Some) in Hr; by subst r].
    apply list_elem_of_omap. exists k. split; [|done]. unfold GetAllNodeIDs, AllNodeIDs.
    rewrite range_map_fst by done. apply (map_order_elem _ _ _ Hord). by exists nm. }
  assert (∀ k, cm_nodes cm' !! k =
     match PredictNode now k m with
     | None => cm_nodes (srv_chunkMgr s) !! k
     | Some r => (λ n, set_RiskScore (pr_OverallRisk r)
                         (set_Status (RiskToStatus (pr_OverallRisk r)) n))
                   <$> cm_nodes (srv_chunkMgr s) !! k
     end) as Hnodes.
  { intros k. destruct (PredictNode now k m) as [r|] eqn:Hr.
    - destruct (Hin k r Hr) as [Hr' <-]. rewrite (H4 r Hr'). unfold write_prediction.
      by destruct (PredictAll_status _ _ _ _ Hr') as [-> _].
    - apply H3. intros (r & -> & Hr')%list_elem_of_fmap.
      destruct (PredictAll_status _ _ _ _ Hr') as [_ ?]. congruence. }
  do 2 (split; [done|]). split; [exact H2|]. split; [exact Hnodes|]. split.
  - intros r. rewrite H1, app_nil_l, list_elem_of_In, filter_In, <- list_elem_of_In.
    rewrite bool_decide_eq_true. split.
    + intros [Hr Hs]. destruct (PredictAll_status _ _ _ _ Hr) as [Hst Hp].
      split; [done|]. by rewrite <- Hst.
    + intros [Hp Hs]. destruct (Hin _ _ Hp) as [Hr _]. split; [done|].
      destruct (PredictAll_status _ _ _ _ Hr) as [-> _]. done.
  - intros k n [nm Hnm]. cbn [srv_chunkMgr set_chunkMgr]. rewrite Hnodes, (PredictNode_eq now k m nm Hnm).
    intros (n0 & _ & ->)%fmap_Some. cbn [dn_Status set_RiskScore set_Status pr_OverallRisk].
    unfold RiskToStatus. by repeat case_match.
Qed.

(** C36: The prediction tick writes the predicted risk and its status band to every
    registered node with reported metrics and touches no other node and no chunk,
    and it starts a migration for exactly the nodes predicted CRITICAL.  It never
    writes DEAD, so a node that the dead-node checker had marked DEAD, however
    long silent, is alive again after the tick. *)
Theorem predictionLoop_tick now ord s :
  map_order (ms_nodes (mon_store (srv_monitor s))) ord →
  let '(spawned, s') := Server.predictionLoop now ord s in
  srv_namespace s' = srv_namespace s ∧ srv_monitor s' = srv_monitor s ∧
  cm_chunks (srv_chunkMgr s') = cm_chunks (srv_chunkMgr s) ∧
  (∀ k, cm_nodes (srv_chunkMgr s') !! k =
     match PredictNode now k (srv_monitor s) with
     | None => cm_nodes (srv_chunkMgr s) !! k
     | Some r => (λ n, set_RiskScore (pr_OverallRisk r)
                         (set_Status (RiskToStatus (pr_OverallRisk r)) n))
                   <$> cm_nodes (srv_chunkMgr s) !! k
     end) ∧
  (∀ r, r ∈ spawned ↔
     PredictNode now (pr_NodeID r) (srv_monitor s) = Some r ∧
     RiskToStatus (pr_OverallRisk r) = StatusCritical) ∧
  (∀ k n, is_Some (GetNodeMetrics k (srv_monitor s)) →
     cm_nodes (srv_chunkMgr s') !! k = Some n → dn_Status n ≠ StatusDead).
Proof. apply prediction_tick. Qed.

(** ** A rejected upload *)
Section rejected.
Context `{SliceSort} `{!SliceSortSpec}.

Lemma allocate_loop_stored path fileSize healthy repl n : ∀ i cm,
  let '(ps, cm') := allocate_loop path fileSize healthy repl n i cm in
  (∀ c, is_Some (cm_chunks cm !! c) → is_Some (cm_chunks cm' !! c)) ∧
  ∀ j, (j < n)%nat → is_Some (cm_chunks cm' !! GenerateChunkID path (i + Z.of_nat j)).
Proof.
  induction n as [|n IH]; intros i cm; [split; [done|lia]|]. cbn [allocate_loop].
  destruct (allocate_one path fileSize healthy repl i cm) as [p cm1] eqn:Hone.
  assert ((∀ c, is_Some (cm_chunks cm !! c) → is_Some (cm_chunks cm1 !! c)) ∧
    is_Some (cm_chunks cm1 !! GenerateChunkID path i)) as [Hkeep Hnew].
  { unfold allocate_one in Hone. injection Hone as _ <-. cbn [cm_chunks]. split.
    - intros c Hc. destruct (decide (c = GenerateChunkID path i)) as [->|].
      + by rewrite lookup_insert_eq.
      + by rewrite lookup_insert_ne.
    - by rewrite lookup_insert_eq. }
  specialize (IH (i + 1) cm1).
  destruct (allocate_loop path fileSize healthy repl n (i + 1) cm1) as [ps cm2].
  destruct IH as [Hk Hs]. split; [auto|]. intros [|j] Hj.
  - rewrite Z.add_0_r. by apply Hk.
  - replace (i + Z.of_nat (S j)) with (i + 1 + Z.of_nat j) by lia. apply Hs. lia.
Qed.

(** A rejected upload leaks its chunks: PutFile allocates before it consults the
    namespace, so when the namespace refuses the path the client is told of the
    failure and the namespace is unchanged, but every chunk of the upload stays in
    the chunk table, where no file refers to it. *)
Theorem PutFile_rejected_leaks now ord req s resp s' :
  srv_inv s → Server.PutFile now ord req s = (Ok resp, s') →
  PutFileResponse_Success resp = false → healthyNodes now ord (srv_chunkMgr s) ≠ [] →
  srv_namespace s' = srv_namespace s ∧ PutFileResponse_Placements resp = [] ∧
  ∀ i, 0 ≤ i < PutFileRequest_ChunkCount req →
    is_Some (GetChunkMeta (GenerateChunkID (PutFileRequest_Path req) i) (srv_chunkMgr s')).
Proof.
  intros [Hns _ _]. unfold Server.PutFile.
  destruct (AllocateChunks _ _ _ _ _ _) as [[ps|e|w] cm'] eqn:Ha; [| |done].
  2: { unfold AllocateChunks in Ha. case_decide as Hl.
       - intros _ _ Hne. apply nil_length_inv in Hl. done.
       - destruct (_ <? 0); [done|]. by destruct (allocate_loop _ _ _ _ _ _ _). }
  destruct (CreateFile _ _ _) as [[[]|e|w] ns'] eqn:Hc; [by intros [= <- <-]| |done].
  intros [= <- <-] _ _. cbn [set_namespace set_chunkMgr srv_namespace srv_chunkMgr].
  split; [|split; [done|]].
  - destruct (splitPath (PutFileRequest_Path req)) as [[dir name]|e'|w] eqn:Hs.
    + pose proof (CreateFile_post _ _ _ _ (mkFileMeta (PutFileRequest_Path req)
        (PutFileRequest_FileSize req) (PutFileRequest_ChunkCount req) DefaultReplicationFactor
        (PutFileRequest_Checksum req) (cp_ChunkID <$> ps) now) Hns Hs) as Hpost.
      cbn [set_chunkMgr srv_namespace] in Hc. rewrite Hc in Hpost. by destruct Hpost.
    + destruct (splitPath_Err_ops _ e' (mkFileMeta (PutFileRequest_Path req)
        (PutFileRequest_FileSize req) (PutFileRequest_ChunkCount req) DefaultReplicationFactor
        (PutFileRequest_Checksum req) (cp_ChunkID <$> ps) now) (srv_namespace s) Hs) as [Hcr _].
      cbn [set_chunkMgr srv_namespace] in Hc. rewrite Hcr in Hc. by injection Hc.
    + by apply splitPath_no_panic in Hs.
  - intros i Hi. apply AllocateChunks_Ok in Ha as (_ & _ & Hloop).
    pose proof (allocate_loop_stored (PutFileRequest_Path req) (PutFileRequest_FileSize req)
      (healthyNodes now ord (srv_chunkMgr s))
      (replicas (length (healthyNodes now ord (srv_chunkMgr s))))
      (Z.to_nat (PutFileRequest_ChunkCount req)) 0 (srv_chunkMgr s)) as Hst.
    rewrite Hloop in Hst. destruct Hst as [_ Hst].
    specialize (Hst (Z.to_nat i) ltac:(lia)). by rewrite Z.add_0_l, Z2Nat.id in Hst by lia.
Qed.
End rejected.

(** ** Concrete runs *)
Section witnesses.
Definition demo_srv : MetaServer := mkMetaServer NewNamespace demo_cm NewMonitor NewMigrator 1 2.

Lemma demo_srv_inv : srv_inv demo_srv.
Proof. split; [apply wf_NewNamespace|exact demo_inv|apply monitor_wf_new]. Qed.

Definition demo_put : PutFileRequest := mkPutFileRequest (path_of true ["a"; "b"]) demo_size 2 "sum".
Definition demo_put_run : go PutFileResponse * MetaServer :=
  Server.PutFile 0 demo_ord demo_put demo_srv.
Definition demo_put_resp : PutFileResponse :=
  match demo_put_run.1 with Ok r => r | _ => mkPutFileResponse false "" [] end.
Definition demo_srv2 : MetaServer := demo_put_run.2.

Lemma demo_put_ok : Server.PutFile 0 demo_ord demo_put demo_srv = (Ok demo_put_resp, demo_srv2).
Proof. vm_compute. reflexivity. Qed.

Lemma demo_srv2_inv : srv_inv demo_srv2.
Proof.
  exact (srv_step_inv demo_srv demo_srv2 demo_srv_inv
    (srv_PutFile 0 demo_ord demo_put _ demo_srv demo_srv2 demo_order demo_put_ok)).
Qed.

Lemma server_invariant_witness :
  ∃ s, rtc srv_step (Server.NewServer 1 2) s ∧ srv_inv s ∧
    size (cm_nodes (srv_chunkMgr s)) = 1%nat.
Proof.
  exists (Server.RegisterNode 0 [] (mkRegisterNodeRequest "a:9000" 10) (Server.NewServer 1 2)).2.
  assert (rtc srv_step (Server.NewServer 1 2)
    (Server.RegisterNode 0 [] (mkRegisterNodeRequest "a:9000" 10) (Server.NewServer 1 2)).2) as Hr.
  { apply rtc_once. apply (srv_RegisterNode 0 [] (mkRegisterNodeRequest "a:9000" 10)
      (Server.RegisterNode 0 [] (mkRegisterNodeRequest "a:9000" 10) (Server.NewServer 1 2)).1);
      [vm_compute; constructor|apply surjective_pairing]. }
  split; [exact Hr|]. split; [|vm_compute; reflexivity].
  exact (proj1 (server_invariant 1 2 _ Hr)).
Defined.

Lemma PutFile_GetFile_witness :
  ∃ chunks, Server.GetFile (mkGetFileRequest (path_of false ["a"; "b"])) demo_srv2 =
    Ok (mkGetFileResponse true ""
          (Some (mkFileInfo (path_of true ["a"; "b"]) demo_size (int32 2) 3 chunks (Unix 0)))
          ((λ p, mkChunkLocation (ChunkPlacement_ChunkId p) (ChunkPlacement_ChunkIndex p)
                   (ChunkPlacement_NodeAddresses p) (ChunkPlacement_NodeIds p))
             <$> PutFileResponse_Placements demo_put_resp)) ∧ length chunks = 2%nat.
Proof.
  assert (Forall good_name ["a"; "b"]) as Hg by (repeat constructor; discriminate).
  assert (PutFileResponse_Success demo_put_resp = true) as Hs by (vm_compute; reflexivity).
  assert (NoDup (ChunkPlacement_ChunkId <$> PutFileResponse_Placements demo_put_resp)) as Hnd
    by (apply (bool_decide_unpack _); vm_compute; exact I).
  assert (length (PutFileResponse_Placements demo_put_resp) = 2%nat) as Hl
    by (vm_compute; reflexivity).
  destruct (PutFile_GetFile 0 demo_ord true false ["a"; "b"] demo_size 2 "sum" demo_srv
    demo_put_resp demo_srv2 demo_srv_inv demo_order ltac:(discriminate) Hg demo_put_ok Hs Hnd)
    as (_ & chunks & Hget & Hlen).
  exists chunks. split; [exact Hget|]. rewrite Hlen. exact Hl.
Defined.

Lemma DeleteFile_forgets_witness :
  ∃ s', Server.DeleteFile [] (mkDeleteFileRequest (path_of true ["a"; "b"])) demo_srv2
      = (Ok (mkDeleteFileResponse true "file deleted"), s') ∧
    view (srv_namespace s') ["a"; "b"] = None.
Proof.
  assert (Forall good_name ["a"; "b"]) as Hg by (repeat constructor; discriminate).
  pose proof (DeleteFile_forgets [] true ["a"; "b"] demo_srv2 demo_srv2_inv ltac:(discriminate) Hg) as H.
  assert ((Server.DeleteFile [] (mkDeleteFileRequest (path_of true ["a"; "b"])) demo_srv2).1
    = Ok (mkDeleteFileResponse true "file deleted")) as Hr by (vm_compute; reflexivity).
  destruct (Server.DeleteFile [] (mkDeleteFileRequest (path_of true ["a"; "b"])) demo_srv2) as [r s'].
  cbn [fst] in Hr. rewrite Hr in H. cbn [DeleteFileResponse_Success] in H.
  destruct H as (meta & _ & Hview & _). exists s'. rewrite Hr. split; [reflexivity|].
  rewrite Hview. reflexivity.
Defined.

(** All nodes are silent for 16 s and marked DEAD; node-1 had reported metrics. *)
Definition demo_silent : MetaServer :=
  mkMetaServer NewNamespace (CheckDeadNodes demo_now demo_ord demo_cm).2
    (demo_monitor (f64_of_Z 50)) NewMigrator 1 2.
Definition demo_silent_ord : list string := map_keys (ms_nodes (mon_store (srv_monitor demo_silent))).

Lemma predictionLoop_tick_witness :
  dn_Status <$> cm_nodes (srv_chunkMgr demo_silent) !! "node-1" = Some StatusDead ∧
  dn_Status <$> cm_nodes (srv_chunkMgr (Server.predictionLoop demo_now demo_silent_ord demo_silent).2)
    !! "node-1" = Some StatusWarning ∧
  cm_chunks (srv_chunkMgr (Server.predictionLoop demo_now demo_silent_ord demo_silent).2)
    = cm_chunks (srv_chunkMgr demo_silent).
Proof.
  split; [vm_compute; reflexivity|]. split; [vm_compute; reflexivity|].
  pose proof (predictionLoop_tick demo_now demo_silent_ord demo_silent (map_order_keys _)) as H.
  destruct (Server.predictionLoop demo_now demo_silent_ord demo_silent) as [sp s'].
  exact (proj1 (proj2 (proj2 H))).
Defined.

(** "/a" is a directory once "/a/b" exists. *)
Definition demo_reject : PutFileRequest := mkPutFileRequest "/a" 100 1 "sum".
Definition demo_reject_run : go PutFileResponse * MetaServer :=
  Server.PutFile 0 demo_ord demo_reject demo_srv2.

Lemma PutFile_rejected_leaks_witness :
  is_Some (GetChunkMeta (GenerateChunkID "/a" 0) (srv_chunkMgr demo_reject_run.2)) ∧
  GetChunkMeta (GenerateChunkID "/a" 0) (srv_chunkMgr demo_srv2) = None ∧
  srv_namespace demo_reject_run.2 = srv_namespace demo_srv2.
Proof.
  assert (Server.PutFile 0 demo_ord demo_reject demo_srv2 =
    (Ok (mkPutFileResponse false "path /a is a directory" []), demo_reject_run.2)) as Hrun
    by (vm_compute; reflexivity).
  assert (healthyNodes 0 demo_ord (srv_chunkMgr demo_srv2) ≠ []) as Hh
    by (vm_compute; discriminate).
  destruct (PutFile_rejected_leaks 0 demo_ord demo_reject demo_srv2 _ _ demo_srv2_inv Hrun eq_refl Hh)
    as (Hns & _ & Hleak).
  split; [exact (Hleak 0 (conj (Z.le_refl 0) eq_refl))|]. split; [vm_compute; reflexivity|exact Hns].
Defined.
End witnesses.
