(* ===== verification/Detection.v ===== *)
(** * When nodes are declared dead

    The metadata server over time: its handlers, the ticks of its background
    routines and the calls of migrations as timed steps.  A node that keeps sending
    heartbeats is never declared dead; a node that falls silent is, in bounded time.
    The periods and timeouts are those of the code. *)
From S2P Require Export MetaServerSpec.
Local Open Scope Z_scope.

(** ** Periods of the code *)
Definition deadCheckPeriod : Duration := 5 * Second.

(** The time-out of the context of [sendHeartbeat]: a heartbeat arrives within it or
    not at all. *)
Definition heartbeatTimeout : Duration := 3 * Second.

(** The instants at which the loop of [heartbeatLoop] sends, for a ticker created at
    [start]. *)
Definition heartbeat_tick (start : Time) (i : nat) : Time := start + (Z.of_nat i + 1) * HeartbeatInterval.

(** ** Timed steps *)
Inductive label :=
  | LHeartbeat (nid : string)
  | LRegister (addr : string)
  | LCheck
  | LPredict
  | LOther.

#[global] Instance label_eq_dec : EqDecision label.
Proof. solve_decision. Defined.

Section timed.
Context `{SliceSort} `{!SliceSortSpec}.

Inductive timed_step (t : Time) : label → MetaServer → MetaServer → Prop :=
  | ts_Heartbeat req r s s' :
      Server.Heartbeat t req s = (r, s') → timed_step t (LHeartbeat (HeartbeatRequest_NodeId req)) s s'
  | ts_RegisterNode ord req r s s' :
      map_order (cm_nodes (srv_chunkMgr s)) ord → Server.RegisterNode t ord req s = (r, s') →
      timed_step t (LRegister (RegisterNodeRequest_Address req)) s s'
  | ts_deadNodeChecker ord s :
      map_order (cm_nodes (srv_chunkMgr s)) ord →
      timed_step t LCheck s (Server.deadNodeChecker t ord s)
  | ts_predictionLoop ord s : timed_step t LPredict s (Server.predictionLoop t ord s).2
  | ts_PutFile ord req r s s' :
      map_order (cm_nodes (srv_chunkMgr s)) ord → Server.PutFile t ord req s = (r, s') →
      timed_step t LOther s s'
  | ts_DeleteFile ord req r s s' : Server.DeleteFile ord req s = (r, s') → timed_step t LOther s s'
  | ts_ReportHealth req r s s' : Server.ReportHealth req s = (r, s') → timed_step t LOther s s'
  | ts_AddChunkToNode cid nid s :
      is_Some (cm_nodes (srv_chunkMgr s) !! nid) →
      timed_step t LOther s (set_chunkMgr (AddChunkToNode cid nid (srv_chunkMgr s)) s)
  | ts_RemoveChunkFromNode cid nid s :
      timed_step t LOther s (set_chunkMgr (RemoveChunkFromNode cid nid (srv_chunkMgr s)) s).

(** A run with the instants of its steps. *)
Inductive timed_run : list (Time * label) → MetaServer → MetaServer → Prop :=
  | run_nil s : timed_run [] s s
  | run_cons t l tr s s1 s' :
      timed_step t l s s1 → timed_run tr s1 s' → timed_run ((t, l) :: tr) s s'.

Lemma timed_run_app tr1 tr2 s s' :
  timed_run (tr1 ++ tr2) s s' ↔ ∃ s1, timed_run tr1 s s1 ∧ timed_run tr2 s1 s'.
Proof.
  revert s. induction tr1 as [|[t l] tr1 IH]; intros s; simpl.
  - split; [intros Hr; exists s; by split; [constructor|]|].
    intros (s1 & H1 & H2). inversion H1; by subst.
  - split.
    + intros Hr. inversion Hr as [|? ? ? ? s1 ? Hs Htr]; subst. apply IH in Htr as (s2 & H1 & H2).
      exists s2. split; [by econstructor|done].
    + intros (s2 & H1 & H2). inversion H1 as [|? ? ? ? s1 ? Hs Htr]; subst.
      econstructor; [exact Hs|]. apply IH. eauto.
Qed.

Lemma timed_step_inv t l s s' : srv_inv s → timed_step t l s s' → srv_inv s'.
Proof.
  intros Hinv. destruct 1 as
    [req r s s' Hrun|ord req r s s' Hord Hrun|ord s Hord|ord s|ord req r s s' Hord Hrun
    |ord req r s s' Hrun|req r s s' Hrun|cid nid s Hreg|cid nid s].
  1-7: eapply srv_step_inv; [exact Hinv|by econstructor].
  - destruct Hinv as [? ? ?]. split; [done| |done]. by apply AddChunkToNode_inv.
  - destruct Hinv as [? ? ?]. split; [done| |done]. by apply RemoveChunkFromNode_inv.
Qed.

(** ** One node *)

(** Does the step bring news from the node? *)
Definition contacts (nid : string) (n : DataNodeInfo) (l : label) : bool :=
  match l with
  | LHeartbeat k => bool_decide (k = nid)
  | LRegister addr => bool_decide (addr = dn_Address n)
  | _ => false
  end.

(** What a step does to the status of a node. *)
Definition status_after (t : Time) (nid : string) (n : DataNodeInfo) (l : label) (st : NodeStatus) : Prop :=
  match l with
  | LHeartbeat k =>
      st = if decide (k = nid ∧ dn_Status n = StatusDead) then StatusHealthy else dn_Status n
  | LCheck => st = if is_stale t n then StatusDead else dn_Status n
  | LPredict => st = dn_Status n ∨ st ≠ StatusDead
  | LRegister _ | LOther => st = dn_Status n
  end.

Definition node_after (t : Time) (nid : string) (l : label) (n n' : DataNodeInfo) : Prop :=
  dn_Address n' = dn_Address n ∧
  dn_LastHeartbeat n' = (if contacts nid n l then t else dn_LastHeartbeat n) ∧
  status_after t nid n l (dn_Status n').

Lemma prediction_status now ord m r : r ∈ PredictAll now ord m → pr_Status r ≠ StatusDead.
Proof.
  intros [-> _]%PredictAll_status. unfold RiskToStatus. by repeat case_match.
Qed.

Lemma prediction_fold_node rs nid n : ∀ acc cm,
  (∀ r, r ∈ rs → pr_Status r ≠ StatusDead) → cm_nodes cm !! nid = Some n →
  ∃ n', cm_nodes (foldl Server.prediction_result (acc, cm) rs).2 !! nid = Some n' ∧
    dn_Address n' = dn_Address n ∧ dn_LastHeartbeat n' = dn_LastHeartbeat n ∧
    (dn_Status n' = dn_Status n ∨ dn_Status n' ≠ StatusDead).
Proof.
  revert n. induction rs as [|r rs IH]; intros n acc cm Hrs Hn; [exists n; auto|].
  cbn [foldl Server.prediction_result].
  pose proof (UpdateNodeHealth_lookup (pr_NodeID r) (pr_Status r) (pr_OverallRisk r) cm nid) as Hu.
  rewrite Hn in Hu. assert (∀ r, r ∈ rs → pr_Status r ≠ StatusDead) as Hrs' by (intros; apply Hrs; by right).
  destruct (decide (nid = pr_NodeID r)) as [->|Hne].
  - destruct (IH _ (if decide (pr_Status r = StatusCritical) then acc ++ [r] else acc) _ Hrs' Hu)
      as (n' & Hn' & Ha & Hl & Hs).
    exists n'. split; [done|]. split; [done|]. split; [done|]. right.
    destruct Hs as [->|]; [|done]. apply Hrs. left.
  - by apply IH.
Qed.

(** What each operation does to a node. *)
Lemma UpdateHeartbeat_node t k used count r cm cm' nid n :
  UpdateHeartbeat t k used count cm = (r, cm') → cm_nodes cm !! nid = Some n →
  ∃ n', cm_nodes cm' !! nid = Some n' ∧ node_after t nid (LHeartbeat k) n n'.
Proof.
  unfold UpdateHeartbeat, node_after, status_after. intros Hrun Hn.
  destruct (decide (k = nid)) as [->|Hne].
  - rewrite Hn in Hrun. injection Hrun as <- <-. cbn [cm_nodes]. rewrite lookup_insert_eq.
    eexists. split; [done|]. cbn [contacts]. rewrite bool_decide_true by done.
    case_decide as Hd; simpl in *; (split; [done|]; split; [done|]).
    + by rewrite decide_True.
    + rewrite decide_False; naive_solver.
  - exists n. cbn [contacts]. rewrite bool_decide_false, decide_False by naive_solver.
    split; [|done]. destruct (cm_nodes cm !! k); injection Hrun as <- <-; [|done].
    cbn [cm_nodes]. by rewrite lookup_insert_ne.
Qed.

Lemma RegisterNode_node t ord addr cap r cm cm' nid n :
  cm_inv cm → map_order (cm_nodes cm) ord →
  ChunkManager.RegisterNode t ord addr cap cm = (r, cm') → cm_nodes cm !! nid = Some n →
  ∃ n', cm_nodes cm' !! nid = Some n' ∧ node_after t nid (LRegister addr) n n'.
Proof.
  intros Hcm Hord Hrun Hn. unfold node_after, status_after. cbn [contacts].
  destruct (RegisterNode_spec t ord addr cap cm Hcm Hord) as (k & cm1 & Hr & _ & Hother & Hk).
  rewrite Hr in Hrun. injection Hrun as <- <-. destruct (decide (nid = k)) as [->|Hne].
  - rewrite Hn in Hk. destruct Hk as [Ha Hk]. rewrite Hk. eexists. split; [done|].
    simpl. by rewrite bool_decide_true.
  - rewrite (Hother nid Hne). exists n. split; [done|].
    rewrite bool_decide_false; [done|]. intros Ha. destruct (cm_nodes cm !! k) as [m|] eqn:Hm.
    + destruct Hk as [Hma _]. apply Hne. eapply (inv_addr _ Hcm); [done..|congruence].
    + destruct Hk as [Hnew _]. by apply (Hnew nid n Hn).
Qed.

Lemma AllocateChunks_node t ord path count size cm nid n :
  cm_inv cm → map_order (cm_nodes cm) ord → cm_nodes cm !! nid = Some n →
  ∃ n', cm_nodes (AllocateChunks t ord path count size cm).2 !! nid = Some n' ∧
    node_after t nid LOther n n'.
Proof.
  intros Hcm Hord Hn. destruct (AllocateChunks t ord path count size cm) as [[ps|e|w] cm'] eqn:Ha.
  - apply AllocateChunks_Ok in Ha as (_ & _ & Hloop).
    pose proof (allocate_loop_nodes path size (healthyNodes t ord cm)
      (replicas (length (healthyNodes t ord cm))) (Z.to_nat count) 0 cm Hcm
      (healthyNodes_nodup _ _ _ Hord) (λ k, healthyNodes_registered t ord cm k Hord)) as Hnodes.
    rewrite Hloop in Hnodes. destruct (Hnodes nid n Hn) as (X & HX & _). by eexists.
  - exists n. unfold AllocateChunks in Ha. case_decide; [by injection Ha as _ <-|].
    destruct (_ <? 0); [done|]. by destruct (allocate_loop _ _ _ _ _ _ _).
  - exists n. unfold AllocateChunks in Ha. case_decide; [done|].
    destruct (_ <? 0); [by injection Ha as _ <-|]. by destruct (allocate_loop _ _ _ _ _ _ _).
Qed.

Lemma RemoveChunks_node t ord ids cm nid n :
  cm_nodes cm !! nid = Some n →
  ∃ n', cm_nodes (RemoveChunks ord ids cm).2 !! nid = Some n' ∧ node_after t nid LOther n n'.
Proof.
  intros Hn. pose proof (remove_fold_spec ids ∅ cm) as (_ & Hids & Hsame). unfold RemoveChunks.
  destruct (foldl remove_chunk_step _ _) as [addrs cm']. cbn [snd] in *.
  destruct (proj1 (proj1 Hids nid) (mk_is_Some _ _ Hn)) as [n' Hn']. exists n'. split; [done|].
  destruct (Hsame nid n n' Hn Hn') as (Hs & _ & Hl & _).
  destruct (same_ids_inv _ _ _ _ Hids Hn') as (n0 & Hn0 & ?). simplify_eq. unfold node_after. naive_solver.
Qed.

Lemma alter_chunks_node t f k (N : gmap string DataNodeInfo) nid n :
  N !! nid = Some n → ∃ n', alter (set_Chunks f) k N !! nid = Some n' ∧ node_after t nid LOther n n'.
Proof.
  intros Hn. destruct (decide (k = nid)) as [->|Hne].
  - rewrite lookup_alter_eq, Hn. by eexists.
  - rewrite lookup_alter_ne, Hn by done. by eexists.
Qed.

Lemma timed_step_node t l s s' nid n :
  srv_inv s → timed_step t l s s' → cm_nodes (srv_chunkMgr s) !! nid = Some n →
  ∃ n', cm_nodes (srv_chunkMgr s') !! nid = Some n' ∧ node_after t nid l n n'.
Proof.
  intros [Hns Hcm _]. destruct 1 as
    [req r s s' Hrun|ord req r s s' Hord Hrun|ord s Hord|ord s|ord req r s s' Hord Hrun
    |ord req r s s' Hrun|req r s s' Hrun|cid k s Hreg|cid k s]; intros Hn.
  - unfold Server.Heartbeat in Hrun. destruct (UpdateHeartbeat _ _ _ _ _) as [r1 cm'] eqn:Hu.
    destruct (UpdateHeartbeat_node _ _ _ _ _ _ _ _ _ Hu Hn) as (n' & Hn' & Ha). exists n'.
    split; [|done]. by destruct r1; injection Hrun as _ <-.
  - unfold Server.RegisterNode in Hrun. destruct (ChunkManager.RegisterNode _ _ _ _ _) as [r1 cm'] eqn:Hu.
    destruct (RegisterNode_node _ _ _ _ _ _ _ _ _ Hcm Hord Hu Hn) as (n' & Hn' & Ha). exists n'.
    split; [|done]. by destruct r1; injection Hrun as _ <-.
  - cbn [Server.deadNodeChecker set_chunkMgr srv_chunkMgr].
    destruct (CheckDeadNodes_state t ord _ Hord) as (_ & _ & Hst).
    rewrite (Hst nid), Hn. eexists. split; [done|]. unfold node_after, status_after. simpl.
    by destruct (is_stale t n).
  - unfold Server.predictionLoop.
    destruct (prediction_fold_node (PredictAll t ord (srv_monitor s)) nid n [] (srv_chunkMgr s))
      as (n' & Hn' & Hrest); [intros r; apply prediction_status|done|].
    destruct (foldl _ _ _) as [sp cm]. exists n'. by split.
  - unfold Server.PutFile in Hrun.
    destruct (AllocateChunks_node t ord (PutFileRequest_Path req) (PutFileRequest_ChunkCount req)
      (PutFileRequest_FileSize req) _ nid n Hcm Hord Hn) as (n' & Hn' & Ha). exists n'. split; [|done].
    destruct (AllocateChunks _ _ _ _ _ _) as [[ps|e|w] cm']; [|by injection Hrun as _ <-..].
    by destruct (CreateFile _ _ _) as [[] ns]; injection Hrun as _ <-.
  - unfold Server.DeleteFile in Hrun.
    destruct (Namespace.DeleteFile _ _) as [[[meta|]|e|w] ns]; [|by injection Hrun as _ <-; exists n..].
    destruct (RemoveChunks_node t ord (fm_ChunkIDs meta) _ nid n Hn) as (n' & Hn' & Ha). exists n'.
    split; [|done]. cbn [set_namespace srv_chunkMgr] in Hrun.
    destruct (RemoveChunks _ _ _) as [addrs cm']. by injection Hrun as _ <-.
  - unfold Server.ReportHealth in Hrun. destruct (ReportHealthRequest_Metrics req) as [m|];
      [destruct (GetNode _ _)|]; injection Hrun as _ <-; by exists n.
  - cbn [set_chunkMgr srv_chunkMgr]. rewrite AddChunkToNode_nodes. by apply alter_chunks_node.
  - cbn [set_chunkMgr srv_chunkMgr]. rewrite RemoveChunkFromNode_nodes. by apply alter_chunks_node.
Qed.

(** ** Runs *)
Definition ordered (start : Time) (tr : list (Time * label)) : Prop :=
  Forall (λ e, start ≤ e.1) tr ∧ StronglySorted (λ e e', e.1 ≤ e'.1) tr.

Lemma ordered_snoc start tr t l :
  ordered start (tr ++ [(t, l)]) → ordered start tr ∧ start ≤ t ∧ ∀ e, e ∈ tr → e.1 ≤ t.
Proof.
  intros [Hall Hs]. apply Forall_app in Hall as [Hall Ht]. apply Forall_cons in Ht as [Ht _].
  apply StronglySorted_app in Hs as (Hle & Hs & _). split; [done|]. split; [done|].
  intros e He. apply (Hle e (t, l)); [done|by left].
Qed.

Lemma ordered_app start tr1 tr2 : ordered start (tr1 ++ tr2) → ordered start tr1.
Proof.
  intros [Hall Hs]. apply Forall_app in Hall as [Hall _]. by apply StronglySorted_app in Hs as (_ & Hs & _).
Qed.

Lemma timed_run_inv tr s s' : srv_inv s → timed_run tr s s' → srv_inv s'.
Proof. intros Hinv Hrun. induction Hrun; [done|]. by eapply IHHrun, timed_step_inv. Qed.

(** The registry never forgets a node, and its last sign of life only moves forward. *)
Lemma timed_run_heard start tr : ∀ s s' nid n,
  srv_inv s → timed_run tr s s' → ordered start tr →
  cm_nodes (srv_chunkMgr s) !! nid = Some n → dn_LastHeartbeat n ≤ start →
  ∃ n', cm_nodes (srv_chunkMgr s') !! nid = Some n' ∧ dn_Address n' = dn_Address n ∧
    dn_LastHeartbeat n ≤ dn_LastHeartbeat n' ∧
    (∀ t, (t, LHeartbeat nid) ∈ tr → t ≤ dn_LastHeartbeat n') ∧
    (dn_LastHeartbeat n' = dn_LastHeartbeat n ∨
     ∃ e, e ∈ tr ∧ contacts nid n e.2 = true ∧ dn_LastHeartbeat n' = e.1).
Proof.
  induction tr as [|[t l] tr IH] using rev_ind; intros s s' nid n Hinv Hrun Hord Hn Hlast.
  { inversion Hrun; subst. exists n. split; [done|]. split; [done|]. split; [done|].
    split; [by intros t ?%not_elem_of_nil|by left]. }
  apply timed_run_app in Hrun as (s1 & Hrun & Hstep). apply ordered_snoc in Hord as (Hord & Hst & Hle).
  destruct (IH s s1 nid n Hinv Hrun Hord Hn Hlast) as (n1 & Hn1 & Ha1 & Hl1 & Hh1 & Hwhen).
  inversion Hstep as [|? ? ? ? s2 ? Hs Hnil]; subst. inversion Hnil; subst.
  destruct (timed_step_node t l s1 s' nid n1) as (n2 & Hn2 & Ha2 & Hl2 & _);
    [by eapply timed_run_inv|done|done|].
  exists n2. split; [done|]. split; [congruence|].
  assert (contacts nid n1 l = contacts nid n l) as Hc by (unfold contacts; by rewrite Ha1).
  rewrite Hc in Hl2. destruct (contacts nid n l) eqn:Hcl; rewrite Hl2.
  - split; [lia|]. split.
    + intros u [Hu|[= -> _]%list_elem_of_singleton]%elem_of_app; [by apply (Hle (u, LHeartbeat nid))|done].
    + right. exists (t, l). split; [|done]. apply elem_of_app. right. by left.
  - split; [done|]. split.
    + intros u [Hu|[= -> <-]%list_elem_of_singleton]%elem_of_app; [by apply Hh1|].
      simpl in Hcl. by rewrite bool_decide_true in Hcl.
    + destruct Hwhen as [|(e & He & ?)]; [by left|right]. exists e. split; [|done].
      apply elem_of_app. by left.
Qed.

(** ** A node that keeps sending is never declared dead *)

(** Of any [lost + 1] heartbeats in a row at least one arrives, within [delay]. *)
Definition heartbeats_arrive (start : Time) (nid : string) (lost : nat) (delay : Duration)
    (tr : list (Time * label)) : Prop :=
  ∀ i t, heartbeat_tick start (i + lost) + delay < t → (t, LCheck) ∈ tr →
    ∃ j u, (i ≤ j ≤ i + lost)%nat ∧ heartbeat_tick start j ≤ u ≤ heartbeat_tick start j + delay ∧
      (u, LHeartbeat nid) ∈ tr.

(** The last run of [lost + 1] heartbeats before an instant. *)
Lemma last_window start lost delay t :
  t ≤ heartbeat_tick start lost + delay ∨
  ∃ i, heartbeat_tick start (i + lost) + delay < t ≤ heartbeat_tick start (i + lost) + delay + HeartbeatInterval.
Proof.
  destruct (decide (t ≤ heartbeat_tick start lost + delay)) as [|Hlt]; [by left|right].
  unfold heartbeat_tick, HeartbeatInterval, Second in *.
  set (x := t - delay - start - (Z.of_nat lost + 1) * (3 * 1000000000) - 1).
  exists (Z.to_nat (x / (3 * 1000000000))).
  assert (0 ≤ x) as Hx by (unfold x; lia).
  pose proof (Z.div_pos x (3 * 1000000000) Hx ltac:(lia)) as Hq.
  pose proof (Z.div_mod x (3 * 1000000000) ltac:(lia)) as Hd.
  pose proof (Z.mod_pos_bound x (3 * 1000000000) ltac:(lia)) as Hm.
  rewrite Nat2Z.inj_add, Z2Nat.id by done. unfold x in *. lia.
Qed.

Lemma not_stale t n : t - dn_LastHeartbeat n ≤ DeadNodeTimeout → is_stale t n = false.
Proof.
  intros Hgap. unfold is_stale, Since. rewrite Sub_gtb by (unfold DeadNodeTimeout, Second; lia).
  destruct (Z.ltb_spec DeadNodeTimeout (t - dn_LastHeartbeat n)); [lia|]. apply andb_false_r.
Qed.

(** C15: Keep-alive: a node whose heartbeat loop (every 3 s) gets at least one of any
    [lost + 1] consecutive heartbeats through, each within [delay], is DEAD at no moment,
    whatever else the server does in between, as long as the longest silence that
    allows, [(lost + 1)] intervals plus the delay plus the time from the registration
    to the start of the loop, does not exceed the 15 s of [DeadNodeTimeout].  With
    the 3 s time-out of the heartbeat call, up to two heartbeats in a row may be lost
    if the loop starts within 3 s. *)
Theorem heartbeating_node_stays_alive start gap lost delay s nid n tr pre suf s' :
  srv_inv s → cm_nodes (srv_chunkMgr s) !! nid = Some n → dn_Status n ≠ StatusDead →
  start - gap ≤ dn_LastHeartbeat n ≤ start → 0 ≤ delay →
  (Z.of_nat lost + 1) * HeartbeatInterval + delay + gap ≤ DeadNodeTimeout →
  ordered start tr → heartbeats_arrive start nid lost delay tr →
  tr = pre ++ suf → timed_run pre s s' →
  ∃ n', cm_nodes (srv_chunkMgr s') !! nid = Some n' ∧ dn_Status n' ≠ StatusDead.
Proof.
  intros Hinv Hn Halive Hlast Hdelay Hbound Hord Harr -> Hrun. revert s' suf Hrun Hord Harr.
  induction pre as [|[t l] pre IH] using rev_ind; intros s' suf Hrun Hord Harr.
  { inversion Hrun; subst. eauto. }
  apply timed_run_app in Hrun as (s1 & Hrun & Hstep). rewrite <- app_assoc in Hord, Harr.
  destruct (IH s1 _ Hrun Hord Harr) as (n1 & Hn1 & Halive1).
  inversion Hstep as [|? ? ? ? s2 ? Hs Hnil]; subst. inversion Hnil; subst.
  destruct (timed_step_node t l s1 s' nid n1) as (n2 & Hn2 & _ & _ & Hst);
    [by eapply timed_run_inv|done|done|].
  exists n2. split; [done|]. destruct l as [k|addr| | |]; cbn [status_after] in Hst.
  - rewrite Hst. by case_decide.
  - by rewrite Hst.
  - rewrite Hst, not_stale; [done|].
    pose proof (ordered_app _ _ _ Hord) as Hpre.
    destruct (timed_run_heard start pre s s1 nid n Hinv Hrun Hpre Hn ltac:(lia))
      as (n1' & Hn1' & _ & Hge & Hheard & _). simplify_eq.
    destruct (last_window start lost delay t) as [Ht|(i & Hi & Ht)].
    { unfold heartbeat_tick in Ht. lia. }
    destruct (Harr i t Hi) as (j & u & Hj & Hu & Hin); [apply elem_of_app; right; by left|].
    assert (u < t) as Hut by (unfold heartbeat_tick, HeartbeatInterval, Second in *; lia).
    assert ((u, LHeartbeat nid) ∈ pre) as Hpre'.
    { apply elem_of_app in Hin as [|Hin]; [done|]. exfalso. destruct Hord as [_ Hs'].
      apply StronglySorted_app in Hs' as (_ & _ & Hs'). apply StronglySorted_inv in Hs' as [_ Hall].
      apply elem_of_cons in Hin as [|Hin]; [done|]. rewrite Forall_forall in Hall.
      specialize (Hall _ Hin). simpl in Hall. lia. }
    specialize (Hheard u Hpre'). unfold heartbeat_tick, HeartbeatInterval, Second in *. lia.
  - destruct Hst as [->|]; done.
  - by rewrite Hst.
Qed.

(** ** A silent node is detected *)
Definition silent (nid : string) (n : DataNodeInfo) (tr : list (Time * label)) : Prop :=
  Forall (λ e, contacts nid n e.2 = false) tr.

(** The dead-node checker runs every [deadCheckPeriod], each time at most [late] after
    the tick. *)
Definition checks_run (start finish : Time) (late : Duration) (tr : list (Time * label)) : Prop :=
  ∀ u, start ≤ u → u + deadCheckPeriod + late ≤ finish →
    ∃ t, (t, LCheck) ∈ tr ∧ u < t ≤ u + deadCheckPeriod + late.

Lemma silent_run start tr : ∀ s s' nid n,
  srv_inv s → timed_run tr s s' → ordered start tr → silent nid n tr →
  cm_nodes (srv_chunkMgr s) !! nid = Some n → dn_LastHeartbeat n ≤ start →
  ∃ n', cm_nodes (srv_chunkMgr s') !! nid = Some n' ∧ dn_Address n' = dn_Address n ∧
    dn_LastHeartbeat n' = dn_LastHeartbeat n.
Proof.
  intros s s' nid n Hinv Hrun Hord Hsilent Hn Hlast.
  destruct (timed_run_heard start tr s s' nid n Hinv Hrun Hord Hn Hlast)
    as (n' & Hn' & Ha & _ & _ & [Hl|(e & He & Hc & _)]); [by exists n'|].
  unfold silent in Hsilent. rewrite Forall_forall in Hsilent. by rewrite (Hsilent e He) in Hc.
Qed.

(** Without a prediction tick a dead node that stays silent stays dead. *)
Lemma dead_stays_dead tr : ∀ s s' nid n,
  srv_inv s → timed_run tr s s' → silent nid n tr → (∀ t, (t, LPredict) ∉ tr) →
  cm_nodes (srv_chunkMgr s) !! nid = Some n → dn_Status n = StatusDead →
  ∃ n', cm_nodes (srv_chunkMgr s') !! nid = Some n' ∧ dn_Status n' = StatusDead.
Proof.
  intros s s' nid n Hinv Hrun. revert n. induction Hrun as [s|t l tr s s1 s' Hstep Hrun IH];
    intros n Hsilent Hnopred Hn Hdead; [eauto|].
  apply Forall_cons in Hsilent as [Hc Hsilent]. simpl in Hc.
  destruct (timed_step_node t l s s1 nid n Hinv Hstep Hn) as (n1 & Hn1 & Ha & Hl & Hst).
  apply (IH ltac:(by eapply timed_step_inv) n1).
  - eapply Forall_impl; [exact Hsilent|]. intros e. unfold contacts. by rewrite Ha.
  - intros u Hu. apply (Hnopred u). by right.
  - done.
  - destruct l as [k|addr| | |]; cbn [status_after contacts] in Hst, Hc.
    + rewrite Hst, decide_False; [done|]. intros [-> _]. by rewrite bool_decide_true in Hc.
    + by rewrite Hst.
    + rewrite Hst. by destruct (is_stale t n).
    + exfalso. apply (Hnopred t). left.
    + by rewrite Hst.
Qed.

(** C14: Detection: a node that falls silent is declared DEAD by a run of the checker at
    most [deadCheckPeriod] (5 s) plus the lateness of the ticks after
    [DeadNodeTimeout] (15 s), and stays DEAD while no prediction tick runs; and from
    15 s of silence on it is no candidate for new chunks, whatever status the
    prediction ticks give it. *)
Theorem silent_node_detected finish late s nid n tr s' :
  srv_inv s → cm_nodes (srv_chunkMgr s) !! nid = Some n → 0 ≤ late →
  ordered (dn_LastHeartbeat n) tr → silent nid n tr → timed_run tr s s' →
  checks_run (dn_LastHeartbeat n) finish late tr →
  dn_LastHeartbeat n + DeadNodeTimeout + deadCheckPeriod + late ≤ finish →
  (∃ pre t suf s1 n1, tr = pre ++ (t, LCheck) :: suf ∧
     dn_LastHeartbeat n + DeadNodeTimeout < t
       ≤ dn_LastHeartbeat n + DeadNodeTimeout + deadCheckPeriod + late ∧
     timed_run (pre ++ [(t, LCheck)]) s s1 ∧ timed_run suf s1 s' ∧
     cm_nodes (srv_chunkMgr s1) !! nid = Some n1 ∧ dn_Status n1 = StatusDead ∧
     ((∀ u, (u, LPredict) ∉ suf) →
        ∃ n', cm_nodes (srv_chunkMgr s') !! nid = Some n' ∧ dn_Status n' = StatusDead)) ∧
  (∀ pre suf s1 now ord, tr = pre ++ suf → timed_run pre s s1 →
     dn_LastHeartbeat n + DeadNodeTimeout ≤ now →
     map_order (cm_nodes (srv_chunkMgr s1)) ord → nid ∉ healthyNodes now ord (srv_chunkMgr s1)).
Proof.
  intros Hinv Hn Hlate Hord Hsilent Hrun Hchecks Hfinish. split.
  - destruct (Hchecks (dn_LastHeartbeat n + DeadNodeTimeout)) as (t & Hin & Ht);
      [unfold DeadNodeTimeout, Second; lia|lia|].
    apply list_elem_of_split in Hin as (pre & suf & ->).
    assert (timed_run ((pre ++ [(t, LCheck)]) ++ suf) s s') as Hrun' by (by rewrite <- app_assoc).
    apply timed_run_app in Hrun' as (s1 & Hrun1 & Hrun2).
    pose proof Hrun1 as Hsplit. apply timed_run_app in Hsplit as (s0 & Hrun0 & Hcheck).
    inversion Hcheck as [|? ? ? ? s2 ? Hs Hnil]; subst. inversion Hnil; subst.
    pose proof Hsilent as Hsil. apply Forall_app in Hsil as [Hsil0 Hsil2].
    apply Forall_cons in Hsil2 as [_ Hsil2].
    destruct (silent_run _ pre s s0 nid n Hinv Hrun0 (ordered_app _ _ _ Hord) Hsil0 Hn ltac:(lia))
      as (n0 & Hn0 & Ha0 & Hl0).
    destruct (timed_step_node t LCheck s0 s1 nid n0) as (n1 & Hn1 & Ha1 & _ & Hst);
      [by eapply timed_run_inv|done|done|].
    assert (dn_Status n1 = StatusDead) as Hdead.
    { rewrite Hst. destruct (is_stale t n0) eqn:Hstale; [done|]. unfold is_stale, Since in Hstale.
      rewrite Hl0, Sub_gtb in Hstale by (unfold DeadNodeTimeout, Second; lia).
      destruct (Z.ltb_spec DeadNodeTimeout (t - dn_LastHeartbeat n)); [|lia].
      rewrite andb_true_r, negb_false_iff, bool_decide_eq_true in Hstale. done. }
    exists pre, t, suf, s1, n1. do 6 (split; [done|]). intros Hnopred.
    apply (dead_stays_dead suf s1 s' nid n1); try done; [by eapply timed_run_inv|].
    eapply Forall_impl; [exact Hsil2|]. intros e. unfold contacts. by rewrite Ha1, Ha0.
  - intros pre suf s1 now ord -> Hpre Hnow Hmap (n1 & Hn1 & Hh)%healthyNodes_elem; [|done].
    apply Forall_app in Hsilent as [Hsil0 _].
    destruct (silent_run _ pre s s1 nid n Hinv Hpre (ordered_app _ _ _ Hord) Hsil0 Hn ltac:(lia))
      as (n1' & Hn1' & _ & Hl). simplify_eq.
    unfold is_healthy, Since in Hh. rewrite Hl, Sub_ltb in Hh by (unfold DeadNodeTimeout, Second; lia).
    apply andb_true_iff in Hh as [_ Hlt]. apply Z.ltb_lt in Hlt. lia.
Qed.
End timed.

(** ** Concrete runs: four nodes registered at 0 *)
Section witnesses.
Definition beat (t : Time) (s : MetaServer) : MetaServer :=
  (Server.Heartbeat t (mkHeartbeatRequest "node-1" 10 2) s).2.
Definition check (t : Time) (s : MetaServer) : MetaServer :=
  Server.deadNodeChecker t (map_keys (cm_nodes (srv_chunkMgr s))) s.

Lemma beat_step t s : timed_step t (LHeartbeat "node-1") s (beat t s).
Proof.
  refine (ts_Heartbeat t (mkHeartbeatRequest "node-1" 10 2) _ s (beat t s) _).
  apply surjective_pairing.
Qed.

Lemma check_step t s : timed_step t LCheck s (check t s).
Proof. apply ts_deadNodeChecker, map_order_keys. Qed.

(** Two heartbeats in a row are lost, the next one takes a second. *)
Definition alive_trace : list (Time * label) :=
  [(3 * Second, LHeartbeat "node-1"); (5 * Second, LCheck); (10 * Second, LCheck);
   (13 * Second, LHeartbeat "node-1"); (15 * Second, LCheck); (20 * Second, LCheck)].
Definition alive_end : MetaServer :=
  check (20 * Second) (check (15 * Second) (beat (13 * Second)
    (check (10 * Second) (check (5 * Second) (beat (3 * Second) demo_srv))))).

Lemma alive_run : timed_run alive_trace demo_srv alive_end.
Proof.
  econstructor; [apply beat_step|]. econstructor; [apply check_step|].
  econstructor; [apply check_step|]. econstructor; [apply beat_step|].
  econstructor; [apply check_step|]. econstructor; [apply check_step|]. constructor.
Qed.

Lemma alive_arrive : heartbeats_arrive 0 "node-1" 2 heartbeatTimeout alive_trace.
Proof.
  unfold heartbeatTimeout. intros i t Hi Ht.
  assert (t ≤ 20 * Second) as Hle.
  { assert (Forall (λ e, e.1 ≤ 20 * Second) alive_trace) as Hall
      by (repeat constructor; vm_compute; discriminate).
    rewrite Forall_forall in Hall. exact (Hall _ Ht). }
  destruct (decide (i = 0%nat)) as [->|Hne].
  - exists 0%nat, (3 * Second). split; [lia|]. split; [unfold heartbeat_tick, HeartbeatInterval, Second; lia|left].
  - exists 3%nat, (13 * Second). unfold heartbeat_tick, HeartbeatInterval, Second in *.
    split; [lia|]. split; [lia|]. do 3 right. left.
Qed.

Definition demo_heard (nid : string) (s : MetaServer) : option (Time * NodeStatus) :=
  (λ n, (dn_LastHeartbeat n, dn_Status n)) <$> cm_nodes (srv_chunkMgr s) !! nid.

Definition demo_node1 : DataNodeInfo :=
  mkDataNodeInfo "node-1" "a:9000" 1000 0 0 StatusHealthy f64_zero 0 ∅.

Lemma demo_node1_there : cm_nodes (srv_chunkMgr demo_srv) !! "node-1" = Some demo_node1.
Proof. vm_compute. reflexivity. Qed.

Lemma heartbeating_node_stays_alive_witness :
  (∃ n', cm_nodes (srv_chunkMgr alive_end) !! "node-1" = Some n' ∧ dn_Status n' ≠ StatusDead) ∧
  demo_heard "node-2" alive_end = Some (0, StatusDead).
Proof.
  split; [|vm_compute; reflexivity].
  apply (heartbeating_node_stays_alive 0 0 2 heartbeatTimeout demo_srv "node-1" demo_node1 alive_trace
    alive_trace [] alive_end demo_srv_inv demo_node1_there).
  - discriminate.
  - simpl. lia.
  - unfold heartbeatTimeout, Second. lia.
  - vm_compute. discriminate.
  - split; repeat constructor; vm_compute; discriminate.
  - exact alive_arrive.
  - reflexivity.
  - exact alive_run.
Defined.

(** No heartbeat at all. *)
Definition silent_trace : list (Time * label) :=
  (λ k, (5 * k * Second, LCheck)) <$> [1; 2; 3; 4].
Definition silent_end : MetaServer :=
  check (20 * Second) (check (15 * Second) (check (10 * Second) (check (5 * Second) demo_srv))).

Lemma silent_checks : checks_run 0 (20 * Second) 0 silent_trace.
Proof.
  intros u Hu. unfold deadCheckPeriod, Second in *. intros Hle.
  pose proof (Z.div_mod u 5000000000 ltac:(lia)). pose proof (Z.mod_pos_bound u 5000000000 ltac:(lia)).
  set (q := u / 5000000000) in *. exists (5 * (q + 1) * 1000000000). split; [|lia].
  unfold silent_trace, Second. apply list_elem_of_fmap. exists (q + 1). split; [done|].
  assert (q = 0 ∨ q = 1 ∨ q = 2 ∨ q = 3) as Hq by lia. rewrite !elem_of_cons. lia.
Qed.

Lemma silent_node_detected_witness :
  (∃ n', cm_nodes (srv_chunkMgr silent_end) !! "node-1" = Some n' ∧ dn_Status n' = StatusDead) ∧
  demo_heard "node-1" (check (15 * Second) (check (10 * Second) (check (5 * Second) demo_srv)))
    = Some (0, StatusHealthy).
Proof.
  split; [|vm_compute; reflexivity].
  assert (timed_run silent_trace demo_srv silent_end) as Hrun.
  { do 4 (econstructor; [apply check_step|]). constructor. }
  destruct (silent_node_detected (20 * Second) 0 demo_srv "node-1" demo_node1 silent_trace silent_end
    demo_srv_inv demo_node1_there) as [Hdetect _].
  - reflexivity.
  - split; repeat constructor; vm_compute; discriminate.
  - repeat constructor.
  - exact Hrun.
  - exact silent_checks.
  - vm_compute. discriminate.
  - destruct Hdetect as (pre & t & suf & s1 & n1 & Htr & _ & _ & _ & _ & _ & Hdead).
    apply Hdead. intros u Hu.
    assert ((u, LPredict) ∈ silent_trace) as Hin
      by (rewrite Htr; apply elem_of_app; right; by right).
    apply list_elem_of_fmap in Hin as (k & Hk & _). discriminate Hk.
Defined.
End witnesses.
