(* ===== verification/ServerRace.v ===== *)
(** * Requests in parallel

    gRPC runs every request in its own goroutine.  The namespace, the chunk manager
    and the monitor each hold a lock for the length of one call, so what a handler
    does is a sequence of atomic calls with room for the others in between.  Here a
    handler is such a sequence, and a pool of them interleaves with everything else the
    server does.

    An entry or a [FileMeta] never changes once it is in the tree, so reading it
    after the lock is released is reading it under the lock. *)
From S2P Require Export Detection.
Local Open Scope Z_scope.

(** ** Atomic calls *)
Inductive prog (R : Type) : Type :=
  | Return (r : go R)
  | Call {A : Type} (op : MetaServer → A * MetaServer) (k : A → prog R).
Arguments Return {R} r.
Arguments Call {R A} op k.

(** A call to the chunk manager, the namespace or the monitor; a call that reads. *)
Definition on_chunkMgr {A} (op : ChunkManager → A * ChunkManager) : MetaServer → A * MetaServer :=
  λ s, let '(a, cm) := op (srv_chunkMgr s) in (a, set_chunkMgr cm s).
Definition on_namespace {A} (op : Namespace → A * Namespace) : MetaServer → A * MetaServer :=
  λ s, let '(a, ns) := op (srv_namespace s) in (a, set_namespace ns s).
Definition on_monitor (op : Monitor → Monitor) : MetaServer → unit * MetaServer :=
  λ s, (tt, set_monitor (op (srv_monitor s)) s).
Definition reading {A} (f : MetaServer → A) : MetaServer → A * MetaServer := λ s, (f s, s).

(** ** The handlers *)
Inductive request :=
  | ReqPutFile (now created : Time) (r : PutFileRequest)
  | ReqGetFile (r : GetFileRequest)
  | ReqDeleteFile (ord : list string) (r : DeleteFileRequest)
  | ReqListFiles (ord : list string) (r : ListFilesRequest)
  | ReqGetFileInfo (r : GetFileInfoRequest)
  | ReqRegisterNode (now : Time) (r : RegisterNodeRequest)
  | ReqHeartbeat (now : Time) (r : HeartbeatRequest)
  | ReqReportHealth (r : ReportHealthRequest)
  | ReqGetClusterInfo (r : GetClusterInfoRequest)
  | ReqGetNodeInfo (r : GetNodeInfoRequest).

Inductive response :=
  | ResPutFile (r : PutFileResponse)
  | ResGetFile (r : GetFileResponse)
  | ResDeleteFile (r : DeleteFileResponse)
  | ResListFiles (r : ListFilesResponse)
  | ResGetFileInfo (r : GetFileInfoResponse)
  | ResRegisterNode (r : RegisterNodeResponse)
  | ResHeartbeat (r : HeartbeatResponse)
  | ResReportHealth (r : ReportHealthResponse)
  | ResGetClusterInfo (r : GetClusterInfoResponse)
  | ResGetNodeInfo (r : GetNodeInfoResponse).

Section handlers.
Context `{SliceSort}.

(** The orders in which a call iterates over the registry, and over the directories,
    it finds. *)
Variable iter : gmap string DataNodeInfo → list string.
Variable iter_dirs : Namespace → loc → list string.

Definition PutFile_calls (now created : Time) (req : PutFileRequest) : prog response :=
  Call (on_chunkMgr (λ cm, AllocateChunks now (iter (cm_nodes cm)) (PutFileRequest_Path req)
          (PutFileRequest_ChunkCount req) (PutFileRequest_FileSize req) cm)) (λ r,
  match r with
  | Err e => Return (Ok (ResPutFile (mkPutFileResponse false e [])))
  | Panic w => Return (Panic w)
  | Ok placements =>
      let meta := mkFileMeta (PutFileRequest_Path req) (PutFileRequest_FileSize req)
                    (PutFileRequest_ChunkCount req) DefaultReplicationFactor
                    (PutFileRequest_Checksum req) (cp_ChunkID <$> placements) created in
      Call (on_namespace (CreateFile (PutFileRequest_Path req) meta)) (λ r,
      Return (match r with
              | Err e => Ok (ResPutFile (mkPutFileResponse false e []))
              | Panic w => Panic w
              | Ok _ => Ok (ResPutFile (mkPutFileResponse true "file registered" (pb_placement <$> placements)))
              end))
  end).

(** The loop of [GetFile]: one call per location; what [done] says is built up. *)
Fixpoint GetFile_loop (meta : FileMeta) (all locs : list ChunkLocationInfo) (infos : list (option ChunkInfo))
    : prog response :=
  match locs with
  | [] => Return (Ok (ResGetFile
            (mkGetFileResponse true "" (Some (pb_file meta infos)) (pb_location <$> all))))
  | loc :: rest =>
      Call (reading (λ s, GetChunkMeta (cl_ChunkID loc) (srv_chunkMgr s))) (λ r,
      match r with
      | None => Return (Panic nil_deref)
      | Some m => GetFile_loop meta all rest (infos ++ [Some (pb_chunk m)])
      end)
  end.

Definition GetFile_calls (req : GetFileRequest) : prog response :=
  Call (reading (λ s, Namespace.GetFile (GetFileRequest_Path req) (srv_namespace s))) (λ r,
  match r with
  | Err e => Return (Ok (ResGetFile (mkGetFileResponse false e None [])))
  | Panic w => Return (Panic w)
  | Ok None => Return (Panic nil_deref)
  | Ok (Some meta) =>
      Call (reading (λ s, GetChunkLocations (fm_ChunkIDs meta) (srv_chunkMgr s))) (λ r,
      match r with
      | Err e => Return (Ok (ResGetFile (mkGetFileResponse false e None [])))
      | Panic w => Return (Panic w)
      | Ok locs => GetFile_loop meta locs locs []
      end)
  end).

Definition DeleteFile_calls (ord : list string) (req : DeleteFileRequest) : prog response :=
  Call (on_namespace (Namespace.DeleteFile (DeleteFileRequest_Path req))) (λ r,
  match r with
  | Err e => Return (Ok (ResDeleteFile (mkDeleteFileResponse false e)))
  | Panic w => Return (Panic w)
  | Ok None => Return (Panic nil_deref)
  | Ok (Some meta) =>
      Call (on_chunkMgr (RemoveChunks ord (fm_ChunkIDs meta))) (λ _,
      Return (Ok (ResDeleteFile (mkDeleteFileResponse true "file deleted"))))
  end).

Definition ListFiles_calls (ord : list string) (req : ListFilesRequest) : prog response :=
  Call (reading (Server.ListFiles ord req)) (λ r, Return (go_map ResListFiles r)).

(** The loop of [GetFileInfo]: a chunk that is not in the table is skipped. *)
Fixpoint GetFileInfo_loop (meta : FileMeta) (ids : list string) (infos : list (option ChunkInfo))
    : prog response :=
  match ids with
  | [] => Return (Ok (ResGetFileInfo (mkGetFileInfoResponse true (Some (pb_file meta infos)))))
  | cid :: rest =>
      Call (reading (λ s, GetChunkMeta cid (srv_chunkMgr s))) (λ r,
      GetFileInfo_loop meta rest (infos ++ [pb_chunk <$> r]))
  end.

Definition GetFileInfo_calls (req : GetFileInfoRequest) : prog response :=
  Call (reading (λ s, Namespace.GetFile (GetFileInfoRequest_Path req) (srv_namespace s))) (λ r,
  match r with
  | Err _ => Return (Ok (ResGetFileInfo (mkGetFileInfoResponse false None)))
  | Panic w => Return (Panic w)
  | Ok None => Return (Panic nil_deref)
  | Ok (Some meta) => GetFileInfo_loop meta (fm_ChunkIDs meta) []
  end).

Definition RegisterNode_calls (now : Time) (req : RegisterNodeRequest) : prog response :=
  Call (on_chunkMgr (λ cm, ChunkManager.RegisterNode now (iter (cm_nodes cm)) (RegisterNodeRequest_Address req)
          (RegisterNodeRequest_CapacityBytes req) cm)) (λ r,
  Return (match r with
          | Err e => Ok (ResRegisterNode (mkRegisterNodeResponse false "" e))
          | Panic w => Panic w
          | Ok nodeID => Ok (ResRegisterNode (mkRegisterNodeResponse true nodeID "node registered"))
          end)).

Definition Heartbeat_calls (now : Time) (req : HeartbeatRequest) : prog response :=
  Call (on_chunkMgr (UpdateHeartbeat now (HeartbeatRequest_NodeId req) (HeartbeatRequest_UsedBytes req)
          (HeartbeatRequest_ChunkCount req))) (λ r,
  Return (match r with
          | Ok _ => Ok (ResHeartbeat (mkHeartbeatResponse true []))
          | Err _ => Ok (ResHeartbeat (mkHeartbeatResponse false []))
          | Panic w => Panic w
          end)).

Definition ReportHealth_calls (req : ReportHealthRequest) : prog response :=
  match ReportHealthRequest_Metrics req with
  | None => Return (Ok (ResReportHealth (mkReportHealthResponse false "no metrics")))
  | Some m =>
      Call (on_monitor (IngestReport (Server.health_report m))) (λ _,
      Call (reading (λ s, GetNode (HealthMetrics_NodeId m) (srv_chunkMgr s))) (λ r,
      Return (match r with
              | None => Ok (ResReportHealth (mkReportHealthResponse false "unknown node"))
              | Some node => Ok (ResReportHealth (mkReportHealthResponse true (status_string (dn_Status node))))
              end)))
  end.

Definition GetClusterInfo_calls (req : GetClusterInfoRequest) : prog response :=
  Call (reading (λ s, GetClusterStats (iter (cm_nodes (srv_chunkMgr s))) (srv_chunkMgr s))) (λ stats,
  Call (reading (λ s, GetAllFiles (iter_dirs (srv_namespace s)) (srv_namespace s))) (λ r,
  match r with
  | Err e => Return (Err e)
  | Panic w => Return (Panic w)
  | Ok allFiles =>
      Call (reading (λ s, GetAllNodes (iter (cm_nodes (srv_chunkMgr s))) (srv_chunkMgr s))) (λ nodes,
      Return (Ok (ResGetClusterInfo (mkGetClusterInfoResponse (int32 (cs_TotalNodes stats))
        (int32 (cs_HealthyNodes stats)) (int32 (cs_WarningNodes stats)) (int32 (cs_AtRiskNodes stats))
        (int32 (cs_DeadNodes stats)) (cs_TotalCap stats) (cs_TotalUsed stats)
        (int32 (Z.of_nat (length allFiles))) (int32 (cs_TotalChunks stats)) (pb_node <$> nodes)))))
  end)).

Definition GetNodeInfo_calls (req : GetNodeInfoRequest) : prog response :=
  Call (reading (λ s, Server.GetNodeInfo (iter (cm_nodes (srv_chunkMgr s))) req s)) (λ r,
  Return (Ok (ResGetNodeInfo r))).

Definition handle (q : request) : prog response :=
  match q with
  | ReqPutFile now created r => PutFile_calls now created r
  | ReqGetFile r => GetFile_calls r
  | ReqDeleteFile ord r => DeleteFile_calls ord r
  | ReqListFiles ord r => ListFiles_calls ord r
  | ReqGetFileInfo r => GetFileInfo_calls r
  | ReqRegisterNode now r => RegisterNode_calls now r
  | ReqHeartbeat now r => Heartbeat_calls now r
  | ReqReportHealth r => ReportHealth_calls r
  | ReqGetClusterInfo r => GetClusterInfo_calls r
  | ReqGetNodeInfo r => GetNodeInfo_calls r
  end.
End handlers.

(** ** Requests in parallel *)
Section parallel.
Context `{SliceSort} `{!SliceSortSpec}.
Variable iter : gmap string DataNodeInfo → list string.
Hypothesis iter_ok : ∀ N, map_order N (iter N).
Variable iter_dirs : Namespace → loc → list string.
Hypothesis iter_dirs_ok : ∀ ns, valid_orders ns (iter_dirs ns).

(** The server's state, and the requests it has accepted with what they still have
    to do. *)
Definition pool : Type := MetaServer * list (request * prog response).

(** A request arrives; one of them makes its next call; something else happens: a
    background tick, or a call of a migration. *)
Inductive pool_step : pool → pool → Prop :=
  | pool_arrive q s ths : pool_step (s, ths) (s, ths ++ [(q, handle iter iter_dirs q)])
  | pool_call i q A (op : MetaServer → A * MetaServer) k s a s' ths :
      ths !! i = Some (q, Call op k) → op s = (a, s') →
      pool_step (s, ths) (s', <[i := (q, k a)]> ths)
  | pool_background t l s s' ths : timed_step t l s s' → pool_step (s, ths) (s', ths).

(** An executable scheduler: request [i] makes its next call. *)
Fixpoint schedule (sched : list nat) (c : pool) : pool :=
  match sched with
  | [] => c
  | i :: rest =>
      schedule rest
        (match c.2 !! i with
         | Some (q, Call op k) => let '(a, s') := op c.1 in (s', <[i := (q, k a)]> c.2)
         | _ => c
         end)
  end.

Lemma schedule_call i rest (c : pool) q A (op : MetaServer → A * MetaServer) k a s' :
  c.2 !! i = Some (q, Call op k) → op c.1 = (a, s') →
  schedule (i :: rest) c = schedule rest (s', <[i := (q, k a)]> c.2).
Proof. intros Hi Hop. cbn [schedule]. by rewrite Hi, Hop. Qed.

Lemma schedule_steps sched : ∀ c, rtc pool_step c (schedule sched c).
Proof.
  induction sched as [|i sched IH]; intros [s ths]; [apply rtc_refl|]. cbn [schedule fst snd].
  destruct (ths !! i) as [[q [r|A op k]]|] eqn:Hi; [apply IH| |apply IH].
  destruct (op s) as [a s'] eqn:Hop. eapply rtc_l; [by eapply pool_call|apply IH].
Qed.

(** What a sequence of calls may rely on, whatever happens between them: the
    server's invariant.  It must keep it, and end in a result that satisfies [Q]. *)
Fixpoint calls_ok (Q : go response → Prop) (p : prog response) : Prop :=
  match p with
  | Return r => Q r
  | Call op k => ∀ s, srv_inv s → srv_inv (op s).2 ∧ calls_ok Q (k (op s).1)
  end.

Lemma calls_ok_reading Q {A} (f : MetaServer → A) k :
  (∀ s, srv_inv s → calls_ok Q (k (f s))) → calls_ok Q (Call (reading f) k).
Proof. intros Hk s Hs. by split; [|apply Hk]. Qed.

(** A request that can crash the server: a read of a file, which looks its chunks up
    twice, and a put with a negative count. *)
Definition may_crash (q : request) : Prop :=
  match q with
  | ReqGetFile _ => True
  | ReqPutFile _ _ r => PutFileRequest_ChunkCount r < 0
  | _ => False
  end.
Lemma on_chunkMgr_inv {A} (op : ChunkManager → A * ChunkManager) s :
  srv_inv s → (cm_inv (srv_chunkMgr s) → cm_inv (op (srv_chunkMgr s)).2) → srv_inv (on_chunkMgr op s).2.
Proof.
  intros [Hns Hcm Hmon] Hop. specialize (Hop Hcm). unfold on_chunkMgr.
  destruct (op (srv_chunkMgr s)) as [a cm]. by split.
Qed.

Lemma on_namespace_inv {A} (op : Namespace → A * Namespace) s :
  srv_inv s → (wf (srv_namespace s) → wf (op (srv_namespace s)).2) → srv_inv (on_namespace op s).2.
Proof.
  intros [Hns Hcm Hmon] Hop. specialize (Hop Hns). unfold on_namespace.
  destruct (op (srv_namespace s)) as [a ns]. by split.
Qed.

Lemma on_chunkMgr_fst {A} (op : ChunkManager → A * ChunkManager) s :
  (on_chunkMgr op s).1 = (op (srv_chunkMgr s)).1.
Proof. unfold on_chunkMgr. by destruct (op _). Qed.

Lemma on_namespace_fst {A} (op : Namespace → A * Namespace) s :
  (on_namespace op s).1 = (op (srv_namespace s)).1.
Proof. unfold on_namespace. by destruct (op _). Qed.

Lemma CreateFile_ok path meta ns :
  wf ns → wf (CreateFile path meta ns).2 ∧ no_panic (CreateFile path meta ns).1.
Proof. intros Hwf. eapply (CreateFile_wf path meta ns _ _ Hwf), surjective_pairing. Qed.

Lemma DeleteFile_ok path ns :
  wf ns → wf (Namespace.DeleteFile path ns).2 ∧ no_panic (Namespace.DeleteFile path ns).1 ∧
    (Namespace.DeleteFile path ns).1 ≠ Ok None.
Proof.
  intros Hwf. destruct (DeleteFile_wf path ns _ _ Hwf (surjective_pairing _)) as [Hwf' Hnp].
  split; [done|]. split; [done|]. destruct (splitPath path) as [[dir name]|e|w] eqn:Hs.
  - pose proof (DeleteFile_post ns path dir name Hwf Hs) as Hp.
    destruct (Namespace.DeleteFile path ns) as [[r|e|w] ns']; [|done..].
    by destruct Hp as (_ & _ & meta & -> & _).
  - by destruct (splitPath_Err_ops path e (mkFileMeta "" 0 0 0 "" [] 0) ns Hs) as [_ ->].
  - by apply splitPath_no_panic in Hs.
Qed.

Lemma PutFile_calls_ok now created r :
  calls_ok (λ res, no_panic res ∨ PutFileRequest_ChunkCount r < 0) (PutFile_calls iter now created r).
Proof.
  intros s Hs. split.
  { apply on_chunkMgr_inv; [done|]. intros Hcm.
    by eapply (AllocateChunks_inv _ _ _ _ _ _ _ _ Hcm (iter_ok _)), surjective_pairing. }
  rewrite on_chunkMgr_fst.
  destruct (AllocateChunks _ _ _ _ _ _).1 as [ps|e|w] eqn:Ha; simpl.
  - intros s1 Hs1. rewrite on_namespace_fst.
    match goal with |- context [CreateFile ?path ?meta (srv_namespace s1)] =>
      destruct (CreateFile_ok path meta (srv_namespace s1) (srv_inv_ns _ Hs1)) as [Hwf Hnp] end.
    split; [by apply on_namespace_inv|]. left.
    destruct (CreateFile _ _ _).1 as [[]|e|w]; [by intros ?|by intros ?|by destruct (Hnp w)].
  - left. by intros ?.
  - right. unfold AllocateChunks in Ha. case_decide; [done|].
    destruct (Z.ltb_spec (PutFileRequest_ChunkCount r) 0); [done|]. by destruct (allocate_loop _ _ _ _ _ _ _).
Qed.

Lemma GetFile_calls_ok r : calls_ok (λ _, True) (GetFile_calls r).
Proof.
  apply calls_ok_reading. intros s _. destruct (Namespace.GetFile _ _) as [[meta|]|e|w]; [|done..].
  apply calls_ok_reading. intros s1 _. destruct (GetChunkLocations _ _) as [locs|e|w]; [|done..].
  generalize (@nil (option ChunkInfo)). generalize locs at 1. intros all.
  induction locs as [|loc locs IH]; intros infos; [done|]. apply calls_ok_reading. intros s2 _.
  destruct (GetChunkMeta _ _); [apply IH|done].
Qed.

Lemma GetFileInfo_loop_ok meta ids : ∀ infos, calls_ok no_panic (GetFileInfo_loop meta ids infos).
Proof.
  induction ids as [|cid ids IH]; intros infos; [by intros ?|]. apply calls_ok_reading. intros s _. apply IH.
Qed.

Lemma handle_ok q : calls_ok (λ res, no_panic res ∨ may_crash q) (handle iter iter_dirs q).
Proof.
  assert (∀ p, calls_ok no_panic p → calls_ok (λ res, no_panic res ∨ may_crash q) p) as Hweak.
  { induction p as [r|A op k IH]; [by left|]. intros Hok s Hs. destruct (Hok s Hs). split; [done|by apply IH]. }
  destruct q as [now created r|r|ord r|ord r|r|now r|now r|r|r|r]; simpl handle.
  - apply PutFile_calls_ok.
  - assert (∀ p, calls_ok (λ _, True) p → calls_ok (λ res, no_panic res ∨ may_crash (ReqGetFile r)) p) as Hw.
    { induction p as [r0|A op k IH]; [by right|]. intros Hok s Hs. destruct (Hok s Hs). split; [done|by apply IH]. }
    apply Hw, GetFile_calls_ok.
  - apply Hweak. intros s Hs.
    destruct (DeleteFile_ok (DeleteFileRequest_Path r) (srv_namespace s) (srv_inv_ns _ Hs)) as (Hwf & Hnp & Hsome).
    split; [by apply on_namespace_inv|]. rewrite on_namespace_fst.
    destruct (Namespace.DeleteFile _ _).1 as [[meta|]|e|w]; [|done|by intros ?|by destruct (Hnp w)].
    intros s1 Hs1. split; [|by intros ?]. apply on_chunkMgr_inv; [done|]. apply RemoveChunks_inv.
  - apply Hweak, calls_ok_reading. intros s Hs. simpl. intros w.
    destruct (ListFiles_answers ord r s Hs) as [resp ->]. done.
  - apply Hweak, calls_ok_reading. intros s [Hns _ _]. rewrite GetFile_view by done.
    destruct (view _ _) as [[|meta]|]; [by intros ?|apply GetFileInfo_loop_ok|by intros ?].
  - apply Hweak. intros s Hs. split.
    { apply on_chunkMgr_inv; [done|]. intros Hcm.
      eapply (RegisterNode_inv _ _ _ _ _ _ _ Hcm (iter_ok _)), surjective_pairing. }
    rewrite on_chunkMgr_fst. unfold ChunkManager.RegisterNode.
    destruct (List.find _ _) as [[k n]|]; by intros ?.
  - apply Hweak. intros s Hs. split.
    { apply on_chunkMgr_inv; [done|]. intros Hcm.
      eapply (UpdateHeartbeat_inv _ _ _ _ _ _ _ Hcm), surjective_pairing. }
    rewrite on_chunkMgr_fst. unfold UpdateHeartbeat. destruct (cm_nodes _ !! _); by intros ?.
  - apply Hweak. unfold ReportHealth_calls. destruct (ReportHealthRequest_Metrics r) as [m|]; [|by intros ?].
    intros s [Hns Hcm Hmon]. split; [split; [done|done|by apply IngestReport_wf]|].
    apply calls_ok_reading. intros s1 _. destruct (GetNode _ _); by intros ?.
  - apply Hweak, calls_ok_reading. intros s _. apply calls_ok_reading. intros s1 [Hns _ _].
    destruct (GetAllFiles_view _ _ Hns (iter_dirs_ok _)) as (L & -> & _).
    apply calls_ok_reading. intros s2 _. by intros ?.
  - apply Hweak, calls_ok_reading. intros s _. by intros ?.
Qed.

Definition pool_ok (c : pool) : Prop :=
  srv_inv c.1 ∧ Forall (λ t, calls_ok (λ res, no_panic res ∨ may_crash t.1) t.2) c.2.

Lemma pool_step_ok c c' : pool_ok c → pool_step c c' → pool_ok c'.
Proof.
  intros [Hs Hths]. destruct 1 as [q s ths|i q A op k s a s' ths Hi Hop|t l s s' ths Hst]; cbn [fst snd] in *.
  - split; [done|]. apply Forall_app. split; [done|]. apply Forall_cons. split; [apply handle_ok|apply Forall_nil_2].
  - pose proof (proj1 (Forall_lookup _ _) Hths i _ Hi) as Hok. destruct (Hok s Hs) as [Hs' Hk].
    rewrite Hop in Hs', Hk. split; [done|]. by apply Forall_insert.
  - split; [|done]. by eapply timed_step_inv.
Qed.

(** C9: Requests in parallel keep the server sound: however the calls of any number of
    requests interleave with each other, with the background ticks and with the
    calls of migrations, the server's invariant holds at every point, and no request
    ends in a crash of the server, except reads of files and puts with a negative
    chunk count.  A background tick is one step here, although a prediction tick takes
    the locks anew for every node it updates. *)
Theorem parallel_requests_sound port adminPort s ths :
  rtc pool_step (Server.NewServer port adminPort, []) (s, ths) →
  srv_inv s ∧ ∀ i q w, ths !! i = Some (q, Return (Panic w)) → may_crash q.
Proof.
  intros Hr. assert (pool_ok (s, ths)) as [Hs Hths].
  { assert (∀ c c', rtc pool_step c c' → pool_ok c → pool_ok c') as Hall
      by (induction 1; eauto using pool_step_ok).
    eapply Hall; [exact Hr|]. split; [apply srv_inv_new|apply Forall_nil_2]. }
  split; [done|]. intros i q w Hi. pose proof (proj1 (Forall_lookup _ _) Hths i _ Hi) as [Hnp|?]; [|done].
  by destruct (Hnp w).
Qed.
End parallel.

(** ** Two races *)
Section races.
Context `{SliceSort} `{!SliceSortSpec}.
Variable iter : gmap string DataNodeInfo → list string.
Hypothesis iter_ok : ∀ N, map_order N (iter N).
Variable iter_dirs : Namespace → loc → list string.

(** A delete of a path a file stands at. *)
Lemma delete_present abs comps ns meta :
  wf ns → Forall good_name comps → view ns comps = Some (NFile meta) →
  ∃ ns', Namespace.DeleteFile (path_of abs comps) ns = (Ok (Some meta), ns') ∧ wf ns' ∧
    ∀ p, view ns' p = tree_delete (view ns) comps p.
Proof.
  intros Hwf Hg Hv. assert (comps ≠ []) as Hne by (intros ->; by rewrite (view_root _ Hwf) in Hv).
  destruct comps as [|name d _] using rev_ind; [done|].
  apply Forall_app in Hg as Hg'. destruct Hg' as [Hgd _].
  pose proof (DeleteFile_post _ _ _ _ Hwf (splitPath_path_of abs d name Hg)) as Hpost.
  rewrite cleanPath_path_of in Hpost by done.
  destruct (Namespace.DeleteFile _ _) as [[r|e|p] ns']; [| |done].
  - destruct Hpost as (Hwf' & Hview & meta' & -> & Hmeta). simplify_eq. eauto.
  - destruct Hpost as [_ Hno]. by destruct (Hno meta).
Qed.

(** A put of a path whose file has just been deleted. *)
Lemma create_after_delete abs comps meta new ns ns1 :
  wf ns → wf ns1 → Forall good_name comps → view ns comps = Some (NFile meta) →
  (∀ p, view ns1 p = tree_delete (view ns) comps p) →
  ∃ ns', CreateFile (path_of abs comps) new ns1 = (Ok tt, ns').
Proof.
  intros Hwf Hwf1 Hg Hv Hv1. assert (comps ≠ []) as Hne by (intros ->; by rewrite (view_root _ Hwf) in Hv).
  destruct comps as [|name d _] using rev_ind; [done|].
  apply Forall_app in Hg as Hg'. destruct Hg' as [Hgd _].
  pose proof (CreateFile_post ns1 _ _ _ new Hwf1 (splitPath_path_of abs d name Hg)) as Hpost.
  rewrite cleanPath_path_of in Hpost by done.
  destruct (CreateFile _ _ _) as [[[]|e|w] ns']; [by eexists| |done]. exfalso.
  destruct Hpost as [_ [(p & m & [k ->] & Hp)|Hdir]].
  - rewrite Hv1 in Hp. unfold tree_delete in Hp. case_decide as Hpe; [done|].
    rewrite <- app_assoc in Hv. destruct (k ++ [name]) as [|x q] eqn:Hk; [by destruct k|].
    rewrite (view_below ns p x q Hwf) in Hv; [done|]. by rewrite Hp.
  - rewrite Hv1 in Hdir. unfold tree_delete in Hdir. by rewrite decide_True in Hdir.
Qed.

Lemma RemoveChunks_gone ord ids cm c :
  c ∈ ids → cm_chunks (RemoveChunks ord ids cm).2 !! c = None.
Proof.
  intros Hc. pose proof (remove_fold_spec ids ∅ cm) as (Hch & _). unfold RemoveChunks.
  destruct (foldl _ _ _) as [addrs cm']. cbn [snd] in *. by rewrite Hch, decide_True.
Qed.

(** C16: A concurrent delete turns a read into a crash: wherever a GetFile of a non-empty
    file would succeed, there is an interleaving with one DeleteFile of the same path
    in which the server dereferences a nil pointer.  The read looks up the locations,
    the delete removes the chunks, and the read looks the first chunk up again and
    ignores that it is gone. *)
Theorem delete_crashes_read abs1 abs2 comps ord s resp :
  srv_inv s → Forall good_name comps →
  Server.GetFile (mkGetFileRequest (path_of abs1 comps)) s = Ok resp →
  GetFileResponse_Success resp = true → GetFileResponse_ChunkLocations resp ≠ [] →
  let get := ReqGetFile (mkGetFileRequest (path_of abs1 comps)) in
  let del := ReqDeleteFile ord (mkDeleteFileRequest (path_of abs2 comps)) in
  (schedule [0; 0; 1; 1; 0]%nat (s, [(get, handle iter iter_dirs get); (del, handle iter iter_dirs del)])).2 !! 0%nat
    = Some (get, Return (Panic nil_deref)).
Proof.
  intros [Hns Hcm _] Hg Hget Hsucc Hlocs. unfold Server.GetFile in Hget. cbn [GetFileRequest_Path] in Hget.
  rewrite GetFile_view, cleanPath_path_of in Hget by done.
  destruct (view (srv_namespace s) comps) as [[|meta]|] eqn:Hv; [by injection Hget as <-| |by injection Hget as <-].
  destruct (GetChunkLocations (fm_ChunkIDs meta) (srv_chunkMgr s)) as [locs|e|w] eqn:Hl;
    [|by injection Hget as <-|done].
  apply go_bind_ok in Hget as (infos & _ & [= <-]). destruct locs as [|loc locs]; [done|].
  assert (cl_ChunkID loc ∈ fm_ChunkIDs meta) as Hin.
  { destruct (fm_ChunkIDs meta) as [|cid ids]; [done|]. simpl in Hl.
    destruct (cm_chunks _ !! cid) as [m|] eqn:Hm; [|done]. case_decide; [done|].
    apply go_bind_ok in Hl as (ls & _ & [= <- _]). simpl. rewrite (inv_chunk _ Hcm cid m Hm). left. }
  destruct (delete_present abs2 comps _ meta Hns Hg Hv) as (ns' & Hdel & _).
  intros get del.
  assert (reading (λ s, Namespace.GetFile (path_of abs1 comps) (srv_namespace s)) s = (Ok (Some meta), s)) as H1.
  { unfold reading. by rewrite GetFile_view, cleanPath_path_of, Hv. }
  assert (reading (λ s, GetChunkLocations (fm_ChunkIDs meta) (srv_chunkMgr s)) s = (Ok (loc :: locs), s)) as H2.
  { unfold reading. by rewrite Hl. }
  assert (on_namespace (Namespace.DeleteFile (path_of abs2 comps)) s = (Ok (Some meta), set_namespace ns' s)) as H3.
  { unfold on_namespace. by rewrite Hdel. }
  erewrite schedule_call; [|reflexivity|exact H1]. erewrite schedule_call; [|reflexivity|exact H2].
  erewrite schedule_call; [|reflexivity|exact H3]. erewrite schedule_call; [|reflexivity|apply surjective_pairing].
  erewrite schedule_call; [|reflexivity|reflexivity]. cbn [schedule snd]. unfold GetChunkMeta, on_chunkMgr.
  pose proof (RemoveChunks_gone ord (fm_ChunkIDs meta) (srv_chunkMgr s) _ Hin) as Hgone.
  cbn [fst snd set_namespace srv_chunkMgr]. destruct (RemoveChunks _ _ _) as [addrs cm'].
  cbn [fst snd set_chunkMgr srv_chunkMgr] in *. by rewrite Hgone.
Qed.
Lemma AllocateChunks_succeeds now ord path count size cm :
  cm_inv cm → map_order (cm_nodes cm) ord → healthyNodes now ord cm ≠ [] → 0 < count →
  ∃ ps cm1, AllocateChunks now ord path count size cm = (Ok ps, cm1) ∧
    head (cp_ChunkID <$> ps) = Some (GenerateChunkID path 0).
Proof.
  intros Hcm Hord Hh Hcount. destruct (AllocateChunks now ord path count size cm) as [[ps|e|w] cm1] eqn:Ha.
  - exists ps, cm1. split; [done|].
    destruct (AllocateChunks_placed _ _ _ _ _ _ _ _ Hcm Hord Ha) as [Hlen Hps].
    destruct ps as [|p ps]; [simpl in Hlen; lia|]. simpl. by destruct (Hps 0%nat p eq_refl) as [-> _].
  - unfold AllocateChunks in Ha. case_decide as Hl; [by apply nil_length_inv in Hl|].
    destruct (count <? 0); [done|]. by destruct (allocate_loop _ _ _ _ _ _ _).
  - unfold AllocateChunks in Ha. case_decide; [done|]. destruct (Z.ltb_spec count 0); [lia|].
    by destruct (allocate_loop _ _ _ _ _ _ _).
Qed.

(** What is read of a file whose first chunk is gone. *)
Lemma GetFile_first_gone abs comps s meta c ids :
  wf (srv_namespace s) → Forall good_name comps → view (srv_namespace s) comps = Some (NFile meta) →
  fm_ChunkIDs meta = c :: ids → cm_chunks (srv_chunkMgr s) !! c = None →
  Server.GetFile (mkGetFileRequest (path_of abs comps)) s =
    Ok (mkGetFileResponse false ("chunk not found: " +:+ c) None []).
Proof.
  intros Hns Hg Hv Hids Hc. unfold Server.GetFile. cbn [GetFileRequest_Path].
  rewrite GetFile_view, cleanPath_path_of, Hv by done. rewrite Hids. cbn [GetChunkLocations]. by rewrite Hc.
Qed.

(** A concurrent delete loses a put: when a path that holds a file is put again
    while it is deleted, there is an interleaving in which both requests report
    success, the path holds the new file, and no read of it can succeed: the delete
    removes the old version's chunks, which have the identifiers of the new one's. *)
Theorem delete_loses_put abs1 abs2 comps ord now created size count sum s meta :
  srv_inv s → Forall good_name comps → view (srv_namespace s) comps = Some (NFile meta) →
  GenerateChunkID (path_of abs1 comps) 0 ∈ fm_ChunkIDs meta →
  healthyNodes now (iter (cm_nodes (srv_chunkMgr s))) (srv_chunkMgr s) ≠ [] → 0 < count →
  let put := ReqPutFile now created (mkPutFileRequest (path_of abs1 comps) size count sum) in
  let del := ReqDeleteFile ord (mkDeleteFileRequest (path_of abs2 comps)) in
  let final := schedule [0; 1; 1; 0]%nat (s, [(put, handle iter iter_dirs put); (del, handle iter iter_dirs del)]) in
  (∃ placements, final.2 =
     [(put, Return (Ok (ResPutFile (mkPutFileResponse true "file registered" placements))));
      (del, Return (Ok (ResDeleteFile (mkDeleteFileResponse true "file deleted"))))]) ∧
  (∃ new, view (srv_namespace final.1) comps = Some (NFile new) ∧ fm_Checksum new = sum) ∧
  ∀ abs, ∃ e, Server.GetFile (mkGetFileRequest (path_of abs comps)) final.1 =
    Ok (mkGetFileResponse false e None []).
Proof.
  intros [Hns Hcm _] Hg Hv Hid Hh Hcount put del final.
  set (path := path_of abs1 comps) in *. set (ord_n := iter (cm_nodes (srv_chunkMgr s))) in *.
  destruct (AllocateChunks_succeeds now ord_n path count size _ Hcm (iter_ok _) Hh Hcount)
    as (ps & cm1 & Halloc & Hhead).
  destruct (delete_present abs2 comps _ meta Hns Hg Hv) as (ns1 & Hdel & Hns1 & Hview1).
  set (new := mkFileMeta path size count DefaultReplicationFactor sum (cp_ChunkID <$> ps) created).
  destruct (create_after_delete abs1 comps meta new _ ns1 Hns Hns1 Hg Hv Hview1) as [ns2 Hcreate].
  fold path in Hcreate. set (cm2 := (RemoveChunks ord (fm_ChunkIDs meta) cm1).2).
  set (s1 := set_chunkMgr cm1 s). set (s2 := set_namespace ns1 s1). set (s3 := set_chunkMgr cm2 s2).
  assert (on_chunkMgr (λ cm, AllocateChunks now (iter (cm_nodes cm)) path count size cm) s = (Ok ps, s1)) as H1.
  { unfold on_chunkMgr. fold ord_n. by rewrite Halloc. }
  assert (on_namespace (Namespace.DeleteFile (path_of abs2 comps)) s1 = (Ok (Some meta), s2)) as H2.
  { unfold on_namespace, s1. cbn [set_chunkMgr srv_namespace]. by rewrite Hdel. }
  assert (on_chunkMgr (RemoveChunks ord (fm_ChunkIDs meta)) s2
    = ((RemoveChunks ord (fm_ChunkIDs meta) cm1).1, s3)) as H3.
  { unfold on_chunkMgr, s3, s2, s1, cm2. cbn [set_chunkMgr set_namespace srv_chunkMgr].
    by destruct (RemoveChunks _ _ _). }
  assert (on_namespace (CreateFile path new) s3 = (Ok tt, set_namespace ns2 s3)) as H4.
  { unfold on_namespace, s3, s2. cbn [set_chunkMgr set_namespace srv_namespace]. by rewrite Hcreate. }
  assert (final = (set_namespace ns2 s3,
    [(put, Return (Ok (ResPutFile (mkPutFileResponse true "file registered" (pb_placement <$> ps)))));
     (del, Return (Ok (ResDeleteFile (mkDeleteFileResponse true "file deleted"))))])) as ->.
  { unfold final. erewrite schedule_call; [|reflexivity|exact H1]. erewrite schedule_call; [|reflexivity|exact H2].
    erewrite schedule_call; [|reflexivity|exact H3]. erewrite schedule_call; [|reflexivity|exact H4]. done. }
  cbn [fst snd]. split; [by eexists|].
  assert (view ns2 comps = Some (NFile new)) as Hnew.
  { assert (comps ≠ []) as Hne by (intros ->; by rewrite (view_root _ Hns) in Hv).
    destruct (create_get ns1 comps abs1 true new ns2 Hns1 Hne Hg Hcreate) as [Hget _].
    destruct (CreateFile_wf _ _ _ _ _ Hns1 Hcreate) as [Hns2 _].
    rewrite GetFile_view, cleanPath_path_of in Hget by done.
    by destruct (view ns2 comps) as [[|m]|]; [|injection Hget as ->|]. }
  split; [by exists new|]. intros abs. destruct (CreateFile_wf _ _ _ _ _ Hns1 Hcreate) as [Hns2 _].
  destruct (cp_ChunkID <$> ps) as [|c ids] eqn:Hids; [done|]. injection Hhead as ->.
  eexists. eapply GetFile_first_gone; [done..|].
  unfold s3, cm2. cbn [set_chunkMgr set_namespace srv_chunkMgr]. by apply RemoveChunks_gone.
Qed.
End races.

(** ** Concrete runs *)
Section witnesses.
Definition keys : gmap string DataNodeInfo → list string := λ N, map_keys N.
Definition keys_ok : ∀ N, map_order N (keys N) := λ N, map_order_keys N.

Definition dirs (ns : Namespace) (l : loc) : list string :=
  match ns_heap ns !! l with Some e => map_keys (default ∅ (de_Children e)) | None => [] end.
Lemma dirs_ok ns : valid_orders ns (dirs ns).
Proof. intros l e m He Hm. unfold dirs. rewrite He, Hm. apply map_order_keys. Qed.

Definition race_register : request := ReqRegisterNode 0 (mkRegisterNodeRequest "a:9000" 10).
Definition race_read : request := ReqGetFileInfo (mkGetFileInfoRequest "/a").
Definition race_start : pool :=
  (Server.NewServer 1 2, [(race_register, handle keys dirs race_register); (race_read, handle keys dirs race_read)]).

Lemma parallel_requests_sound_witness :
  srv_inv (schedule [1; 0]%nat race_start).1 ∧
  size (cm_nodes (srv_chunkMgr (schedule [1; 0]%nat race_start).1)) = 1%nat.
Proof.
  split; [|vm_compute; reflexivity].
  assert (rtc (pool_step keys dirs) (Server.NewServer 1 2, []) race_start) as Hstart.
  { eapply rtc_l; [exact (pool_arrive keys dirs race_register _ [])|].
    apply rtc_once. exact (pool_arrive keys dirs race_read _ [(race_register, handle keys dirs race_register)]). }
  assert (rtc (pool_step keys dirs) (Server.NewServer 1 2, []) (schedule [1; 0]%nat race_start)) as Hr
    by (etrans; [exact Hstart|apply schedule_steps]).
  rewrite (surjective_pairing (schedule [1; 0]%nat race_start)) in Hr.
  exact (proj1 (parallel_requests_sound keys keys_ok dirs dirs_ok 1 2 _ _ Hr)).
Defined.

Lemma demo_good : Forall good_name ["a"; "b"].
Proof. repeat constructor; discriminate. Qed.

Definition race_get : request := ReqGetFile (mkGetFileRequest (path_of true ["a"; "b"])).
Definition race_del : request := ReqDeleteFile [] (mkDeleteFileRequest (path_of false ["a"; "b"])).

Lemma delete_crashes_read_witness :
  (schedule [0; 0; 1; 1; 0]%nat (demo_srv2, [(race_get, handle keys dirs race_get); (race_del, handle keys dirs race_del)])).2
    !! 0%nat = Some (race_get, Return (Panic nil_deref)).
Proof.
  assert (∃ resp, Server.GetFile (mkGetFileRequest (path_of true ["a"; "b"])) demo_srv2 = Ok resp ∧
    GetFileResponse_Success resp = true ∧ length (GetFileResponse_ChunkLocations resp) = 2%nat)
    as (resp & Hget & Hsucc & Hlen).
  { eexists. split; [vm_compute; reflexivity|]. split; reflexivity. }
  apply (delete_crashes_read keys dirs true false ["a"; "b"] [] demo_srv2 resp demo_srv2_inv demo_good Hget Hsucc).
  intros Hnil. rewrite Hnil in Hlen. discriminate.
Defined.

Definition race_put : request := ReqPutFile 0 1 (mkPutFileRequest (path_of true ["a"; "b"]) 7 1 "new").
Definition put_race_final : pool :=
  schedule [0; 1; 1; 0]%nat (demo_srv2, [(race_put, handle keys dirs race_put); (race_del, handle keys dirs race_del)]).

Lemma delete_loses_put_witness :
  ∃ e, Server.GetFile (mkGetFileRequest (path_of false ["a"; "b"])) put_race_final.1 =
    Ok (mkGetFileResponse false e None []).
Proof.
  assert (∃ meta, view (srv_namespace demo_srv2) ["a"; "b"] = Some (NFile meta) ∧
    bool_decide (GenerateChunkID (path_of true ["a"; "b"]) 0 ∈ fm_ChunkIDs meta) = true) as (meta & Hv & Hid).
  { eexists. split; vm_compute; reflexivity. }
  eapply (delete_loses_put keys keys_ok dirs true false ["a"; "b"] [] 0 1 7 1 "new" demo_srv2 meta demo_srv2_inv
    demo_good Hv).
  - exact (bool_decide_eq_true_1 _ Hid).
  - vm_compute. discriminate.
  - reflexivity.
Defined.
End witnesses.
