(* ===== verification/ServerTypes.v ===== *)
(** * What the requests' types say about the server's state

    The model's integers are unbounded; a request's fields lie in [int32] and [int64].
    Here the server runs on such requests.  In every state it reaches, the stored
    numbers lie in the types of their fields, so the conversions the handlers leave out
    are the identity, and the chunk identifiers have sixteen characters, which the
    commands that print them rely on ([CommandLineSpec.v]). *)
From S2P Require Export Detection.
Local Open Scope Z_scope.

(** ** Typed states *)
Record typed_node (n : DataNodeInfo) : Prop := {
  ty_capacity : in_int64 (dn_CapacityBytes n);
  ty_used : in_int64 (dn_UsedBytes n);
  ty_count : in_int32 (dn_ChunkCount n);
}.

(** The identifiers are those [GenerateChunkID] makes. *)
Definition typed_chunk (id : string) (m : ChunkMeta) : Prop :=
  ck_ChunkID m = id ∧ String.length id = 16%nat ∧ in_int64 (ck_Size m).

Definition typed_nodes (N : gmap string DataNodeInfo) : Prop := map_Forall (λ _, typed_node) N.
Definition typed_chunks (C : gmap string ChunkMeta) : Prop := map_Forall typed_chunk C.

Record typed_file (meta : FileMeta) : Prop := {
  ty_size : in_int64 (fm_Size meta);
  ty_created : in_int64 (fm_CreatedAt meta);
}.

Definition typed_namespace (ns : Namespace) : Prop :=
  ∀ p meta, view ns p = Some (NFile meta) → typed_file meta.

Record typed_server (s : MetaServer) : Prop := {
  ty_nodes : typed_nodes (cm_nodes (srv_chunkMgr s));
  ty_chunks : typed_chunks (cm_chunks (srv_chunkMgr s));
  ty_files : typed_namespace (srv_namespace s);
}.

(** ** Typed requests *)
Definition typed_PutFileRequest (r : PutFileRequest) : Prop :=
  in_int64 (PutFileRequest_FileSize r) ∧ in_int32 (PutFileRequest_ChunkCount r).
Definition typed_RegisterNodeRequest (r : RegisterNodeRequest) : Prop :=
  in_int64 (RegisterNodeRequest_CapacityBytes r).
Definition typed_HeartbeatRequest (r : HeartbeatRequest) : Prop :=
  in_int64 (HeartbeatRequest_UsedBytes r) ∧ in_int32 (HeartbeatRequest_ChunkCount r).

(** ** The tables *)
Lemma int32_range z : in_int32 (int32 z).
Proof. apply (wrap_signed_range 32); lia. Qed.

Lemma in_int64_0 : in_int64 0.
Proof. unfold in_int64. lia. Qed.
Lemma in_int32_0 : in_int32 0.
Proof. unfold in_int32. lia. Qed.

Create HintDb typed.
#[export] Hint Resolve int32_range int64_range in_int64_0 in_int32_0 : typed.

Lemma map_Forall_alter `{Countable K} {A} (P : K → A → Prop) f k (m : gmap K A) :
  (∀ x, P k x → P k (f x)) → map_Forall P m → map_Forall P (alter f k m).
Proof.
  intros Hf Hm i x. destruct (decide (i = k)) as [->|Hne].
  - rewrite lookup_alter_eq. destruct (m !! k) as [y|] eqn:Hy; [|done]. intros [= <-]. apply Hf, Hm, Hy.
  - rewrite lookup_alter_ne by done. apply Hm.
Qed.

Lemma typed_set_Chunks f n : typed_node n → typed_node (set_Chunks f n).
Proof. by intros [? ? ?]. Qed.

Lemma typed_alter f k N :
  (∀ n, typed_node n → typed_node (f n)) → typed_nodes N → typed_nodes (alter f k N).
Proof. intros Hf. apply map_Forall_alter. auto. Qed.

Lemma typed_alter_chunk f c C :
  (∀ m, ck_ChunkID (f m) = ck_ChunkID m ∧ ck_Size (f m) = ck_Size m) →
  typed_chunks C → typed_chunks (alter f c C).
Proof.
  intros Hf. apply map_Forall_alter. intros m. unfold typed_chunk. by destruct (Hf m) as [-> ->].
Qed.

#[export] Hint Resolve typed_set_Chunks typed_alter : typed.

Lemma typed_hold_chunk cid ks : ∀ N, typed_nodes N → typed_nodes (hold_chunk cid ks N).
Proof. induction ks as [|k ks IH]; intros N HN; [done|]. unfold hold_chunk. cbn [foldl]. apply IH. auto with typed. Qed.

Lemma chunk_size_at_typed fileSize i : in_int64 (chunk_size_at fileSize i).
Proof.
  unfold chunk_size_at. case_match; [apply int64_range|]. unfold in_int64, ChunkSize. lia.
Qed.

Lemma remove_inner_typed cid nids : ∀ addrs N,
  typed_nodes N →
  typed_nodes (foldl (λ (s : gset string * gmap string DataNodeInfo) nid,
                 match s.2 !! nid with
                 | Some node =>
                     ({[dn_Address node]} ∪ s.1, alter (set_Chunks (λ X, X ∖ {[cid]})) nid s.2)
                 | None => s
                 end) (addrs, N) nids).2.
Proof.
  induction nids as [|k nids IH]; intros addrs N HN; [done|]. cbn [foldl snd].
  destruct (N !! k); apply IH; auto with typed.
Qed.

(** Both tables are typed. *)
Definition typed_cm (cm : ChunkManager) : Prop := typed_nodes (cm_nodes cm) ∧ typed_chunks (cm_chunks cm).

Section steps.
Context `{SliceSort} `{!SliceSortSpec}.

Lemma allocate_one_typed path size healthy repl i cm :
  cm_inv cm → NoDup healthy → (∀ k, k ∈ healthy → is_Some (cm_nodes cm !! k)) →
  typed_cm cm → typed_cm (allocate_one path size healthy repl i cm).2.
Proof.
  intros Hinv Hnd Hh [HN HC]. rewrite allocate_one_eq by done. split.
  - by apply typed_hold_chunk.
  - apply map_Forall_insert_2; [|done]. split; [done|].
    split; [apply GenerateChunkID_length|apply chunk_size_at_typed].
Qed.

Lemma allocate_loop_typed path size healthy repl n : ∀ i cm,
  cm_inv cm → NoDup healthy → (∀ k, k ∈ healthy → is_Some (cm_nodes cm !! k)) →
  typed_cm cm → typed_cm (allocate_loop path size healthy repl n i cm).2.
Proof.
  induction n as [|n IH]; intros i cm Hinv Hnd Hh Hty; [done|]. cbn [allocate_loop].
  pose proof (allocate_one_inv path size healthy repl i cm Hinv Hnd Hh) as Hinv1.
  pose proof (allocate_one_typed path size healthy repl i cm Hinv Hnd Hh Hty) as Hty1.
  assert (same_ids (cm_nodes cm) (cm_nodes (allocate_one path size healthy repl i cm).2)) as Hids.
  { rewrite allocate_one_eq by done. apply hold_chunk_same_ids. }
  destruct (allocate_one path size healthy repl i cm) as [p cm1].
  specialize (IH (i + 1) cm1 Hinv1 Hnd (λ k Hk, proj1 (proj1 Hids k) (Hh k Hk)) Hty1).
  by destruct (allocate_loop path size healthy repl n (i + 1) cm1).
Qed.

Lemma AllocateChunks_typed now ord path count size cm :
  cm_inv cm → map_order (cm_nodes cm) ord →
  typed_cm cm → typed_cm (AllocateChunks now ord path count size cm).2.
Proof.
  intros Hinv Hord Hty. unfold AllocateChunks. case_decide; [done|]. destruct (count <? 0); [done|].
  pose proof (allocate_loop_typed path size (healthyNodes now ord cm)
    (if Z.of_nat (length (healthyNodes now ord cm)) <? DefaultReplicationFactor
     then Z.of_nat (length (healthyNodes now ord cm)) else DefaultReplicationFactor)
    (Z.to_nat count) 0 cm Hinv (healthyNodes_nodup now ord cm Hord)
    (λ k, healthyNodes_registered now ord cm k Hord) Hty) as Hl.
  by destruct (allocate_loop _ _ _ _ _ _ _).
Qed.

Lemma RegisterNode_typed now ord addr cap cm :
  in_int64 cap → typed_cm cm → typed_cm (ChunkManager.RegisterNode now ord addr cap cm).2.
Proof.
  intros Hcap [HN HC]. unfold ChunkManager.RegisterNode.
  destruct (List.find _ _) as [[k n]|]; (split; [|done]).
  - apply typed_alter; [|done]. by intros m [? ? ?].
  - apply map_Forall_insert_2; [|done]. split; simpl; auto with typed.
Qed.

Lemma UpdateHeartbeat_typed now nid used count cm :
  in_int64 used → in_int32 count → typed_cm cm → typed_cm (UpdateHeartbeat now nid used count cm).2.
Proof.
  intros Hu Hc [HN HC]. unfold UpdateHeartbeat. destruct (cm_nodes cm !! nid) as [n|] eqn:Hn; [|done].
  split; [|done]. apply map_Forall_insert_2; [|done].
  destruct (HN nid n Hn) as [Hcap _ _]. by case_decide.
Qed.

Lemma UpdateNodeHealth_typed nid st risk cm : typed_cm cm → typed_cm (UpdateNodeHealth nid st risk cm).
Proof.
  intros [HN HC]. unfold UpdateNodeHealth. destruct (cm_nodes cm !! nid) as [n|] eqn:Hn; [|done].
  split; [|done]. apply map_Forall_insert_2; [|done]. by destruct (HN nid n Hn).
Qed.

Lemma CheckDeadNodes_typed now ord cm : typed_cm cm → typed_cm (CheckDeadNodes now ord cm).2.
Proof.
  unfold CheckDeadNodes. generalize (range_map ord (cm_nodes cm)). intros l. generalize (@nil string).
  revert cm. induction l as [|[k n] l IH]; intros cm acc Hty; [done|]. cbn [foldl check_dead_step].
  destruct (is_stale now n); [|by apply IH]. apply IH. destruct Hty as [HN HC]. split; [|done].
  apply typed_alter; [|done]. by intros m [? ? ?].
Qed.

Lemma RemoveChunks_typed ord ids cm : typed_cm cm → typed_cm (RemoveChunks ord ids cm).2.
Proof.
  intros Hty. unfold RemoveChunks.
  enough (∀ addrs, typed_cm (foldl remove_chunk_step (addrs, cm) ids).2) as He.
  { specialize (He ∅). by destruct (foldl _ _ _). }
  revert cm Hty. induction ids as [|cid ids IH]; intros cm Hty addrs; [done|].
  cbn [foldl remove_chunk_step]. destruct (cm_chunks cm !! cid) as [m|]; [|by apply IH].
  destruct Hty as [HN HC]. pose proof (remove_inner_typed cid (ck_NodeIDs m) addrs _ HN) as Hin.
  destruct (foldl _ _ (ck_NodeIDs m)) as [addrs' N']. apply IH. split; [done|].
  by apply map_Forall_delete.
Qed.

Lemma AddChunkToNode_typed c nid cm : typed_cm cm → typed_cm (AddChunkToNode c nid cm).
Proof.
  intros [HN HC]. split; [rewrite AddChunkToNode_nodes; auto with typed|]. unfold AddChunkToNode.
  cbn [upd_node cm_chunks]. destruct (cm_chunks cm !! c); [|done]. case_decide; [done|].
  by apply typed_alter_chunk.
Qed.

Lemma RemoveChunkFromNode_typed c nid cm : typed_cm cm → typed_cm (RemoveChunkFromNode c nid cm).
Proof.
  intros [HN HC]. split; [rewrite RemoveChunkFromNode_nodes; auto with typed|].
  unfold RemoveChunkFromNode. cbn [upd_node cm_chunks]. destruct (cm_chunks cm !! c); [|done].
  by apply typed_alter_chunk.
Qed.

Lemma prediction_fold_typed rs : ∀ acc cm,
  typed_cm cm → typed_cm (foldl Server.prediction_result (acc, cm) rs).2.
Proof.
  induction rs as [|r rs IH]; intros acc cm Hty; [done|]. cbn [foldl Server.prediction_result].
  by apply IH, UpdateNodeHealth_typed.
Qed.
End steps.

(** ** The namespace *)
Lemma CreateFile_typed path meta ns :
  wf ns → typed_file meta → typed_namespace ns → typed_namespace (CreateFile path meta ns).2.
Proof.
  intros Hwf Hm Hns. destruct (splitPath path) as [[dir name]|e|w] eqn:Hs.
  - pose proof (CreateFile_post ns path dir name meta Hwf Hs) as Hp.
    destruct (CreateFile path meta ns) as [[]  ns']; [|by destruct Hp as [-> _]|done].
    destruct Hp as (_ & Hv & _). intros p m'. cbn [snd]. rewrite Hv. unfold tree_put, tree_mkdirs.
    case_decide; [by intros [= <-]|]. case_decide; [done|]. apply Hns.
  - by destruct (splitPath_Err_ops path e meta ns Hs) as [-> _].
  - by apply splitPath_no_panic in Hs.
Qed.

Lemma DeleteFile_typed path ns :
  wf ns → typed_namespace ns → typed_namespace (DeleteFile path ns).2.
Proof.
  intros Hwf Hns. destruct (splitPath path) as [[dir name]|e|w] eqn:Hs.
  - pose proof (DeleteFile_post ns path dir name Hwf Hs) as Hp.
    destruct (DeleteFile path ns) as [[]  ns']; [|by destruct Hp as [-> _]|done].
    destruct Hp as (_ & Hv & _). intros p m'. cbn [snd]. rewrite Hv. unfold tree_delete.
    case_decide; [done|]. apply Hns.
  - by destruct (splitPath_Err_ops path e (mkFileMeta "" 0 0 0 "" [] 0) ns Hs) as [_ ->].
  - by apply splitPath_no_panic in Hs.
Qed.

(** ** The server over time *)
Section server.
Context `{SliceSort} `{!SliceSortSpec}.

(** The steps of [timed_step], with typed requests. *)
Inductive typed_step (t : Time) : MetaServer → MetaServer → Prop :=
  | tys_PutFile ord req r s s' :
      typed_PutFileRequest req → map_order (cm_nodes (srv_chunkMgr s)) ord →
      Server.PutFile t ord req s = (r, s') → typed_step t s s'
  | tys_RegisterNode ord req r s s' :
      typed_RegisterNodeRequest req → map_order (cm_nodes (srv_chunkMgr s)) ord →
      Server.RegisterNode t ord req s = (r, s') → typed_step t s s'
  | tys_Heartbeat req r s s' :
      typed_HeartbeatRequest req → Server.Heartbeat t req s = (r, s') → typed_step t s s'
  | tys_DeleteFile ord req r s s' : Server.DeleteFile ord req s = (r, s') → typed_step t s s'
  | tys_ReportHealth req r s s' : Server.ReportHealth req s = (r, s') → typed_step t s s'
  | tys_deadNodeChecker ord s :
      map_order (cm_nodes (srv_chunkMgr s)) ord → typed_step t s (Server.deadNodeChecker t ord s)
  | tys_predictionLoop ord s : typed_step t s (Server.predictionLoop t ord s).2
  | tys_AddChunkToNode cid nid s :
      is_Some (cm_nodes (srv_chunkMgr s) !! nid) →
      typed_step t s (set_chunkMgr (AddChunkToNode cid nid (srv_chunkMgr s)) s)
  | tys_RemoveChunkFromNode cid nid s :
      typed_step t s (set_chunkMgr (RemoveChunkFromNode cid nid (srv_chunkMgr s)) s).

Lemma typed_step_timed t s s' : typed_step t s s' → ∃ l, timed_step t l s s'.
Proof.
  destruct 1; eexists;
    [eapply ts_PutFile|eapply ts_RegisterNode|eapply ts_Heartbeat|eapply ts_DeleteFile
    |eapply ts_ReportHealth|eapply ts_deadNodeChecker|eapply ts_predictionLoop|eapply ts_AddChunkToNode
    |eapply ts_RemoveChunkFromNode]; eassumption.
Qed.

Lemma typed_server_cm s : typed_server s ↔ typed_cm (srv_chunkMgr s) ∧ typed_namespace (srv_namespace s).
Proof. split; [by intros [? ? ?]|by intros [[? ?] ?]]. Qed.

Lemma PutFile_typed t ord req r s s' :
  srv_inv s → typed_server s → in_int64 t → typed_PutFileRequest req →
  map_order (cm_nodes (srv_chunkMgr s)) ord → Server.PutFile t ord req s = (r, s') → typed_server s'.
Proof.
  intros [Hns Hcm _] [Htcm Htns]%typed_server_cm Ht [Hsize _] Hord. unfold Server.PutFile.
  pose proof (AllocateChunks_typed t ord (PutFileRequest_Path req) (PutFileRequest_ChunkCount req)
    (PutFileRequest_FileSize req) _ Hcm Hord Htcm) as Hty.
  destruct (AllocateChunks _ _ _ _ _ _) as [[ps|e|w] cm']; cbn [snd] in Hty.
  - match goal with |- context [CreateFile ?p ?m (srv_namespace ?n)] =>
      pose proof (CreateFile_typed p m (srv_namespace n) Hns ltac:(by split) Htns) as Hf;
      destruct (CreateFile p m (srv_namespace n)) as [[[]|e|w] ns'] end; cbn [snd] in Hf;
      intros [= _ <-]; by apply typed_server_cm.
  - intros [= _ <-]. by apply typed_server_cm.
  - intros [= _ <-]. by apply typed_server_cm.
Qed.

Lemma typed_step_typed t s s' :
  srv_inv s → in_int64 t → typed_server s → typed_step t s s' → typed_server s'.
Proof.
  intros Hinv Ht Hty Hstep. pose proof Hty as [Hcm Hns]%typed_server_cm. revert Hinv Hty Hcm Hns.
  destruct Hstep as [ord req r s s' Hreq Hord Hrun|ord req r s s' Hreq Hord Hrun|req r s s' Hreq Hrun
    |ord req r s s' Hrun|req r s s' Hrun|ord s Hord|ord s|cid nid s _|cid nid s]; intros Hinv Hty Hcm Hns.
  - by eapply PutFile_typed.
  - unfold Server.RegisterNode in Hrun.
    pose proof (RegisterNode_typed t ord (RegisterNodeRequest_Address req) _ _ Hreq Hcm) as Hr.
    destruct (ChunkManager.RegisterNode _ _ _ _ _) as [[] cm']; injection Hrun as _ <-;
      by apply typed_server_cm.
  - unfold Server.Heartbeat in Hrun. destruct Hreq as [Hu Hc].
    pose proof (UpdateHeartbeat_typed t (HeartbeatRequest_NodeId req) _ _ _ Hu Hc Hcm) as Hr.
    destruct (UpdateHeartbeat _ _ _ _ _) as [[] cm']; injection Hrun as _ <-; by apply typed_server_cm.
  - unfold Server.DeleteFile in Hrun.
    pose proof (DeleteFile_typed (DeleteFileRequest_Path req) _ (srv_inv_ns _ Hinv) Hns) as Hd.
    destruct (Namespace.DeleteFile _ _) as [[[meta|]|e|w] ns]; try (injection Hrun as _ <-; by apply typed_server_cm).
    cbn [set_namespace srv_chunkMgr] in Hrun.
    pose proof (RemoveChunks_typed ord (fm_ChunkIDs meta) _ Hcm) as Hr.
    destruct (RemoveChunks _ _ _). injection Hrun as _ <-. by apply typed_server_cm.
  - unfold Server.ReportHealth in Hrun. destruct (ReportHealthRequest_Metrics req) as [m|];
      [destruct (GetNode _ _)|]; injection Hrun as _ <-; by apply typed_server_cm.
  - apply typed_server_cm. split; [by apply CheckDeadNodes_typed|done].
  - unfold Server.predictionLoop.
    pose proof (prediction_fold_typed (PredictAll t ord (srv_monitor s)) [] _ Hcm) as Hp.
    destruct (foldl _ _ _) as [sp cm]. by apply typed_server_cm.
  - apply typed_server_cm. split; [by apply AddChunkToNode_typed|done].
  - apply typed_server_cm. split; [by apply RemoveChunkFromNode_typed|done].
Qed.

Definition typed_reachable (port adminPort : Z) : MetaServer → Prop :=
  rtc (λ s s', ∃ t, in_int64 t ∧ typed_step t s s') (Server.NewServer port adminPort).

Lemma typed_new port adminPort : typed_server (Server.NewServer port adminPort).
Proof.
  split; [apply map_Forall_empty..|]. change (typed_namespace NewNamespace). intros p meta. destruct p as [|x p].
  - by rewrite (view_root _ wf_NewNamespace).
  - by rewrite NewNamespace_view.
Qed.

Lemma typed_reachable_typed port adminPort s :
  typed_reachable port adminPort s → srv_inv s ∧ typed_server s.
Proof.
  intros Hr. assert (∀ s0, srv_inv s0 → typed_server s0 →
    rtc (λ s s', ∃ t, in_int64 t ∧ typed_step t s s') s0 s → srv_inv s ∧ typed_server s) as Hall.
  { clear Hr. induction 3 as [|s1 s2 s3 (t & Ht & Hs) _ IH]; [done|].
    destruct (typed_step_timed _ _ _ Hs) as [l Hl].
    apply IH; [by eapply timed_step_inv|by eapply typed_step_typed]. }
  apply (Hall _ (srv_inv_new port adminPort) (typed_new port adminPort) Hr).
Qed.
End server.

(** ** A concrete run: one node, one file of the largest size *)
Section witnesses.
Definition ty_register : RegisterNodeRequest := mkRegisterNodeRequest "a:9000" (2 ^ 63 - 1).
Definition ty_put : PutFileRequest := mkPutFileRequest "/a" (2 ^ 63 - 1) 3 "sum".
Definition ty_srv1 : MetaServer := (Server.RegisterNode 0 [] ty_register (Server.NewServer 1 2)).2.
Definition ty_srv2 : MetaServer := (Server.PutFile 5 ["node-1"] ty_put ty_srv1).2.

Lemma ty_srv2_reachable : typed_reachable 1 2 ty_srv2.
Proof.
  eapply rtc_l; [|eapply rtc_l; [|apply rtc_refl]].
  - exists 0. split; [vm_compute; split; congruence|].
    apply (tys_RegisterNode 0 [] ty_register (Server.RegisterNode 0 [] ty_register (Server.NewServer 1 2)).1 _ ty_srv1);
      [vm_compute; split; congruence|vm_compute; constructor|apply surjective_pairing].
  - exists 5. split; [vm_compute; split; congruence|].
    apply (tys_PutFile 5 ["node-1"] ty_put (Server.PutFile 5 ["node-1"] ty_put ty_srv1).1 ty_srv1 ty_srv2);
      [vm_compute; repeat split; congruence|vm_compute; reflexivity|apply surjective_pairing].
Qed.
End witnesses.
