(* ===== verification/Client.v ===== *)
(** * internal/client: uploading, downloading, displaying

    [transfer.go], [client.go] and the rendering of [watch.go].  The servers are a
    world [W]; [dial] is [grpc.NewClient].  The goroutines of an upload interleave
    at their calls: an upload is a pool of tasks and a schedule says which task
    makes the next call.  The goroutines of a download only read, so what matters
    is the order in which they complete. *)
From S2P Require Export Messages GoSort.
Local Open Scope Z_scope.

(** ** Reading the local file *)
Definition readAndChunkFile (fs : FileSys) (path : string)
    (open_fault stat_fault copy_fault : option string) (plans : nat → read_plan)
    : go (list bytes * Z * string) :=
  let! content := go_wrap "open file: " (Open fs path open_fault) in
  match stat_fault, copy_fault with
  | Some e, _ => Err ("stat file: " +:+ e)
  | None, Some e => Err ("checksum: " +:+ e)
  | None, None =>
      let checksum := fmt_x (Sum256 content) in
      let! chunks := read_chunks "read: " (S (length content)) plans content 0 [] in
      Ok (chunks, int64 (Z.of_nat (length content)), checksum)
  end.

Definition writeFile (fs : FileSys) (path : string) (data : bytes) (plan : write_plan)
    : go unit * FileSys := WriteFile fs path data plan.

(** [s[:n]] panics when the string is shorter. *)
Definition slice_to (n : nat) (s : string) : go string :=
  if decide (n ≤ String.length s)%nat then Ok (String.substring 0 n s)
  else Panic "slice bounds out of range".

Section network.
Context {W : Type}.
Variable dial : string → W → go unit.
Variable call_StoreChunk : string → StoreChunkRequest → gos W StoreChunkResponse.
Variable call_GetChunk : string → GetChunkRequest → W → go GetChunkResponse.

(** ** Upload *)
Definition sendChunkToNode (addr chunkID : string) (data : bytes) (checksum : string)
    : gos W unit := λ w,
  match dial addr w with
  | Err e => (Err ("connect to " +:+ addr +:+ ": " +:+ e), w)
  | Panic p => (Panic p, w)
  | Ok _ =>
      match call_StoreChunk addr (mkStoreChunkRequest chunkID data checksum) w with
      | (Err e, w') => (Err ("StoreChunk RPC: " +:+ e), w')
      | (Panic p, w') => (Panic p, w')
      | (Ok resp, w') =>
          if StoreChunkResponse_Success resp then (Ok tt, w')
          else (Err ("store failed: " +:+ StoreChunkResponse_Message resp), w')
      end
  end.

(** A goroutine of [uploadChunks]: the addresses it still has to send to; [None]
    once it has returned. *)
Record upload_task := mkUploadTask {
  ut_chunk : string;
  ut_data : bytes;
  ut_todo : option (list string);
}.

(** The loop that starts the goroutines. *)
Fixpoint upload_tasks (chunks : list bytes) (placements : list ChunkPlacement)
    : list upload_task :=
  match placements, chunks with
  | p :: ps, data :: rest =>
      mkUploadTask (ChunkPlacement_ChunkId p) data (Some (ChunkPlacement_NodeAddresses p))
        :: upload_tasks rest ps
  | _, _ => []
  end.

(** The servers, the goroutines and the errors sent on [errCh] so far. *)
Definition upload_state : Type := W * list upload_task * list string.

(** Goroutine [i] runs to its next call, or to its end: after the last address it
    prints the first twelve characters of the identifier and returns. *)
Definition upload_step (i : nat) : gos upload_state unit := λ st,
  let '(w, tasks, errs) := st in
  match tasks !! i with
  | Some (mkUploadTask chunk data (Some (addr :: rest))) =>
      let '(r, w') := sendChunkToNode addr chunk data (DataChecksum data) w in
      match r with
      | Ok _ => (Ok tt, (w', <[i := mkUploadTask chunk data (Some rest)]> tasks, errs))
      | Err e =>
          (Ok tt, (w', <[i := mkUploadTask chunk data None]> tasks,
                   errs ++ ["chunk " +:+ chunk +:+ " to " +:+ addr +:+ ": " +:+ e]))
      | Panic p => (Panic p, (w', tasks, errs))
      end
  | Some (mkUploadTask chunk data (Some [])) =>
      (go_map (λ _, tt) (slice_to 12 chunk), (w, <[i := mkUploadTask chunk data None]> tasks, errs))
  | _ => (Ok tt, st)
  end.

Fixpoint upload_run (sched : list nat) : gos upload_state unit :=
  match sched with
  | [] => gos_ret tt
  | i :: rest => do! _ <- upload_step i ;; upload_run rest
  end.

(** [wg.Wait()] returns when every goroutine has. *)
Definition all_done (tasks : list upload_task) : Prop := Forall (λ t, ut_todo t = None) tasks.

(** [uploadChunks] under a schedule; the result is the first error sent. *)
Definition uploadChunks (sched : list nat) (chunks : list bytes)
    (placements : list ChunkPlacement) : gos W unit := λ w,
  let '(r, (w', _, errs)) := upload_run sched (w, upload_tasks chunks placements, []) in
  (match r, errs with
   | Ok _, e :: _ => Err e
   | _, _ => r
   end, w').

(** Under the schedule every goroutine returns. *)
Definition complete_schedule (sched : list nat) (chunks : list bytes)
    (placements : list ChunkPlacement) (w : W) : Prop :=
  let '(r, (_, tasks, _)) := upload_run sched (w, upload_tasks chunks placements, []) in
  r = Ok tt → all_done tasks.

(** ** Download *)
Definition fetchChunkFromNode (addr chunkID : string) (w : W) : go bytes :=
  let! _ := dial addr w in
  let! resp := call_GetChunk addr (mkGetChunkRequest chunkID) w in
  if negb (GetChunkResponse_Success resp) then Err "GetChunk failed"
  else
    let actual := DataChecksum (GetChunkResponse_Data resp) in
    if decide (GetChunkResponse_Checksum resp ≠ "" ∧ actual ≠ GetChunkResponse_Checksum resp)
    then Err ("checksum mismatch: expected " +:+ GetChunkResponse_Checksum resp
              +:+ ", got " +:+ actual)
    else Ok (GetChunkResponse_Data resp).

(** The loop of [fetchChunkFromNodes]; [last] is the text of [lastErr]. *)
Fixpoint fetch_loop (chunkID last : string) (addresses : list string) (w : W) : go bytes :=
  match addresses with
  | [] => Err ("all nodes failed for chunk " +:+ chunkID +:+ ": " +:+ last)
  | addr :: rest =>
      match fetchChunkFromNode addr chunkID w with
      | Ok data => Ok data
      | Err e => fetch_loop chunkID e rest w
      | Panic p => Panic p
      end
  end.

Definition fetchChunkFromNodes (chunkID : string) (addresses : list string) (w : W) : go bytes :=
  fetch_loop chunkID "%!w(<nil>)" addresses w.

Record chunkResult := mkChunkResult { cr_Index : Z; cr_Data : bytes }.

(** One goroutine of [downloadChunks]. *)
Definition download_one (w : W) (l : ChunkLocation) : go chunkResult :=
  match fetchChunkFromNodes (ChunkLocation_ChunkId l) (ChunkLocation_NodeAddresses l) w with
  | Ok data =>
      let! _ := slice_to 12 (ChunkLocation_ChunkId l) in
      Ok (mkChunkResult (ChunkLocation_ChunkIndex l) data)
  | Err e => Err ("chunk " +:+ ChunkLocation_ChunkId l +:+ ": " +:+ e)
  | Panic p => Panic p
  end.

(** The goroutines complete in the order of the list: the results appended, and
    the first error sent. *)
Fixpoint download_all (w : W) (completed : list ChunkLocation)
    : go (list chunkResult * option string) :=
  match completed with
  | [] => Ok ([], None)
  | l :: rest =>
      match download_one w l with
      | Panic p => Panic p
      | r =>
          let! st := download_all w rest in
          let '(results, err) := st in
          match r with
          | Err e => Ok (results, Some e)
          | Ok c => Ok (c :: results, err)
          | Panic p => Panic p
          end
      end
  end.

Definition index_less (a b : chunkResult) : bool := cr_Index a <? cr_Index b.

Definition downloadChunks `{SliceSort} (completed : list ChunkLocation) (w : W) : go bytes :=
  let! st := download_all w completed in
  let '(results, err) := st in
  match err with
  | Some e => Err e
  | None => Ok (mjoin (cr_Data <$> slice_sort index_less results))
  end.

(** ** The client's commands *)
Variable call_PutFile : PutFileRequest → gos W PutFileResponse.
Variable call_GetFile : GetFileRequest → W → go GetFileResponse.
Variable call_DeleteFile : DeleteFileRequest → gos W DeleteFileResponse.

Definition PutFile (fs : FileSys) (localPath remotePath : string)
    (open_fault stat_fault copy_fault : option string) (plans : nat → read_plan)
    (sched : list nat) : gos W unit := λ w,
  match readAndChunkFile fs localPath open_fault stat_fault copy_fault plans with
  | Err e => (Err ("read file: " +:+ e), w)
  | Panic p => (Panic p, w)
  | Ok (chunks, fileSize, checksum) =>
      match call_PutFile (mkPutFileRequest remotePath fileSize
                            (int32 (Z.of_nat (length chunks))) checksum) w with
      | (Err e, w') => (Err ("PutFile RPC: " +:+ e), w')
      | (Panic p, w') => (Panic p, w')
      | (Ok resp, w') =>
          if PutFileResponse_Success resp
          then gos_wrap "upload chunks: "
                 (uploadChunks sched chunks (PutFileResponse_Placements resp)) w'
          else (Err ("PutFile failed: " +:+ PutFileResponse_Message resp), w')
      end
  end.

(** [complete] picks the order in which the downloads complete. *)
Definition GetFile `{SliceSort} (fs : FileSys) (remotePath localPath : string)
    (complete : list ChunkLocation → list ChunkLocation) (plan : write_plan) (w : W)
    : go unit * FileSys :=
  match call_GetFile (mkGetFileRequest remotePath) w with
  | Err e => (Err ("GetFile RPC: " +:+ e), fs)
  | Panic p => (Panic p, fs)
  | Ok resp =>
      if negb (GetFileResponse_Success resp)
      then (Err ("GetFile failed: " +:+ GetFileResponse_Message resp), fs)
      else
        match GetFileResponse_FileInfo resp with
        | None => (Panic "invalid memory address or nil pointer dereference", fs)
        | Some _ =>
            match downloadChunks (complete (GetFileResponse_ChunkLocations resp)) w with
            | Err e => (Err ("download chunks: " +:+ e), fs)
            | Panic p => (Panic p, fs)
            | Ok data =>
                let '(r, fs') := writeFile fs localPath data plan in
                (go_wrap "write file: " r, fs')
            end
        end
  end.

Definition DeleteFile (remotePath : string) : gos W unit := λ w,
  match call_DeleteFile (mkDeleteFileRequest remotePath) w with
  | (Err e, w') => (Err ("DeleteFile RPC: " +:+ e), w')
  | (Panic p, w') => (Panic p, w')
  | (Ok resp, w') =>
      if DeleteFileResponse_Success resp then (Ok tt, w')
      else (Err ("DeleteFile failed: " +:+ DeleteFileResponse_Message resp), w')
  end.
End network.

(** ** Display *)
Definition formatSize (n : Z) : string :=
  if 2 ^ 30 <=? n then fmt_f false 1 (f64_of_Z n / f64_of_Z (2 ^ 30))%float +:+ " GB"
  else if 2 ^ 20 <=? n then fmt_f false 1 (f64_of_Z n / f64_of_Z (2 ^ 20))%float +:+ " MB"
  else if 2 ^ 10 <=? n then fmt_f false 1 (f64_of_Z n / f64_of_Z (2 ^ 10))%float +:+ " KB"
  else fmt_d n +:+ " B".

Definition statusColor (status : string) : string :=
  if decide (status = "HEALTHY") then "🟢"
  else if decide (status = "WARNING") then "🟡"
  else if decide (status = "AT_RISK") then "🟠"
  else if decide (status = "CRITICAL") then "🔴"
  else if decide (status = "DEAD") then "💀"
  else "⚪".

(** The columns [ListFiles] prints for an entry: path, size, chunks.  An entry
    without chunks is shown as a directory. *)
Definition list_columns (f : FileInfo) : string * string * string :=
  if decide (FileInfo_ChunkCount f = 0) then (FileInfo_Path f +:+ "/", "DIR", "-")
  else (FileInfo_Path f, formatSize (FileInfo_Size f), fmt_d (FileInfo_ChunkCount f)).

(** The cells of [renderRiskBar]: cell [i] of [width]. *)
Definition risk_cell (risk : float64) (filled : Z) (i : nat) : string :=
  if Z.of_nat i <? filled then
    if f64_geb risk (f64_const 8 10) then "🟥"
    else if f64_geb risk (f64_const 6 10) then "🟧"
    else if f64_geb risk (f64_const 3 10) then "🟨"
    else "🟩"
  else "░".

Definition risk_filled (risk : float64) (width : Z) : Z :=
  let filled := f64_to_int64 (risk * f64_of_Z width)%float in
  if width <? filled then width else filled.

Definition renderRiskBar (risk : float64) (width : Z) : string :=
  foldl (λ bar i, bar +:+ risk_cell risk (risk_filled risk width) i) ""
    (seq 0 (Z.to_nat width)).
