(* ===== verification/ClientSpec.v ===== *)
(** * What the client promises

    Uploads and downloads against any servers that keep what they acknowledge:
    the class [NodeNetwork] says what the client relies on, and [Cluster.v] shows
    that the data nodes provide it. *)
From S2P Require Export Client.
Local Open Scope Z_scope.

(** ** Reading the local file *)

Lemma readAndChunkFile_chunks fs path content plans :
  fs !! path = Some content →
  match readAndChunkFile fs path None None None plans with
  | Ok (chunks, size, checksum) =>
      mjoin chunks = content ∧ Forall good_chunk chunks ∧
      size = int64 (Z.of_nat (length content)) ∧ checksum = DataChecksum content
  | Err e => ∃ p msg, plans p = ReadFail msg ∧ e = "read: " +:+ msg
  | Panic _ => False
  end.
Proof.
  intros Hfs. unfold readAndChunkFile, Open. rewrite Hfs. cbn [go_wrap go_bind].
  destruct (read_chunks_spec "read: " (S (length content)) plans content 0 [])
    as [(more & -> & Hjoin & Hgood)|(e & p & -> & Hp)]; [rewrite drop_0; lia| |].
  - cbn [go_bind]. rewrite app_nil_l. rewrite drop_0 in Hjoin. done.
  - cbn [go_bind]. eauto.
Qed.

(** Reading the file to upload: whatever the reads return, the chunks concatenate
    to the file, none is empty or longer than [ChunkSize], and size and checksum
    are the file's; only a failing read makes the operation fail. *)
Theorem readAndChunkFile_spec fs path content plans :
  fs !! path = Some content →
  match readAndChunkFile fs path None None None plans with
  | Ok (chunks, size, checksum) =>
      mjoin chunks = content ∧ Forall good_chunk chunks ∧
      size = int64 (Z.of_nat (length content)) ∧ checksum = DataChecksum content
  | Err e => ∃ p msg, plans p = ReadFail msg ∧ e = "read: " +:+ msg
  | Panic _ => False
  end.
Proof. apply readAndChunkFile_chunks. Qed.

Lemma slice_to_ok n s : (n ≤ String.length s)%nat → ∃ t, slice_to n s = Ok t.
Proof. intros Hn. unfold slice_to. rewrite decide_True by done. eauto. Qed.

Lemma slice_to_id p i : ∃ t, slice_to 12 (GenerateChunkID p i) = Ok t.
Proof. apply slice_to_ok. rewrite GenerateChunkID_length. lia. Qed.

Lemma zip_lookup {A B} (l : list A) (k : list B) i x y :
  zip l k !! i = Some (x, y) ↔ l !! i = Some x ∧ k !! i = Some y.
Proof.
  rewrite lookup_zip_with_Some. split; [by intros (? & ? & [= -> ->] & ? & ?)|].
  intros [Hx Hy]. by exists x, y.
Qed.

Lemma upload_tasks_lookup {chunks placements} i :
  upload_tasks chunks placements !! i =
    (λ '(p, data), mkUploadTask (ChunkPlacement_ChunkId p) data
       (Some (ChunkPlacement_NodeAddresses p))) <$> zip placements chunks !! i.
Proof.
  revert chunks i. induction placements as [|p ps IH]; intros [|c cs] [|i]; simpl; auto.
Qed.

(** ** What the client relies on *)
Class NodeNetwork (W : Type) (call_StoreChunk : string → StoreChunkRequest → gos W StoreChunkResponse)
    (call_GetChunk : string → GetChunkRequest → W → go GetChunkResponse) := {
  (** the servers are in order *)
  net_ok : W → Prop;
  (** the server at [addr] keeps exactly [data] under the identifier *)
  holds : W → string → string → bytes → Prop;
  (** a store leaves the servers in order and the other identifiers alone *)
  net_store addr id data w r w' :
    net_ok w → plain_id id →
    call_StoreChunk addr (mkStoreChunkRequest id data (DataChecksum data)) w = (r, w') →
    net_ok w' ∧
    (∀ addr' id' data', id' ≠ id → holds w addr' id' data' → holds w' addr' id' data');
  (** an acknowledged store is kept, and does not undo an earlier one *)
  net_stored addr id data w resp w' :
    net_ok w → plain_id id →
    call_StoreChunk addr (mkStoreChunkRequest id data (DataChecksum data)) w = (Ok resp, w') →
    StoreChunkResponse_Success resp = true →
    holds w' addr id data ∧ (∀ addr', holds w addr' id data → holds w' addr' id data);
  (** a read either fails or returns what is kept *)
  net_get addr id data w resp :
    holds w addr id data → call_GetChunk addr (mkGetChunkRequest id) w = Ok resp →
    GetChunkResponse_Success resp = true → GetChunkResponse_Data resp = data;
}.

Section upload.
Context {W : Type} (dial : string → W → go unit).
Context (call_StoreChunk : string → StoreChunkRequest → gos W StoreChunkResponse).
Context (call_GetChunk : string → GetChunkRequest → W → go GetChunkResponse).
Context `{!NodeNetwork W call_StoreChunk call_GetChunk}.
Local Abbreviation upload_step := (upload_step dial call_StoreChunk).
Local Abbreviation upload_run := (upload_run dial call_StoreChunk).
Local Abbreviation uploadChunks := (uploadChunks dial call_StoreChunk).
Local Abbreviation complete_schedule := (complete_schedule dial call_StoreChunk).

(** ** Termination: a goroutine makes one call per address and then returns *)
Definition task_steps (t : upload_task) : nat :=
  match ut_todo t with None => 0 | Some l => S (length l) end.

(** A call of goroutine [i] changes only that goroutine, and brings it nearer to
    its end. *)
Lemma upload_step_progress i w tasks errs w' tasks' errs' :
  upload_step i (w, tasks, errs) = (Ok tt, (w', tasks', errs')) →
  (tasks' = tasks ∧ ∀ t, tasks !! i = Some t → task_steps t = 0%nat) ∨
  (∃ t t', tasks !! i = Some t ∧ tasks' = <[i := t']> tasks ∧ (task_steps t' < task_steps t)%nat).
Proof.
  unfold upload_step.
  destruct (tasks !! i) as [[chunk data [[|addr rest]|]]|] eqn:Hi.
  - destruct (slice_to _ _); cbn [go_map go_bind]; [|done..]. intros [= <- <- <-].
    right. eexists _, _. split; [done|]. split; [done|]. cbv [task_steps ut_todo length]; lia.
  - destruct (sendChunkToNode _ _ _ _ _ _ _) as [[[]|e|p] w1]; intros [= <- <- <-];
      right; eexists _, _; (split; [done|]; split; [done|]); cbv [task_steps ut_todo]; simpl; lia.
  - intros [= <- <- <-]. left. split; [done|]. by intros t [= <-].
  - intros [= <- <- <-]. left. split; [done|]. by intros t [=].
Qed.

Lemma upload_run_cons i sched st r st' :
  upload_run (i :: sched) st = (r, st') →
  (∃ st1, upload_step i st = (Ok tt, st1) ∧ upload_run sched st1 = (r, st')) ∨
  (upload_step i st = (r, st') ∧ r ≠ Ok tt).
Proof.
  cbn [Client.upload_run]. unfold gos_bind.
  destruct (upload_step i st) as [[[]|e|p] st1] eqn:Hstep; intros Hrun; [left; eauto|..];
    injection Hrun as <- <-; by right.
Qed.

Lemma upload_run_steps sched : ∀ w tasks errs w' tasks' errs',
  upload_run sched (w, tasks, errs) = (Ok tt, (w', tasks', errs')) →
  ∀ j t', tasks' !! j = Some t' → ∃ t, tasks !! j = Some t ∧
    (task_steps t' ≤ task_steps t - length (filter (eq j) sched))%nat.
Proof.
  induction sched as [|i sched IH]; intros w tasks errs w' tasks' errs' Hrun j t' Hj.
  { injection Hrun as <- <- <-. exists t'. split; [done|]. simpl. lia. }
  apply upload_run_cons in Hrun as [([[w1 tasks1] errs1] & Hstep & Hrun)|[_ ?]]; [|done].
  destruct (IH _ _ _ _ _ _ Hrun j t' Hj) as (t1 & Ht1 & Hle).
  rewrite filter_cons.
  apply upload_step_progress in Hstep as [[-> Hdone]|(t & t2 & Ht & -> & Hlt)].
  - exists t1. split; [done|]. case_decide as Hji; simpl; [subst j|lia].
    apply Hdone in Ht1. lia.
  - apply list_lookup_insert_Some in Ht1 as [(<- & <- & _)|[Hne Ht1]].
    + exists t. split; [done|]. rewrite decide_True by done. simpl. lia.
    + exists t1. split; [done|]. rewrite decide_False by done. lia.
Qed.

(** ** Whatever the interleaving, acknowledged chunks are kept *)

(** The chunks and the identifiers that belong to them. *)
Definition upload_wf (placements : list ChunkPlacement) : Prop :=
  NoDup (ChunkPlacement_ChunkId <$> placements) ∧
  Forall (λ p, plain_id (ChunkPlacement_ChunkId p)) placements.

(** The addresses a goroutine is through with hold its chunk. *)
Definition task_inv (w : W) (p : ChunkPlacement) (data : bytes) (t : upload_task) : Prop :=
  ut_chunk t = ChunkPlacement_ChunkId p ∧ ut_data t = data ∧
  ∃ sent, ChunkPlacement_NodeAddresses p = sent ++ default [] (ut_todo t) ∧
    ∀ addr, addr ∈ sent → holds w addr (ChunkPlacement_ChunkId p) data.

Definition upload_inv (chunks : list bytes) (placements : list ChunkPlacement)
    (st : upload_state (W := W)) : Prop :=
  let '(w, tasks, errs) := st in
  net_ok w ∧ length tasks = length (zip placements chunks) ∧
  (∀ i t, tasks !! i = Some t → ∃ p data, zip placements chunks !! i = Some (p, data) ∧
     ut_chunk t = ChunkPlacement_ChunkId p ∧ ut_data t = data) ∧
  (errs = [] → ∀ i t p data, tasks !! i = Some t → zip placements chunks !! i = Some (p, data) →
     task_inv w p data t).

Lemma sendChunkToNode_net addr id data w r w' :
  net_ok w → plain_id id →
  sendChunkToNode dial call_StoreChunk addr id data (DataChecksum data) w = (r, w') →
  net_ok w' ∧
  (∀ addr' id' data', id' ≠ id → holds w addr' id' data' → holds w' addr' id' data') ∧
  (r = Ok tt → holds w' addr id data ∧ (∀ addr', holds w addr' id data → holds w' addr' id data)).
Proof.
  intros Hok Hid. unfold sendChunkToNode.
  destruct (dial addr w) as [[]|e|p]; [|by intros [= <- <-]..].
  destruct (call_StoreChunk _ _ w) as [r1 w1] eqn:Hcall.
  destruct (net_store _ _ _ _ _ _ Hok Hid Hcall) as [Hok1 Hother].
  destruct r1 as [resp|e|p]; [|by intros [= <- <-]..].
  destruct (StoreChunkResponse_Success resp) eqn:Hs; intros [= <- <-].
  - split; [done|]. split; [done|]. intros _. by eapply net_stored.
  - split; [done|]. by split.
Qed.

Lemma upload_ids_distinct (chunks : list bytes) placements i j p q d e :
  upload_wf placements → zip placements chunks !! i = Some (p, d) →
  zip placements chunks !! j = Some (q, e) → i ≠ j →
  ChunkPlacement_ChunkId p ≠ ChunkPlacement_ChunkId q.
Proof.
  intros [Hnd _] Hi Hj Hne Heq. apply Hne.
  apply zip_lookup in Hi as [Hp _]. apply zip_lookup in Hj as [Hq _].
  eapply NoDup_lookup; [exact Hnd|..]; rewrite list_lookup_fmap; [by rewrite Hp|].
  by rewrite Hq, Heq.
Qed.

Lemma upload_step_inv chunks placements i st st' :
  upload_wf placements → upload_inv chunks placements st → upload_step i st = (Ok tt, st') →
  upload_inv chunks placements st'.
Proof.
  destruct st as [[w tasks] errs]. intros Hwf (Hok & Hlen & Hids & Hinv). unfold upload_step.
  destruct (tasks !! i) as [[chunk data todo]|] eqn:Hi; [|by intros [= <-]].
  destruct (Hids i _ Hi) as (p & data' & Hz & Hc & Hd). cbn [ut_chunk ut_data] in Hc, Hd.
  subst chunk data'.
  assert (plain_id (ChunkPlacement_ChunkId p)) as Hplain.
  { pose proof (proj1 (zip_lookup _ _ _ _ _) Hz) as [Hp _].
    destruct Hwf as [_ Hall]. by eapply Forall_lookup_1 in Hall. }
  assert (∀ w' todo' errs', net_ok w' →
    (errs' = [] → errs = [] ∧ task_inv w' p data
       (mkUploadTask (ChunkPlacement_ChunkId p) data todo')) →
    (∀ addr' id' data', id' ≠ ChunkPlacement_ChunkId p →
       holds w addr' id' data' → holds w' addr' id' data') →
    upload_inv chunks placements
      (w', <[i := mkUploadTask (ChunkPlacement_ChunkId p) data todo']> tasks, errs')) as Hset.
  { intros w' todo' errs' Hok' Hnew Hother. split; [done|]. rewrite length_insert.
    split; [done|]. split.
    - intros j t [(<- & <- & _)|[_ Hj]]%list_lookup_insert_Some; [by exists p, data|by apply Hids].
    - intros Herrs j t q e [(<- & <- & _)|[Hne Hj]]%list_lookup_insert_Some Hq.
      + rewrite Hz in Hq. injection Hq as <- <-. by apply Hnew.
      + destruct (Hnew Herrs) as [Hold _].
        destruct (Hinv Hold j t q e Hj Hq) as (Hc & Hd & sent & Hs & Hall).
        split; [done|]. split; [done|]. exists sent. split; [done|].
        intros addr Ha. apply Hother; [|by apply Hall].
        by eapply (upload_ids_distinct chunks placements j i). }
  destruct todo as [[|addr rest]|].
  - destruct (slice_to _ _); intros [= <-]. apply Hset; [done| |done]. intros He. split; [done|].
    destruct (Hinv He i _ p data Hi Hz) as (_ & _ & sent & Hs & Hall).
    split; [done|]. split; [done|]. by exists sent.
  - destruct (sendChunkToNode _ _ _ _ _ _ _) as [r1 w1] eqn:Hsend.
    destruct (sendChunkToNode_net _ _ _ _ _ _ Hok Hplain Hsend) as (Hok1 & Hother & Hacc).
    destruct r1 as [[]|e|pan]; intros [= <-].
    + apply Hset; [done| |done]. intros He. split; [done|].
      destruct (Hinv He i _ p data Hi Hz) as (_ & _ & sent & Hs & Hall).
      destruct (Hacc eq_refl) as [Hnew Hkeep].
      split; [done|]. split; [done|]. exists (sent ++ [addr]). cbn [ut_todo default] in Hs |- *.
      split; [by rewrite Hs, <- app_assoc|].
      intros a [Ha| ->%list_elem_of_singleton]%elem_of_app; [by apply Hkeep, Hall|done].
    + apply Hset; [done| |done]. by intros [_ [=]]%app_nil.
  - by intros [= <-].
Qed.

Lemma upload_run_inv chunks placements sched : ∀ st st',
  upload_wf placements → upload_inv chunks placements st →
  upload_run sched st = (Ok tt, st') → upload_inv chunks placements st'.
Proof.
  induction sched as [|i sched IH]; intros st st' Hwf Hinv Hrun.
  { by injection Hrun as <-. }
  apply upload_run_cons in Hrun as [(st1 & Hstep & Hrun)|[_ ?]]; [|done].
  eapply IH; [done| |exact Hrun]. by eapply upload_step_inv.
Qed.

Lemma upload_inv_init chunks placements w :
  net_ok w → upload_inv chunks placements (w, upload_tasks chunks placements, []).
Proof.
  intros Hok. split; [done|]. split; [|split].
  - revert chunks. induction placements as [|p ps IH]; intros [|c cs]; simpl; auto.
  - intros i t. rewrite upload_tasks_lookup.
    intros ([p data] & Hz & ->)%fmap_Some. by exists p, data.
  - intros _ i t p data. rewrite upload_tasks_lookup. intros Ht Hz. rewrite Hz in Ht.
    injection Ht as <-. split; [done|]. split; [done|]. exists []. split; [done|].
    by intros addr ?%not_elem_of_nil.
Qed.

Lemma uploadChunks_kept sched chunks placements w w' :
  net_ok w → upload_wf placements → complete_schedule sched chunks placements w →
  uploadChunks sched chunks placements w = (Ok tt, w') →
  net_ok w' ∧
  ∀ i p data addr, placements !! i = Some p → chunks !! i = Some data →
    addr ∈ ChunkPlacement_NodeAddresses p → holds w' addr (ChunkPlacement_ChunkId p) data.
Proof.
  intros Hok Hwf. unfold complete_schedule, uploadChunks.
  destruct (upload_run _ _) as [r [[w1 tasks] errs]] eqn:Hrun. intros Hdone Hres.
  destruct r as [[]|e|p]; [|done..]. destruct errs as [|e errs]; [|done].
  injection Hres as <-. specialize (Hdone eq_refl).
  apply (upload_run_inv chunks placements) in Hrun as (Hok' & Hlen & Hids & Hinv);
    [|done|by apply upload_inv_init].
  split; [done|]. intros i p data addr Hp Hd Ha.
  assert (zip placements chunks !! i = Some (p, data)) as Hz by (by apply zip_lookup).
  destruct (lookup_lt_is_Some_2 tasks i) as [t Ht].
  { rewrite Hlen. by eapply lookup_lt_Some. }
  destruct (Hinv eq_refl i t p data Ht Hz) as (_ & _ & sent & Hs & Hall).
  apply Hall. unfold all_done in Hdone. rewrite Forall_lookup in Hdone.
  rewrite (Hdone i t Ht), app_nil_r in Hs. by rewrite <- Hs.
Qed.

(** What every store preserves, an upload preserves. *)
Lemma uploadChunks_preserves (P : W → Prop) sched chunks placements w r w' :
  (∀ addr req v r v', call_StoreChunk addr req v = (r, v') → P v → P v') →
  P w → uploadChunks sched chunks placements w = (r, w') → P w'.
Proof.
  intros Hcall Hw. unfold uploadChunks.
  assert (∀ st r st', P st.1.1 → upload_run sched st = (r, st') → P st'.1.1) as Hrun.
  { clear -Hcall. induction sched as [|i sched IH]; intros st r st' Hst Hrun.
    { by injection Hrun as <- <-. }
    assert (∀ r1 st1, upload_step i st = (r1, st1) → P st1.1.1) as Hstep.
    { destruct st as [[w tasks] errs]. unfold upload_step. intros r1 st1.
      destruct (tasks !! i) as [[chunk data [[|addr rest]|]]|]; try by intros [= <- <-].
      unfold sendChunkToNode.
      destruct (dial addr w) as [[]|e|p]; [|by intros [= <- <-]..].
      destruct (call_StoreChunk _ _ w) as [[resp|e|p] w1] eqn:Hc; apply Hcall in Hc;
        [|done|by intros [= <- <-]|done|by intros [= <- <-]|done].
      - by destruct (StoreChunkResponse_Success resp); intros [= <- <-]. }
    apply upload_run_cons in Hrun as [(st1 & Hs & Hrun)|[Hs _]]; [|by eapply Hstep].
    eapply IH; [|exact Hrun]. by eapply Hstep. }
  destruct (upload_run _ _) as [r1 [[w1 tasks] errs]] eqn:Hr. intros [= _ <-].
  by apply Hrun in Hr.
Qed.

Lemma uploadChunks_complete sched chunks placements w :
  (∀ i p, placements !! i = Some p →
     length (ChunkPlacement_NodeAddresses p) < length (filter (eq i) sched))%nat →
  complete_schedule sched chunks placements w.
Proof.
  intros Hsched. unfold complete_schedule.
  destruct (upload_run _ _) as [r [[w1 tasks] errs]] eqn:Hrun. intros ->.
  apply Forall_lookup. intros i t Ht.
  destruct (upload_run_steps _ _ _ _ _ _ _ Hrun i t Ht) as (t0 & Ht0 & Hle).
  rewrite upload_tasks_lookup in Ht0. apply fmap_Some in Ht0 as ([p data] & Hz & ->).
  apply zip_lookup in Hz as [Hp _]. specialize (Hsched i p Hp).
  unfold task_steps in Hle. cbn [ut_todo] in Hle. destruct (ut_todo t); [lia|done].
Qed.

(** Upload: under every interleaving of the upload goroutines in which each gets
    one turn per address and one to finish, all goroutines return; and when the
    upload then reports success, every server named in a placement holds exactly
    the chunk placed there. *)
Theorem uploadChunks_stores sched chunks placements w :
  net_ok w → upload_wf placements →
  (∀ i p, placements !! i = Some p →
     length (ChunkPlacement_NodeAddresses p) < length (filter (eq i) sched))%nat →
  complete_schedule sched chunks placements w ∧
  ∀ w', uploadChunks sched chunks placements w = (Ok tt, w') →
    net_ok w' ∧
    ∀ i p data addr, placements !! i = Some p → chunks !! i = Some data →
      addr ∈ ChunkPlacement_NodeAddresses p → holds w' addr (ChunkPlacement_ChunkId p) data.
Proof.
  intros Hok Hwf Hsched.
  assert (complete_schedule sched chunks placements w) as Hc by by apply uploadChunks_complete.
  split; [done|]. intros w'. by apply uploadChunks_kept.
Qed.
End upload.

(** ** Full chunks and the transport's message limit

    The servers are created by [grpc.NewServer()] without options, so a message of
    more than [grpc_limit] bytes is refused before a handler runs (gRPC's default
    for received messages).  An encoded message is at least as long as its fields. *)
Section message_limit.
Context {W : Type} (dial : string → W → go unit).
Context (call_StoreChunk : string → StoreChunkRequest → gos W StoreChunkResponse).

Definition grpc_limit : Z := 4 * 1024 * 1024.

Definition StoreChunkRequest_bytes (req : StoreChunkRequest) : Z :=
  Z.of_nat (String.length (StoreChunkRequest_ChunkId req) + length (StoreChunkRequest_Data req)
            + String.length (StoreChunkRequest_Checksum req)).

Definition enforces_limit : Prop := ∀ addr req w,
  grpc_limit < StoreChunkRequest_bytes req → ∃ e w', call_StoreChunk addr req w = (Err e, w').

Lemma full_chunk_refused addr id data w r w' :
  enforces_limit → Z.of_nat (length data) = ChunkSize →
  sendChunkToNode dial call_StoreChunk addr id data (DataChecksum data) w = (r, w') → r ≠ Ok tt.
Proof.
  intros Hlim Hlen. unfold sendChunkToNode.
  destruct (dial addr w) as [[]|e|p]; [|by intros [= <- <-]..].
  destruct (Hlim addr (mkStoreChunkRequest id data (DataChecksum data)) w) as (e & w1 & ->);
    [|by intros [= <- <-]].
  unfold StoreChunkRequest_bytes, grpc_limit, DataChecksum. simpl.
  rewrite length_fmt_x, length_Sum256. unfold ChunkSize in Hlen. lia.
Qed.

(** Goroutine [i] has not got past its first address unless an error was sent. *)
Definition stuck (i : nat) (p : ChunkPlacement) (data : bytes)
    (st : upload_state (W := W)) : Prop :=
  let '(_, tasks, errs) := st in
  errs = [] → tasks !! i =
    Some (mkUploadTask (ChunkPlacement_ChunkId p) data (Some (ChunkPlacement_NodeAddresses p))).

Lemma upload_run_stuck i p data sched : ∀ st st',
  enforces_limit → Z.of_nat (length data) = ChunkSize → ChunkPlacement_NodeAddresses p ≠ [] →
  stuck i p data st → upload_run dial call_StoreChunk sched st = (Ok tt, st') → stuck i p data st'.
Proof.
  intros st st' Hlim Hlen Hne. revert st st'.
  induction sched as [|j sched IH]; intros st st' Hst Hrun; [by injection Hrun as <-|].
  apply upload_run_cons in Hrun as [(st1 & Hstep & Hrun)|[_ ?]]; [|done].
  eapply IH; [|exact Hrun]. clear IH Hrun st' sched.
  destruct st as [[w tasks] errs]. unfold upload_step in Hstep.
  destruct (tasks !! j) as [[chunk bs todo]|] eqn:Hj; [|by injection Hstep as <-].
  destruct (decide (j = i)) as [->|Hji].
  - destruct errs as [|e errs].
    + rewrite (Hst eq_refl) in Hj. injection Hj as <- <- <-.
      destruct (ChunkPlacement_NodeAddresses p) as [|addr rest]; [done|].
      destruct (sendChunkToNode _ _ _ _ _ _ _) as [r w1] eqn:Hsend.
      apply full_chunk_refused in Hsend; [|done..].
      destruct r as [[]|e|pan]; [done| |done]. injection Hstep as <-. by intros [=].
    + destruct todo as [[|addr rest]|].
      * destruct (slice_to _ _); try done. by injection Hstep as <-.
      * destruct (sendChunkToNode _ _ _ _ _ _ _) as [[[]|e'|pan] w1]; try done;
          injection Hstep as <-; by intros [=].
      * by injection Hstep as <-.
  - assert (∀ w1 t errs1, (errs1 = [] → errs = []) →
      stuck i p data (w1, <[j := t]> tasks, errs1)) as Hkeep.
    { intros w1 t errs1 He He1. rewrite list_lookup_insert_ne by done. apply Hst, He, He1. }
    destruct todo as [[|addr rest]|].
    + destruct (slice_to _ _); try done. injection Hstep as <-. by apply Hkeep.
    + destruct (sendChunkToNode _ _ _ _ _ _ _) as [[[]|e'|pan] w1]; try done;
        injection Hstep as <-; apply Hkeep; [done|]. by intros [_ [=]]%app_nil.
    + by injection Hstep as <-.
Qed.

(** C37: Full chunks cannot be uploaded: with servers that enforce gRPC's default limit
    of 4 MiB per message, an upload with a chunk of the full [ChunkSize] that has a
    node to go to never succeeds: chunk and checksum together exceed the limit. *)
Theorem full_chunk_never_uploads sched chunks placements w i p data :
  enforces_limit →
  placements !! i = Some p → ChunkPlacement_NodeAddresses p ≠ [] →
  chunks !! i = Some data → Z.of_nat (length data) = ChunkSize →
  complete_schedule dial call_StoreChunk sched chunks placements w →
  (uploadChunks dial call_StoreChunk sched chunks placements w).1 ≠ Ok tt.
Proof.
  intros Hlim Hp Hne Hd Hlen. unfold complete_schedule, uploadChunks.
  destruct (upload_run _ _ _ _) as [r [[w1 tasks] errs]] eqn:Hrun. intros Hdone.
  destruct r as [[]|e|pan]; [|done..]. destruct errs as [|e errs]; [|done]. exfalso.
  apply (upload_run_stuck i p data) in Hrun; [|done..|].
  - specialize (Hrun eq_refl). specialize (Hdone eq_refl).
    unfold all_done in Hdone. rewrite Forall_lookup in Hdone. by specialize (Hdone i _ Hrun).
  - intros _. rewrite upload_tasks_lookup.
    assert (zip placements chunks !! i = Some (p, data)) as -> by (by apply zip_lookup). done.
Qed.
End message_limit.

(** ** Downloading *)
Section download.
Context {W : Type} (dial : string → W → go unit).
Context (call_StoreChunk : string → StoreChunkRequest → gos W StoreChunkResponse).
Context (call_GetChunk : string → GetChunkRequest → W → go GetChunkResponse).
Local Abbreviation fetchChunkFromNode := (fetchChunkFromNode dial call_GetChunk).
Local Abbreviation fetchChunkFromNodes := (fetchChunkFromNodes dial call_GetChunk).
Local Abbreviation fetch_loop := (fetch_loop dial call_GetChunk).
Local Abbreviation download_one := (download_one dial call_GetChunk).
Local Abbreviation download_all := (download_all dial call_GetChunk).
Local Abbreviation downloadChunks := (downloadChunks dial call_GetChunk).

Lemma fetchChunkFromNode_Ok addr id w data :
  fetchChunkFromNode addr id w = Ok data →
  ∃ resp, call_GetChunk addr (mkGetChunkRequest id) w = Ok resp ∧
    GetChunkResponse_Success resp = true ∧ GetChunkResponse_Data resp = data ∧
    (GetChunkResponse_Checksum resp = "" ∨ GetChunkResponse_Checksum resp = DataChecksum data).
Proof.
  unfold fetchChunkFromNode. intros ([] & _ & (resp & Hcall & Hr)%go_bind_ok)%go_bind_ok.
  exists resp. destruct (GetChunkResponse_Success resp); [|done]. cbn [negb] in Hr.
  case_decide as Hsum; [done|]. injection Hr as <-. split; [done|]. split; [done|].
  split; [done|]. destruct (decide (GetChunkResponse_Checksum resp = "")) as [|Hne]; [by left|].
  right. apply dec_stable. intros Hx. apply Hsum. split; [done|]. by intros Heq.
Qed.

Lemma fetch_loop_Ok id addrs w data : ∀ last,
  fetch_loop id last addrs w = Ok data ↔
  ∃ pre addr post, addrs = pre ++ addr :: post ∧
    Forall (λ a, ∃ e, fetchChunkFromNode a id w = Err e) pre ∧
    fetchChunkFromNode addr id w = Ok data.
Proof.
  induction addrs as [|a addrs IH]; intros last; cbn [Client.fetch_loop].
  { split; [done|]. by intros ([|] & addr & post & ? & _). }
  split.
  - destruct (fetchChunkFromNode a id w) as [d|e|p] eqn:Hf; [|intros H|done].
    + intros [= ->]. by exists [], a, addrs.
    + apply IH in H as (pre & addr & post & -> & Hpre & Ha).
      exists (a :: pre), addr, post. split; [done|]. split; [|done]. constructor; [eauto|done].
  - intros ([|a' pre] & addr & post & [= -> ->] & Hpre & Ha).
    + by rewrite Ha.
    + apply Forall_cons in Hpre as [[e ->] Hpre]. apply IH. by exists pre, addr, post.
Qed.

Lemma fetch_loop_Err id addrs w : ∀ last e,
  fetch_loop id last addrs w = Err e →
  Forall (λ a, ∃ e', fetchChunkFromNode a id w = Err e') addrs.
Proof.
  induction addrs as [|a addrs IH]; intros last e; cbn [Client.fetch_loop]; [constructor|].
  destruct (fetchChunkFromNode a id w) as [d|e1|p] eqn:Hf; [done| |done].
  intros H. constructor; [eauto|]. by eapply IH.
Qed.

(** Fetching a chunk: the addresses are tried in order and the first node that
    answers with data matching the checksum it sends decides; the fetch fails only
    if every node fails. *)
Theorem fetchChunkFromNodes_first id addrs w :
  (∀ data, fetchChunkFromNodes id addrs w = Ok data ↔
     ∃ pre addr post, addrs = pre ++ addr :: post ∧
       Forall (λ a, ∃ e, fetchChunkFromNode a id w = Err e) pre ∧
       fetchChunkFromNode addr id w = Ok data) ∧
  (∀ data, fetchChunkFromNodes id addrs w = Ok data →
     ∃ addr resp, addr ∈ addrs ∧ call_GetChunk addr (mkGetChunkRequest id) w = Ok resp ∧
       GetChunkResponse_Data resp = data ∧
       (GetChunkResponse_Checksum resp = "" ∨
        GetChunkResponse_Checksum resp = DataChecksum data)) ∧
  (∀ e, fetchChunkFromNodes id addrs w = Err e →
     Forall (λ a, ∃ e', fetchChunkFromNode a id w = Err e') addrs).
Proof.
  split; [intros data; apply fetch_loop_Ok|]. split; [|intros e; apply fetch_loop_Err].
  intros data (pre & addr & post & -> & _ & Ha)%fetch_loop_Ok.
  destruct (fetchChunkFromNode_Ok _ _ _ _ Ha) as (resp & Hc & _ & Hd & Hsum).
  exists addr, resp. split; [set_solver|]. done.
Qed.

Lemma download_all_Ok w completed results :
  download_all w completed = Ok (results, None) ↔
  Forall2 (λ l r, download_one w l = Ok r) completed results.
Proof.
  revert results. induction completed as [|l ls IH]; intros results; cbn [Client.download_all].
  { split; [intros [= <-]; constructor|]. by intros ->%Forall2_nil_inv_l. }
  split.
  - destruct (download_one w l) as [c|e|p] eqn:Hl; [|intros ([rs err] & _ & [=])%go_bind_ok|done].
    intros ([rs err] & Hrs & [= <- ->])%go_bind_ok. constructor; [done|]. by apply IH.
  - intros H. inversion H as [|? c ? rs Hl Hrs]; subst. rewrite Hl.
    apply IH in Hrs. by rewrite Hrs.
Qed.

(** Sorting by index undoes the order of completion. *)
Lemma index_less_swo l : strict_weak_on index_less l.
Proof.
  split; unfold index_less; intros; rewrite ?Z.ltb_lt, ?Z.ltb_ge in *; lia.
Qed.

Lemma sort_by_index `{SliceSort} `{!SliceSortSpec} expected results :
  StronglySorted (λ a b, cr_Index a < cr_Index b) expected → results ≡ₚ expected →
  slice_sort index_less results = expected.
Proof.
  intros Hexp Hperm.
  assert (slice_sort index_less results ≡ₚ expected) as Hs by (by rewrite slice_sort_perm).
  assert (∀ a b, a ∈ expected → b ∈ expected → cr_Index a = cr_Index b → a = b) as Hinj.
  { clear -Hexp. induction Hexp as [|x l Hl IH Hx]; intros a b; [by intros ?%not_elem_of_nil|].
    rewrite Forall_forall in Hx.
    intros [->|Ha]%elem_of_cons [->|Hb]%elem_of_cons Heq; [done|..|by apply IH].
    - specialize (Hx b Hb). simpl in Hx. lia.
    - specialize (Hx a Ha). simpl in Hx. lia. }
  apply (StronglySorted_unique_strong (λ a b, index_less b a = false)); [| | |done].
  - unfold index_less. intros a b Ha Hb. rewrite !Z.ltb_ge. intros H1 H2.
    apply Hinj; [by rewrite <- Hs|done|lia].
  - apply slice_sort_sorted, index_less_swo.
  - clear -Hexp. induction Hexp as [|x l Hl IH Hx]; constructor; [done|].
    eapply Forall_impl; [exact Hx|]. intros b. unfold index_less. simpl. rewrite Z.ltb_ge. lia.
Qed.

Lemma download_one_Ok w l c :
  download_one w l = Ok c →
  cr_Index c = ChunkLocation_ChunkIndex l ∧
  fetchChunkFromNodes (ChunkLocation_ChunkId l) (ChunkLocation_NodeAddresses l) w = Ok (cr_Data c).
Proof.
  unfold Client.download_one. destruct (Client.fetchChunkFromNodes _ _ _ _ _); [|done..].
  intros (t & _ & [= <-])%go_bind_ok. done.
Qed.

Lemma downloadChunks_sorted `{SliceSort} `{!SliceSortSpec} completed locations w :
  completed ≡ₚ locations →
  StronglySorted (λ a b, ChunkLocation_ChunkIndex a < ChunkLocation_ChunkIndex b) locations →
  (∀ data, downloadChunks completed w = Ok data ↔
     ∃ results, Forall2 (λ l r, download_one w l = Ok r) locations results ∧
       data = mjoin (cr_Data <$> results)).
Proof.
  intros Hperm Hsorted data. unfold Client.downloadChunks.
  assert (∀ results, Forall2 (λ l r, download_one w l = Ok r) locations results →
    StronglySorted (λ a b, cr_Index a < cr_Index b) results) as Hss.
  { clear -Hsorted. induction Hsorted as [|l ls Hls IH Hl]; intros results Hall;
      inversion Hall as [|? c ? rs Hc Hrs]; subst; constructor; [by apply IH|].
    apply download_one_Ok in Hc as [-> _]. clear -Hrs Hl.
    induction Hrs as [|l' r ls rs Hr Hrs IH]; constructor; apply Forall_cons in Hl as [Hl Hls].
    - by apply download_one_Ok in Hr as [-> _].
    - by apply IH. }
  split.
  - intros ([results [e|]] & Hall & Hres)%go_bind_ok; [done|]. injection Hres as <-.
    apply download_all_Ok in Hall.
    destruct (Permutation_Forall2 Hperm Hall) as (results' & Hp & Hall').
    exists results'. split; [done|].
    by rewrite (sort_by_index results' results) by (done || by apply Hss).
  - intros (results & Hall & ->).
    destruct (Permutation_Forall2 (Permutation_sym Hperm) Hall) as (results' & Hp & Hall').
    apply download_all_Ok in Hall'. rewrite Hall'. cbn [go_bind].
    by rewrite (sort_by_index results results') by (done || by apply Hss).
Qed.

(** The chunks in index order, whatever the order of completion. *)
Lemma downloadChunks_fetches `{SliceSort} `{!SliceSortSpec} completed locations w :
  completed ≡ₚ locations →
  StronglySorted (λ a b, ChunkLocation_ChunkIndex a < ChunkLocation_ChunkIndex b) locations →
  Forall (λ l, 12 ≤ String.length (ChunkLocation_ChunkId l))%nat locations →
  ∀ data, downloadChunks completed w = Ok data ↔
    ∃ chunks, data = mjoin chunks ∧
      Forall2 (λ l c, fetchChunkFromNodes (ChunkLocation_ChunkId l)
                        (ChunkLocation_NodeAddresses l) w = Ok c) locations chunks.
Proof.
  intros Hperm Hsorted Hlong data. rewrite downloadChunks_sorted by done. split.
  - intros (results & Hall & ->). exists (cr_Data <$> results). split; [done|].
    apply Forall2_fmap_r. eapply Forall2_impl; [exact Hall|].
    intros l r Hr. by apply download_one_Ok.
  - intros (chunks & -> & Hall).
    exists (zip_with (λ l c, mkChunkResult (ChunkLocation_ChunkIndex l) c) locations chunks).
    clear Hperm Hsorted. induction Hall as [|l c ls cs Hc Hall IH]; [done|].
    apply Forall_cons in Hlong as [Hl Hlong]. destruct (IH Hlong) as [Hr Hd]. split.
    + simpl. constructor; [|done]. unfold Client.download_one. rewrite Hc.
      by destruct (slice_to_ok _ _ Hl) as [t ->].
    + simpl. by rewrite Hd.
Qed.

(** Download: the bytes do not depend on the order in which the parallel downloads
    complete, nor on the sort: a download succeeds exactly when every chunk can be
    fetched, and returns the chunks concatenated in index order. *)
Theorem downloadChunks_in_order `{SliceSort} `{!SliceSortSpec} completed locations w :
  completed ≡ₚ locations →
  StronglySorted (λ a b, ChunkLocation_ChunkIndex a < ChunkLocation_ChunkIndex b) locations →
  Forall (λ l, 12 ≤ String.length (ChunkLocation_ChunkId l))%nat locations →
  ∀ data, downloadChunks completed w = Ok data ↔
    ∃ chunks, data = mjoin chunks ∧
      Forall2 (λ l c, fetchChunkFromNodes (ChunkLocation_ChunkId l)
                        (ChunkLocation_NodeAddresses l) w = Ok c) locations chunks.
Proof. apply downloadChunks_fetches. Qed.
End download.

(** ** Concrete runs *)
Section witnesses.
Definition demo_text : bytes := bytes_of_string "hello world".

Lemma readAndChunkFile_spec_witness :
  ∃ chunks, readAndChunkFile {["/f" := demo_text]} "/f" None None None (λ _, ReadUpTo 4)
      = Ok (chunks, 11, DataChecksum demo_text) ∧
    length chunks = 3%nat ∧ mjoin chunks = demo_text.
Proof.
  pose proof (readAndChunkFile_spec {["/f" := demo_text]} "/f" demo_text (λ _, ReadUpTo 4)
    (lookup_singleton_eq _ _)) as H.
  assert (∃ chunks, readAndChunkFile {["/f" := demo_text]} "/f" None None None (λ _, ReadUpTo 4)
    = Ok (chunks, 11, DataChecksum demo_text) ∧ length chunks = 3%nat) as (chunks & Hr & Hl)
    by (eexists; split; [vm_compute; reflexivity|reflexivity]).
  rewrite Hr in H. exists chunks. split; [exact Hr|]. split; [exact Hl|exact (proj1 H)].
Defined.

(** A server that has chunk [id] with the text [id]. *)
Definition demo_get (addr : string) (req : GetChunkRequest) (w : unit) : go GetChunkResponse :=
  Ok (mkGetChunkResponse true (bytes_of_string (GetChunkRequest_ChunkId req)) "").
Definition demo_locs : list ChunkLocation :=
  [mkChunkLocation "first chunk " 0 ["a:1"] ["node-1"]; mkChunkLocation "second chunk" 1 ["a:1"] ["node-1"]].

Lemma downloadChunks_in_order_witness :
  downloadChunks (λ _ _, Ok tt) demo_get (rev demo_locs) tt
    = Ok (bytes_of_string "first chunk second chunk").
Proof.
  apply (downloadChunks_in_order (λ _ _, Ok tt) demo_get (rev demo_locs) demo_locs tt).
  - symmetry. apply Permutation_rev.
  - repeat constructor.
  - repeat constructor.
  - exists [bytes_of_string "first chunk "; bytes_of_string "second chunk"].
    split; [reflexivity|]. repeat constructor.
Defined.

(** Servers that enforce the limit and otherwise accept everything. *)
Definition demo_limited (addr : string) (req : StoreChunkRequest) : gos unit StoreChunkResponse :=
  λ w, if grpc_limit <? StoreChunkRequest_bytes req
       then (Err "received message larger than max", w)
       else (Ok (mkStoreChunkResponse true "chunk stored"), w).
Definition demo_full_chunk : bytes := repeat Byte.x00 (Z.to_nat ChunkSize).
Definition demo_full_placement : ChunkPlacement := mkChunkPlacement "0123456789abcdef" 0 ["a:1"] ["node-1"].

Lemma full_chunk_never_uploads_witness :
  (uploadChunks (λ _ _, Ok tt) demo_limited [0; 0]%nat [demo_full_chunk] [demo_full_placement] tt).1
    ≠ Ok tt.
Proof.
  apply (full_chunk_never_uploads (λ _ _, Ok tt) demo_limited [0; 0]%nat [demo_full_chunk]
    [demo_full_placement] tt 0 demo_full_placement demo_full_chunk).
  - intros addr req w Hlim. unfold demo_limited. apply Z.ltb_lt in Hlim. rewrite Hlim.
    exists "received message larger than max", w. reflexivity.
  - reflexivity.
  - discriminate.
  - reflexivity.
  - unfold demo_full_chunk. rewrite repeat_length. apply Z2Nat.id. discriminate.
  - apply uploadChunks_complete. intros [|i] p; [|discriminate]. intros [= <-]. simpl. lia.
Defined.
End witnesses.
