(* ===== verification/Display.v ===== *)
(** * internal/client: what the commands print

    [ListFiles], [FileInfo], [ClusterInfo] and [NodeInfo] of client.go with the text
    they write to the standard output, and the progress lines of put, get and rm.
    [fmt_time layout sec] is [time.Unix(sec, 0).Format(layout)], which depends on
    the time zone of the machine. *)
From S2P Require Export Client GoFmt.
Local Open Scope Z_scope.

Definition nil_pointer : string := "invalid memory address or nil pointer dereference".

Section display.
Context {W : Type} (fmt_time : string → Z → string).

(** A command reads from the servers and prints. *)
Definition printing : Type := W → go unit * string.

(** ** ListFiles *)
Definition list_header : string :=
  println (pad_right 40 "PATH" +:+ " " +:+ pad_left 10 "SIZE" +:+ " " +:+ pad_left 8 "CHUNKS"
           +:+ " " +:+ "CREATED")
  +:+ println "─────────────────────────────────────────────────────────────────────".

Definition list_row (f : FileInfo) : string :=
  let created := if 0 <? FileInfo_CreatedAt f
                 then fmt_time "2006-01-02 15:04" (FileInfo_CreatedAt f) else "" in
  let '(path, size, chunks) := list_columns f in
  println (pad_right 40 path +:+ " " +:+ pad_left 10 size +:+ " " +:+ pad_left 8 chunks +:+ " "
           +:+ (if decide (FileInfo_ChunkCount f = 0) then "" else created)).

Definition ListFiles (call : ListFilesRequest → W → go ListFilesResponse) (remotePath : string)
    : printing := λ w,
  match call (mkListFilesRequest remotePath) w with
  | Err e => (Err ("ListFiles RPC: " +:+ e), "")
  | Panic p => (Panic p, "")
  | Ok resp =>
      if negb (ListFilesResponse_Success resp) then (Err "ListFiles failed", "")
      else if decide (length (ListFilesResponse_Files resp) = 0%nat) then (Ok tt, println "(empty)")
      else (Ok tt, foldl (λ out f, out +:+ list_row f) list_header (ListFilesResponse_Files resp))
  end.

(** ** FileInfo *)
Definition file_header (f : FileInfo) : string :=
  println ("File:        " +:+ FileInfo_Path f)
  +:+ println ("Size:        " +:+ formatSize (FileInfo_Size f) +:+ " (" +:+ fmt_d (FileInfo_Size f)
               +:+ " bytes)")
  +:+ println ("Chunks:      " +:+ fmt_d (FileInfo_ChunkCount f))
  +:+ println ("Replication: " +:+ fmt_d (FileInfo_ReplicationFactor f))
  +:+ println ("Created:     " +:+ fmt_time "2006-01-02 15:04:05" (FileInfo_CreatedAt f))
  +:+ println ""
  +:+ println ("  " +:+ pad_right 18 "CHUNK ID" +:+ " " +:+ pad_left 10 "SIZE" +:+ " " +:+ "NODES")
  +:+ println ("  " +:+ "──────────────────────────────────────────────────").

(** The loop over the chunks: nil entries are skipped, and the identifier is cut to
    its first 16 bytes. *)
Fixpoint chunk_rows (out : string) (chunks : list (option ChunkInfo)) : go unit * string :=
  match chunks with
  | [] => (Ok tt, out)
  | None :: rest => chunk_rows out rest
  | Some ch :: rest =>
      match slice_to 16 (ChunkInfo_ChunkId ch) with
      | Ok short =>
          chunk_rows (out +:+ println ("  " +:+ pad_right 18 short +:+ " "
            +:+ pad_left 10 (formatSize (ChunkInfo_Size ch)) +:+ " "
            +:+ fmt_strings (ChunkInfo_NodeIds ch))) rest
      | Err e => (Err e, out)
      | Panic p => (Panic p, out)
      end
  end.

Definition FileInfo_ (call : GetFileInfoRequest → W → go GetFileInfoResponse) (remotePath : string)
    : printing := λ w,
  match call (mkGetFileInfoRequest remotePath) w with
  | Err e => (Err ("GetFileInfo RPC: " +:+ e), "")
  | Panic p => (Panic p, "")
  | Ok resp =>
      if negb (GetFileInfoResponse_Success resp) then (Err ("file not found: " +:+ remotePath), "")
      else
        match GetFileInfoResponse_FileInfo resp with
        | None => (Panic nil_pointer, "")
        | Some f => chunk_rows (file_header f) (FileInfo_Chunks f)
        end
  end.

(** ** ClusterInfo *)
Definition ClusterInfo (call : GetClusterInfoRequest → W → go GetClusterInfoResponse) : printing := λ w,
  match call mkGetClusterInfoRequest w with
  | Err e => (Err ("GetClusterInfo RPC: " +:+ e), "")
  | Panic p => (Panic p, "")
  | Ok r =>
      (Ok tt,
       println "═══════════════════════════════════════"
       +:+ println "       SentinelFS Cluster Status       "
       +:+ println "═══════════════════════════════════════"
       +:+ println ("  Nodes:    " +:+ fmt_d (GetClusterInfoResponse_TotalNodes r) +:+ " total ("
            +:+ fmt_d (GetClusterInfoResponse_HealthyNodes r) +:+ " healthy, "
            +:+ fmt_d (GetClusterInfoResponse_WarningNodes r) +:+ " warning, "
            +:+ fmt_d (GetClusterInfoResponse_AtRiskNodes r) +:+ " at-risk, "
            +:+ fmt_d (GetClusterInfoResponse_DeadNodes r) +:+ " dead)")
       +:+ println ("  Storage:  " +:+ formatSize (GetClusterInfoResponse_TotalUsed r) +:+ " / "
            +:+ formatSize (GetClusterInfoResponse_TotalCapacity r) +:+ " used")
       +:+ println ("  Files:    " +:+ fmt_d (GetClusterInfoResponse_TotalFiles r))
       +:+ println ("  Chunks:   " +:+ fmt_d (GetClusterInfoResponse_TotalChunks r))
       +:+ println "")
  end.

(** ** NodeInfo *)
Definition node_header : string :=
  println (pad_right 10 "NODE" +:+ " " +:+ pad_right 20 "ADDRESS" +:+ " " +:+ pad_right 10 "STATUS"
    +:+ " " +:+ pad_left 8 "RISK" +:+ " " +:+ pad_left 12 "STORAGE" +:+ " " +:+ pad_left 8 "CHUNKS")
  +:+ println "──────────────────────────────────────────────────────────────────────".

Definition node_row (n : NodeInfo) : string :=
  println (pad_right 10 (NodeInfo_NodeId n) +:+ " " +:+ pad_right 20 (NodeInfo_Address n) +:+ " "
    +:+ statusColor (NodeInfo_Status n) +:+ " " +:+ pad_right 10 (NodeInfo_Status n) +:+ " "
    +:+ pad_left 6 (fmt_f false 2 (NodeInfo_RiskScore n)) +:+ "   "
    +:+ pad_left 12 (formatSize (NodeInfo_UsedBytes n) +:+ "/" +:+ formatSize (NodeInfo_CapacityBytes n))
    +:+ " " +:+ pad_left 8 (fmt_d (NodeInfo_ChunkCount n))).

Definition NodeInfo_ (call : GetNodeInfoRequest → W → go GetNodeInfoResponse) : printing := λ w,
  match call (mkGetNodeInfoRequest "") w with
  | Err e => (Err ("GetNodeInfo RPC: " +:+ e), "")
  | Panic p => (Panic p, "")
  | Ok resp => (Ok tt, foldl (λ out n, out +:+ node_row n) node_header (GetNodeInfoResponse_Nodes resp))
  end.
End display.

(** ** Progress of put, get and rm

    The lines are printed where the goroutines of [Client.v] end, in the order in
    which they do. *)
Section progress.
Context {W : Type} `{SliceSort}.
Variable dial : string → W → go unit.
Variable call_StoreChunk : string → StoreChunkRequest → gos W StoreChunkResponse.
Variable call_GetChunk : string → GetChunkRequest → W → go GetChunkResponse.
Variable call_PutFile : PutFileRequest → gos W PutFileResponse.
Variable call_GetFile : GetFileRequest → W → go GetFileResponse.
Variable call_DeleteFile : DeleteFileRequest → gos W DeleteFileResponse.

Definition chunk_line (index : Z) (total : nat) (what id : string) : string :=
  println ("  ✓ Chunk " +:+ fmt_d index +:+ "/" +:+ fmt_d (Z.of_nat total) +:+ " " +:+ what
           +:+ " (" +:+ String.substring 0 12 id +:+ ")").

(** A goroutine prints when it has sent to its last address; a crash ends it all. *)
Fixpoint upload_lines (total : nat) (sched : list nat) (st : upload_state) : string :=
  match sched with
  | [] => ""
  | i :: rest =>
      match upload_step dial call_StoreChunk i st with
      | (Ok _, st') =>
          (match st.1.2 !! i with
           | Some (mkUploadTask chunk _ (Some [])) => chunk_line (Z.of_nat i + 1) total "uploaded" chunk
           | _ => ""
           end) +:+ upload_lines total rest st'
      | _ => ""
      end
  end.

Definition put_output (fs : FileSys) (localPath remotePath : string)
    (open_fault stat_fault copy_fault : option string) (plans : nat → read_plan)
    (sched : list nat) (w : W) : string :=
  match readAndChunkFile fs localPath open_fault stat_fault copy_fault plans with
  | Ok (chunks, fileSize, checksum) =>
      let count := fmt_d (Z.of_nat (length chunks)) in
      println ("Uploading " +:+ localPath +:+ " (" +:+ fmt_d fileSize +:+ " bytes, " +:+ count +:+ " chunks)")
      +:+ match call_PutFile (mkPutFileRequest remotePath fileSize
                                (int32 (Z.of_nat (length chunks))) checksum) w with
          | (Ok resp, w') =>
              if PutFileResponse_Success resp then
                upload_lines (length chunks) sched
                  (w', upload_tasks chunks (PutFileResponse_Placements resp), [])
                +:+ match (uploadChunks dial call_StoreChunk sched chunks
                             (PutFileResponse_Placements resp) w').1 with
                    | Ok _ => println ("✓ Uploaded " +:+ localPath +:+ " → " +:+ remotePath +:+ " ("
                                       +:+ count +:+ " chunks across cluster)")
                    | _ => ""
                    end
              else ""
          | _ => ""
          end
  | _ => ""
  end.

Fixpoint download_lines (total : nat) (completed : list ChunkLocation) (w : W) : string :=
  match completed with
  | [] => ""
  | l :: rest =>
      match download_one dial call_GetChunk w l with
      | Ok _ => chunk_line (int32 (ChunkLocation_ChunkIndex l + 1)) total "downloaded" (ChunkLocation_ChunkId l)
                +:+ download_lines total rest w
      | Err _ => download_lines total rest w
      | Panic _ => ""
      end
  end.

Definition get_output (fs : FileSys) (remotePath localPath : string)
    (complete : list ChunkLocation → list ChunkLocation) (plan : write_plan) (w : W) : string :=
  match call_GetFile (mkGetFileRequest remotePath) w with
  | Ok (mkGetFileResponse true _ (Some f) locations) =>
      println ("Downloading " +:+ remotePath +:+ " (" +:+ fmt_d (FileInfo_Size f) +:+ " bytes, "
               +:+ fmt_d (FileInfo_ChunkCount f) +:+ " chunks)")
      +:+ download_lines (length locations) (complete locations) w
      +:+ match downloadChunks dial call_GetChunk (complete locations) w with
          | Ok data =>
              match (writeFile fs localPath data plan).1 with
              | Ok _ => println ("✓ Downloaded " +:+ remotePath +:+ " → " +:+ localPath)
              | _ => ""
              end
          | _ => ""
          end
  | _ => ""
  end.

Definition rm_output (remotePath : string) (w : W) : string :=
  match (call_DeleteFile (mkDeleteFileRequest remotePath) w).1 with
  | Ok resp => if DeleteFileResponse_Success resp then println ("✓ Deleted " +:+ remotePath) else ""
  | _ => ""
  end.
End progress.
