(* ===== verification/Watch.v ===== *)
(** * internal/client/watch.go: the live monitor

    [WatchCluster] is a loop that never returns, so it is an interaction tree: its
    events are what it asks of the terminal, the clock and the metadata server.
    [fmt_now layout t] is [t.Format(layout)] and [fmt_duration d] is what the verb
    [%s] prints for a [time.Duration]. *)
From ITree Require Import Core.ITreeDefinition.
From S2P Require Export Display.
Local Open Scope Z_scope.

(** [ITree]'s notation for bind and [stdpp]'s for [fmap] share a level, so the loop is
    written with a notation of its own: perform an event, go on with the answer. *)
Notation "'ev!' x <- e ;; k" := (ITree.bind (ITree.trigger e) (λ x, k))
  (at level 10, x pattern, e at level 99, k at level 200,
   format "'ev!'  x  <-  e ;; '//' k").

(** ** Events *)
Variant watchE : Type → Type :=
  | Print (s : string) : watchE unit
  | Now : watchE Time
  | Sleep (d : Duration) : watchE unit
  | CallClusterInfo (req : GetClusterInfoRequest) : watchE (string + GetClusterInfoResponse)
  | CallNodeInfo (req : GetNodeInfoRequest) : watchE (string + GetNodeInfoResponse).

Section watch.
Variable fmt_now : string → Time → string.
Variable fmt_duration : Duration → string.

(** ** One frame *)
Definition clear_screen : string :=
  String (ascii_of_nat 27) "[H" +:+ String (ascii_of_nat 27) "[2J".

Definition watch_banner (now : Time) : string :=
  println "═══════════════════════════════════════════════════════════════════"
  +:+ println "              SentinelFS 🛡️  Live Cluster Monitor                 "
  +:+ println ("              " +:+ fmt_now "2006-01-02 15:04:05" now)
  +:+ println "═══════════════════════════════════════════════════════════════════"
  +:+ println "".

Definition watch_overview (r : GetClusterInfoResponse) : string :=
  println ("  Nodes:   " +:+ fmt_d (GetClusterInfoResponse_TotalNodes r) +:+ " total  │  🟢 "
    +:+ fmt_d (GetClusterInfoResponse_HealthyNodes r) +:+ " healthy  🟡 "
    +:+ fmt_d (GetClusterInfoResponse_WarningNodes r) +:+ " warning  🟠 "
    +:+ fmt_d (GetClusterInfoResponse_AtRiskNodes r) +:+ " at-risk  💀 "
    +:+ fmt_d (GetClusterInfoResponse_DeadNodes r) +:+ " dead")
  +:+ println ("  Storage: " +:+ formatSize (GetClusterInfoResponse_TotalUsed r) +:+ " / "
    +:+ formatSize (GetClusterInfoResponse_TotalCapacity r))
  +:+ println ("  Files:   " +:+ fmt_d (GetClusterInfoResponse_TotalFiles r) +:+ "  │  Chunks: "
    +:+ fmt_d (GetClusterInfoResponse_TotalChunks r))
  +:+ println "".

Definition watch_row (n : NodeInfo) : string :=
  println ("  │ " +:+ pad_right 8 (NodeInfo_NodeId n) +:+ " │ " +:+ pad_right 20 (NodeInfo_Address n)
    +:+ " │ " +:+ statusColor (NodeInfo_Status n) +:+ " " +:+ pad_right 7 (NodeInfo_Status n)
    +:+ " │ " +:+ renderRiskBar (NodeInfo_RiskScore n) 15 +:+ " "
    +:+ pad_left 4 (fmt_f false 1 (NodeInfo_RiskScore n * f64_of_Z 100)%float) +:+ "% │ "
    +:+ pad_left 6 (fmt_d (NodeInfo_ChunkCount n)) +:+ " │").

Definition watch_table (interval : Duration) (nodes : list NodeInfo) : string :=
  foldl (λ out n, out +:+ watch_row n)
    (println "  ┌──────────┬──────────────────────┬──────────┬────────────────────┬────────┐"
     +:+ println "  │ NODE     │ ADDRESS              │ STATUS   │ RISK               │ CHUNKS │"
     +:+ println "  ├──────────┼──────────────────────┼──────────┼────────────────────┼────────┤") nodes
  +:+ println "  └──────────┴──────────────────────┴──────────┴────────────────────┴────────┘"
  +:+ println ""
  +:+ println ("  Refreshing every " +:+ fmt_duration interval +:+ "... (Ctrl+C to stop)").

(** ** The loop *)

(** The body: every path ends in a sleep and another turn. *)
Definition watch_frame (interval : Duration) : itree watchE (unit + go unit)%type :=
  ev! _ <- Print clear_screen ;;
  ev! now <- Now ;;
  ev! _ <- Print (watch_banner now) ;;
  ev! clusterResp <- CallClusterInfo mkGetClusterInfoRequest ;;
  match clusterResp with
  | inl err =>
      ev! _ <- Print (println ("  ⚠️  Error fetching cluster info: " +:+ err)) ;;
      ev! _ <- Sleep interval ;;
      Ret (inl tt)
  | inr cluster =>
      ev! _ <- Print (watch_overview cluster) ;;
      ev! nodeResp <- CallNodeInfo (mkGetNodeInfoRequest "") ;;
      match nodeResp with
      | inl err =>
          ev! _ <- Print (println ("  ⚠️  Error fetching node info: " +:+ err)) ;;
          ev! _ <- Sleep interval ;;
          Ret (inl tt)
      | inr resp =>
          ev! _ <- Print (watch_table interval (GetNodeInfoResponse_Nodes resp)) ;;
          ev! _ <- Sleep interval ;;
          Ret (inl tt)
      end
  end.

Definition watch_loop (interval : Duration) : itree watchE (go unit) :=
  ITree.iter (λ _, watch_frame interval) tt.

Definition WatchCluster (interval : Duration) : itree watchE (go unit) :=
  ev! _ <- Print (println "Watching cluster health (Ctrl+C to stop)..." +:+ println "") ;;
  watch_loop interval.

(** ** Running the loop

    A world answers the events: the terminal, the clock, the scheduler and the
    server behind the two calls. *)
Definition world (T : Type) : Type := ∀ X, watchE X → T → X * T.

(** What an observer sees of a run. *)
Inductive seen := Printed (s : string) | Slept (d : Duration).

Definition observation {X} (e : watchE X) : list seen :=
  match e with Print s => [Printed s] | Sleep d => [Slept d] | _ => [] end.

(** At most [fuel] events and silent steps; a result only if the tree returned. *)
Fixpoint play {T R} (h : world T) (fuel : nat) (t : itree watchE R) (s : T)
    : option R * T * list seen :=
  match fuel with
  | O => (None, s, [])
  | S n =>
      match observe t with
      | RetF r => (Some r, s, [])
      | TauF t => play h n t s
      | VisF e k =>
          let '(x, s1) := h _ e s in
          let '(r, s2, log) := play h n (k x) s1 in
          (r, s2, observation e ++ log)
      end
  end.

Definition sleeps (log : list seen) : nat :=
  length (List.filter (λ o, match o with Slept _ => true | Printed _ => false end) log).

(** One turn of the loop, whatever the world answers: seven to ten steps, the last
    thing seen is the sleep, and the loop is where it was. *)
Lemma watch_turn {T} (h : world T) interval s :
  ∃ k s' log, (0 < k)%nat ∧ sleeps log = 1%nat ∧ last log = Some (Slept interval) ∧
    ∀ n, play h (k + n) (watch_loop interval) s =
      let '(r, s2, l2) := play h n (watch_loop interval) s' in (r, s2, log ++ l2).
Proof.
  destruct (h _ (Print clear_screen) s) as [[] s1] eqn:E1.
  destruct (h _ Now s1) as [now s2] eqn:E2.
  destruct (h _ (Print (watch_banner now)) s2) as [[] s3] eqn:E3.
  destruct (h _ (CallClusterInfo mkGetClusterInfoRequest) s3) as [[err|cluster] s4] eqn:E4.
  { set (p := Print (println ("  ⚠️  Error fetching cluster info: " +:+ err))).
    destruct (h _ p s4) as [[] s5] eqn:E5. destruct (h _ (Sleep interval) s5) as [[] s6] eqn:E6.
    exists 7%nat, s6, ([Printed clear_screen; Printed (watch_banner now)] ++ observation p ++ [Slept interval]).
    split; [lia|]. split; [done|]. split; [done|]. intros n. simpl.
    rewrite E1; simpl; rewrite E2; simpl; rewrite E3; simpl; rewrite E4; simpl.
    fold p. rewrite E5; simpl; rewrite E6; simpl. unfold watch_loop. by destruct (play h n _ s6) as [[]]. }
  destruct (h _ (Print (watch_overview cluster)) s4) as [[] s5] eqn:E5.
  destruct (h _ (CallNodeInfo (mkGetNodeInfoRequest "")) s5) as [answer s6] eqn:E6.
  set (p := Print (match answer with
                   | inl err => println ("  ⚠️  Error fetching node info: " +:+ err)
                   | inr resp => watch_table interval (GetNodeInfoResponse_Nodes resp)
                   end)).
  destruct (h _ p s6) as [[] s7] eqn:E7. destruct (h _ (Sleep interval) s7) as [[] s8] eqn:E8.
  exists 9%nat, s8, ([Printed clear_screen; Printed (watch_banner now); Printed (watch_overview cluster)]
    ++ observation p ++ [Slept interval]).
  split; [lia|]. split; [done|]. split; [done|]. intros n. simpl.
  rewrite E1; simpl; rewrite E2; simpl; rewrite E3; simpl; rewrite E4; simpl; rewrite E5; simpl;
    rewrite E6; simpl. unfold watch_loop, p in *.
  destruct answer; simpl; rewrite E7; simpl; rewrite E8; simpl; by destruct (play h n _ s8) as [[]].
Qed.

Lemma play_more {T R} (h : world T) n : ∀ m (t : itree watchE R) s r s' log,
  play h n t s = (Some r, s', log) → (n ≤ m)%nat → play h m t s = (Some r, s', log).
Proof.
  induction n as [|n IH]; intros [|m] t s r s' log Hp Hle; try done; [lia|]. cbn [play] in *.
  destruct (observe t) as [r0|t'|X e k]; [done|apply IH; [done|lia]|].
  destruct (h X e s) as [x s1]. destruct (play h n (k x) s1) as [[r1 s2] l1] eqn:Hk.
  injection Hp as -> -> <-. by rewrite (IH m _ _ _ _ _ Hk ltac:(lia)).
Qed.

Lemma watch_loop_runs {T} (h : world T) interval fuel : ∀ s,
  (play h fuel (watch_loop interval) s).1.1 = None.
Proof.
  induction fuel as [fuel IH] using lt_wf_ind. intros s.
  destruct (watch_turn h interval s) as (k & s' & log & Hk & _ & _ & Hturn).
  destruct (decide (fuel < k)%nat) as [Hlt|Hge].
  - destruct (play h fuel (watch_loop interval) s) as [[[r|] s2] l2] eqn:Hp; [|done].
    apply (play_more h fuel k) in Hp; [|lia]. specialize (Hturn 0%nat). rewrite Nat.add_0_r, Hp in Hturn.
    done.
  - specialize (Hturn (fuel - k)%nat). replace (k + (fuel - k))%nat with fuel in Hturn by lia.
    rewrite Hturn. specialize (IH (fuel - k)%nat ltac:(lia) s').
    by destruct (play h (fuel - k) (watch_loop interval) s') as [[]].
Qed.

Lemma watch_loop_frames {T} (h : world T) interval n : ∀ s,
  ∃ fuel, sleeps (play h fuel (watch_loop interval) s).2 = n.
Proof.
  induction n as [|n IH]; intros s; [by exists 0%nat|].
  destruct (watch_turn h interval s) as (k & s' & log & _ & Hs & _ & Hturn).
  destruct (IH s') as [fuel Hf]. exists (k + fuel)%nat. rewrite Hturn.
  destruct (play h fuel (watch_loop interval) s') as [[r s2] l2]. cbn [snd] in *.
  unfold sleeps in *. rewrite List.filter_app, length_app. lia.
Qed.

(** C30: The monitor never gives up: whatever the terminal, the clock and the metadata
    server answer, failing calls included, [WatchCluster] does not return, and it
    goes on to refresh: for every [n] it reaches its [n]-th sleep. *)
Theorem WatchCluster_keeps_refreshing {T} (h : world T) interval s n :
  (∀ fuel, (play h fuel (WatchCluster interval) s).1.1 = None) ∧
  ∃ fuel, sleeps (play h fuel (WatchCluster interval) s).2 = n.
Proof.
  set (p := Print (println "Watching cluster health (Ctrl+C to stop)..." +:+ println "")).
  assert (∀ fuel, play h (S fuel) (WatchCluster interval) s =
    let '(r, s2, l2) := play h fuel (watch_loop interval) (h _ p s).2 in
    (r, s2, observation p ++ l2)) as Hfirst.
  { intros fuel. cbn [play]. simpl. fold p. destruct (h _ p s) as [[] s1]. simpl.
    destruct fuel as [|fuel]; [done|]. cbn [play]. simpl.
    destruct (h _ (Print clear_screen) s1) as [[] s2]. by destruct (play h fuel _ s2) as [[]]. }
  split.
  - intros [|fuel]; [done|]. rewrite Hfirst. pose proof (watch_loop_runs h interval fuel (h _ p s).2) as Hr.
    by destruct (play h fuel (watch_loop interval) _) as [[]].
  - destruct (watch_loop_frames h interval n (h _ p s).2) as [fuel Hf]. exists (S fuel). rewrite Hfirst.
    by destruct (play h fuel (watch_loop interval) _) as [[]].
Qed.
End watch.
