(* ===== verification/Cluster.v ===== *)
(** * The whole system

    A metadata server and data nodes behind their addresses, with the client on
    top: the handlers of [MetaServer.v] and [DataNode.v] answer the calls of
    [Client.v].  The transport and the disks may fail at any call; which calls
    fail is an environment. *)
From S2P Require Export ClientSpec DataNode MetaServerSpec.
Local Open Scope Z_scope.

Record Cluster := mkCluster {
  cl_meta : MetaServer;
  cl_nodes : gmap string DataServer;
}.

(** What goes wrong: dialing an address, a call that does not reach its handler,
    a node's write, a node's read. *)
Record Env := mkEnv {
  env_dial : string → go unit;
  env_store : string → StoreChunkRequest → option string;
  env_get : string → GetChunkRequest → option string;
  env_transfer : string → TransferChunkRequest → option string;
  env_write : string → string → write_plan;
  env_read : string → string → option string;
}.

Definition calm : Env :=
  mkEnv (λ _, Ok tt) (λ _ _, None) (λ _ _, None) (λ _ _, None) (λ _ _, WriteOk) (λ _ _, None).

Section calls.
Variable env : Env.

Definition cluster_dial (addr : string) (c : Cluster) : go unit := env_dial env addr.

Definition cluster_StoreChunk (addr : string) (req : StoreChunkRequest)
    : gos Cluster StoreChunkResponse := λ c,
  match env_store env addr req, cl_nodes c !! addr with
  | Some e, _ => (Err e, c)
  | None, None => (Err "connection refused", c)
  | None, Some n =>
      let '(r, d) := DataNode.Server.StoreChunk
                       (env_write env addr (StoreChunkRequest_ChunkId req)) req (dsv_disk n) in
      (r, mkCluster (cl_meta c) (<[addr := set_disk d n]> (cl_nodes c)))
  end.

Definition cluster_GetChunk (addr : string) (req : GetChunkRequest) (c : Cluster)
    : go GetChunkResponse :=
  match env_get env addr req, cl_nodes c !! addr with
  | Some e, _ => Err e
  | None, None => Err "connection refused"
  | None, Some n =>
      DataNode.Server.GetChunk (env_read env addr (GetChunkRequest_ChunkId req)) req (dsv_disk n)
  end.

(** A node sends one of its chunks to another node, over the same transport. *)
Definition cluster_TransferChunk (addr : string) (req : TransferChunkRequest)
    : gos Cluster TransferChunkResponse := λ c,
  match env_transfer env addr req, cl_nodes c !! addr with
  | Some e, _ => (Err e, c)
  | None, None => (Err "connection refused", c)
  | None, Some n =>
      DataNode.Server.TransferChunk cluster_dial cluster_StoreChunk
        (env_read env addr (TransferChunkRequest_ChunkId req)) req (dsv_disk n) c
  end.
End calls.

Section meta_calls.
Context `{SliceSort}.
Definition cluster_PutFile (now : Time) (ord : list string) (req : PutFileRequest)
    : gos Cluster PutFileResponse := λ c,
  let '(r, s) := MetaServer.Server.PutFile now ord req (cl_meta c) in
  (r, mkCluster s (cl_nodes c)).

Definition cluster_GetFile (req : GetFileRequest) (c : Cluster) : go GetFileResponse :=
  MetaServer.Server.GetFile req (cl_meta c).
End meta_calls.

(** ** The data nodes keep what they acknowledge *)
Definition nodes_ok (c : Cluster) : Prop :=
  map_Forall (λ _ n, store_wf (dsv_disk n).1) (cl_nodes c).

Definition node_holds (c : Cluster) (addr id : string) (data : bytes) : Prop :=
  ∃ n, cl_nodes c !! addr = Some n ∧
    ChunkStore.GetChunk None id (dsv_disk n) = Ok (data, DataChecksum data).

Lemma GetChunk_any_fault fault id d r :
  ChunkStore.GetChunk fault id d = Ok r → ChunkStore.GetChunk None id d = Ok r.
Proof.
  destruct d as [cs fs]. unfold ChunkStore.GetChunk.
  destruct (cs_chunks cs !! id); [|done]. by destruct fault.
Qed.

(** Storing at a node, whatever its disk does. *)
Lemma node_store plan id data cs fs r cs' fs' :
  store_wf cs → plain_id id →
  ChunkStore.StoreChunk plan id data (DataChecksum data) (cs, fs) = (r, (cs', fs')) →
  store_wf cs' ∧
  (∀ id', id' ≠ id → ChunkStore.GetChunk None id' (cs', fs') = ChunkStore.GetChunk None id' (cs, fs)) ∧
  (r = Ok tt → ChunkStore.GetChunk None id (cs', fs') = Ok (data, DataChecksum data)).
Proof.
  intros Hwf Hid. rewrite StoreChunk_cases, decide_False by naive_solver.
  assert (∀ id' cs' bs, id' ≠ id → cs_chunks cs' !! id' = cs_chunks cs !! id' →
    ChunkStore.GetChunk None id' (cs', <[chunkPath cs id := bs]> fs)
      = ChunkStore.GetChunk None id' (cs, fs)) as Hother.
  { intros id' cs1 bs Hne Hsame.
    apply (GetChunk_other None cs cs1 fs _ id id' (chunkPath cs id)); try done.
    intros p Hp. by rewrite lookup_insert_ne. }
  destruct plan as [|e|n e]; intros [= <- <- <-].
  - split; [by apply enter_chunk_wf|]. split.
    + intros id' Hne. apply Hother; [done|]. simpl. by rewrite lookup_insert_ne.
    + intros _. unfold ChunkStore.GetChunk, enter_chunk. simpl. rewrite lookup_insert_eq. simpl.
      unfold ReadFile, Open. rewrite lookup_insert_eq. simpl. by rewrite decide_False by naive_solver.
  - done.
  - split; [done|]. split; [|done]. intros id' Hne. by apply Hother.
Qed.

Lemma cluster_store_cases env addr id data c r c' :
  nodes_ok c → plain_id id →
  cluster_StoreChunk env addr (mkStoreChunkRequest id data (DataChecksum data)) c = (r, c') →
  (c' = c ∧ ∃ e, r = Err e) ∨
  (∃ n d', cl_nodes c !! addr = Some n ∧
     c' = mkCluster (cl_meta c) (<[addr := set_disk d' n]> (cl_nodes c)) ∧
     store_wf d'.1 ∧
     (∀ id', id' ≠ id → ChunkStore.GetChunk None id' d' = ChunkStore.GetChunk None id' (dsv_disk n)) ∧
     ∃ resp, r = Ok resp ∧
       (StoreChunkResponse_Success resp = true →
          ChunkStore.GetChunk None id d' = Ok (data, DataChecksum data))).
Proof.
  intros Hok Hid. unfold cluster_StoreChunk.
  destruct (env_store env _ _); [intros [= <- <-]; left; eauto|].
  destruct (cl_nodes c !! addr) as [n|] eqn:Hn; [|intros [= <- <-]; left; eauto].
  unfold DataNode.Server.StoreChunk.
  cbn [StoreChunkRequest_ChunkId StoreChunkRequest_Data StoreChunkRequest_Checksum].
  pose proof (Hok addr n Hn) as Hwf. simpl in Hwf.
  destruct (dsv_disk n) as [cs fs] eqn:Hd.
  destruct (ChunkStore.StoreChunk _ _ _ _ _) as [r1 [cs' fs']] eqn:Hs.
  pose proof (node_store _ _ _ _ _ _ _ _ Hwf Hid Hs) as (Hwf' & Hother & Hnew).
  intros Hr. right. exists n, (cs', fs'). rewrite Hd.
  destruct r1 as [[]|e|p]; [..|].
  3: { exfalso. rewrite StoreChunk_cases in Hs. repeat case_match; congruence. }
  all: injection Hr as <- <-; split; [done|]; split; [done|]; split; [done|]; split; [done|];
    eexists; (split; [done|]).
  - intros _. by apply Hnew.
  - done.
Qed.

(** The data nodes provide what the client relies on. *)
#[global, refine] Instance cluster_network (e1 e2 : Env) :
    NodeNetwork Cluster (cluster_StoreChunk e1) (cluster_GetChunk e2) :=
  { net_ok := nodes_ok; holds := node_holds }.
Proof.
  - intros addr id data c r c' Hok Hid Hcall.
    apply cluster_store_cases in Hcall as [[-> _]|(n & d' & Hn & -> & Hwf & Hother & _)]; try done.
    split.
    + intros a m. simpl. intros [[<- <-]|[_ Hm]]%lookup_insert_Some; [done|by apply (Hok a)].
    + intros a id' data' Hne (m & Hm & Hget). unfold node_holds. simpl.
      destruct (decide (a = addr)) as [->|Hna].
      * rewrite lookup_insert_eq. exists (set_disk d' n). split; [done|]. simplify_eq.
        rewrite <- Hget. by apply Hother.
      * rewrite lookup_insert_ne by done. by exists m.
  - intros addr id data c resp c' Hok Hid Hcall Hsucc.
    apply cluster_store_cases in Hcall as [[_ [e ?]]|(n & d' & Hn & -> & Hwf & Hother & resp' & Hr & Hnew)];
      try done. injection Hr as <-. specialize (Hnew Hsucc).
    assert (node_holds (mkCluster (cl_meta c) (<[addr := set_disk d' n]> (cl_nodes c))) addr id data)
      as Hholds.
    { exists (set_disk d' n). simpl. by rewrite lookup_insert_eq. }
    split; [done|]. intros a (m & Hm & Hget).
    destruct (decide (a = addr)) as [->|Hna]; [done|].
    exists m. simpl. by rewrite lookup_insert_ne.
  - intros addr id data c resp (n & Hn & Hget). unfold cluster_GetChunk.
    destruct (env_get _ _ _); [done|]. rewrite Hn. unfold DataNode.Server.GetChunk.
    cbn [GetChunkRequest_ChunkId].
    destruct (ChunkStore.GetChunk (env_read _ _ _) id (dsv_disk n)) as [[bs sum]|e|p] eqn:Hg; [|by intros [= <-]|done].
    intros [= <-] _. apply GetChunk_any_fault in Hg. rewrite Hget in Hg. by injection Hg as ->.
Defined.

Lemma cluster_store_meta env addr req c r c' s :
  cluster_StoreChunk env addr req c = (r, c') → cl_meta c = s → cl_meta c' = s.
Proof.
  unfold cluster_StoreChunk. destruct (env_store _ _ _); [by intros [= _ <-]|].
  destruct (cl_nodes c !! addr); [|by intros [= _ <-]].
  destruct (DataNode.Server.StoreChunk _ _ _). by intros [= _ <-].
Qed.

Lemma calm_fetch addr id data c :
  node_holds c addr id data →
  fetchChunkFromNode (cluster_dial calm) (cluster_GetChunk calm) addr id c = Ok data.
Proof.
  intros (n & Hn & Hget). unfold fetchChunkFromNode, cluster_GetChunk. simpl. rewrite Hn.
  unfold DataNode.Server.GetChunk. simpl. rewrite Hget. simpl.
  by rewrite decide_False by naive_solver.
Qed.

(** ** From one end to the other *)
Section end_to_end.
Context `{SliceSort} `{!SliceSortSpec}.

Lemma put_placements now ord req s resp s' :
  srv_inv s → map_order (cm_nodes (srv_chunkMgr s)) ord →
  MetaServer.Server.PutFile now ord req s = (Ok resp, s') → PutFileResponse_Success resp = true →
  Z.of_nat (length (PutFileResponse_Placements resp)) = PutFileRequest_ChunkCount req ∧
  ∀ i p, PutFileResponse_Placements resp !! i = Some p →
    ChunkPlacement_ChunkId p = GenerateChunkID (PutFileRequest_Path req) (Z.of_nat i) ∧
    ChunkPlacement_ChunkIndex p = int32 (Z.of_nat i) ∧
    (1 ≤ length (ChunkPlacement_NodeAddresses p) ≤ 3)%nat.
Proof.
  intros [_ Hcm _] Hord Hput Hs.
  destruct (PutFile_Ok _ _ _ _ _ _ Hput Hs) as (ps & cm' & ns' & Ha & _ & -> & _).
  destruct (AllocateChunks_Ok _ _ _ _ _ _ _ _ Ha) as (Hne & _ & _).
  destruct (AllocateChunks_placed _ _ _ _ _ _ _ _ Hcm Hord Ha) as [Hlen Hps].
  split; [by rewrite length_fmap|]. intros i p. rewrite list_lookup_fmap.
  intros (q & Hq & ->)%fmap_Some.
  destruct (Hps i q Hq) as (Hid & Hidx & _ & Hn & _ & Haddr & _).
  unfold pb_placement. cbn [ChunkPlacement_ChunkId ChunkPlacement_ChunkIndex ChunkPlacement_NodeAddresses].
  rewrite Hid, Hidx. split; [done|]. split; [done|].
  rewrite <- (Forall2_length _ _ _ Haddr). unfold DefaultReplicationFactor in Hn.
  destruct (healthyNodes _ _ _); [done|]. simpl length in Hn. lia.
Qed.

Lemma put_ids now ord req s resp s' :
  srv_inv s → map_order (cm_nodes (srv_chunkMgr s)) ord →
  MetaServer.Server.PutFile now ord req s = (Ok resp, s') → PutFileResponse_Success resp = true →
  ChunkPlacement_ChunkId <$> PutFileResponse_Placements resp =
    (λ i, GenerateChunkID (PutFileRequest_Path req) (Z.of_nat i))
      <$> seq 0 (length (PutFileResponse_Placements resp)).
Proof.
  intros Hinv Hord Hput Hs. destruct (put_placements _ _ _ _ _ _ Hinv Hord Hput Hs) as [_ Hps].
  apply list_eq. intros i. rewrite !list_lookup_fmap.
  destruct (PutFileResponse_Placements resp !! i) as [p|] eqn:Hp.
  - rewrite lookup_seq_lt by (by eapply lookup_lt_Some). simpl. by destruct (Hps i p Hp) as [-> _].
  - rewrite lookup_seq_ge by (by apply lookup_ge_None). done.
Qed.

(** The locations GetFile answers with. *)
Definition placed_location (p : ChunkPlacement) : ChunkLocation :=
  mkChunkLocation (ChunkPlacement_ChunkId p) (ChunkPlacement_ChunkIndex p)
    (ChunkPlacement_NodeAddresses p) (ChunkPlacement_NodeIds p).

Lemma placed_sorted placements :
  (∀ i p, placements !! i = Some p → ChunkPlacement_ChunkIndex p = int32 (Z.of_nat i)) →
  Z.of_nat (length placements) < 2 ^ 31 →
  StronglySorted (λ a b, ChunkLocation_ChunkIndex a < ChunkLocation_ChunkIndex b)
    (placed_location <$> placements).
Proof.
  intros Hidx Hlen.
  assert (∀ k ps, (∀ i p, ps !! i = Some p → ChunkPlacement_ChunkIndex p = Z.of_nat (k + i)) →
    StronglySorted (λ a b, ChunkLocation_ChunkIndex a < ChunkLocation_ChunkIndex b)
      (placed_location <$> ps)) as Hgen.
  { clear. intros k ps. revert k. induction ps as [|p ps IH]; intros k Hps; [constructor|].
    rewrite fmap_cons. constructor.
    - apply (IH (S k)). intros i q Hq. rewrite (Hps (S i) q Hq). f_equal. lia.
    - apply Forall_fmap, Forall_lookup. intros i q Hq. simpl.
      rewrite (Hps 0%nat p eq_refl), (Hps (S i) q Hq). lia. }
  apply (Hgen 0%nat). intros i p Hp. rewrite (Hidx i p Hp). apply int32_id.
  apply lookup_lt_Some in Hp. unfold in_int32. lia.
Qed.

(** What a download of placed chunks returns, when the nodes hold them. *)
Lemma download_held env completed placements chunks c data :
  length placements = length chunks →
  (∀ i p bs addr, placements !! i = Some p → chunks !! i = Some bs →
     addr ∈ ChunkPlacement_NodeAddresses p → node_holds c addr (ChunkPlacement_ChunkId p) bs) →
  (∀ i p, placements !! i = Some p → ChunkPlacement_ChunkIndex p = int32 (Z.of_nat i) ∧
     (12 ≤ String.length (ChunkPlacement_ChunkId p))%nat) →
  Z.of_nat (length placements) < 2 ^ 31 →
  completed ≡ₚ placed_location <$> placements →
  downloadChunks (cluster_dial env) (cluster_GetChunk env) completed c = Ok data →
  data = mjoin chunks.
Proof.
  intros Hlen Hholds Hps Hsmall Hperm Hdown.
  apply (downloadChunks_fetches _ _ completed (placed_location <$> placements)) in Hdown
    as (got & -> & Hgot); [| |apply placed_sorted; [|done]|].
  - f_equal. apply list_eq_same_length with (n := length chunks); [done| |].
    { apply Forall2_length in Hgot. rewrite length_fmap in Hgot. lia. }
    intros i x y _ Hx Hy.
    destruct (lookup_lt_is_Some_2 placements i) as [p Hp].
    { rewrite Hlen. by eapply lookup_lt_Some. }
    rewrite Forall2_lookup in Hgot. specialize (Hgot i).
    rewrite list_lookup_fmap, Hp, Hx in Hgot. simpl in Hgot. inversion Hgot as [? ? Hf|]; subst.
    apply fetch_loop_Ok in Hf as (pre & addr & post & Ha & _ & Hf). simpl in Ha, Hf.
    apply fetchChunkFromNode_Ok in Hf as (resp & Hcall & Hs & <- & _).
    eapply (net_get (NodeNetwork := cluster_network env env)); [|exact Hcall|exact Hs].
    apply (Hholds i p y addr Hp Hy). rewrite Ha. set_solver.
  - done.
  - intros i p Hp. by destruct (Hps i p Hp).
  - apply Forall_fmap, Forall_lookup. intros i p Hp. by destruct (Hps i p Hp).
Qed.

(** The client's put, over the cluster. *)
Definition cluster_put (env : Env) (now : Time) (ord : list string) (fs : FileSys)
    (localPath remotePath : string) (plans : nat → read_plan) (sched : list nat)
    : gos Cluster unit :=
  Client.PutFile (cluster_dial env) (cluster_StoreChunk env) (cluster_PutFile now ord)
    fs localPath remotePath None None None plans sched.

(** The client's get, over the cluster. *)
Definition cluster_get (env : Env) (fs : FileSys) (remotePath localPath : string)
    (complete : list ChunkLocation → list ChunkLocation) (c : Cluster) : go unit * FileSys :=
  Client.GetFile (cluster_dial env) (cluster_GetChunk env) cluster_GetFile
    fs remotePath localPath complete WriteOk c.

Definition cluster_inv (c : Cluster) : Prop := srv_inv (cl_meta c) ∧ nodes_ok c.

(** What a put that reports success has done. *)
Lemma put_done env now ord fs localPath content abs comps plans sched chunks size sum c c1 :
  cluster_inv c → map_order (cm_nodes (srv_chunkMgr (cl_meta c))) ord →
  comps ≠ [] → Forall good_name comps → fs !! localPath = Some content →
  readAndChunkFile fs localPath None None None plans = Ok (chunks, size, sum) →
  Z.of_nat (length chunks) < 2 ^ 31 →
  NoDup ((λ i, GenerateChunkID (path_of abs comps) (Z.of_nat i)) <$> seq 0 (length chunks)) →
  (∀ i, i < length chunks → 3 < length (filter (eq i) sched))%nat →
  cluster_put env now ord fs localPath (path_of abs comps) plans sched c = (Ok tt, c1) →
  ∃ placements, nodes_ok c1 ∧ content = mjoin chunks ∧ length placements = length chunks ∧
    (∀ i p, placements !! i = Some p → ChunkPlacement_ChunkIndex p = int32 (Z.of_nat i) ∧
       (12 ≤ String.length (ChunkPlacement_ChunkId p))%nat ∧ ChunkPlacement_NodeAddresses p ≠ []) ∧
    (∀ i p bs addr, placements !! i = Some p → chunks !! i = Some bs →
       addr ∈ ChunkPlacement_NodeAddresses p → node_holds c1 addr (ChunkPlacement_ChunkId p) bs) ∧
    ∀ abs2, ∃ info, MetaServer.Server.GetFile (mkGetFileRequest (path_of abs2 comps)) (cl_meta c1) =
      Ok (mkGetFileResponse true "" (Some info) (placed_location <$> placements)).
Proof.
  intros [Hsrv Hnodes] Hord Hne Hgood Hfs Hread Hsmall Hnd Hsched. unfold cluster_put, Client.PutFile.
  pose proof (readAndChunkFile_chunks fs localPath content plans Hfs) as Hr.
  rewrite Hread in Hr |- *. destruct Hr as (Hjoin & _).
  unfold cluster_PutFile. rewrite int32_id by (unfold in_int32; lia).
  destruct (MetaServer.Server.PutFile _ _ _ _) as [[resp|e|p] s1] eqn:Hput; [|done..].
  destruct (PutFileResponse_Success resp) eqn:Hsucc; [|done].
  unfold gos_wrap. destruct (uploadChunks _ _ _ _ _ _) as [[[]|e|p] c2] eqn:Hup; [|done..].
  intros [= <-].
  destruct (put_placements _ _ _ _ _ _ Hsrv Hord Hput Hsucc) as [Hlen Hps].
  pose proof (put_ids _ _ _ _ _ _ Hsrv Hord Hput Hsucc) as Hids.
  cbn [PutFileRequest_ChunkCount PutFileRequest_Path] in Hlen, Hps, Hids.
  apply Nat2Z.inj in Hlen. rewrite Hlen in Hids.
  set (placements := PutFileResponse_Placements resp) in *. exists placements.
  assert (NoDup (ChunkPlacement_ChunkId <$> placements)) as Hnd' by (by rewrite Hids).
  destruct (uploadChunks_kept (cluster_dial env) (cluster_StoreChunk env)
    (cluster_GetChunk env) sched chunks placements (mkCluster s1 (cl_nodes c)) c2) as [Hok2 Hkept];
    [exact Hnodes| | |exact Hup|].
  { split; [done|]. apply Forall_lookup. intros i p Hp. destruct (Hps i p Hp) as [-> _].
    apply GenerateChunkID_plain. }
  { apply uploadChunks_complete. intros i p Hp. destruct (Hps i p Hp) as (_ & _ & Ha).
    apply lookup_lt_Some in Hp. specialize (Hsched i ltac:(lia)). lia. }
  split; [exact Hok2|]. split; [done|]. split; [done|]. split; [|split; [exact Hkept|]].
  - intros i p Hp. destruct (Hps i p Hp) as (-> & -> & Ha). split; [done|].
    rewrite GenerateChunkID_length. split; [lia|]. intros Hnil. rewrite Hnil in Ha. simpl in Ha. lia.
  - assert (cl_meta c2 = s1) as ->.
    { eapply (uploadChunks_preserves _ _ (λ c, cl_meta c = s1)); [| |exact Hup]; [|done].
      intros addr req v r v' Hc Hv. by eapply cluster_store_meta. }
    intros abs2.
    destruct (put_get _ _ abs abs2 _ _ _ _ _ _ _ Hsrv Hord Hne Hgood Hput Hsucc Hnd')
      as (_ & infos & Hget & _). eexists. exact Hget.
Qed.

(** When nothing fails, held chunks download. *)
Lemma download_calm completed placements chunks c :
  length placements = length chunks →
  (∀ i p bs addr, placements !! i = Some p → chunks !! i = Some bs →
     addr ∈ ChunkPlacement_NodeAddresses p → node_holds c addr (ChunkPlacement_ChunkId p) bs) →
  (∀ i p, placements !! i = Some p → ChunkPlacement_ChunkIndex p = int32 (Z.of_nat i) ∧
     (12 ≤ String.length (ChunkPlacement_ChunkId p))%nat ∧ ChunkPlacement_NodeAddresses p ≠ []) →
  Z.of_nat (length placements) < 2 ^ 31 →
  completed ≡ₚ placed_location <$> placements →
  downloadChunks (cluster_dial calm) (cluster_GetChunk calm) completed c = Ok (mjoin chunks).
Proof.
  intros Hlen Hholds Hps Hsmall Hperm.
  apply (downloadChunks_fetches _ _ completed (placed_location <$> placements)).
  - done.
  - apply placed_sorted; [|done]. intros i p Hp. by destruct (Hps i p Hp).
  - apply Forall_fmap, Forall_lookup. intros i p Hp. by destruct (Hps i p Hp) as (_ & ? & _).
  - exists chunks. split; [done|]. apply Forall2_fmap_l, Forall2_same_length_lookup_2; [done|].
    intros i p bs Hp Hbs. destruct (Hps i p Hp) as (_ & _ & Hne).
    unfold placed_location, fetchChunkFromNodes. simpl.
    destruct (ChunkPlacement_NodeAddresses p) as [|addr rest] eqn:Ha; [done|]. simpl.
    rewrite (calm_fetch addr _ bs); [done|]. apply (Hholds i p bs addr Hp Hbs). rewrite Ha. by left.
Qed.

(** A put that has reported success, then a get. *)
Lemma cluster_put_get env1 env2 now ord fs localPath content abs1 abs2 comps plans sched
    chunks size sum c c1 complete fs2 dest :
  cluster_inv c → map_order (cm_nodes (srv_chunkMgr (cl_meta c))) ord →
  comps ≠ [] → Forall good_name comps → fs !! localPath = Some content →
  readAndChunkFile fs localPath None None None plans = Ok (chunks, size, sum) →
  Z.of_nat (length chunks) < 2 ^ 31 →
  NoDup ((λ i, GenerateChunkID (path_of abs1 comps) (Z.of_nat i)) <$> seq 0 (length chunks)) →
  (∀ i, i < length chunks → 3 < length (filter (eq i) sched))%nat →
  cluster_put env1 now ord fs localPath (path_of abs1 comps) plans sched c = (Ok tt, c1) →
  (∀ l, complete l ≡ₚ l) →
  (∀ fs2', cluster_get env2 fs2 (path_of abs2 comps) dest complete c1 = (Ok tt, fs2') →
     fs2' = <[dest := content]> fs2) ∧
  cluster_get calm fs2 (path_of abs2 comps) dest complete c1 = (Ok tt, <[dest := content]> fs2).
Proof.
  intros Hinv Hord Hne Hgood Hfs Hread Hsmall Hnd Hsched Hput Hcomplete.
  destruct (put_done _ _ _ _ _ _ _ _ _ _ _ _ _ _ _ Hinv Hord Hne Hgood Hfs Hread Hsmall Hnd
    Hsched Hput) as (placements & _ & -> & Hlen & Hps & Hholds & Hget).
  destruct (Hget abs2) as [info Hresp]. rewrite <- Hlen in Hsmall.
  unfold cluster_get, Client.GetFile, cluster_GetFile. rewrite Hresp.
  cbn [GetFileResponse_Success GetFileResponse_FileInfo GetFileResponse_ChunkLocations negb]. split.
  - intros fs2'. destruct (downloadChunks _ _ _ _) as [data|e|p] eqn:Hd; [|done..].
    intros [= <-]. apply (download_held _ _ placements chunks) in Hd as ->; [done..| |done|done].
    intros i p Hp. by destruct (Hps i p Hp) as (? & ? & _).
  - by rewrite (download_calm _ placements chunks) by done.
Qed.

(** Put, then get, across the whole system: when a put has reported success
    (whatever failed or was retried on the way, under any interleaving of the upload
    goroutines and any sizes of the reads), a get of the path under either spelling
    either fails or writes exactly the uploaded bytes to its destination, whatever
    fails on the way, in whatever order the chunks arrive; and it does succeed when
    nothing fails.  The hypotheses bound the number of chunks to an [int32], ask for
    no collision among the file's own identifiers, and give every upload goroutine
    its turns. *)
Theorem cluster_roundtrip env1 env2 now ord fs localPath content abs1 abs2 comps plans sched
    chunks size sum c c1 complete fs2 dest :
  cluster_inv c → map_order (cm_nodes (srv_chunkMgr (cl_meta c))) ord →
  comps ≠ [] → Forall good_name comps → fs !! localPath = Some content →
  readAndChunkFile fs localPath None None None plans = Ok (chunks, size, sum) →
  Z.of_nat (length chunks) < 2 ^ 31 →
  NoDup ((λ i, GenerateChunkID (path_of abs1 comps) (Z.of_nat i)) <$> seq 0 (length chunks)) →
  (∀ i, i < length chunks → 3 < length (filter (eq i) sched))%nat →
  cluster_put env1 now ord fs localPath (path_of abs1 comps) plans sched c = (Ok tt, c1) →
  (∀ l, complete l ≡ₚ l) →
  (∀ fs2', cluster_get env2 fs2 (path_of abs2 comps) dest complete c1 = (Ok tt, fs2') →
     fs2' = <[dest := content]> fs2) ∧
  cluster_get calm fs2 (path_of abs2 comps) dest complete c1 = (Ok tt, <[dest := content]> fs2).
Proof. apply cluster_put_get. Qed.
End end_to_end.

Section witnesses.
Definition demo_content : bytes := bytes_of_string "hello world".
Definition demo_local : FileSys := {["/home/f" := demo_content]}.
Definition demo_node (addr : string) : DataServer :=
  mkDataServer (mkChunkStore ("/data/" +:+ addr) ∅ 0, ∅) (NewHealthCollector (λ _, f64_zero))
    "" addr 9000 9100 "meta:9000" 1000.
Definition demo_cluster : Cluster :=
  mkCluster demo_srv (list_to_map ((λ a, (a, demo_node a)) <$> ["a:9000"; "b:9000"; "c:9000"; "d:9000"])).
(** The reads return four bytes at a time, the goroutines take turns, and the disk
    of "d:9000" is full. *)
Definition demo_plans : nat → read_plan := λ _, ReadUpTo 4.
Definition demo_sched : list nat := mjoin (replicate 4 [2; 0; 1]%nat).
Definition demo_env : Env :=
  mkEnv (λ _, Ok tt) (λ _ _, None) (λ _ _, None) (λ _ _, None)
    (λ a _, if decide (a = "d:9000") then WriteNotOpened "no space left on device" else WriteOk)
    (λ a _, if decide (a = "c:9000") then Some "input/output error" else None).
Definition demo_put_cluster : go unit * Cluster :=
  cluster_put demo_env 0 demo_ord demo_local "/home/f" (path_of true ["a"; "b"]) demo_plans
    demo_sched demo_cluster.

Lemma demo_cluster_inv : cluster_inv demo_cluster.
Proof.
  split; [exact demo_srv_inv|]. intros a n. unfold demo_cluster. cbn [cl_nodes].
  intros Hn%elem_of_list_to_map_2. apply list_elem_of_fmap in Hn as (b & [= -> ->] & _).
  intros id ch. simpl. by rewrite lookup_empty.
Qed.

Lemma cluster_roundtrip_witness :
  cluster_get calm ∅ (path_of false ["a"; "b"]) "/tmp/f" (rev (A:=_)) demo_put_cluster.2
    = (Ok tt, {["/tmp/f" := demo_content]}).
Proof.
  assert (∃ chunks size sum, readAndChunkFile demo_local "/home/f" None None None demo_plans
    = Ok (chunks, size, sum) ∧ length chunks = 3%nat) as (chunks & size & sum & Hread & Hlen).
  { eexists _, _, _. split; [vm_compute; reflexivity|]. reflexivity. }
  assert (demo_put_cluster = (Ok tt, demo_put_cluster.2)) as Hput
    by (apply fst_outcome; vm_compute; reflexivity).
  apply (cluster_roundtrip demo_env demo_env 0 demo_ord demo_local "/home/f" demo_content true false
    ["a"; "b"] demo_plans demo_sched chunks size sum demo_cluster demo_put_cluster.2 (rev (A:=_)) ∅ "/tmp/f"
    demo_cluster_inv demo_order ltac:(discriminate) ltac:(repeat constructor; discriminate)
    (lookup_singleton_eq _ _) Hread); [..|exact Hput|intros l; symmetry; apply Permutation_rev].
  - rewrite Hlen. reflexivity.
  - rewrite Hlen. apply (bool_decide_unpack _). vm_compute. exact I.
  - rewrite Hlen. intros i Hi. do 3 (destruct i as [|i]; [vm_compute; lia|]). lia.
Defined.

Definition demo_placement : ChunkPlacement :=
  mkChunkPlacement (GenerateChunkID "/a/b" 0) 0 ["a:9000"; "b:9000"] ["node-1"; "node-2"].

Definition demo_upload : go unit * Cluster :=
  uploadChunks (cluster_dial calm) (cluster_StoreChunk calm) [0; 0; 0]%nat
    [demo_content] [demo_placement] demo_cluster.

Lemma uploadChunks_stores_witness :
  demo_upload.1 = Ok tt ∧
  node_holds demo_upload.2 "b:9000" (GenerateChunkID "/a/b" 0) demo_content.
Proof.
  assert (demo_upload.1 = Ok tt) as Hok by (vm_compute; reflexivity). split; [exact Hok|].
  assert (nodes_ok demo_cluster) as Hn by exact (proj2 demo_cluster_inv).
  assert (upload_wf [demo_placement]) as Hwf.
  { split; [apply NoDup_singleton|]. apply Forall_singleton. apply GenerateChunkID_plain. }
  assert (∀ i p, [demo_placement] !! i = Some p →
    length (ChunkPlacement_NodeAddresses p) < length (filter (eq i) [0; 0; 0]%nat))%nat as Hs.
  { intros [|i] p; [|discriminate]. intros [= <-]. vm_compute. lia. }
  destruct (uploadChunks_stores (NodeNetwork0 := cluster_network calm calm) (cluster_dial calm) (cluster_StoreChunk calm)
    (cluster_GetChunk calm) [0; 0; 0]%nat [demo_content] [demo_placement] demo_cluster Hn Hwf Hs)
    as [_ H].
  destruct (H demo_upload.2) as [_ Hholds].
  { rewrite <- Hok. apply surjective_pairing. }
  apply (Hholds 0%nat demo_placement demo_content "b:9000" eq_refl eq_refl). right. left.
Defined.
End witnesses.
