(* ===== verification/ClusterMigration.v ===== *)
(** * Migrations over the whole system

    A migration moves chunks between the data nodes while the metadata server
    updates its tables; here both sides are followed together. *)
From S2P Require Export Cluster.
Local Open Scope Z_scope.

(** A transfer touches the target's copy only, and reports success only when the
    target holds what the source holds. *)
Lemma cluster_transfer env src cid tgt data c r c' :
  nodes_ok c → plain_id cid → node_holds c src cid data →
  transferChunk (cluster_dial env) (cluster_TransferChunk env) src cid tgt c = (r, c') →
  nodes_ok c' ∧
  (∀ a id d, (a, id) ≠ (tgt, cid) → node_holds c a id d → node_holds c' a id d) ∧
  (r = Ok tt → node_holds c' tgt cid data).
Proof.
  intros Hok Hid (n & Hn & Hget). unfold transferChunk, cluster_TransferChunk.
  destruct (cluster_dial env src c) as [[]|e|p]; [|by intros [= <- <-]..].
  destruct (env_transfer env _ _); [by intros [= <- <-]|]. rewrite Hn.
  unfold DataNode.Server.TransferChunk. cbn [TransferChunkRequest_ChunkId TransferChunkRequest_TargetAddress].
  destruct (ChunkStore.GetChunk (env_read env _ _) cid (dsv_disk n)) as [[bs sum]|e|p] eqn:Hg;
    [|by intros [= <- <-]..].
  apply GetChunk_any_fault in Hg. rewrite Hget in Hg. injection Hg as <- <-.
  destruct (cluster_dial env tgt c) as [[]|e|p]; [|by intros [= <- <-]..].
  destruct (cluster_StoreChunk env tgt _ c) as [rs c1] eqn:Hs.
  apply cluster_store_cases in Hs as [[-> [e ->]]|(m & d' & Hm & -> & Hwf & Hother & resp & -> & Hnew)];
    [by intros [= <- <-]| |done..].
  assert (nodes_ok (mkCluster (cl_meta c) (<[tgt := set_disk d' m]> (cl_nodes c)))) as Hok'.
  { intros a k. simpl. intros [[<- <-]|[_ Hk]]%lookup_insert_Some; [done|by apply (Hok a)]. }
  assert (∀ a id d, (a, id) ≠ (tgt, cid) → node_holds c a id d →
    node_holds (mkCluster (cl_meta c) (<[tgt := set_disk d' m]> (cl_nodes c))) a id d) as Hkeep.
  { intros a id d Hne (k & Hk & Hd). unfold node_holds. simpl. destruct (decide (a = tgt)) as [->|].
    - rewrite lookup_insert_eq. exists (set_disk d' m). split; [done|]. simplify_eq.
      rewrite <- Hd. apply Hother. by intros ->.
    - rewrite lookup_insert_ne by done. by exists k. }
  destruct (StoreChunkResponse_Success resp) eqn:Hsucc; intros [= <- <-];
    (split; [done|]; split; [done|]); [|done].
  intros _. exists (set_disk d' m). simpl. rewrite lookup_insert_eq. split; [done|]. by apply Hnew.
Qed.

(** Every listed replica holds the chunk's content [D]. *)
Definition serves (D : string → bytes) (cm : ChunkManager) (c : Cluster) : Prop :=
  ∀ cid ns nid addr, loc_GetChunkMeta cid cm = Some ns → nid ∈ ns →
    loc_GetNodeAddress nid cm = Some addr → node_holds c addr cid (D cid).

(** A node whose set has a chunk is listed as its replica. *)
Definition no_stale (cm : ChunkManager) : Prop :=
  ∀ cid ns nid, loc_GetChunkMeta cid cm = Some ns → cid ∈ loc_on nid cm → nid ∈ ns.

Definition plain_chunks (cm : ChunkManager) : Prop :=
  ∀ cid, is_Some (loc_GetChunkMeta cid cm) → plain_id cid.

Definition data_inv (D : string → bytes) (cm : ChunkManager) (c : Cluster) : Prop :=
  serves D cm c ∧ no_stale cm ∧ plain_chunks cm ∧ nodes_ok c.

Lemma adapter_addr_inj cm x y a :
  cm_inv cm → loc_GetNodeAddress x cm = Some a → loc_GetNodeAddress y cm = Some a → x = y.
Proof.
  intros Hinv. simpl. unfold adapter_GetNodeAddress, GetNode.
  destruct (cm_nodes cm !! x) as [nx|] eqn:Hx; [|done].
  destruct (cm_nodes cm !! y) as [ny|] eqn:Hy; [|done]. intros [= Ha] [= Hb].
  eapply (inv_addr _ Hinv); [done..|congruence].
Qed.

Lemma no_stale_moved cid from to ns cm :
  is_Some (loc_GetNodeAddress to cm) → NoDup (ns ++ [to]) →
  loc_GetChunkMeta cid cm = Some ns → to ∉ ns → no_stale cm → no_stale (moved cid from to cm).
Proof.
  intros Hto Hnd Hmeta Hnin Hst cid' ns' nid Hm Hon. unfold moved in Hon.
  rewrite loc_remove_on, (loc_add_on cm cid to nid Hto) in Hon.
  destruct (decide (cid' = cid)) as [->|Hne].
  - rewrite (moved_meta cid from to cm ns Hmeta Hnin) in Hm. injection Hm as <-.
    rewrite remove_first_elem by done.
    case_decide as Hf; [set_solver|]. split; [|done].
    apply elem_of_app. case_decide as Ht; [subst; right; by left|left]. by eapply Hst.
  - rewrite moved_meta_other in Hm by done. apply (Hst cid' ns' nid Hm).
    repeat case_decide; set_solver.
Qed.

Lemma serves_transfer D cm c c' cid ns to addr :
  cm_inv cm → loc_GetChunkMeta cid cm = Some ns → to ∉ ns → loc_GetNodeAddress to cm = Some addr →
  (∀ a id d, (a, id) ≠ (addr, cid) → node_holds c a id d → node_holds c' a id d) →
  serves D cm c → serves D cm c'.
Proof.
  intros Hinv Hmeta Hnin Hto Hkeep Hs cid' ns' nid a Hm Hin Ha.
  apply Hkeep; [|by eapply Hs]. intros [= -> ->]. rewrite Hmeta in Hm. injection Hm as <-.
  by rewrite (adapter_addr_inj cm to nid addr) in Hnin.
Qed.

Lemma serves_moved D cid from to ns addr cm c :
  NoDup (ns ++ [to]) → loc_GetChunkMeta cid cm = Some ns → to ∉ ns →
  loc_GetNodeAddress to cm = Some addr → node_holds c addr cid (D cid) →
  serves D cm c → serves D (moved cid from to cm) c.
Proof.
  intros Hnd Hmeta Hnin Hto Hnew Hs cid' ns' nid a Hm Hin Ha. rewrite moved_addr in Ha.
  destruct (decide (cid' = cid)) as [->|Hne].
  - rewrite (moved_meta cid from to cm ns Hmeta Hnin) in Hm. injection Hm as <-.
    rewrite remove_first_elem in Hin by done.
    destruct Hin as [[Hin| ->%list_elem_of_singleton]%elem_of_app _]; [by eapply Hs|].
    rewrite Hto in Ha. by injection Ha as <-.
  - rewrite moved_meta_other in Hm by done. by eapply Hs.
Qed.

(** One move, successful or not. *)
Lemma migrateChunk_data D env pl cid from src cm c r cm' c' :
  cm_inv cm → map_order (cm_nodes cm) (pl_ord pl) → loc_GetNodeAddress from cm = Some src →
  cid ∈ loc_on from cm → data_inv D cm c →
  migrateChunk (cluster_dial env) (cluster_TransferChunk env) pl cid from src (cm, c) = (r, (cm', c')) →
  data_inv D cm' c'.
Proof.
  intros Hinv Hord Hsrc Hon (Hs & Hst & Hpl & Hok). unfold migrateChunk.
  destruct (loc_GetChunkMeta cid cm) as [ns|] eqn:Hmeta; [|by intros [= <- <- <-]].
  pose proof (loc_targets cm (pl_ord pl) ns) as Ht.
  destruct (loc_GetHealthyNodeAddresses (pl_ord pl) ns cm) as [|t ts]; [by intros [= <- <- <-]|].
  destruct (Ht t Hinv Hord ltac:(left)) as [Hnin Haddr].
  destruct (transferChunk _ _ _ _ _ _) as [rt c1] eqn:Htr.
  assert (node_holds c src cid (D cid)) as Hheld.
  { eapply Hs; [exact Hmeta| |exact Hsrc]. by eapply Hst. }
  apply (cluster_transfer env src cid _ (D cid)) in Htr as (Hok1 & Hkeep & Hnew);
    [|done|apply Hpl; eauto|done].
  assert (serves D cm c1) as Hs1 by (by eapply serves_transfer).
  destruct rt as [[]|e|p]; intros [= <- <- <-]; [|done..].
  pose proof (loc_meta_nodup cm cid ns Hinv Hmeta) as Hnd.
  assert (NoDup (ns ++ [nt_NodeID t])) as Hnd'.
  { apply NoDup_app. split; [done|]. split; [set_solver|apply NoDup_singleton]. }
  split; [|split; [|split; [|done]]].
  - by apply (serves_moved D cid from _ ns (nt_Address t)); [..|apply Hnew|].
  - by eapply no_stale_moved; eauto.
  - intros cid' Hm. apply Hpl. destruct (decide (cid' = cid)) as [->|Hne]; [eauto|].
    change (is_Some (loc_GetChunkMeta cid' (moved cid from (nt_NodeID t) cm))) in Hm.
    by rewrite moved_meta_other in Hm.
Qed.

(** [data_inv] of a concrete cluster is decided by looking at every entry. *)
Definition node_has (c : Cluster) (addr id : string) (data : bytes) : bool :=
  match cl_nodes c !! addr with
  | Some n => bool_decide (ChunkStore.GetChunk None id (dsv_disk n) = Ok (data, DataChecksum data))
  | None => false
  end.

Definition all_entries `{Countable K} {A} (f : K → A → bool) (m : gmap K A) : bool :=
  forallb (λ kv, f kv.1 kv.2) (map_to_list m).

Lemma all_entries_lookup `{Countable K} {A} (f : K → A → bool) (m : gmap K A) k x :
  all_entries f m = true → m !! k = Some x → f k x = true.
Proof.
  unfold all_entries. rewrite forallb_forall. intros Hall Hk.
  apply (Hall (k, x)), list_elem_of_In. by apply elem_of_map_to_list.
Qed.

Definition chunk_check (D : string → bytes) (cm : ChunkManager) (c : Cluster) (cid : string)
    (m : ChunkMeta) : bool :=
  negb (has_char slash cid) &&
  forallb (λ nid, match loc_GetNodeAddress nid cm with
                  | Some addr => node_has c addr cid (D cid)
                  | None => true
                  end) (ck_NodeIDs m).

Definition set_check (cm : ChunkManager) (nid : string) (n : DataNodeInfo) : bool :=
  forallb (λ cid, match cm_chunks cm !! cid with
                  | Some m => bool_decide (nid ∈ ck_NodeIDs m)
                  | None => true
                  end) (elements (dn_Chunks n)).

Definition disk_check (n : DataServer) : bool :=
  all_entries (λ id ch, bool_decide (sc_ChunkID ch = id) && negb (has_char slash id) &&
    bool_decide (sc_FilePath ch = chunkPath (dsv_disk n).1 id)) (cs_chunks (dsv_disk n).1).

Definition data_check (D : string → bytes) (cm : ChunkManager) (c : Cluster) : bool :=
  all_entries (chunk_check D cm c) (cm_chunks cm) && all_entries (set_check cm) (cm_nodes cm) &&
  all_entries (λ _, disk_check) (cl_nodes c).

Lemma data_check_inv D cm c : data_check D cm c = true → data_inv D cm c.
Proof.
  unfold data_check. rewrite !andb_true_iff. intros [[Hchunks Hnodes] Hok].
  split; [|split; [|split]].
  - intros cid ns nid addr. simpl. unfold adapter_GetChunkMeta, GetChunkMeta.
    destruct (cm_chunks cm !! cid) as [m|] eqn:Hm; [|done]. intros [= <-] Hin Ha.
    pose proof (all_entries_lookup _ _ _ _ Hchunks Hm) as [_ Hall]%andb_true_iff.
    rewrite forallb_forall in Hall. specialize (Hall nid (proj1 (list_elem_of_In _ _) Hin)).
    simpl in Hall. rewrite Ha in Hall. unfold node_has in Hall.
    destruct (cl_nodes c !! addr) as [n|] eqn:Hn; [|done].
    exists n. split; [done|]. by apply bool_decide_eq_true in Hall.
  - intros cid ns nid. simpl. unfold adapter_GetChunkMeta, GetChunkMeta, on_node.
    destruct (cm_chunks cm !! cid) as [m|] eqn:Hm; [|done]. intros [= <-].
    destruct (cm_nodes cm !! nid) as [n|] eqn:Hn; [|set_solver]. intros Hin.
    pose proof (all_entries_lookup _ _ _ _ Hnodes Hn) as Hall. unfold set_check in Hall.
    rewrite forallb_forall in Hall. apply elem_of_elements, list_elem_of_In, Hall in Hin.
    rewrite Hm in Hin. by apply bool_decide_eq_true in Hin.
  - intros cid [ns Hm]. simpl in Hm. unfold adapter_GetChunkMeta, GetChunkMeta in Hm.
    destruct (cm_chunks cm !! cid) as [m|] eqn:Hc; [|done].
    pose proof (all_entries_lookup _ _ _ _ Hchunks Hc) as [Hs _]%andb_true_iff.
    by apply negb_true_iff in Hs.
  - intros a n Hn. pose proof (all_entries_lookup _ _ _ _ Hok Hn) as Hd.
    intros id ch Hid. pose proof (all_entries_lookup _ _ _ _ Hd Hid) as Hch.
    rewrite !andb_true_iff, !bool_decide_eq_true, negb_true_iff in Hch. by destruct Hch as [[? ?] ?].
Qed.

(** A migration started by the prediction loop, over the cluster. *)
Definition cluster_migrate (env : Env) (start finish : Time) (ord : list string)
    (plans : nat → chunk_plan) (p : PredictionResult) : gos Cluster (option MigrationReport) := λ c,
  let '(r, (s, c')) :=
    MetaServer.Server.migrate (cluster_dial env) (cluster_TransferChunk env) start finish ord plans p
      (cl_meta c, c) in
  (r, mkCluster s (cl_nodes c')).

(** C4: Migration never costs data: let every listed replica of every chunk hold the
    chunk's content and the nodes' chunk sets agree with the replica lists; then
    the same is true after a migration of any node, whatever fails on the way (the
    transport, the reading source, partial writes at the target), and no chunk has
    fewer replicas than before. *)
Theorem migration_keeps_data D env start finish ord plans p c :
  cluster_inv c → data_inv D (srv_chunkMgr (cl_meta c)) c →
  set_order (on_node (pr_NodeID p) (srv_chunkMgr (cl_meta c))) ord →
  (∀ j, map_order (cm_nodes (srv_chunkMgr (cl_meta c))) (pl_ord (plans j))) →
  let c' := (cluster_migrate env start finish ord plans p c).2 in
  data_inv D (srv_chunkMgr (cl_meta c')) c' ∧
  ∀ cid ns, loc_GetChunkMeta cid (srv_chunkMgr (cl_meta c)) = Some ns →
    ∃ ns', loc_GetChunkMeta cid (srv_chunkMgr (cl_meta c')) = Some ns' ∧ NoDup ns' ∧
      (length ns ≤ length ns')%nat.
Proof.
  intros [[_ Hcm _] _] Hdata Hcord Hord. unfold cluster_migrate, MetaServer.Server.migrate.
  pose proof (MigrateNode_keeps (cluster_dial env) (cluster_TransferChunk env) start finish ord plans
    p (srv_migrator (cl_meta c)) (srv_chunkMgr (cl_meta c)) c Hcm Hord) as [_ Hrep].
  destruct (MigrateNode _ _ _ _ _ _ _ _) as [r [m [cm' c1]]] eqn:Hrun.
  split; [|exact Hrep].
  refine (MigrateNode_preserves _ _ (data_inv D) (pr_NodeID p) _ _ _ _ _ _ _ _ _ _ _ _ _
    eq_refl Hcm Hcord Hord Hdata Hrun).
  intros pl cid src cm v r' cm1 v1 Hi Ho Ha Hon HI Hstep.
  exact (migrateChunk_data D env pl cid _ src cm v r' cm1 v1 Hi Ho Ha Hon HI Hstep).
Qed.


(** ** Concrete runs *)
Section witnesses.
(** After the put, node-1 is evacuated. *)
Definition demo_cluster2 : Cluster := demo_put_cluster.2.
Definition demo_contents (cid : string) : bytes :=
  default [] ((λ d, match ChunkStore.GetChunk None cid (dsv_disk d) with Ok (bs, _) => bs | _ => [] end)
    <$> cl_nodes demo_cluster2 !! "a:9000").
Definition demo_evac_ord : list string := elements (on_node "node-1" (srv_chunkMgr (cl_meta demo_cluster2))).
Definition demo_evac_plans : nat → chunk_plan := λ _,
  mkChunkPlan (map_keys (cm_nodes (srv_chunkMgr (cl_meta demo_cluster2)))) Second (2 * Second).

Lemma demo_cluster2_srv : srv_inv (cl_meta demo_cluster2).
Proof.
  assert (cl_meta demo_cluster2 = (MetaServer.Server.PutFile 0 demo_ord
    (mkPutFileRequest (path_of true ["a"; "b"]) 11 3 (DataChecksum demo_content)) demo_srv).2) as ->
    by (vm_compute; reflexivity).
  eapply srv_step_inv; [exact demo_srv_inv|].
  eapply srv_PutFile; [exact demo_order|apply surjective_pairing].
Qed.

Lemma migration_keeps_data_witness :
  let c' := (cluster_migrate calm 0 Second demo_evac_ord demo_evac_plans demo_prediction demo_cluster2).2 in
  data_inv demo_contents (srv_chunkMgr (cl_meta c')) c' ∧
  on_node "node-1" (srv_chunkMgr (cl_meta demo_cluster2)) ≠ ∅ ∧
  on_node "node-1" (srv_chunkMgr (cl_meta c')) = ∅.
Proof.
  assert (data_inv demo_contents (srv_chunkMgr (cl_meta demo_cluster2)) demo_cluster2) as Hd
    by (apply data_check_inv; vm_compute; reflexivity).
  split; [|split; [|vm_compute; reflexivity]].
  - refine (proj1 (migration_keeps_data demo_contents calm 0 Second demo_evac_ord demo_evac_plans
      demo_prediction demo_cluster2 (conj demo_cluster2_srv (proj2 (proj2 (proj2 Hd)))) Hd _ _)).
    + unfold set_order. reflexivity.
    + intros j. apply map_order_keys.
  - apply (bool_decide_unpack (¬ _)). vm_compute. exact I.
Defined.
End witnesses.

(** ** A stale copy comes back

    Five nodes.  A file is put and then overwritten; the placement of the new
    version avoids the nodes that are fuller, but their chunk sets keep the
    identifier, which depends on path and index only, and their disks the old bytes. *)
Section stale.
Definition five_addrs : list string := ["a:9000"; "b:9000"; "c:9000"; "d:9000"; "e:9000"].
Definition five_cm : ChunkManager := foldl (λ cm a, demo_register a cm) NewChunkManager five_addrs.
Definition five_cluster : Cluster :=
  mkCluster (mkMetaServer NewNamespace five_cm NewMonitor NewMigrator 1 2)
    (list_to_map ((λ a, (a, demo_node a)) <$> five_addrs)).
Definition five_ord : list string := map_keys (cm_nodes five_cm).

Definition old_version : bytes := bytes_of_string "old".
Definition new_version : bytes := bytes_of_string "new".

Definition five_put (v : bytes) (c : Cluster) : go unit * Cluster :=
  cluster_put calm 0 five_ord {["/home/f" := v]} "/home/f" "/f" demo_plans (replicate 4 0%nat) c.

Definition overwritten : Cluster := (five_put new_version (five_put old_version five_cluster).2).2.

(** The prediction tick finds node-1 critical and starts its migration. *)
Definition critical_node1 : PredictionResult :=
  mkPredictionResult "node-1" (f64_const 9 10) StatusCritical ∅ [] 0.

Definition flagged : Cluster :=
  mkCluster (set_chunkMgr (MetaServer.Server.prediction_result
    ([], srv_chunkMgr (cl_meta overwritten)) critical_node1).2 (cl_meta overwritten))
    (cl_nodes overwritten).

Definition stale_plans : nat → chunk_plan := λ _, mkChunkPlan five_ord Second (2 * Second).

Definition evacuated_node1 : go (option MigrationReport) * Cluster :=
  cluster_migrate calm 0 Second [GenerateChunkID "/f" 0] stale_plans critical_node1 flagged.

(** The nodes that hold the new version do not answer. *)
Definition new_copies_down : Env :=
  mkEnv (λ _, Ok tt) (λ _ _, None)
    (λ a _, if decide (a ∈ ["b:9000"; "c:9000"; "d:9000"]) then Some "connection refused" else None)
    (λ _ _, None) (λ _ _, WriteOk) (λ _ _, None).

(** C17: Overwriting and migrating serves old data: in the following run every
    operation reports success: a file is put, overwritten with a new version, and
    read back as the new version; then a node that held the old version is
    evacuated.  The migration copies the old bytes to a healthy node and lists it
    as a replica, so that a client whose other replicas are down reads the old
    version, with matching checksums and no error. *)
Theorem overwrite_then_migrate_serves_old :
  (five_put old_version five_cluster).1 = Ok tt ∧
  (five_put new_version (five_put old_version five_cluster).2).1 = Ok tt ∧
  cluster_get calm ∅ "/f" "/tmp/f" (λ l, l) overwritten = (Ok tt, {["/tmp/f" := new_version]}) ∧
  match evacuated_node1.1 with
  | Ok (Some r) => mr_MigratedChunks r = 1 ∧ mr_FailedChunks r = 0
  | _ => False
  end ∧
  loc_GetChunkMeta (GenerateChunkID "/f" 0) (srv_chunkMgr (cl_meta evacuated_node1.2))
    = Some ["node-2"; "node-4"; "node-3"; "node-5"] ∧
  cluster_get new_copies_down ∅ "/f" "/tmp/f" (λ l, l) evacuated_node1.2
    = (Ok tt, {["/tmp/f" := old_version]}).
Proof.
  split; [vm_compute; reflexivity|]. split; [vm_compute; reflexivity|].
  split; [vm_compute; reflexivity|].
  split; [vm_compute; split; reflexivity|]. split; vm_compute; reflexivity.
Qed.
End stale.
