(* ===== verification/ClusterSafety.v ===== *)
(** * What a client can read, in every reachable state

    The cluster as a state machine whose steps are single calls: clients' and
    nodes' requests interleave freely, calls and disks fail, nodes come and go,
    disks change behind the nodes' backs.  A ghost state records what was put where.
    The identifiers of a new file must not have been used before; what goes wrong
    otherwise is the subject of [overwrite_then_migrate_serves_old]. *)
From S2P Require Export ClusterMigration.
Local Open Scope Z_scope.

(** The content put under each path, and for each identifier ever handed out the
    position in its file and the bytes of the chunk. *)
Record Ghost := mkGhost {
  gh_files : gmap (list string) bytes;
  gh_chunks : gmap string (nat * bytes);
}.

Definition Sys : Type := Cluster * Ghost.

(** The entry of the tree a created file gets. *)
Definition put_key (path : string) : list string :=
  match splitPath path with Ok (dir, name) => cleanPath dir ++ [name] | _ => [] end.

Definition file_ids (path : string) (n : nat) : list string :=
  (λ i, GenerateChunkID path (Z.of_nat i)) <$> seq 0 n.

(** The chunks of a file under their identifiers. *)
Definition new_chunks (path : string) (chunks : list bytes) : gmap string (nat * bytes) :=
  list_to_map (zip (file_ids path (length chunks)) (imap pair chunks)).

Definition record_put (path : string) (chunks : list bytes) (g : Ghost) : Ghost :=
  mkGhost (<[put_key path := mjoin chunks]> (gh_files g)) (new_chunks path chunks ∪ gh_chunks g).

Section system.
Context `{SliceSort} `{!SliceSortSpec}.

(** ** Steps *)

(** Everything the metadata server does besides taking new files: its other
    handlers, its ticks, and the calls of running migrations. *)
Inductive admin_step : MetaServer → MetaServer → Prop :=
  | admin_DeleteFile ord req r s s' :
      MetaServer.Server.DeleteFile ord req s = (r, s') → admin_step s s'
  | admin_RegisterNode now ord req r s s' :
      map_order (cm_nodes (srv_chunkMgr s)) ord →
      MetaServer.Server.RegisterNode now ord req s = (r, s') → admin_step s s'
  | admin_Heartbeat now req r s s' :
      MetaServer.Server.Heartbeat now req s = (r, s') → admin_step s s'
  | admin_ReportHealth req r s s' :
      MetaServer.Server.ReportHealth req s = (r, s') → admin_step s s'
  | admin_deadNodeChecker now ord s :
      map_order (cm_nodes (srv_chunkMgr s)) ord →
      admin_step s (MetaServer.Server.deadNodeChecker now ord s)
  | admin_predictionLoop now ord s : admin_step s (MetaServer.Server.predictionLoop now ord s).2
  | admin_AddChunkToNode cid nid s :
      is_Some (cm_nodes (srv_chunkMgr s) !! nid) →
      admin_step s (set_chunkMgr (AddChunkToNode cid nid (srv_chunkMgr s)) s)
  | admin_RemoveChunkFromNode cid nid s :
      admin_step s (set_chunkMgr (RemoveChunkFromNode cid nid (srv_chunkMgr s)) s).

Inductive cluster_step : Sys → Sys → Prop :=
  (** a client announces a file; fresh identifiers, at most [2 ^ 31 - 1] of them *)
  | cs_put now ord path size sum chunks resp s' c g :
      map_order (cm_nodes (srv_chunkMgr (cl_meta c))) ord →
      Z.of_nat (length chunks) < 2 ^ 31 →
      NoDup (file_ids path (length chunks)) →
      (∀ id, id ∈ file_ids path (length chunks) → gh_chunks g !! id = None) →
      MetaServer.Server.PutFile now ord
        (mkPutFileRequest path size (Z.of_nat (length chunks)) sum) (cl_meta c) = (Ok resp, s') →
      cluster_step (c, g) (mkCluster s' (cl_nodes c),
                           if PutFileResponse_Success resp then record_put path chunks g else g)
  (** any other step of the metadata server *)
  | cs_admin s' c g :
      admin_step (cl_meta c) s' → cluster_step (c, g) (mkCluster s' (cl_nodes c), g)
  (** a client sends one chunk of a file it put to some node *)
  | cs_store env addr id i data r c c' g :
      gh_chunks g !! id = Some (i, data) →
      cluster_StoreChunk env addr (mkStoreChunkRequest id data (DataChecksum data)) c = (r, c') →
      cluster_step (c, g) (c', g)
  (** some node sends a chunk to some node *)
  | cs_transfer env addr req r c c' g :
      cluster_TransferChunk env addr req c = (r, c') → cluster_step (c, g) (c', g)
  (** a node deletes a chunk *)
  | cs_delete fault addr req n r d' c g :
      cl_nodes c !! addr = Some n → DataNode.Server.DeleteChunk fault req (dsv_disk n) = (r, d') →
      cluster_step (c, g) (mkCluster (cl_meta c) (<[addr := set_disk d' n]> (cl_nodes c)), g)
  (** the files of a node change in any way *)
  | cs_disk addr n fs c g :
      cl_nodes c !! addr = Some n →
      cluster_step (c, g)
        (mkCluster (cl_meta c) (<[addr := set_disk ((dsv_disk n).1, fs) n]> (cl_nodes c)), g)
  (** a node without chunks joins, a node disappears *)
  | cs_join addr n c g :
      cs_chunks (dsv_disk n).1 = ∅ →
      cluster_step (c, g) (mkCluster (cl_meta c) (<[addr := n]> (cl_nodes c)), g)
  | cs_leave addr c g :
      cluster_step (c, g) (mkCluster (cl_meta c) (delete addr (cl_nodes c)), g).

(** ** Invariant *)

(** A file's chunks, in order, with the positions they were handed out for. *)
Definition file_recorded (g : Ghost) (key : list string) (ids : list string) : Prop :=
  ∃ chunks, gh_files g !! key = Some (mjoin chunks) ∧ Z.of_nat (length chunks) < 2 ^ 31 ∧
    Forall2 (λ id ib, gh_chunks g !! id = Some ib) ids (imap pair chunks).

Record sys_inv (c : Cluster) (g : Ghost) : Prop := {
  si_meta : srv_inv (cl_meta c);
  (** what the nodes' tables promise *)
  si_tables : ∀ addr n id ch, cl_nodes c !! addr = Some n →
    cs_chunks (dsv_disk n).1 !! id = Some ch →
    ∃ i data, gh_chunks g !! id = Some (i, data) ∧ sc_Checksum ch = DataChecksum data;
  si_index : ∀ id m i data, cm_chunks (srv_chunkMgr (cl_meta c)) !! id = Some m →
    gh_chunks g !! id = Some (i, data) → ck_ChunkIndex m = Z.of_nat i;
  si_files : ∀ key meta, view (srv_namespace (cl_meta c)) key = Some (NFile meta) →
    file_recorded g key (fm_ChunkIDs meta);
  si_ids : ∀ id, is_Some (gh_chunks g !! id) → (12 ≤ String.length id)%nat;
}.

(** What an administrative step leaves alone: files do not appear or change, chunk
    records do not appear or change their index. *)
Definition tame (s s' : MetaServer) : Prop :=
  (∀ key meta, view (srv_namespace s') key = Some (NFile meta) →
     view (srv_namespace s) key = Some (NFile meta)) ∧
  (∀ id m', cm_chunks (srv_chunkMgr s') !! id = Some m' →
     ∃ m, cm_chunks (srv_chunkMgr s) !! id = Some m ∧ ck_ChunkIndex m' = ck_ChunkIndex m).

Lemma tame_same s s' :
  srv_namespace s' = srv_namespace s → cm_chunks (srv_chunkMgr s') = cm_chunks (srv_chunkMgr s) →
  tame s s'.
Proof. intros Hns Hc. unfold tame. rewrite Hns, Hc. split; [done|]. eauto. Qed.

Lemma prediction_fold_chunks rs : ∀ acc cm,
  cm_chunks (foldl MetaServer.Server.prediction_result (acc, cm) rs).2 = cm_chunks cm.
Proof.
  induction rs as [|r rs IH]; intros acc cm; [done|]. cbn [foldl MetaServer.Server.prediction_result].
  rewrite IH. unfold UpdateNodeHealth. by destruct (cm_nodes cm !! _).
Qed.

Lemma DeleteFile_tame ord req s r s' :
  srv_inv s → MetaServer.Server.DeleteFile ord req s = (r, s') → tame s s'.
Proof.
  intros [Hns _ _]. unfold MetaServer.Server.DeleteFile.
  destruct (splitPath (DeleteFileRequest_Path req)) as [[dir name]|e|p] eqn:Hs.
  - pose proof (DeleteFile_post _ _ _ _ Hns Hs) as Hpost.
    destruct (Namespace.DeleteFile _ _) as [[o|e|p] ns'].
    + destruct Hpost as (_ & Hview & meta & -> & _).
      pose proof (remove_fold_spec (fm_ChunkIDs meta) ∅ (srv_chunkMgr s)) as (Hc & _).
      cbn [set_namespace srv_chunkMgr]. unfold RemoveChunks.
      destruct (foldl remove_chunk_step (∅, srv_chunkMgr s) (fm_ChunkIDs meta)) as [addrs cm'].
      intros [= <- <-]. split; cbn [srv_namespace srv_chunkMgr set_chunkMgr set_namespace].
      * intros key m. rewrite Hview. unfold tree_delete. by case_decide.
      * intros id m'. simpl in Hc. rewrite Hc. case_decide; [done|]. eauto.
    + destruct Hpost as [-> _]. intros [= <- <-]. by apply tame_same.
    + done.
  - destruct (splitPath_Err_ops _ e (mkFileMeta "" 0 0 0 "" [] 0) (srv_namespace s) Hs) as [_ ->].
    intros [= <- <-]. by apply tame_same.
  - by apply splitPath_no_panic in Hs.
Qed.

Lemma admin_step_tame s s' : srv_inv s → admin_step s s' → tame s s'.
Proof.
  intros Hinv. destruct 1 as
    [ord req r s s' Hrun|now ord req r s s' Hord Hrun|now req r s s' Hrun|req r s s' Hrun
    |now ord s Hord|now ord s|cid nid s Hreg|cid nid s].
  - by eapply DeleteFile_tame.
  - unfold MetaServer.Server.RegisterNode, ChunkManager.RegisterNode in Hrun.
    destruct (List.find _ _) as [[k n]|]; injection Hrun as <- <-; by apply tame_same.
  - unfold MetaServer.Server.Heartbeat, UpdateHeartbeat in Hrun.
    destruct (cm_nodes _ !! _); injection Hrun as <- <-; by apply tame_same.
  - unfold MetaServer.Server.ReportHealth in Hrun. destruct (ReportHealthRequest_Metrics req) as [m|].
    + destruct (GetNode _ _); injection Hrun as <- <-; by apply tame_same.
    + injection Hrun as <- <-. by apply tame_same.
  - apply tame_same; [done|]. simpl. by destruct (CheckDeadNodes_state now ord _ Hord) as (_ & ? & _).
  - unfold MetaServer.Server.predictionLoop.
    pose proof (prediction_fold_chunks (PredictAll now ord (srv_monitor s)) [] (srv_chunkMgr s)) as Hp.
    destruct (foldl _ _ _) as [sp cm]. by apply tame_same.
  - split; [done|]. intros id m'. cbn [srv_chunkMgr set_chunkMgr]. rewrite AddChunkToNode_chunk.
    case_decide as Hid; [|eauto]. intros (m & Hm & ->)%fmap_Some. exists m. split; [done|].
    by case_decide.
  - split; [done|]. intros id m'. cbn [srv_chunkMgr set_chunkMgr]. rewrite RemoveChunkFromNode_chunk.
    case_decide as Hid; [|eauto]. intros (m & Hm & ->)%fmap_Some. by exists m.
Qed.

Lemma admin_step_inv s s' : srv_inv s → admin_step s s' → srv_inv s'.
Proof.
  intros Hinv. destruct 1 as
    [ord req r s s' Hrun|now ord req r s s' Hord Hrun|now req r s s' Hrun|req r s s' Hrun
    |now ord s Hord|now ord s|cid nid s Hreg|cid nid s].
  1-6: eapply srv_step_inv; [exact Hinv|]; by econstructor.
  - destruct Hinv as [? ? ?]. split; [done| |done]. by apply AddChunkToNode_inv.
  - destruct Hinv as [? ? ?]. split; [done| |done]. by apply RemoveChunkFromNode_inv.
Qed.

(** *** A new file *)
Lemma file_ids_lookup path n i :
  file_ids path n !! i = if decide (i < n)%nat then Some (GenerateChunkID path (Z.of_nat i)) else None.
Proof.
  unfold file_ids. rewrite list_lookup_fmap. case_decide.
  - by rewrite lookup_seq_lt.
  - by rewrite lookup_seq_ge by lia.
Qed.

Lemma file_ids_length path n : length (file_ids path n) = n.
Proof. unfold file_ids. by rewrite length_fmap, length_seq. Qed.

Lemma new_chunks_lookup path chunks id i data :
  NoDup (file_ids path (length chunks)) →
  new_chunks path chunks !! id = Some (i, data) ↔
  file_ids path (length chunks) !! i = Some id ∧ chunks !! i = Some data.
Proof.
  intros Hnd. unfold new_chunks. rewrite <- elem_of_list_to_map.
  2:{ rewrite fst_zip; [done|]. by rewrite file_ids_length, length_imap. }
  rewrite list_elem_of_lookup. setoid_rewrite zip_lookup. setoid_rewrite list_lookup_imap. split.
  - intros (j & Hid & Hj). apply fmap_Some in Hj as (d & Hd & [= -> ->]). done.
  - intros [Hid Hd]. exists i. by rewrite Hd.
Qed.

Lemma new_chunks_None path chunks id :
  id ∉ file_ids path (length chunks) → new_chunks path chunks !! id = None.
Proof.
  intros Hid. apply not_elem_of_list_to_map_1. rewrite fst_zip; [done|].
  by rewrite file_ids_length, length_imap.
Qed.

(** Recording a put keeps what was recorded. *)
Lemma record_put_old path chunks g id ib :
  (∀ id, id ∈ file_ids path (length chunks) → gh_chunks g !! id = None) →
  gh_chunks g !! id = Some ib → gh_chunks (record_put path chunks g) !! id = Some ib.
Proof.
  intros Hfresh Hid. unfold record_put. simpl. rewrite lookup_union_r; [done|].
  apply new_chunks_None. intros Hin. by rewrite (Hfresh id Hin) in Hid.
Qed.

Lemma record_put_inv path chunks g id i data :
  NoDup (file_ids path (length chunks)) →
  gh_chunks (record_put path chunks g) !! id = Some (i, data) →
  (file_ids path (length chunks) !! i = Some id ∧ chunks !! i = Some data) ∨
  ((id ∉ file_ids path (length chunks)) ∧ gh_chunks g !! id = Some (i, data)).
Proof.
  intros Hnd. unfold record_put. simpl. rewrite lookup_union_Some_raw.
  intros [Hn|[Hn Hg]]; [left; by apply new_chunks_lookup|right].
  split; [|done]. intros [j Hj]%list_elem_of_lookup.
  assert (is_Some (chunks !! j)) as [d Hd].
  { apply lookup_lt_is_Some_2. apply lookup_lt_Some in Hj. by rewrite file_ids_length in Hj. }
  assert (new_chunks path chunks !! id = Some (j, d)) as Hs by (by apply new_chunks_lookup).
  congruence.
Qed.

Lemma file_recorded_new path chunks g :
  NoDup (file_ids path (length chunks)) → Z.of_nat (length chunks) < 2 ^ 31 →
  file_recorded (record_put path chunks g) (put_key path) (file_ids path (length chunks)).
Proof.
  intros Hnd Hlen. exists chunks. split; [apply lookup_insert_eq|]. split; [done|].
  apply Forall2_same_length_lookup_2; [by rewrite file_ids_length, length_imap|].
  intros i id ib Hid. rewrite list_lookup_imap. intros (d & Hd & ->)%fmap_Some.
  simpl. apply lookup_union_Some_l. by apply new_chunks_lookup.
Qed.

Lemma file_recorded_old path chunks g key ids :
  (∀ id, id ∈ file_ids path (length chunks) → gh_chunks g !! id = None) →
  key ≠ put_key path → file_recorded g key ids → file_recorded (record_put path chunks g) key ids.
Proof.
  intros Hfresh Hne (cs & Hf & Hlen & Hall). exists cs.
  split; [simpl; by rewrite lookup_insert_ne|]. split; [done|].
  eapply Forall2_impl; [exact Hall|]. intros id ib. by apply record_put_old.
Qed.

(** The records of a successful allocation for a fresh file. *)
Lemma alloc_index now ord path size (chunks : list bytes) cm ps cm' :
  cm_inv cm → map_order (cm_nodes cm) ord → NoDup (file_ids path (length chunks)) →
  AllocateChunks now ord path (Z.of_nat (length chunks)) size cm = (Ok ps, cm') →
  cp_ChunkID <$> ps = file_ids path (length chunks) ∧
  (∀ i id m, file_ids path (length chunks) !! i = Some id → cm_chunks cm' !! id = Some m →
     ck_ChunkIndex m = Z.of_nat i) ∧
  (∀ id, id ∉ file_ids path (length chunks) → cm_chunks cm' !! id = cm_chunks cm !! id).
Proof.
  intros Hcm Hord Hnd Ha.
  destruct (AllocateChunks_placed _ _ _ _ _ _ _ _ Hcm Hord Ha) as [Hlen Hps]. apply Nat2Z.inj in Hlen.
  assert (cp_ChunkID <$> ps = file_ids path (length chunks)) as Hids.
  { apply list_eq. intros i. rewrite list_lookup_fmap, file_ids_lookup.
    destruct (ps !! i) as [p|] eqn:Hp.
    - apply lookup_lt_Some in Hp as Hlt. rewrite decide_True by lia. simpl.
      by destruct (Hps i p Hp) as [-> _].
    - apply lookup_ge_None in Hp. by rewrite decide_False by lia. }
  split; [done|]. rewrite <- Hids in Hnd |- *.
  destruct (AllocateChunks_stored _ _ _ _ _ _ _ _ Hcm Hord Ha Hnd) as (Htab & Hother & _).
  split; [|done]. intros i id m Hid Hm.
  rewrite list_lookup_fmap in Hid. apply fmap_Some in Hid as (p & Hp & ->).
  rewrite (Htab p) in Hm by (by eapply list_elem_of_lookup_2). injection Hm as <-. simpl.
  by destruct (Hps i p Hp) as (_ & -> & _).
Qed.

Lemma CreateFile_Err_same path meta ns e ns' :
  wf ns → CreateFile path meta ns = (Err e, ns') → ns' = ns.
Proof.
  intros Hwf Hc. destruct (splitPath path) as [[dir name]|e'|w] eqn:Hs.
  - pose proof (CreateFile_post _ _ _ _ meta Hwf Hs) as Hp. rewrite Hc in Hp. by destruct Hp.
  - destruct (splitPath_Err_ops _ e' meta ns Hs) as [H' _]. rewrite H' in Hc. by injection Hc as _ <-.
  - by apply splitPath_no_panic in Hs.
Qed.

(** A put that fails leaves records of identifiers nobody has. *)
Lemma put_rejected_inv s' path n c g :
  sys_inv c g → srv_inv s' → srv_namespace s' = srv_namespace (cl_meta c) →
  (∀ id, id ∈ file_ids path n → gh_chunks g !! id = None) →
  (∀ id, id ∉ file_ids path n →
     cm_chunks (srv_chunkMgr s') !! id = cm_chunks (srv_chunkMgr (cl_meta c)) !! id) →
  sys_inv (mkCluster s' (cl_nodes c)) g.
Proof.
  intros [_ Htab Hidx Hfiles Hids] Hs' Hns Hfresh Hother. split; [done|done| | |done]; cbn [cl_meta].
  - intros id m i d Hm Hi. rewrite Hother in Hm; [by eapply Hidx|].
    intros Hin. by rewrite (Hfresh id Hin) in Hi.
  - rewrite Hns. exact Hfiles.
Qed.

Lemma put_recorded_inv s' dir name path (chunks : list bytes) meta c g :
  sys_inv c g → srv_inv s' → splitPath path = Ok (dir, name) →
  Z.of_nat (length chunks) < 2 ^ 31 → NoDup (file_ids path (length chunks)) →
  (∀ id, id ∈ file_ids path (length chunks) → gh_chunks g !! id = None) →
  (∀ p, view (srv_namespace s') p = tree_put (view (srv_namespace (cl_meta c))) (cleanPath dir) name meta p) →
  fm_ChunkIDs meta = file_ids path (length chunks) →
  (∀ i id m, file_ids path (length chunks) !! i = Some id →
     cm_chunks (srv_chunkMgr s') !! id = Some m → ck_ChunkIndex m = Z.of_nat i) →
  (∀ id, id ∉ file_ids path (length chunks) →
     cm_chunks (srv_chunkMgr s') !! id = cm_chunks (srv_chunkMgr (cl_meta c)) !! id) →
  sys_inv (mkCluster s' (cl_nodes c)) (record_put path chunks g).
Proof.
  intros [_ Htab Hidx Hfiles Hids] Hs' Hs Hsmall Hnd Hfresh Hview Hmeta Hnew Hother.
  split; [done| | | |]; cbn [cl_meta cl_nodes].
  - intros addr n id ch Hn Hch. destruct (Htab addr n id ch Hn Hch) as (i & d & Hi & Hd).
    exists i, d. split; [by apply record_put_old|done].
  - intros id m i d Hm [[Hid _]|[Hid Hi]]%record_put_inv; [by eapply Hnew| |done].
    rewrite Hother in Hm by done. by eapply Hidx.
  - intros key m. rewrite Hview. unfold tree_put, tree_mkdirs.
    assert (put_key path = cleanPath dir ++ [name]) as Hkey by (unfold put_key; by rewrite Hs).
    case_decide as Hk.
    + intros [= <-]. rewrite Hmeta, Hk, <- Hkey. by apply file_recorded_new.
    + case_decide; [done|]. intros Hv. apply file_recorded_old; [done|by rewrite Hkey|by apply Hfiles].
  - intros id [[i d] [[Hid _]|[_ Hi]]%record_put_inv]; [|by apply Hids; eauto|done].
    unfold file_ids in Hid. rewrite list_lookup_fmap in Hid. apply fmap_Some in Hid as (j & _ & ->).
    rewrite GenerateChunkID_length. lia.
Qed.

Lemma put_step_inv now ord path size sum chunks resp s' c g :
  sys_inv c g → map_order (cm_nodes (srv_chunkMgr (cl_meta c))) ord →
  Z.of_nat (length chunks) < 2 ^ 31 → NoDup (file_ids path (length chunks)) →
  (∀ id, id ∈ file_ids path (length chunks) → gh_chunks g !! id = None) →
  MetaServer.Server.PutFile now ord
    (mkPutFileRequest path size (Z.of_nat (length chunks)) sum) (cl_meta c) = (Ok resp, s') →
  sys_inv (mkCluster s' (cl_nodes c))
    (if PutFileResponse_Success resp then record_put path chunks g else g).
Proof.
  intros HI Hord Hsmall Hnd Hfresh Hput. pose proof (si_meta _ _ HI) as Hsrv.
  assert (srv_inv s') as Hsrv' by (by eapply srv_step_inv; [|by eapply srv_PutFile]).
  destruct Hsrv as [Hns Hcm _]. unfold MetaServer.Server.PutFile in Hput.
  cbn [PutFileRequest_Path PutFileRequest_ChunkCount PutFileRequest_FileSize PutFileRequest_Checksum]
    in Hput.
  destruct (AllocateChunks _ _ _ _ _ _) as [[ps|e|w] cm'] eqn:Ha; [| |done].
  2:{ assert (cm' = srv_chunkMgr (cl_meta c)) as ->.
      { unfold AllocateChunks in Ha. case_decide; [by injection Ha as _ <-|].
        destruct (_ <? 0); [done|]. by destruct (allocate_loop _ _ _ _ _ _ _). }
      injection Hput as <- <-. by eapply put_rejected_inv. }
  destruct (alloc_index _ _ _ _ _ _ _ _ Hcm Hord Hnd Ha) as (Hpids & Hnew & Hother).
  cbn [set_chunkMgr srv_namespace] in Hput.
  destruct (CreateFile _ _ _) as [[[]|e|w] ns'] eqn:Hc; [| |done];
    injection Hput as <- <-; cbn [PutFileResponse_Success].
  - destruct (splitPath path) as [[dir name]|e'|w] eqn:Hs.
    + pose proof (CreateFile_post _ _ _ _ (mkFileMeta path size (Z.of_nat (length chunks))
        DefaultReplicationFactor sum (cp_ChunkID <$> ps) now) Hns Hs) as Hpost.
      rewrite Hc in Hpost. destruct Hpost as (_ & Hview & _). by eapply put_recorded_inv.
    + by rewrite (proj1 (splitPath_Err_ops _ e' _ _ Hs)) in Hc.
    + by apply splitPath_no_panic in Hs.
  - apply CreateFile_Err_same in Hc; [|done]. by eapply put_rejected_inv.
Qed.

(** *** Chunks on the nodes *)

(** A node's table holds recorded content only. *)
Definition table_ok (g : Ghost) (d : disk_state) : Prop :=
  ∀ id ch, cs_chunks d.1 !! id = Some ch →
    ∃ i data, gh_chunks g !! id = Some (i, data) ∧ sc_Checksum ch = DataChecksum data.

Definition tables_ok (c : Cluster) (g : Ghost) : Prop :=
  map_Forall (λ _ n, table_ok g (dsv_disk n)) (cl_nodes c).

Lemma sys_inv_nodes c c' g :
  sys_inv c g → cl_meta c' = cl_meta c → tables_ok c' g → sys_inv c' g.
Proof. intros [Hm _ Hi Hf Hd] He Ht. split; rewrite ?He; try done. intros a n id ch Hn. by apply (Ht a). Qed.

Lemma sys_inv_tables c g : sys_inv c g → tables_ok c g.
Proof. intros [_ Ht _ _ _] a n Hn id ch. by apply (Ht a). Qed.

Lemma tables_set_disk c g addr n d' :
  tables_ok c g → table_ok g d' →
  tables_ok (mkCluster (cl_meta c) (<[addr := set_disk d' n]> (cl_nodes c))) g.
Proof. intros Hc Hd. by apply map_Forall_insert_2. Qed.

(** Storing content with the checksum of a recorded chunk. *)
Lemma store_table g plan id i bs data sum d r d' :
  table_ok g d → gh_chunks g !! id = Some (i, data) → DataChecksum bs = DataChecksum data →
  ChunkStore.StoreChunk plan id bs sum d = (r, d') → table_ok g d'.
Proof.
  intros Hd Hg Hsum. destruct d as [cs fs]. rewrite StoreChunk_cases. case_decide; [by intros [= <- <-]|].
  destruct plan as [|e|k e]; intros [= <- <-]; [|done..].
  intros id' ch. simpl. intros [[<- <-]|[_ Hch]]%lookup_insert_Some; [by eexists i, data|].
  by apply (Hd id').
Qed.

Lemma cluster_store_tables env addr id i bs data sum c r c' g :
  tables_ok c g → gh_chunks g !! id = Some (i, data) → DataChecksum bs = DataChecksum data →
  cluster_StoreChunk env addr (mkStoreChunkRequest id bs sum) c = (r, c') →
  cl_meta c' = cl_meta c ∧ tables_ok c' g.
Proof.
  intros Hc Hg Hsum. unfold cluster_StoreChunk. destruct (env_store _ _ _); [by intros [= <- <-]|].
  destruct (cl_nodes c !! addr) as [n|] eqn:Hn; [|by intros [= <- <-]].
  unfold DataNode.Server.StoreChunk.
  cbn [StoreChunkRequest_ChunkId StoreChunkRequest_Data StoreChunkRequest_Checksum].
  destruct (ChunkStore.StoreChunk _ _ _ _ _) as [r1 d'] eqn:Hs.
  apply (store_table g _ _ i _ data) in Hs; [|by apply (Hc addr)|done|done].
  destruct r1; intros [= <- <-]; (split; [done|]); by apply tables_set_disk.
Qed.

Lemma cluster_transfer_tables env addr req c r c' g :
  tables_ok c g → cluster_TransferChunk env addr req c = (r, c') →
  cl_meta c' = cl_meta c ∧ tables_ok c' g.
Proof.
  intros Hc. unfold cluster_TransferChunk. destruct (env_transfer _ _ _); [by intros [= <- <-]|].
  destruct (cl_nodes c !! addr) as [n|] eqn:Hn; [|by intros [= <- <-]].
  unfold DataNode.Server.TransferChunk. destruct (dsv_disk n) as [cs fs] eqn:Hd.
  pose proof (GetChunk_checked (env_read env addr (TransferChunkRequest_ChunkId req))
    (TransferChunkRequest_ChunkId req) cs fs) as Hg.
  destruct (ChunkStore.GetChunk _ _ _) as [[bs sum]|e|p]; [|by intros [= <- <-]..].
  destruct Hg as (ch & Hch & _ & -> & Hsum).
  pose proof (Hc addr n Hn) as Ht. simpl in Ht. rewrite Hd in Ht.
  destruct (Ht _ _ Hch) as (i & data & Hi & Hdata).
  destruct (cluster_dial _ _ _); [|by intros [= <- <-]..].
  destruct (cluster_StoreChunk _ _ _ _) as [r1 c1] eqn:Hs.
  apply (cluster_store_tables _ _ _ i _ data _ _ _ _ g) in Hs; [|done|done|congruence].
  destruct r1 as [resp|e|p]; [destruct (StoreChunkResponse_Success resp)|..]; by intros [= <- <-].
Qed.

Lemma delete_table g fault id d r d' :
  table_ok g d → ChunkStore.DeleteChunk fault id d = (r, d') → table_ok g d'.
Proof.
  intros Hd. destruct d as [cs fs]. unfold ChunkStore.DeleteChunk.
  destruct (cs_chunks cs !! id) as [m|]; [|by intros [= _ <-]].
  assert (∀ used fs', table_ok g (mkChunkStore (cs_dataDir cs) (delete id (cs_chunks cs)) used, fs'))
    as Hdel.
  { intros used fs' id' ch. simpl. intros [_ Hch]%lookup_delete_Some. by apply (Hd id'). }
  destruct (Remove fs _ fault) as [[[[]|e|p] ne] fs']; [by intros [= _ <-]| |by intros [= _ <-]].
  destruct ne; by intros [= _ <-].
Qed.

(** *** Every step keeps the invariant *)
Lemma admin_sys_inv s' c g :
  sys_inv c g → admin_step (cl_meta c) s' → sys_inv (mkCluster s' (cl_nodes c)) g.
Proof.
  intros [Hm Ht Hi Hf Hd] Hs. destruct (admin_step_tame _ _ Hm Hs) as [Hfile Hchunk].
  split; cbn [cl_meta cl_nodes]; [by eapply admin_step_inv|done| | |done].
  - intros id m i data Hid Hg. destruct (Hchunk id m Hid) as (m0 & Hm0 & ->). by eapply Hi.
  - intros key meta Hv. by apply Hf, Hfile.
Qed.

Lemma cluster_step_inv x y : cluster_step x y → sys_inv x.1 x.2 → sys_inv y.1 y.2.
Proof.
  destruct 1 as
    [now ord path size sum chunks resp s' c g Hord Hsmall Hnd Hfresh Hput
    |s' c g Hs|env addr id i data r c c' g Hg Hs|env addr req r c c' g Hs
    |fault addr req n r d' c g Hn Hs|addr n fs c g Hn|addr n c g Hempty|addr c g];
    cbn [fst snd]; intros HI; pose proof (sys_inv_tables _ _ HI) as Ht.
  - by eapply put_step_inv.
  - by apply admin_sys_inv.
  - apply (cluster_store_tables _ _ _ i _ data _ _ _ _ g) in Hs as [He Ht']; [|done..].
    by eapply sys_inv_nodes.
  - apply (cluster_transfer_tables _ _ _ _ _ _ g) in Hs as [He Ht']; [|done].
    by eapply sys_inv_nodes.
  - apply (sys_inv_nodes c); [done..|]. apply tables_set_disk; [done|].
    unfold DataNode.Server.DeleteChunk in Hs.
    destruct (ChunkStore.DeleteChunk _ _ _) as [r1 d1] eqn:Hd.
    apply (delete_table g) in Hd; [|by apply (Ht addr)]. by destruct r1; injection Hs as _ <-.
  - apply (sys_inv_nodes c); [done..|]. apply tables_set_disk; [done|]. by apply (Ht addr).
  - apply (sys_inv_nodes c); [done..|]. apply map_Forall_insert_2; [|done].
    intros id ch. by rewrite Hempty, lookup_empty.
  - apply (sys_inv_nodes c); [done..|]. by apply map_Forall_delete.
Qed.

(** *** Reading *)
Lemma cluster_steps_inv x y : rtc cluster_step x y → sys_inv x.1 x.2 → sys_inv y.1 y.2.
Proof. induction 1 as [|x y z Hs _ IH]; [done|]. intros HI. by apply IH, (cluster_step_inv x). Qed.

(** What was recorded for an identifier stays. *)
Lemma cluster_steps_ghost x y : rtc cluster_step x y → gh_chunks x.2 ⊆ gh_chunks y.2.
Proof.
  induction 1 as [|x y z Hs _ IH]; [done|]. transitivity (gh_chunks y.2); [|done].
  destruct Hs; try done. cbn [snd]. destruct (PutFileResponse_Success resp); [|done].
  apply map_subseteq_spec. intros id ib. by apply record_put_old.
Qed.

Lemma GetChunkLocations_records ids cm : ∀ locs,
  cm_inv cm → GetChunkLocations ids cm = Ok locs →
  Forall2 (λ id loc, cl_ChunkID loc = id ∧
    ∃ m, cm_chunks cm !! id = Some m ∧ cl_ChunkIndex loc = ck_ChunkIndex m) ids locs.
Proof.
  intros locs Hinv. revert locs. induction ids as [|cid ids IH]; intros locs; cbn [GetChunkLocations].
  { intros [= <-]. constructor. }
  destruct (cm_chunks cm !! cid) as [m|] eqn:Hm; [|done]. case_decide; [done|].
  intros (ls & Hls & [= <-])%go_bind_ok. constructor; [|by apply IH].
  split; [|by exists m]. by apply (inv_chunk _ Hinv).
Qed.

Lemma imap_pair_sorted {A} (l : list A) k :
  StronglySorted (λ x y : nat * A, (x.1 < y.1)%nat) (imap (λ i, pair (k + i)%nat) l).
Proof.
  revert k. induction l as [|a l IH]; intros k; [constructor|]. rewrite imap_cons.
  assert (imap ((λ i, pair (k + i)%nat) ∘ S) l = imap (λ i, pair (S k + i)%nat) l) as ->.
  { apply imap_ext. intros i x _. simpl. f_equal. lia. }
  constructor; [apply IH|]. apply Forall_lookup. intros i x. rewrite list_lookup_imap.
  intros (y & _ & ->)%fmap_Some. simpl. lia.
Qed.

(** Locations that carry the index recorded for their identifier come in order. *)
Lemma Forall2_sorted {A B} (R : A → B → Prop) (P : A → A → Prop) (Q : B → B → Prop) l k :
  (∀ a b a' b', R a b → R a' b' → P a a' → Q b b') →
  Forall2 R l k → StronglySorted P l → StronglySorted Q k.
Proof.
  intros HPQ Hall. induction Hall as [|a b l k Hab Hall IH]; [constructor|].
  intros [Hs Ha]%StronglySorted_inv. constructor; [by apply IH|].
  clear IH Hs. induction Hall as [|a' b' l k Hab' Hall IH]; [constructor|].
  apply Forall_cons in Ha as [Ha Hl]. constructor; [by eapply HPQ|by apply IH].
Qed.

(** The locations the server answers with, against the recorded file. *)
Lemma GetFile_locations c g path resp :
  sys_inv c g → MetaServer.Server.GetFile (mkGetFileRequest path) (cl_meta c) = Ok resp →
  GetFileResponse_Success resp = true →
  ∃ chunks, gh_files g !! cleanPath path = Some (mjoin chunks) ∧
    Forall2 (λ ib l, gh_chunks g !! ChunkLocation_ChunkId l = Some ib ∧
                     ChunkLocation_ChunkIndex l = Z.of_nat ib.1)
      (imap pair chunks) (GetFileResponse_ChunkLocations resp).
Proof.
  intros [[Hns Hcm _] _ Hidx Hfiles _]. unfold MetaServer.Server.GetFile.
  cbn [GetFileRequest_Path]. rewrite GetFile_view by done.
  destruct (view _ _) as [[|meta]|] eqn:Hv; [by intros [= <-]| |by intros [= <-]].
  destruct (GetChunkLocations _ _) as [locs|e|w] eqn:Hl; [|by intros [= <-]|done].
  intros (infos & _ & [= <-])%go_bind_ok _. cbn [GetFileResponse_ChunkLocations].
  destruct (Hfiles _ _ Hv) as (chunks & Hf & Hlen & Hall). exists chunks. split; [done|].
  apply GetChunkLocations_records in Hl; [|done]. apply Forall2_fmap_r.
  apply Forall2_same_length_lookup_2.
  { by rewrite <- (Forall2_length _ _ _ Hall), (Forall2_length _ _ _ Hl). }
  intros i ib loc Hib Hloc.
  destruct (Forall2_lookup_r _ _ _ _ _ Hall Hib) as (id & Hid & Hg).
  destruct (Forall2_lookup_l _ _ _ _ _ Hl Hid) as (loc' & Hloc' & <- & m & Hm & Hi).
  simplify_eq. unfold pb_location. cbn [ChunkLocation_ChunkId ChunkLocation_ChunkIndex].
  split; [done|]. destruct ib as [j data].
  rewrite Hi, (Hidx _ m j data Hm Hg). simpl.
  rewrite list_lookup_imap in Hib. apply fmap_Some in Hib as (d & Hd & [= -> ->]).
  apply lookup_lt_Some in Hd. rewrite int32_id; [done|]. unfold in_int32. lia.
Qed.

(** What any node hands out for a recorded identifier has the recorded checksum. *)
Lemma fetch_recorded env id i data addrs bs c g :
  tables_ok c g → gh_chunks g !! id = Some (i, data) →
  fetchChunkFromNodes (cluster_dial env) (cluster_GetChunk env) id addrs c = Ok bs →
  DataChecksum bs = DataChecksum data.
Proof.
  intros Ht Hg (pre & addr & post & _ & _ & Hf)%fetch_loop_Ok.
  apply fetchChunkFromNode_Ok in Hf as (resp & Hcall & Hsucc & Hdata & _). revert Hcall.
  unfold cluster_GetChunk. destruct (env_get _ _ _); [done|].
  destruct (cl_nodes c !! addr) as [n|] eqn:Hn; [|done].
  unfold DataNode.Server.GetChunk. cbn [GetChunkRequest_ChunkId].
  pose proof (Ht addr n Hn) as Hn'. simpl in Hn'. destruct (dsv_disk n) as [cs fs].
  pose proof (GetChunk_checked (env_read env addr id) id cs fs) as Hget.
  destruct (ChunkStore.GetChunk _ _ _) as [[bs' sum]|e|p]; [|by intros [= <-]|done].
  intros [= <-]. simpl in Hdata, Hsucc. subst bs'. destruct Hget as (ch & Hch & _ & _ & ->).
  destruct (Hn' id ch Hch) as (i' & data' & Hg' & ->). by simplify_eq.
Qed.

(** The state of a fresh metadata server without data nodes. *)
Definition empty_system (port adminPort : Z) : Sys :=
  (mkCluster (MetaServer.Server.NewServer port adminPort) ∅, mkGhost ∅ ∅).

Lemma empty_system_inv port adminPort :
  sys_inv (empty_system port adminPort).1 (empty_system port adminPort).2.
Proof.
  split; cbn [empty_system fst snd cl_meta cl_nodes gh_chunks].
  - apply srv_inv_new.
  - intros a n id ch. by rewrite lookup_empty.
  - intros id m i data. by rewrite !lookup_empty.
  - intros [|k key] meta; [by intros [= ?]|]. cbn [srv_namespace]. by rewrite NewNamespace_view.
  - intros id [x Hx]. by rewrite lookup_empty in Hx.
Qed.

(** Recorded locations come in index order, with identifiers long enough to print. *)
Lemma locations_sorted g chunks locations :
  Forall2 (λ ib l, gh_chunks g !! ChunkLocation_ChunkId l = Some ib ∧
                   ChunkLocation_ChunkIndex l = Z.of_nat ib.1) (imap pair chunks) locations →
  StronglySorted (λ a b, ChunkLocation_ChunkIndex a < ChunkLocation_ChunkIndex b) locations.
Proof.
  intros Hlocs. eapply (Forall2_sorted _ (λ x y : nat * bytes, (x.1 < y.1)%nat)); [|exact Hlocs|].
  - intros x l x' l' [_ ->] [_ ->] Hx. lia.
  - apply (imap_pair_sorted chunks 0).
Qed.

Lemma locations_long c g (ibs : list (nat * bytes)) locations :
  sys_inv c g →
  Forall2 (λ ib l, gh_chunks g !! ChunkLocation_ChunkId l = Some ib ∧
                   ChunkLocation_ChunkIndex l = Z.of_nat ib.1) ibs locations →
  Forall (λ l, 12 ≤ String.length (ChunkLocation_ChunkId l))%nat locations.
Proof.
  intros HI Hlocs. apply Forall_lookup. intros i l Hl.
  destruct (Forall2_lookup_r _ _ _ _ _ Hlocs Hl) as (x & _ & Hx & _). apply (si_ids _ _ HI). eauto.
Qed.

(** A location answer of one state and a download in another, later one. *)
Lemma download_recorded c g path resp env completed c2 g2 data :
  sys_inv c g → sys_inv c2 g2 → gh_chunks g ⊆ gh_chunks g2 →
  MetaServer.Server.GetFile (mkGetFileRequest path) (cl_meta c) = Ok resp →
  GetFileResponse_Success resp = true → completed ≡ₚ GetFileResponse_ChunkLocations resp →
  downloadChunks (cluster_dial env) (cluster_GetChunk env) completed c2 = Ok data →
  ∃ put got, gh_files g !! cleanPath path = Some (mjoin put) ∧ data = mjoin got ∧
    Forall2 (λ a b, DataChecksum a = DataChecksum b) put got.
Proof.
  intros HI HI2 Hsub Hget Hsucc Hperm Hdown.
  destruct (GetFile_locations c g path resp HI Hget Hsucc) as (put & Hput & Hlocs). exists put.
  apply (downloadChunks_fetches _ _ _ (GetFileResponse_ChunkLocations resp)) in Hdown
    as (got & -> & Hgot); [|done| |].
  - exists got. split; [done|]. split; [done|].
    apply Forall2_same_length_lookup_2.
    { by rewrite <- (Forall2_length _ _ _ Hgot), <- (Forall2_length _ _ _ Hlocs), length_imap. }
    intros i a b Ha Hb. destruct (Forall2_lookup_r _ _ _ _ _ Hgot Hb) as (l & Hl & Hf).
    destruct (Forall2_lookup_r _ _ _ _ _ Hlocs Hl) as ([j a'] & Hia & Hrec & _).
    rewrite list_lookup_imap, Ha in Hia. injection Hia as <- <-.
    symmetry. eapply (fetch_recorded env _ i a); [by apply sys_inv_tables| |exact Hf].
    by eapply lookup_weaken.
  - exact (locations_sorted _ _ _ Hlocs).
  - exact (locations_long _ _ _ _ HI Hlocs).
Qed.

(** C3: A get never returns anything but what was put: take any reachable state of the
    cluster (requests of clients and nodes interleaved in any way, ticks,
    migrations, failing calls and disks, files changing behind the nodes' backs,
    nodes joining and leaving), a location answer the server gives there for a
    path, and a download that runs in any later state.  If the download succeeds
    then the path had been put, and the data returned is made of as many chunks as
    the put's content, each with the SHA-256 checksum of the chunk put at that
    position.  The steps ask that the chunk identifiers of a put are new. *)
Theorem get_returns_what_was_put port adminPort c g path resp env completed c2 g2 data :
  rtc cluster_step (empty_system port adminPort) (c, g) →
  MetaServer.Server.GetFile (mkGetFileRequest path) (cl_meta c) = Ok resp →
  GetFileResponse_Success resp = true →
  rtc cluster_step (c, g) (c2, g2) →
  completed ≡ₚ GetFileResponse_ChunkLocations resp →
  downloadChunks (cluster_dial env) (cluster_GetChunk env) completed c2 = Ok data →
  ∃ put got, gh_files g !! cleanPath path = Some (mjoin put) ∧ data = mjoin got ∧
    Forall2 (λ a b, DataChecksum a = DataChecksum b) put got.
Proof.
  intros Hreach Hget Hsucc Hlater Hperm Hdown.
  pose proof (cluster_steps_inv _ _ Hreach (empty_system_inv _ _)) as HI.
  eapply download_recorded; [exact HI| | |done..].
  - exact (cluster_steps_inv _ _ Hlater HI).
  - exact (cluster_steps_ghost _ _ Hlater).
Qed.
End system.

(** ** A concrete run

    A node joins and registers, a file of two chunks is put and uploaded, one chunk
    is copied to a second node, and the download runs with the location answer from
    before the copy. *)
Section witnesses.
Definition run_chunks : list bytes := [bytes_of_string "hello "; bytes_of_string "world"].
Definition run_id (i : Z) : string := GenerateChunkID "/a/b" i.
Definition run_meta1 : MetaServer :=
  (MetaServer.Server.RegisterNode 0 [] (mkRegisterNodeRequest "a:9000" 1000)
    (MetaServer.Server.NewServer 1 2)).2.
Definition run_put : go PutFileResponse * MetaServer :=
  MetaServer.Server.PutFile 0 ["node-1"] (mkPutFileRequest "/a/b" 11 2 "sum") run_meta1.
Definition run_store (addr : string) (i : Z) (bs : bytes) (c : Cluster) : go StoreChunkResponse * Cluster :=
  cluster_StoreChunk calm addr (mkStoreChunkRequest (run_id i) bs (DataChecksum bs)) c.

Definition run0 : Cluster := mkCluster run_meta1 {["a:9000" := demo_node "a:9000"]}.
Definition run1 : Cluster := mkCluster run_put.2 (cl_nodes run0).
Definition run2 : Cluster := (run_store "a:9000" 0 (bytes_of_string "hello ") run1).2.
Definition run3 : Cluster := (run_store "a:9000" 1 (bytes_of_string "world") run2).2.
Definition run4 : Cluster := mkCluster (cl_meta run3) (<["b:9000" := demo_node "b:9000"]> (cl_nodes run3)).
Definition run5 : Cluster :=
  (cluster_TransferChunk calm "a:9000" (mkTransferChunkRequest (run_id 0) "b:9000") run4).2.
Definition run_ghost : Ghost := record_put "/a/b" run_chunks (mkGhost ∅ ∅).
Definition run_resp : GetFileResponse :=
  match MetaServer.Server.GetFile (mkGetFileRequest "a/b") (cl_meta run3) with
  | Ok r => r
  | _ => mkGetFileResponse false "" None []
  end.

Definition run_put_resp : PutFileResponse :=
  match run_put.1 with Ok r => r | _ => mkPutFileResponse false "" [] end.

Lemma run_put_step :
  cluster_step (run0, mkGhost ∅ ∅) (run1, run_ghost).
Proof.
  refine (cs_put 0 ["node-1"] "/a/b" 11 "sum" run_chunks run_put_resp run_put.2 run0 (mkGhost ∅ ∅) _ _ _ _ _).
  - assert (map_keys (cm_nodes (srv_chunkMgr (cl_meta run0))) = ["node-1"]) as <-
      by (vm_compute; reflexivity). apply map_order_keys.
  - reflexivity.
  - apply (bool_decide_unpack _). vm_compute. exact I.
  - intros id _. apply lookup_empty.
  - vm_compute. reflexivity.
Qed.

Lemma run_before : rtc cluster_step (empty_system 1 2) (run3, run_ghost).
Proof.
  eapply rtc_l.
  { apply (cs_admin run_meta1). eapply (admin_RegisterNode 0 []); [|apply surjective_pairing].
    vm_compute. constructor. }
  eapply rtc_l; [apply (cs_join "a:9000" (demo_node "a:9000")); reflexivity|].
  eapply rtc_l; [exact run_put_step|].
  eapply rtc_l.
  { apply (cs_store calm "a:9000" (run_id 0) 0 (bytes_of_string "hello ")
      (run_store "a:9000" 0 (bytes_of_string "hello ") run1).1); [vm_compute; reflexivity|].
    apply surjective_pairing. }
  eapply rtc_l; [|reflexivity].
  apply (cs_store calm "a:9000" (run_id 1) 1 (bytes_of_string "world")
    (run_store "a:9000" 1 (bytes_of_string "world") run2).1); [vm_compute; reflexivity|].
  apply surjective_pairing.
Qed.

Lemma run_after : rtc cluster_step (run3, run_ghost) (run5, run_ghost).
Proof.
  eapply rtc_l; [apply (cs_join "b:9000" (demo_node "b:9000")); reflexivity|].
  eapply rtc_l; [|reflexivity].
  apply (cs_transfer calm "a:9000" (mkTransferChunkRequest (run_id 0) "b:9000")
    (cluster_TransferChunk calm "a:9000" (mkTransferChunkRequest (run_id 0) "b:9000") run4).1).
  apply surjective_pairing.
Qed.

Lemma get_returns_what_was_put_witness :
  ∃ put got, gh_files run_ghost !! cleanPath "a/b" = Some (mjoin put) ∧
    bytes_of_string "hello world" = mjoin got ∧
    Forall2 (λ a b, DataChecksum a = DataChecksum b) put got.
Proof.
  refine (get_returns_what_was_put 1 2 run3 run_ghost "a/b" run_resp calm
    (rev (GetFileResponse_ChunkLocations run_resp)) run5 run_ghost (bytes_of_string "hello world")
    run_before _ _ run_after _ _).
  - vm_compute. reflexivity.
  - vm_compute. reflexivity.
  - symmetry. apply Permutation_rev.
  - vm_compute. reflexivity.
Defined.
End witnesses.
