(* ===== verification/Failover.v ===== *)
(** * Reading from the replicas that are left

    Data nodes die; a file can be read as long as each of its chunks has one replica
    that answers.  This is what the migrations are for: a node that was evacuated
    can die without any file becoming unreadable. *)
From S2P Require Export ClusterSafety.
Local Open Scope Z_scope.

(** The bytes that were put under an identifier. *)
Definition recorded (g : Ghost) (id : string) : bytes := default [] (snd <$> gh_chunks g !! id).

(** A request for a chunk reaches the node and its file can be read. *)
Definition answers (env : Env) (addr id : string) : Prop :=
  env_dial env addr = Ok tt ∧ env_get env addr (mkGetChunkRequest id) = None ∧
  env_read env addr id = None.

(** Dialing returns an error or a connection. *)
Definition dials (env : Env) : Prop := ∀ addr w, env_dial env addr ≠ Panic w.

(** ** The failover of a read *)
Lemma fetch_replica env addr id data c nodes :
  dials env → nodes ⊆ cl_nodes c → node_holds c addr id data →
  let r := fetchChunkFromNode (cluster_dial env) (cluster_GetChunk env) addr id
             (mkCluster (cl_meta c) nodes) in
  (r = Ok data ∨ ∃ e, r = Err e) ∧ (answers env addr id → is_Some (nodes !! addr) → r = Ok data).
Proof.
  intros Hdial Hsub (n & Hn & Hget). unfold fetchChunkFromNode, cluster_GetChunk, cluster_dial. simpl.
  destruct (nodes !! addr) as [n'|] eqn:Hn'.
  - pose proof (lookup_weaken _ _ _ _ Hn' Hsub) as Hn2. simplify_eq.
    unfold DataNode.Server.GetChunk. cbn [GetChunkRequest_ChunkId]. split.
    + destruct (env_dial env addr) as [[]|e|w] eqn:Hd; [|eauto|by apply Hdial in Hd].
      simpl. destruct (env_get env addr _); [eauto|].
      destruct (ChunkStore.GetChunk (env_read env addr id) id (dsv_disk n)) as [[bs sum]|e|w] eqn:Hg.
      * apply GetChunk_any_fault in Hg. rewrite Hget in Hg. injection Hg as <- <-. simpl.
        rewrite decide_False by naive_solver. by left.
      * simpl. eauto.
      * pose proof (GetChunk_checked (env_read env addr id) id (dsv_disk n).1 (dsv_disk n).2) as Hc.
        rewrite <- surjective_pairing, Hg in Hc. done.
    + intros (-> & -> & ->) _. simpl. rewrite Hget. simpl. by rewrite decide_False by naive_solver.
  - split; [|by intros _ [? [=]]].
    destruct (env_dial env addr) as [[]|e|w] eqn:Hd; [|eauto|by apply Hdial in Hd].
    simpl. destruct (env_get env addr _); eauto.
Qed.

Lemma fetch_survives env id data addrs c nodes :
  dials env → nodes ⊆ cl_nodes c → (∀ a, a ∈ addrs → node_holds c a id data) →
  (∃ a, a ∈ addrs ∧ answers env a id ∧ is_Some (nodes !! a)) →
  fetchChunkFromNodes (cluster_dial env) (cluster_GetChunk env) id addrs
    (mkCluster (cl_meta c) nodes) = Ok data.
Proof.
  intros Hdial Hsub. unfold fetchChunkFromNodes. generalize "%!w(<nil>)" as last.
  induction addrs as [|a addrs IH]; intros last Hall (b & Hb & Hans & Hin);
    [by apply not_elem_of_nil in Hb|]. cbn [fetch_loop].
  destruct (fetch_replica env a id data c nodes Hdial Hsub) as [Hr Hok]; [apply Hall; by left|].
  apply elem_of_cons in Hb as [->|Hb]; [by rewrite Hok|].
  destruct Hr as [->|[e ->]]; [done|]. apply IH; [|eauto]. intros x Hx. apply Hall. by right.
Qed.

(** The addresses of an answer are those of listed replicas. *)
Definition replica_addr (cm : ChunkManager) (id addr : string) : Prop :=
  ∃ ns nid, loc_GetChunkMeta id cm = Some ns ∧ nid ∈ ns ∧ loc_GetNodeAddress nid cm = Some addr.

Lemma GetChunkLocations_replicas cm ids : ∀ locs,
  cm_inv cm → GetChunkLocations ids cm = Ok locs →
  ∀ loc addr, loc ∈ locs → addr ∈ cl_NodeAddresses loc → replica_addr cm (cl_ChunkID loc) addr.
Proof.
  intros locs Hinv. revert locs. induction ids as [|cid ids IH]; intros locs; cbn [GetChunkLocations].
  { by intros [= <-] loc a ?%not_elem_of_nil. }
  destruct (cm_chunks cm !! cid) as [m|] eqn:Hm; [|done]. case_decide; [done|].
  intros (ls & Hls & [= <-])%go_bind_ok loc a [->|Hin]%elem_of_cons; [|by eapply IH].
  cbn [cl_NodeAddresses cl_ChunkID]. rewrite (inv_chunk _ Hinv _ _ Hm).
  intros ([a' nid] & -> & Hl)%list_elem_of_fmap.
  apply list_elem_of_omap in Hl as (nid' & Hnid & Hl).
  destruct (cm_nodes cm !! nid') as [n|] eqn:Hn; [|done]. case_decide; [done|].
  injection Hl as <- ->. exists (ck_NodeIDs m), nid. simpl.
  unfold adapter_GetChunkMeta, GetChunkMeta, adapter_GetNodeAddress, GetNode. by rewrite Hm, Hn.
Qed.

Section system.
Context `{SliceSort} `{!SliceSortSpec}.

(** Every listed replica of a chunk holds the bytes that were put. *)
Definition copies_ok (c : Cluster) (g : Ghost) : Prop :=
  data_inv (recorded g) (srv_chunkMgr (cl_meta c)) c.

Lemma GetFile_replicas s path resp l addr :
  srv_inv s → MetaServer.Server.GetFile (mkGetFileRequest path) s = Ok resp →
  l ∈ GetFileResponse_ChunkLocations resp → addr ∈ ChunkLocation_NodeAddresses l →
  replica_addr (srv_chunkMgr s) (ChunkLocation_ChunkId l) addr.
Proof.
  intros [_ Hcm _]. unfold MetaServer.Server.GetFile.
  destruct (Namespace.GetFile _ _) as [[meta|]|e|w]; [|done| |done].
  2: { intros [= <-] Hin. by apply not_elem_of_nil in Hin. }
  destruct (GetChunkLocations _ _) as [locs|e|w] eqn:Hl; [| |done].
  2: { intros [= <-] Hin. by apply not_elem_of_nil in Hin. }
  intros (infos & _ & [= <-])%go_bind_ok. cbn [GetFileResponse_ChunkLocations].
  intros (loc & -> & Hloc)%list_elem_of_fmap Ha.
  by eapply (GetChunkLocations_replicas _ _ locs Hcm Hl loc).
Qed.

Lemma GetFile_has_info s req resp :
  MetaServer.Server.GetFile req s = Ok resp → GetFileResponse_Success resp = true →
  is_Some (GetFileResponse_FileInfo resp).
Proof.
  unfold MetaServer.Server.GetFile.
  destruct (Namespace.GetFile _ _) as [[meta|]|e|w]; [|done|by intros [= <-]|done].
  destruct (GetChunkLocations _ _) as [locs|e|w]; [|by intros [= <-]|done].
  intros (infos & _ & [= <-])%go_bind_ok _. by eexists.
Qed.

(** A download of recorded chunks that can all be fetched. *)
Lemma recorded_downloads c g chunks locations completed env w :
  sys_inv c g →
  Forall2 (λ ib l, gh_chunks g !! ChunkLocation_ChunkId l = Some ib ∧
                   ChunkLocation_ChunkIndex l = Z.of_nat ib.1) (imap pair chunks) locations →
  completed ≡ₚ locations →
  (∀ i l data, locations !! i = Some l → chunks !! i = Some data →
     fetchChunkFromNodes (cluster_dial env) (cluster_GetChunk env) (ChunkLocation_ChunkId l)
       (ChunkLocation_NodeAddresses l) w = Ok data) →
  downloadChunks (cluster_dial env) (cluster_GetChunk env) completed w = Ok (mjoin chunks).
Proof.
  intros HI Hlocs Hperm Hfetch. apply (downloadChunks_fetches _ _ _ locations); [done| | |].
  - exact (locations_sorted _ _ _ Hlocs).
  - exact (locations_long _ _ _ _ HI Hlocs).
  - exists chunks. split; [done|]. apply Forall2_same_length_lookup_2; [|by apply Hfetch].
    by rewrite <- (Forall2_length _ _ _ Hlocs), length_imap.
Qed.

(** A get while some nodes are gone and others do not answer. *)
Lemma get_survives c g path resp env nodes fs dest complete :
  sys_inv c g → copies_ok c g →
  MetaServer.Server.GetFile (mkGetFileRequest path) (cl_meta c) = Ok resp →
  GetFileResponse_Success resp = true → nodes ⊆ cl_nodes c → dials env →
  (∀ l, l ∈ GetFileResponse_ChunkLocations resp →
     ∃ addr, addr ∈ ChunkLocation_NodeAddresses l ∧
       answers env addr (ChunkLocation_ChunkId l) ∧ is_Some (nodes !! addr)) →
  (∀ l, complete l ≡ₚ l) →
  ∃ content, gh_files g !! cleanPath path = Some content ∧
    cluster_get env fs path dest complete (mkCluster (cl_meta c) nodes)
      = (Ok tt, <[dest := content]> fs).
Proof.
  intros HI [Hserves _] Hget Hsucc Hsub Hdial Hans Hcomplete.
  destruct (GetFile_locations c g path resp HI Hget Hsucc) as (chunks & Hput & Hlocs).
  exists (mjoin chunks). split; [done|].
  unfold cluster_get, Client.GetFile, cluster_GetFile. cbn [cl_meta]. rewrite Hget, Hsucc. cbn [negb].
  destruct (GetFile_has_info _ _ _ Hget Hsucc) as [info ->].
  assert (downloadChunks (cluster_dial env) (cluster_GetChunk env)
    (complete (GetFileResponse_ChunkLocations resp)) (mkCluster (cl_meta c) nodes)
    = Ok (mjoin chunks)) as ->; [|done].
  apply (recorded_downloads c g chunks (GetFileResponse_ChunkLocations resp)); [done..|].
  intros i l data Hl Hdata. apply fetch_survives; [done|done| |].
  - intros a Ha. apply list_elem_of_lookup_2 in Hl as Hin.
    destruct (GetFile_replicas _ _ _ _ _ (si_meta _ _ HI) Hget Hin Ha) as (ns & nid & Hns & Hnid & Haddr).
    replace data with (recorded g (ChunkLocation_ChunkId l)); [by eapply Hserves|].
    destruct (Forall2_lookup_r _ _ _ _ _ Hlocs Hl) as (ib & Hib & Hg & _).
    rewrite list_lookup_imap, Hdata in Hib. injection Hib as <-. unfold recorded. by rewrite Hg.
  - apply Hans. by eapply list_elem_of_lookup_2.
Qed.

(** ** Evacuation *)

(** A chunk with a replica that is not marked dead: what a location answer needs. *)
Definition live_chunk (cm : ChunkManager) (cid : string) : Prop :=
  ∃ m nid n, cm_chunks cm !! cid = Some m ∧ nid ∈ ck_NodeIDs m ∧
    cm_nodes cm !! nid = Some n ∧ dn_Status n ≠ StatusDead.

Lemma live_locations_live cm nids :
  length (live_locations cm nids) ≠ 0%nat ↔
  ∃ nid n, nid ∈ nids ∧ cm_nodes cm !! nid = Some n ∧ dn_Status n ≠ StatusDead.
Proof.
  induction nids as [|nid nids IH]; [split; [done|]; by intros (? & ? & ?%not_elem_of_nil & _)|].
  unfold live_locations in *. cbn [omap list_omap].
  destruct (cm_nodes cm !! nid) as [n|] eqn:Hn; [case_decide as Hd|].
  2: { split; [|done]. intros _. exists nid, n. split; [by left|done]. }
  all: rewrite IH; split; intros (x & nx & Hx & Hnx & Hs).
  1,3: exists x, nx; split; [by right|done].
  all: exists x, nx; split; [|done]; by apply elem_of_cons in Hx as [->|Hx]; [congruence|].
Qed.

Lemma GetChunkLocations_live cm ids :
  (∃ locs, GetChunkLocations ids cm = Ok locs) ↔ Forall (live_chunk cm) ids.
Proof.
  induction ids as [|cid ids IH]; [split; [constructor|by eexists]|]. cbn [GetChunkLocations].
  rewrite Forall_cons, <- IH. unfold live_chunk at 1.
  destruct (cm_chunks cm !! cid) as [m|] eqn:Hm.
  2: { split; [by intros [locs ?]|by intros [(? & ? & ? & ? & _) _]]. }
  pose proof (live_locations_live cm (ck_NodeIDs m)) as Hlive. case_decide as Hz.
  { split; [by intros [locs ?]|]. intros [(m' & nid & n & Hm' & Hin) _]. simplify_eq.
    destruct Hlive as [_ Hlive]. destruct Hlive; [by exists nid, n|done]. }
  split.
  - intros (locs & (ls & Hls & _)%go_bind_ok). split; [|by eexists].
    destruct (proj1 Hlive Hz) as (nid & n & ? & ? & ?). by exists m, nid, n.
  - intros [_ [ls ->]]. by eexists.
Qed.

Lemma transferChunk_tables env src cid tgt c r c' g :
  tables_ok c g →
  transferChunk (cluster_dial env) (cluster_TransferChunk env) src cid tgt c = (r, c') → tables_ok c' g.
Proof.
  intros Ht. unfold transferChunk. destruct (cluster_dial env src c) as [[]|e|w]; [|by intros [= _ <-]..].
  destruct (cluster_TransferChunk _ _ _ _) as [r1 c1] eqn:Hs.
  apply (cluster_transfer_tables _ _ _ _ _ _ g) in Hs as [_ Ht1]; [|done].
  destruct r1 as [resp|e|w]; [destruct (TransferChunkResponse_Success resp)|..]; by intros [= _ <-].
Qed.

(** What one move does to registry and nodes. *)
Lemma migrateChunk_cases env pl cid from src cm c r cm' c' :
  migrateChunk (cluster_dial env) (cluster_TransferChunk env) pl cid from src (cm, c) = (r, (cm', c')) →
  (cm' = cm ∧ c' = c) ∨
  ∃ ns t rt, loc_GetChunkMeta cid cm = Some ns ∧ t ∈ loc_GetHealthyNodeAddresses (pl_ord pl) ns cm ∧
    transferChunk (cluster_dial env) (cluster_TransferChunk env) src cid (nt_Address t) c = (rt, c') ∧
    (cm' = cm ∨ cm' = moved cid from (nt_NodeID t) cm).
Proof.
  unfold migrateChunk. destruct (loc_GetChunkMeta cid cm) as [ns|] eqn:Hm; [|intros [= _ <- <-]; by left].
  destruct (loc_GetHealthyNodeAddresses _ _ _) as [|t ts] eqn:Ht; [intros [= _ <- <-]; by left|].
  destruct (transferChunk _ _ _ _ _ _) as [rt c1] eqn:Htr. intros Hr. right. exists ns, t, rt.
  rewrite Ht. split; [done|]. split; [by left|].
  destruct rt as [[]|e|w]; injection Hr as _ <- <-; (split; [done|]); by (right + left).
Qed.

(** Moves only change the nodes' chunk sets. *)
Lemma moved_status cid from to (cm : ChunkManager) x :
  dn_Status <$> cm_nodes (moved cid from to cm) !! x = dn_Status <$> cm_nodes cm !! x.
Proof.
  assert (∀ g k (N : gmap string DataNodeInfo),
    dn_Status <$> alter (set_Chunks g) k N !! x = dn_Status <$> N !! x) as Halt.
  { intros g k N. destruct (decide (x = k)) as [->|].
    - rewrite lookup_alter_eq. by destruct (N !! k).
    - by rewrite lookup_alter_ne. }
  unfold moved. simpl. by rewrite RemoveChunkFromNode_nodes, Halt, AddChunkToNode_nodes, Halt.
Qed.

Lemma moved_live cid from to cm n c :
  cm_nodes cm !! to = Some n → dn_Status n ≠ StatusDead → to ≠ from →
  live_chunk cm c → live_chunk (moved cid from to cm) c.
Proof.
  intros Hto Hs Hne (m & nid & k & Hm & Hin & Hk & Hks).
  assert (∀ x nx, cm_nodes cm !! x = Some nx → dn_Status nx ≠ StatusDead →
    ∃ nx', cm_nodes (moved cid from to cm) !! x = Some nx' ∧ dn_Status nx' ≠ StatusDead) as Hnodes.
  { intros x nx Hx Hsx. pose proof (moved_status cid from to cm x) as Hst. rewrite Hx in Hst.
    apply fmap_Some in Hst as (nx' & Hx' & Heq). exists nx'. split; [done|congruence]. }
  assert (∃ m', cm_chunks (moved cid from to cm) !! c = Some m' ∧
    (to ∈ ck_NodeIDs m' ∨ nid ∈ ck_NodeIDs m')) as (m' & Hm' & Hin').
  { unfold moved. simpl. rewrite RemoveChunkFromNode_chunk, AddChunkToNode_chunk, Hm.
    case_decide; simpl; [|by eauto]. eexists. split; [done|]. left. simpl.
    apply remove_first_other; [|done]. case_decide; simpl; set_solver. }
  destruct Hin' as [Hin'|Hin'].
  - destruct (Hnodes to n Hto Hs) as (n' & ? & ?). by exists m', to, n'.
  - destruct (Hnodes nid k Hk Hks) as (n' & ? & ?). by exists m', nid, n'.
Qed.

(** A node that is no target for migrations. *)
Definition no_target (cm : ChunkManager) (nid : string) : Prop :=
  ∀ n, cm_nodes cm !! nid = Some n → dn_Status n ≠ StatusHealthy ∧ dn_Status n ≠ StatusWarning.

Lemma no_target_status cm cm' nid :
  dn_Status <$> cm_nodes cm' !! nid = dn_Status <$> cm_nodes cm !! nid → no_target cm nid → no_target cm' nid.
Proof.
  intros Hs Hno n Hn. rewrite Hn in Hs. symmetry in Hs. apply fmap_Some in Hs as (n0 & Hn0 & ->). by apply Hno.
Qed.

(** A move brings the chunk to its target only. *)
Lemma moved_on_other cid from to cm x :
  is_Some (loc_GetNodeAddress to cm) → x ≠ to → on_node x (moved cid from to cm) ⊆ on_node x cm.
Proof.
  intros Hto Hx. unfold moved. change on_node with loc_on.
  rewrite loc_remove_on, loc_add_on, (decide_False (P := x = to)) by done. case_decide; set_solver.
Qed.

(** What every move of an evacuation keeps: the system's invariant, the copies, the
    nodes' addresses and statuses, that a chunk with a live replica has one, and that
    nodes that are no targets get no chunks. *)
Record evac_inv (s : MetaServer) (g : Ghost) (cm : ChunkManager) (c : Cluster) : Prop := {
  ei_sys : sys_inv (mkCluster (set_chunkMgr cm s) (cl_nodes c)) g;
  ei_data : data_inv (recorded g) cm c;
  ei_addr : ∀ x, loc_GetNodeAddress x cm = loc_GetNodeAddress x (srv_chunkMgr s);
  ei_status : ∀ x, dn_Status <$> cm_nodes cm !! x = dn_Status <$> cm_nodes (srv_chunkMgr s) !! x;
  ei_live : ∀ cid, live_chunk (srv_chunkMgr s) cid → live_chunk cm cid;
  ei_shrink : ∀ x, no_target (srv_chunkMgr s) x → on_node x cm ⊆ on_node x (srv_chunkMgr s);
}.

Lemma evac_inv_move s g env pl cid from src cm c r cm' c' :
  cm_inv cm → map_order (cm_nodes cm) (pl_ord pl) → loc_GetNodeAddress from cm = Some src →
  cid ∈ loc_on from cm → evac_inv s g cm c →
  migrateChunk (cluster_dial env) (cluster_TransferChunk env) pl cid from src (cm, c) = (r, (cm', c')) →
  evac_inv s g cm' c'.
Proof.
  intros Hcm Hord Hsrc Hon [Hsys Hdata Haddr Hstat Hlive Hshrink] Hrun.
  pose proof (migrateChunk_data _ _ _ _ _ _ _ _ _ _ _ Hcm Hord Hsrc Hon Hdata Hrun) as Hdata'.
  apply migrateChunk_cases in Hrun as [[-> ->]|(ns & t & rt & Hmeta & Ht & Htr & Hcm')]; [done|].
  assert (tables_ok c' g) as Htab.
  { eapply transferChunk_tables; [|exact Htr]. exact (sys_inv_tables _ _ Hsys). }
  assert (sys_inv (mkCluster (set_chunkMgr cm s) (cl_nodes c')) g) as Hsys1
    by (by eapply (sys_inv_nodes _ _ g Hsys)).
  destruct Hcm' as [->| ->]; [done|].
  apply adapter_target_elem in Ht as (Hnin & n & Hn & _ & Hs); [|done..].
  split; [|done|intros x; by rewrite moved_addr|intros x; by rewrite moved_status| |].
  - eapply admin_sys_inv in Hsys1; [|by eapply (admin_AddChunkToNode cid (nt_NodeID t))].
    eapply admin_sys_inv in Hsys1; [|by eapply (admin_RemoveChunkFromNode cid from)]. exact Hsys1.
  - intros k Hk. eapply moved_live; [done| | |by apply Hlive].
    + by destruct Hs as [-> | ->].
    + intros Heq. apply Hnin. rewrite Heq. destruct Hdata as (_ & Hst & _). by eapply Hst.
  - intros x Hx. transitivity (on_node x cm); [|by apply Hshrink]. apply moved_on_other.
    + simpl. unfold adapter_GetNodeAddress, GetNode. rewrite Hn. by eexists.
    + intros ->. apply (no_target_status _ cm) in Hx; [|done]. destruct (Hx n Hn). tauto.
Qed.

(** What migrations carry from one state of the cluster to a later one. *)
Record carried (g : Ghost) (c c' : Cluster) : Prop := {
  ca_sys : sys_inv c' g;
  ca_copies : copies_ok c' g;
  ca_ns : srv_namespace (cl_meta c') = srv_namespace (cl_meta c);
  ca_addr : ∀ x, loc_GetNodeAddress x (srv_chunkMgr (cl_meta c')) =
                 loc_GetNodeAddress x (srv_chunkMgr (cl_meta c));
  ca_live : ∀ cid, live_chunk (srv_chunkMgr (cl_meta c)) cid → live_chunk (srv_chunkMgr (cl_meta c')) cid;
}.

(** Nodes that are no targets stay so, and get no chunks. *)
Definition settled (cm cm' : ChunkManager) : Prop :=
  ∀ x, no_target cm x → no_target cm' x ∧ on_node x cm' ⊆ on_node x cm.

Lemma carried_refl g c : sys_inv c g → copies_ok c g → carried g c c.
Proof. by split. Qed.

Lemma carried_trans g c1 c2 c3 : carried g c1 c2 → carried g c2 c3 → carried g c1 c3.
Proof.
  intros [_ _ Hns1 Ha1 Hl1] [Hs Hc Hns2 Ha2 Hl2]. split; [done|done|congruence| |auto].
  intros x. by rewrite Ha2, Ha1.
Qed.

(** The migration of a node, followed to its end. *)
Lemma evacuation env start finish ord plans p c g r c' :
  sys_inv c g → copies_ok c g →
  set_order (on_node (pr_NodeID p) (srv_chunkMgr (cl_meta c))) ord →
  (∀ j, map_order (cm_nodes (srv_chunkMgr (cl_meta c))) (pl_ord (plans j))) →
  cluster_migrate env start finish ord plans p c = (r, c') →
  carried g c c' ∧ settled (srv_chunkMgr (cl_meta c)) (srv_chunkMgr (cl_meta c')) ∧
  (∀ rep, r = Ok (Some rep) → mr_FailedChunks rep = 0 →
     on_node (pr_NodeID p) (srv_chunkMgr (cl_meta c')) = ∅).
Proof.
  intros Hsys Hdata Hcord Hord. unfold cluster_migrate, MetaServer.Server.migrate.
  pose proof (srv_inv_cm _ (si_meta _ _ Hsys)) as Hcm.
  destruct (MigrateNode _ _ _ _ _ _ _ _) as [r1 [m [cm1 c1]]] eqn:Hrun. intros [= <- <-].
  assert (evac_inv (cl_meta c) g cm1 c1) as [Hsys1 Hdata1 Haddr1 Hstat1 Hlive1 Hshrink1].
  { refine (MigrateNode_preserves _ _ (evac_inv (cl_meta c) g) (pr_NodeID p) _ _ _ _ _ _ _ _ _ _ _ _ _
      eq_refl Hcm Hcord Hord _ Hrun).
    - intros pl cid src cm v r' cm' v' ? ? ? ? ?. by apply evac_inv_move.
    - split; [|done..]. by destruct c as [[] ?]. }
  split; [|split].
  - split; [|exact Hdata1|done|exact Haddr1|exact Hlive1].
    destruct Hsys1 as [[? ? ?] ? ? ? ?]. by split.
  - intros x Hx. split; [|by apply Hshrink1]. by apply (no_target_status (srv_chunkMgr (cl_meta c))).
  - intros rep -> Hf. cbn [cl_meta set_migrator set_chunkMgr srv_chunkMgr].
    destruct (cm_nodes (srv_chunkMgr (cl_meta c)) !! pr_NodeID p) as [n|] eqn:Hn.
    + refine (MigrateNode_all (cluster_dial env) (cluster_TransferChunk env) start finish ord plans p _
        (srv_chunkMgr (cl_meta c)) c rep _ cm1 c1 Hcm Hcord Hord _ Hrun Hf).
      simpl. unfold adapter_GetNodeAddress, GetNode. rewrite Hn. by eexists.
    + unfold on_node. specialize (Hstat1 (pr_NodeID p)). rewrite Hn in Hstat1.
      by destruct (cm_nodes cm1 !! pr_NodeID p).
Qed.

(** The answer to a get after an evacuation: still a success, and the addresses do
    not include the evacuated node's. *)
Lemma evacuated_answer c g c' path resp :
  sys_inv c g → sys_inv c' g → srv_namespace (cl_meta c') = srv_namespace (cl_meta c) →
  (∀ cid, live_chunk (srv_chunkMgr (cl_meta c)) cid → live_chunk (srv_chunkMgr (cl_meta c')) cid) →
  MetaServer.Server.GetFile (mkGetFileRequest path) (cl_meta c) = Ok resp →
  GetFileResponse_Success resp = true →
  ∃ resp', MetaServer.Server.GetFile (mkGetFileRequest path) (cl_meta c') = Ok resp' ∧
    GetFileResponse_Success resp' = true.
Proof.
  intros Hsys Hsys' Hns Hlive. unfold MetaServer.Server.GetFile. rewrite Hns.
  destruct (Namespace.GetFile _ _) as [[meta|]|e|w]; [|done|by intros [= <-]|done].
  destruct (GetChunkLocations _ _) as [locs|e|w] eqn:Hl; [|by intros [= <-]|done]. intros _ _.
  assert (∃ locs', GetChunkLocations (fm_ChunkIDs meta) (srv_chunkMgr (cl_meta c')) = Ok locs')
    as [locs' Hl'].
  { apply GetChunkLocations_live. eapply Forall_impl; [|exact Hlive].
    apply GetChunkLocations_live. by eexists. }
  rewrite Hl'. destruct (chunk_infos_no_panic (srv_chunkMgr (cl_meta c')) locs') as [infos ->].
  { eapply GetChunkLocations_chunks; [exact (srv_inv_cm _ (si_meta _ _ Hsys'))|exact Hl']. }
  by eexists.
Qed.

Lemma GetChunkLocations_nonempty cm ids : ∀ locs loc,
  GetChunkLocations ids cm = Ok locs → loc ∈ locs → cl_NodeAddresses loc ≠ [].
Proof.
  induction ids as [|cid ids IH]; intros locs loc; cbn [GetChunkLocations].
  { by intros [= <-] ?%not_elem_of_nil. }
  destruct (cm_chunks cm !! cid) as [m|]; [|done]. case_decide as Hz; [done|].
  intros (ls & Hls & [= <-])%go_bind_ok [->|Hin]%elem_of_cons; [|by eapply IH].
  simpl. by destruct (live_locations _ _).
Qed.

Lemma GetFile_nonempty s req resp l :
  MetaServer.Server.GetFile req s = Ok resp → l ∈ GetFileResponse_ChunkLocations resp →
  ∃ addr, addr ∈ ChunkLocation_NodeAddresses l.
Proof.
  unfold MetaServer.Server.GetFile.
  destruct (Namespace.GetFile _ _) as [[meta|]|e|w]; [|done| |done].
  2: { intros [= <-] Hin. by apply not_elem_of_nil in Hin. }
  destruct (GetChunkLocations _ _) as [locs|e|w] eqn:Hl; [| |done].
  2: { intros [= <-] Hin. by apply not_elem_of_nil in Hin. }
  intros (infos & _ & [= <-])%go_bind_ok (loc & -> & Hloc)%list_elem_of_fmap.
  pose proof (GetChunkLocations_nonempty _ _ _ _ Hl Hloc) as Hne. simpl.
  destruct (cl_NodeAddresses loc) as [|a ?]; [done|]. exists a. by left.
Qed.

(** A node without chunks is the replica of none. *)
Lemma evacuated_addr cm nid id addr addr' :
  cm_inv cm → on_node nid cm = ∅ → loc_GetNodeAddress nid cm = Some addr' →
  replica_addr cm id addr → addr ≠ addr'.
Proof.
  intros Hcm Hon Haddr (ns & x & Hns & Hx & Ha) ->.
  pose proof (adapter_addr_inj cm x nid _ Hcm Ha Haddr) as ->.
  pose proof (loc_meta_holds cm id ns nid Hcm Hns Hx) as Hin.
  change (loc_on nid cm) with (on_node nid cm) in Hin. rewrite Hon in Hin.
  by apply not_elem_of_empty in Hin.
Qed.

(** Reading after evacuations, when the nodes that have no chunks any more are gone. *)
Lemma carried_reads g c c' (gone : string → Prop) path resp env nodes fs dest complete :
  sys_inv c g → carried g c c' →
  (∀ nid, gone nid → on_node nid (srv_chunkMgr (cl_meta c')) = ∅) →
  MetaServer.Server.GetFile (mkGetFileRequest path) (cl_meta c) = Ok resp →
  GetFileResponse_Success resp = true → nodes ⊆ cl_nodes c' → dials env →
  (∀ addr, (∀ nid, gone nid → loc_GetNodeAddress nid (srv_chunkMgr (cl_meta c)) ≠ Some addr) →
     nodes !! addr = cl_nodes c' !! addr ∧ ∀ id, answers env addr id) →
  (∀ l, complete l ≡ₚ l) →
  ∃ content, gh_files g !! cleanPath path = Some content ∧
    cluster_get env fs path dest complete (mkCluster (cl_meta c') nodes) = (Ok tt, <[dest := content]> fs).
Proof.
  intros HI [HI' Hdata' Hns Haddr Hlive] Hempty Hget Hsucc Hsub Hdial Hans Hcomplete.
  destruct (evacuated_answer c g c' path resp HI HI' Hns Hlive Hget Hsucc) as (resp' & Hget' & Hsucc').
  apply (get_survives c' g path resp'); [done..| |done].
  intros l Hl. destruct (GetFile_nonempty _ _ _ _ Hget' Hl) as [addr Hin].
  pose proof (GetFile_replicas _ _ _ _ _ (si_meta _ _ HI') Hget' Hl Hin) as Hrep.
  destruct (Hans addr) as [Hsame Ha].
  { intros nid Hgone Hnid. rewrite <- Haddr in Hnid.
    by apply (evacuated_addr _ nid _ addr addr (srv_inv_cm _ (si_meta _ _ HI')) (Hempty nid Hgone) Hnid Hrep). }
  exists addr. split; [done|]. split; [done|]. rewrite Hsame.
  destruct Hrep as (ns & nid & Hmeta & Hnid & Hna). destruct Hdata' as [Hserves _].
  destruct (Hserves _ _ _ _ Hmeta Hnid Hna) as (k & Hk & _). by eexists.
Qed.

(** C6: Failover: a file can be read as long as every chunk has one listed replica that
    answers: in any reachable state in which the listed replicas hold what was put,
    some of the nodes may be gone, others may fail any call; a get still writes
    exactly the content that was put under the path. *)
Theorem reads_survive_failures port adminPort c g path resp env nodes fs dest complete :
  rtc cluster_step (empty_system port adminPort) (c, g) → copies_ok c g →
  MetaServer.Server.GetFile (mkGetFileRequest path) (cl_meta c) = Ok resp →
  GetFileResponse_Success resp = true → nodes ⊆ cl_nodes c → dials env →
  (∀ l, l ∈ GetFileResponse_ChunkLocations resp →
     ∃ addr, addr ∈ ChunkLocation_NodeAddresses l ∧
       answers env addr (ChunkLocation_ChunkId l) ∧ is_Some (nodes !! addr)) →
  (∀ l, complete l ≡ₚ l) →
  ∃ content, gh_files g !! cleanPath path = Some content ∧
    cluster_get env fs path dest complete (mkCluster (cl_meta c) nodes)
      = (Ok tt, <[dest := content]> fs).
Proof.
  intros Hreach. pose proof (cluster_steps_inv _ _ Hreach (empty_system_inv _ _)) as HI.
  by apply get_survives.
Qed.

(** What migrations are for: in any reachable state in which the listed replicas
    hold what was put, migrate the chunks of a registered node, whatever fails in
    between; if the report counts no failed chunk, the node can then disappear: as
    long as the other nodes answer, every file that could be read before is still
    read, with exactly the content that was put. *)
Theorem evacuated_node_may_die port adminPort c g env1 start finish ord plans p n rep c'
    path resp env2 fs dest complete :
  rtc cluster_step (empty_system port adminPort) (c, g) → copies_ok c g →
  cm_nodes (srv_chunkMgr (cl_meta c)) !! pr_NodeID p = Some n →
  set_order (on_node (pr_NodeID p) (srv_chunkMgr (cl_meta c))) ord →
  (∀ j, map_order (cm_nodes (srv_chunkMgr (cl_meta c))) (pl_ord (plans j))) →
  cluster_migrate env1 start finish ord plans p c = (Ok (Some rep), c') →
  mr_FailedChunks rep = 0 →
  MetaServer.Server.GetFile (mkGetFileRequest path) (cl_meta c) = Ok resp →
  GetFileResponse_Success resp = true →
  dials env2 → (∀ addr id, addr ≠ dn_Address n → answers env2 addr id) → (∀ l, complete l ≡ₚ l) →
  ∃ content, gh_files g !! cleanPath path = Some content ∧
    cluster_get env2 fs path dest complete
      (mkCluster (cl_meta c') (delete (dn_Address n) (cl_nodes c'))) = (Ok tt, <[dest := content]> fs).
Proof.
  intros Hreach Hdata Hn Hcord Hord Hrun Hf Hget Hsucc Hdial Hans Hcomplete.
  pose proof (cluster_steps_inv _ _ Hreach (empty_system_inv _ _)) as HI. cbn [fst snd] in HI.
  destruct (evacuation _ _ _ _ _ _ _ _ _ _ HI Hdata Hcord Hord Hrun)
    as (Hcar & _ & Hempty).
  apply (carried_reads g c c' (.= pr_NodeID p) path resp); [done|done| |done|done|apply delete_subseteq|done| |done].
  - intros nid ->. by apply (Hempty rep).
  - intros addr Haddr. assert (addr ≠ dn_Address n) as Hne.
    { intros ->. apply (Haddr (pr_NodeID p) eq_refl). simpl. unfold adapter_GetNodeAddress, GetNode. by rewrite Hn. }
    rewrite lookup_delete_ne by done. split; [done|]. intros id. by apply Hans.
Qed.
End system.

(** ** Concrete runs *)
Section witnesses.
Definition meta_update (f : ChunkManager → ChunkManager) (c : Cluster) : Cluster :=
  mkCluster (set_chunkMgr (f (srv_chunkMgr (cl_meta c))) (cl_meta c)) (cl_nodes c).

(** A second node joins and registers. *)
Definition two_nodes : Cluster :=
  mkCluster (MetaServer.Server.RegisterNode 0 ["node-1"] (mkRegisterNodeRequest "b:9000" 1000)
    (cl_meta run4)).2 (cl_nodes run4).

Lemma two_nodes_reachable : rtc cluster_step (empty_system 1 2) (two_nodes, run_ghost).
Proof.
  etransitivity; [exact run_before|].
  eapply rtc_l; [apply (cs_join "b:9000" (demo_node "b:9000")); reflexivity|].
  eapply rtc_l; [|reflexivity].
  apply (cs_admin _ run4). eapply (admin_RegisterNode 0 ["node-1"]); [|apply surjective_pairing].
  assert (map_keys (cm_nodes (srv_chunkMgr (cl_meta run4))) = ["node-1"]) as <-
    by (vm_compute; reflexivity). apply map_order_keys.
Qed.

(** The first chunk gets a second replica. *)
Definition copied : Cluster :=
  meta_update (AddChunkToNode (run_id 0) "node-2")
    (cluster_TransferChunk calm "a:9000" (mkTransferChunkRequest (run_id 0) "b:9000") two_nodes).2.

Lemma copied_reachable : rtc cluster_step (empty_system 1 2) (copied, run_ghost).
Proof.
  etransitivity; [exact two_nodes_reachable|].
  eapply rtc_l.
  { apply (cs_transfer calm "a:9000" (mkTransferChunkRequest (run_id 0) "b:9000")
      (cluster_TransferChunk calm "a:9000" (mkTransferChunkRequest (run_id 0) "b:9000") two_nodes).1).
    apply surjective_pairing. }
  eapply rtc_l; [|reflexivity].
  apply (cs_admin (cl_meta copied)), admin_AddChunkToNode.
  apply (bool_decide_unpack _). vm_compute. exact I.
Qed.

(** Reading the first chunk's file at "a:9000" fails. *)
Definition failing_read : Env :=
  mkEnv (λ _, Ok tt) (λ _ _, None) (λ _ _, None) (λ _ _, None) (λ _ _, WriteOk)
    (λ a id, if decide ((a, id) = ("a:9000", run_id 0)) then Some "input/output error" else None).

Definition answer_of (c : Cluster) : GetFileResponse :=
  match MetaServer.Server.GetFile (mkGetFileRequest "/a/b") (cl_meta c) with
  | Ok r => r
  | _ => mkGetFileResponse false "" None []
  end.

Lemma reads_survive_failures_witness :
  cluster_GetChunk failing_read "a:9000" (mkGetChunkRequest (run_id 0)) copied
    = Ok (mkGetChunkResponse false [] "") ∧
  ∃ content, gh_files run_ghost !! cleanPath "/a/b" = Some content ∧
    cluster_get failing_read ∅ "/a/b" "/tmp/f" (rev (A:=_)) (mkCluster (cl_meta copied) (cl_nodes copied))
      = (Ok tt, {["/tmp/f" := content]}).
Proof.
  split; [vm_compute; reflexivity|].
  apply (reads_survive_failures 1 2 copied run_ghost "/a/b" (answer_of copied) failing_read
    (cl_nodes copied) ∅ "/tmp/f" (rev (A:=_)) copied_reachable).
  - apply data_check_inv. vm_compute. reflexivity.
  - vm_compute. reflexivity.
  - vm_compute. reflexivity.
  - done.
  - done.
  - apply Forall_forall.
    assert (GetFileResponse_ChunkLocations (answer_of copied) =
      [mkChunkLocation (run_id 0) 0 ["a:9000"; "b:9000"] ["node-1"; "node-2"];
       mkChunkLocation (run_id 1) 1 ["a:9000"] ["node-1"]]) as ->
      by (vm_compute; reflexivity).
    repeat constructor.
    + exists "b:9000". split; [set_solver|]. split; [done|]. apply (bool_decide_unpack _). vm_compute. exact I.
    + exists "a:9000". split; [set_solver|].
      split; [split; [done|]; split; [done|]; vm_compute; reflexivity|].
      apply (bool_decide_unpack _). vm_compute. exact I.
  - intros l. symmetry. apply Permutation_rev.
Defined.

Definition evac_order : list string := elements (on_node "node-1" (srv_chunkMgr (cl_meta two_nodes))).
Definition evac_plans : nat → chunk_plan := λ _,
  mkChunkPlan (map_keys (cm_nodes (srv_chunkMgr (cl_meta two_nodes)))) Second (2 * Second).
Definition evacuated_run : go (option MigrationReport) * Cluster :=
  cluster_migrate calm 0 Second evac_order evac_plans demo_prediction two_nodes.

Definition evac_report : MigrationReport :=
  match evacuated_run.1 with
  | Ok (Some r) => r
  | _ => mkMigrationReport "" f64_zero StatusDead 0 0 1 [] 0 0 []
  end.

Lemma evacuated_node_may_die_witness :
  mr_MigratedChunks evac_report = 2 ∧
  ∃ content, gh_files run_ghost !! cleanPath "/a/b" = Some content ∧
    cluster_get calm ∅ "/a/b" "/tmp/f" (rev (A:=_))
      (mkCluster (cl_meta evacuated_run.2) (delete "a:9000" (cl_nodes evacuated_run.2)))
      = (Ok tt, {["/tmp/f" := content]}).
Proof.
  split; [vm_compute; reflexivity|].
  assert (∃ n, cm_nodes (srv_chunkMgr (cl_meta two_nodes)) !! "node-1" = Some n ∧
    dn_Address n = "a:9000") as (n & Hn & Ha) by (eexists; split; vm_compute; reflexivity).
  rewrite <- Ha.
  apply (evacuated_node_may_die 1 2 two_nodes run_ghost calm 0 Second evac_order evac_plans
    demo_prediction n evac_report
    evacuated_run.2 "/a/b" (answer_of two_nodes) calm ∅ "/tmp/f" (rev (A:=_)) two_nodes_reachable).
  - apply data_check_inv. vm_compute. reflexivity.
  - exact Hn.
  - apply set_order_elements.
  - intros j. apply map_order_keys.
  - vm_compute. reflexivity.
  - vm_compute. reflexivity.
  - vm_compute. reflexivity.
  - vm_compute. reflexivity.
  - done.
  - intros addr id _. split; [|split]; reflexivity.
  - intros l. symmetry. apply Permutation_rev.
Defined.
End witnesses.
