(* ===== verification/Restart.v ===== *)
(** * Data nodes that start again

    A data node that starts again on its old data directory ([NewChunkStore] scans
    it), followed through the whole system: stored files survive, nothing is forged
    as long as the disks keep whole files, and what happens when they do not. *)
From S2P Require Export ClusterSafety.
Local Open Scope Z_scope.

(** ** A data node starts again *)

(** cmd/datanode with the flags of the stopped process: [NewServer] on the same disk. *)
Definition restart (rnd : draws) (listing : go (list DirEnt)) (faults : string → option string)
    (n : DataServer) : go DataServer :=
  DataNode.Server.NewServer (dsv_disk n).2 (dsv_port n) (dsv_adminPort n) (dsv_metaAddr n)
    (cs_dataDir (dsv_disk n).1) (dsv_capacity n) (dsv_address n) None listing faults rnd.

(** The entries of the directory are those of the chunk files in it (and others that
    do not matter). *)
Definition names_ok (listing : go (list DirEnt)) : Prop :=
  match listing with Ok entries => Forall (λ e, has_char slash (ent_Name e) = false) entries | _ => True end.

Definition lists (d : disk_state) (entries : list DirEnt) : Prop :=
  NoDup entries ∧ names_ok (Ok entries) ∧
  ∀ id, plain_id id → mkDirEnt (id +:+ ".chunk") false ∈ entries ↔ is_Some (d.2 !! chunkPath d.1 id).

Lemma restart_Ok rnd listing faults n n' :
  restart rnd listing faults n = Ok n' →
  (dsv_disk n').2 = (dsv_disk n).2 ∧
  (dsv_disk n').1 = (loadExisting (dsv_disk n).2 listing faults
                       (mkChunkStore (cs_dataDir (dsv_disk n).1) ∅ 0)).2.
Proof. by intros [= <-]. Qed.

Lemma load_entry_dir fs faults cs e : cs_dataDir (load_entry fs faults cs e) = cs_dataDir cs.
Proof. unfold load_entry. case_decide; [done|]. by destruct (ReadFile _ _ _). Qed.

(** Every entry of the table comes from a file that was read. *)
Lemma load_fold_from fs faults entries : ∀ cs id ch,
  cs_chunks (foldl (load_entry fs faults) cs entries) !! id = Some ch →
  cs_chunks cs !! id = Some ch ∨
  (mkDirEnt (id +:+ ".chunk") false ∈ entries ∧ ∃ data,
     fs !! PathJoin (cs_dataDir cs) (id +:+ ".chunk") = Some data ∧ ch = scanned (cs_dataDir cs) id data).
Proof.
  induction entries as [|e entries IH]; intros cs id ch; [by left|]. cbn [foldl].
  intros [Hch|(Hin & data & Hdata & ->)]%IH.
  2: { rewrite load_entry_dir in Hdata |- *. right. split; [by right|eauto]. }
  destruct (load_entry_cases e) as [Hskip|[i ->]]; [rewrite Hskip in Hch; by left|].
  unfold load_entry in Hch. cbn [ent_IsDir ent_Name] in Hch. rewrite Ext_chunk, strip_chunk_app in Hch.
  rewrite decide_False in Hch by naive_solver. unfold ReadFile, Open in Hch.
  destruct (faults _); [by left|]. destruct (fs !! _) as [data|] eqn:Hd; [|by left].
  simpl in Hch. apply lookup_insert_Some in Hch as [[<- <-]|[_ Hch]]; [|by left].
  right. split; [left|eauto].
Qed.

Lemma loaded_dir fs listing faults cs : cs_dataDir (loadExisting fs listing faults cs).2 = cs_dataDir cs.
Proof.
  destruct listing as [entries|e|p]; simpl; [|done..]. revert cs.
  induction entries as [|e entries IH]; intros cs; [done|]. simpl. by rewrite IH, load_entry_dir.
Qed.

Lemma names_ok_plain entries id :
  names_ok (Ok entries) → mkDirEnt (id +:+ ".chunk") false ∈ entries → plain_id id.
Proof.
  intros Hall Hin. pose proof (proj1 (Forall_forall _ _) Hall _ Hin) as Hs. cbn [ent_Name] in Hs.
  rewrite has_char_app in Hs. by apply orb_false_iff in Hs as [? _].
Qed.

(** What the restarted node reads is what is on its disk. *)
Lemma restart_table rnd listing faults n n' id ch :
  names_ok listing → restart rnd listing faults n = Ok n' → cs_chunks (dsv_disk n').1 !! id = Some ch →
  ∃ data, plain_id id ∧ (dsv_disk n).2 !! chunkPath (dsv_disk n).1 id = Some data ∧
    ch = scanned (cs_dataDir (dsv_disk n).1) id data.
Proof.
  intros Hn [_ ->]%restart_Ok. destruct listing as [entries|e|p]; [|by intros Hch..].
  intros [Hch|(Hin & data & Hd & ->)]%load_fold_from; [done|]. exists data.
  split; [by eapply names_ok_plain|done].
Qed.

Lemma restart_dir rnd listing faults n n' :
  restart rnd listing faults n = Ok n' → cs_dataDir (dsv_disk n').1 = cs_dataDir (dsv_disk n).1.
Proof. intros [_ ->]%restart_Ok. by rewrite loaded_dir. Qed.

Lemma restart_wf rnd listing faults n n' :
  names_ok listing → restart rnd listing faults n = Ok n' → store_wf (dsv_disk n').1.
Proof.
  intros Hn Hr id ch Hch. destruct (restart_table _ _ _ _ _ _ _ Hn Hr Hch) as (data & Hid & _ & ->).
  split; [done|]. split; [done|]. unfold chunkPath. by rewrite (restart_dir _ _ _ _ _ Hr).
Qed.

(** With all files readable and listed, it serves every intact chunk again. *)
Lemma restart_holds rnd entries n n' id data :
  store_wf (dsv_disk n).1 → lists (dsv_disk n) entries → restart rnd (Ok entries) (λ _, None) n = Ok n' →
  ChunkStore.GetChunk None id (dsv_disk n) = Ok (data, DataChecksum data) →
  ChunkStore.GetChunk None id (dsv_disk n') = Ok (data, DataChecksum data).
Proof.
  intros Hwf (Hnd & _ & Hall) Hr. apply restart_Ok in Hr as [Hfs Hcs].
  destruct (dsv_disk n) as [cs fs], (dsv_disk n') as [cs' fs']. cbn [fst snd] in *. subst fs'.
  intros Hget. pose proof (GetChunk_checked None id cs fs) as Hc. rewrite Hget in Hc.
  destruct Hc as (m & Hm & Hf & _ & _). destruct (Hwf id m Hm) as (_ & Hid & Hpath). rewrite Hpath in Hf.
  destruct (load_fold fs entries (mkChunkStore (cs_dataDir cs) ∅ 0) Hnd) as (_ & _ & Hch).
  { unfold stored_bytes. simpl. by rewrite map_fold_empty. }
  { intros i _. apply lookup_empty. }
  cbn [loadExisting snd] in Hcs. rewrite <- Hcs in Hch. specialize (Hch id). cbn [cs_dataDir] in Hch.
  rewrite decide_True in Hch by (apply Hall; eauto).
  change (PathJoin (cs_dataDir cs) (id +:+ ".chunk")) with (chunkPath cs id) in Hch. rewrite Hf in Hch.
  unfold ChunkStore.GetChunk. rewrite Hch. cbn [fmap option_fmap option_map scanned sc_FilePath sc_Checksum].
  unfold ReadFile, Open. change (PathJoin (cs_dataDir cs) (id +:+ ".chunk")) with (chunkPath cs id).
  rewrite Hf. cbn [go_wrap go_bind]. by rewrite decide_False by naive_solver.
Qed.

(** ** Available again *)

(** One node of the cluster restarts on an undamaged disk. *)
Inductive restart_step : Cluster → Cluster → Prop :=
  | restart_step_intro rnd entries addr n n' c :
      cl_nodes c !! addr = Some n → lists (dsv_disk n) entries →
      restart rnd (Ok entries) (λ _, None) n = Ok n' →
      restart_step c (mkCluster (cl_meta c) (<[addr := n']> (cl_nodes c))).

Lemma restart_step_holds c c' :
  restart_step c c' → nodes_ok c →
  nodes_ok c' ∧ cl_meta c' = cl_meta c ∧ ∀ addr id data, node_holds c addr id data → node_holds c' addr id data.
Proof.
  destruct 1 as [rnd entries addr n n' c Hn Hl Hr]. intros Hok. split; [|split; [done|]].
  - apply map_Forall_insert_2; [|done]. eapply restart_wf; [|exact Hr]. apply Hl.
  - intros a id data (m & Hm & Hget). unfold node_holds. cbn [cl_nodes].
    destruct (decide (a = addr)) as [->|Hne].
    + rewrite lookup_insert_eq. exists n'. split; [done|]. simplify_eq.
      eapply restart_holds; [exact (Hok _ _ Hn)|exact Hl|exact Hr|exact Hget].
    + rewrite lookup_insert_ne by done. by exists m.
Qed.

Lemma restarts_hold c c' :
  rtc restart_step c c' → nodes_ok c →
  cl_meta c' = cl_meta c ∧ ∀ addr id data, node_holds c addr id data → node_holds c' addr id data.
Proof.
  induction 1 as [|c c1 c2 Hs _ IH]; [done|]. intros Hok.
  destruct (restart_step_holds _ _ Hs Hok) as (Hok1 & Hm1 & Hh1).
  destruct (IH Hok1) as [Hm2 Hh2]. split; [congruence|auto].
Qed.

Section available.
Context `{SliceSort} `{!SliceSortSpec}.

(** C38: A stored file survives restarts: once a put has reported success, any number of
    data nodes may stop and start again on their disks in any order, and a get
    under either spelling of the path still writes exactly the uploaded bytes, when no
    call or disk fails during the get.  The file has fewer than 2^31 chunks, and their
    identifiers, hashes cut to sixteen digits, do not collide. *)
Theorem put_survives_restarts env now ord fs localPath content abs1 abs2 comps plans sched
    chunks size sum c c1 c2 complete fs2 dest :
  cluster_inv c → map_order (cm_nodes (srv_chunkMgr (cl_meta c))) ord →
  comps ≠ [] → Forall good_name comps → fs !! localPath = Some content →
  readAndChunkFile fs localPath None None None plans = Ok (chunks, size, sum) →
  Z.of_nat (length chunks) < 2 ^ 31 →
  NoDup (file_ids (path_of abs1 comps) (length chunks)) →
  (∀ i, i < length chunks → 3 < length (filter (eq i) sched))%nat →
  cluster_put env now ord fs localPath (path_of abs1 comps) plans sched c = (Ok tt, c1) →
  (∀ l, complete l ≡ₚ l) → rtc restart_step c1 c2 →
  cluster_get calm fs2 (path_of abs2 comps) dest complete c2 = (Ok tt, <[dest := content]> fs2).
Proof.
  intros Hinv Hord Hne Hgood Hfs Hread Hsmall Hnd Hsched Hput Hcomplete Hrestart.
  destruct (put_done _ _ _ _ _ _ _ _ _ _ _ _ _ _ _ Hinv Hord Hne Hgood Hfs Hread Hsmall Hnd
    Hsched Hput) as (placements & Hok1 & -> & Hlen & Hps & Hholds & Hget).
  destruct (restarts_hold _ _ Hrestart Hok1) as [Hmeta Hkeep].
  destruct (Hget abs2) as [info Hresp]. rewrite <- Hmeta in Hresp. rewrite <- Hlen in Hsmall.
  unfold cluster_get, Client.GetFile, cluster_GetFile. rewrite Hresp.
  cbn [GetFileResponse_Success GetFileResponse_FileInfo GetFileResponse_ChunkLocations negb].
  by rewrite (download_calm _ placements chunks) by eauto.
Qed.
End available.

(** ** Nothing but what was put, with restarts

    The state machine of [ClusterSafety.v] with restarts as steps, for disks that keep
    their files: a write either happens or does not, and nothing else touches the
    data directories.  What goes wrong otherwise comes at the end. *)

Definition whole_writes (env : Env) : Prop :=
  ∀ addr id, match env_write env addr id with WritePartial _ _ => False | _ => True end.

Section durable.
Context `{SliceSort} `{!SliceSortSpec}.

Inductive durable_step : Sys → Sys → Prop :=
  (** any step of the metadata server *)
  | ds_meta x y : cluster_step x y → cl_nodes y.1 = cl_nodes x.1 → durable_step x y
  | ds_store env addr id i data r c c' g :
      whole_writes env → gh_chunks g !! id = Some (i, data) →
      cluster_StoreChunk env addr (mkStoreChunkRequest id data (DataChecksum data)) c = (r, c') →
      durable_step (c, g) (c', g)
  | ds_transfer env addr req r c c' g :
      whole_writes env → cluster_TransferChunk env addr req c = (r, c') → durable_step (c, g) (c', g)
  | ds_delete fault addr req n r d' c g :
      cl_nodes c !! addr = Some n → DataNode.Server.DeleteChunk fault req (dsv_disk n) = (r, d') →
      durable_step (c, g) (mkCluster (cl_meta c) (<[addr := set_disk d' n]> (cl_nodes c)), g)
  (** a node with an empty data directory joins, a node disappears *)
  | ds_join addr n c g :
      cs_chunks (dsv_disk n).1 = ∅ →
      (∀ id, plain_id id → (dsv_disk n).2 !! chunkPath (dsv_disk n).1 id = None) →
      durable_step (c, g) (mkCluster (cl_meta c) (<[addr := n]> (cl_nodes c)), g)
  | ds_leave addr c g :
      durable_step (c, g) (mkCluster (cl_meta c) (delete addr (cl_nodes c)), g)
  (** a node stops at any moment between two calls and starts again; the scan may
      fail, miss files or fail to read them *)
  | ds_restart rnd listing faults addr n n' c g :
      cl_nodes c !! addr = Some n → names_ok listing → restart rnd listing faults n = Ok n' →
      durable_step (c, g) (mkCluster (cl_meta c) (<[addr := n']> (cl_nodes c)), g).

(** The chunk files hold recorded content. *)
Definition disk_ok (g : Ghost) (d : disk_state) : Prop :=
  store_wf d.1 ∧ ∀ id bs, plain_id id → d.2 !! chunkPath d.1 id = Some bs →
    ∃ i data, gh_chunks g !! id = Some (i, data) ∧ DataChecksum bs = DataChecksum data.

Definition disks_ok (c : Cluster) (g : Ghost) : Prop :=
  map_Forall (λ _ n, disk_ok g (dsv_disk n)) (cl_nodes c).

Definition plain_ghost (g : Ghost) : Prop := ∀ id, is_Some (gh_chunks g !! id) → plain_id id.

Definition durable_inv (x : Sys) : Prop :=
  sys_inv x.1 x.2 ∧ disks_ok x.1 x.2 ∧ plain_ghost x.2.

Lemma disks_ok_insert c g addr n :
  disks_ok c g → disk_ok g (dsv_disk n) → disks_ok (mkCluster (cl_meta c) (<[addr := n]> (cl_nodes c))) g.
Proof. intros Hc Hn. by apply map_Forall_insert_2. Qed.

Lemma store_disk_ok g plan id i bs data sum d r d' :
  disk_ok g d → plain_ghost g → gh_chunks g !! id = Some (i, data) → DataChecksum bs = DataChecksum data →
  match plan with WritePartial _ _ => False | _ => True end →
  ChunkStore.StoreChunk plan id bs sum d = (r, d') → disk_ok g d'.
Proof.
  intros [Hwf Hd] Hpl Hg Hsum Hplan. assert (plain_id id) as Hid by (apply Hpl; eauto).
  destruct d as [cs fs]. rewrite StoreChunk_cases. case_decide; [by intros [= _ <-]|].
  destruct plan as [|e|k e]; [|by intros [= _ <-]|done]. intros [= _ <-].
  split; [by apply enter_chunk_wf|]. intros id' bs' Hid'. cbn [fst snd enter_chunk].
  change (chunkPath (enter_chunk _ cs) id') with (chunkPath cs id').
  intros [[Heq <-]|[_ Hbs]]%lookup_insert_Some; [|by apply Hd].
  apply chunkPath_inj in Heq as <-; [|done..]. by exists i, data.
Qed.

Lemma cluster_store_disks env addr id i bs data sum c r c' g :
  whole_writes env → disks_ok c g → plain_ghost g →
  gh_chunks g !! id = Some (i, data) → DataChecksum bs = DataChecksum data →
  cluster_StoreChunk env addr (mkStoreChunkRequest id bs sum) c = (r, c') → disks_ok c' g.
Proof.
  intros Hw Hc Hpl Hg Hsum. unfold cluster_StoreChunk. destruct (env_store _ _ _); [by intros [= _ <-]|].
  destruct (cl_nodes c !! addr) as [n|] eqn:Hn; [|by intros [= _ <-]].
  unfold DataNode.Server.StoreChunk.
  cbn [StoreChunkRequest_ChunkId StoreChunkRequest_Data StoreChunkRequest_Checksum].
  destruct (ChunkStore.StoreChunk _ _ _ _ _) as [r1 d'] eqn:Hs.
  apply (store_disk_ok g _ _ i _ data) in Hs; [|exact (Hc _ _ Hn)|done..|apply Hw].
  destruct r1; intros [= _ <-]; by apply disks_ok_insert.
Qed.

Lemma cluster_transfer_disks env addr req c r c' g :
  whole_writes env → sys_inv c g → disks_ok c g → plain_ghost g →
  cluster_TransferChunk env addr req c = (r, c') → disks_ok c' g.
Proof.
  intros Hw HI Hc Hpl. unfold cluster_TransferChunk. destruct (env_transfer _ _ _); [by intros [= _ <-]|].
  destruct (cl_nodes c !! addr) as [n|] eqn:Hn; [|by intros [= _ <-]].
  unfold DataNode.Server.TransferChunk. pose proof (sys_inv_tables _ _ HI addr n Hn) as Ht. simpl in Ht.
  destruct (dsv_disk n) as [cs fs].
  pose proof (GetChunk_checked (env_read env addr (TransferChunkRequest_ChunkId req))
    (TransferChunkRequest_ChunkId req) cs fs) as Hg.
  destruct (ChunkStore.GetChunk _ _ _) as [[bs sum]|e|p]; [|by intros [= _ <-]..].
  destruct Hg as (ch & Hch & _ & -> & Hsum). destruct (Ht _ _ Hch) as (i & data & Hi & Hdata).
  destruct (cluster_dial _ _ _); [|by intros [= _ <-]..].
  destruct (cluster_StoreChunk _ _ _ _) as [r1 c1] eqn:Hs.
  apply (cluster_store_disks _ _ _ i _ data _ _ _ _ g) in Hs; [|done..|congruence].
  destruct r1 as [resp|e|p]; [destruct (StoreChunkResponse_Success resp)|..]; by intros [= _ <-].
Qed.

Lemma delete_disk_ok g fault id d r d' :
  disk_ok g d → ChunkStore.DeleteChunk fault id d = (r, d') → disk_ok g d'.
Proof.
  intros [Hwf Hd]. destruct d as [cs fs]. unfold ChunkStore.DeleteChunk.
  destruct (cs_chunks cs !! id) as [m|]; [|by intros [= _ <-]].
  assert (∀ used fs', fs' ⊆ fs → disk_ok g (mkChunkStore (cs_dataDir cs) (delete id (cs_chunks cs)) used, fs'))
    as Hdel.
  { intros used fs' Hsub. split.
    - intros id' ch. simpl. intros [_ Hch]%lookup_delete_Some. by apply (Hwf id').
    - intros id' bs Hid' Hbs. apply (Hd id' bs Hid'). by eapply lookup_weaken. }
  unfold Remove. destruct fault; [by intros [= _ <-]|].
  destruct (fs !! sc_FilePath m); intros [= _ <-]; [apply Hdel, delete_subseteq|by apply Hdel].
Qed.

(** A restart keeps the tables and the disks. *)
Lemma restart_keeps g rnd listing faults n n' :
  names_ok listing → disk_ok g (dsv_disk n) → restart rnd listing faults n = Ok n' →
  table_ok g (dsv_disk n') ∧ disk_ok g (dsv_disk n').
Proof.
  intros Hn [Hwf Hd] Hr. split; [|split].
  - intros id ch Hch. destruct (restart_table _ _ _ _ _ _ _ Hn Hr Hch) as (bs & Hid & Hbs & ->).
    destruct (Hd id bs Hid Hbs) as (i & data & Hi & Hsum). by exists i, data.
  - by eapply restart_wf.
  - intros id bs Hid. unfold chunkPath. rewrite (restart_dir _ _ _ _ _ Hr), (proj1 (restart_Ok _ _ _ _ _ Hr)).
    by apply Hd.
Qed.

(** *** Every step keeps the invariant *)
Lemma cluster_step_ghost x y : cluster_step x y → gh_chunks x.2 ⊆ gh_chunks y.2.
Proof. intros Hs. by apply cluster_steps_ghost, rtc_once. Qed.

Lemma cluster_step_plain x y : cluster_step x y → plain_ghost x.2 → plain_ghost y.2.
Proof.
  intros Hs Hpl. destruct Hs as [now ord path size sum chunks resp s' c g Hord Hsmall Hnd Hfresh Hput| | | | | | |];
    try done.
  cbn [snd] in *. destruct (PutFileResponse_Success resp); [|done]. intros id Hid.
  destruct (decide (id ∈ file_ids path (length chunks))) as [Hin|Hout].
  - unfold file_ids in Hin. apply list_elem_of_fmap in Hin as (i & -> & _). apply GenerateChunkID_plain.
  - apply Hpl. unfold record_put in Hid. cbn [gh_chunks] in Hid.
    by rewrite lookup_union_r in Hid by (by apply new_chunks_None).
Qed.

Lemma disks_ok_mono c c' g g' :
  cl_nodes c' = cl_nodes c → gh_chunks g ⊆ gh_chunks g' → disks_ok c g → disks_ok c' g'.
Proof.
  intros Hn Hsub Hc addr n. rewrite Hn. intros Ha. destruct (Hc addr n Ha) as [Hwf Hd]. split; [done|].
  intros id bs Hid Hbs. destruct (Hd id bs Hid Hbs) as (i & data & Hi & Hsum). exists i, data.
  split; [by eapply lookup_weaken|done].
Qed.

Lemma durable_step_inv x y : durable_step x y → durable_inv x → durable_inv y.
Proof.
  destruct 1 as [x y Hs Hn|env addr id i data r c c' g Hw Hg Hs|env addr req r c c' g Hw Hs
    |fault addr req n r d' c g Hn Hs|addr n c g Hempty Hfiles|addr c g
    |rnd listing faults addr n n' c g Hn Hnames Hr]; intros (HI & Hd & Hpl); cbn [fst snd] in *.
  - split; [by eapply cluster_step_inv|]. split; [|by eapply cluster_step_plain].
    eapply disks_ok_mono; [done|by apply cluster_step_ghost|done].
  - split; [by eapply (cluster_step_inv (c, g)); [by eapply cs_store|]|].
    split; [by eapply cluster_store_disks|done].
  - split; [by eapply (cluster_step_inv (c, g)); [by eapply cs_transfer|]|].
    split; [by eapply cluster_transfer_disks|done].
  - split; [by eapply (cluster_step_inv (c, g)); [by eapply cs_delete|]|]. split; [|done].
    apply disks_ok_insert; [done|]. unfold DataNode.Server.DeleteChunk in Hs.
    destruct (ChunkStore.DeleteChunk _ _ _) as [r1 d1] eqn:Hdel.
    apply (delete_disk_ok g) in Hdel; [|exact (Hd _ _ Hn)]. by destruct r1; injection Hs as _ <-.
  - split; [by eapply (cluster_step_inv (c, g)); [by eapply cs_join|]|]. split; [|done].
    apply disks_ok_insert; [done|]. split.
    + intros id ch. by rewrite Hempty, lookup_empty.
    + intros id bs Hid. by rewrite Hfiles.
  - split; [by eapply (cluster_step_inv (c, g)); [by eapply cs_leave|]|]. split; [|done].
    by apply map_Forall_delete.
  - destruct (restart_keeps g _ _ _ _ _ Hnames (Hd _ _ Hn) Hr) as [Ht' Hd'].
    split; [|split; [by apply disks_ok_insert|done]]. apply (sys_inv_nodes c); [done..|].
    apply map_Forall_insert_2; [done|by apply sys_inv_tables].
Qed.

Lemma durable_steps_inv x y : rtc durable_step x y → durable_inv x → durable_inv y.
Proof. induction 1 as [|x y z Hs _ IH]; [done|]. intros HI. by apply IH, (durable_step_inv x). Qed.

Lemma durable_steps_ghost x y : rtc durable_step x y → gh_chunks x.2 ⊆ gh_chunks y.2.
Proof.
  induction 1 as [|x y z Hs _ IH]; [done|]. transitivity (gh_chunks y.2); [|done].
  destruct Hs; try done. by apply cluster_step_ghost.
Qed.

(** C11: Restarts do not forge data: in the cluster whose data nodes also stop and start
    again at any moment, with scans that fail, miss files or cannot read them, a
    download that succeeds returns chunk by chunk what was put under the path, as
    long as every write of a chunk file happens completely or not at all and nothing
    else changes the files. *)
Theorem restarts_do_not_forge port adminPort c g path resp env completed c2 g2 data :
  rtc durable_step (empty_system port adminPort) (c, g) →
  MetaServer.Server.GetFile (mkGetFileRequest path) (cl_meta c) = Ok resp →
  GetFileResponse_Success resp = true →
  rtc durable_step (c, g) (c2, g2) →
  completed ≡ₚ GetFileResponse_ChunkLocations resp →
  downloadChunks (cluster_dial env) (cluster_GetChunk env) completed c2 = Ok data →
  ∃ put got, gh_files g !! cleanPath path = Some (mjoin put) ∧ data = mjoin got ∧
    Forall2 (λ a b, DataChecksum a = DataChecksum b) put got.
Proof.
  intros Hreach Hget Hsucc Hlater Hperm Hdown.
  assert (durable_inv (empty_system port adminPort)) as Hempty.
  { split; [apply empty_system_inv|]. split; [apply map_Forall_empty|].
    intros id [x Hx]. cbn [empty_system snd gh_chunks] in Hx. by rewrite lookup_empty in Hx. }
  pose proof (durable_steps_inv _ _ Hreach Hempty) as HI.
  eapply download_recorded; [exact (proj1 HI)| | |done..].
  - exact (proj1 (durable_steps_inv _ _ Hlater HI)).
  - exact (durable_steps_ghost _ _ Hlater).
Qed.
End durable.

(** ** Concrete runs *)
Section runs.
(** What [os.ReadDir] lists of a disk with these chunk files. *)
Definition chunk_entries (ids : list string) : list DirEnt :=
  (λ id, mkDirEnt (id +:+ ".chunk") false) <$> ids.

Lemma lists_chunk_entries d ids :
  NoDup ids → Forall (λ id, plain_id id) ids →
  dom d.2 = list_to_set (chunkPath d.1 <$> ids) → lists d (chunk_entries ids).
Proof.
  intros Hnd Hpl Hdom. unfold lists, chunk_entries. split; [|split].
  - apply NoDup_fmap_2; [|done]. intros x y [= Heq]. by apply string_app_inj_r in Heq.
  - apply Forall_fmap. eapply Forall_impl; [exact Hpl|]. intros id Hid. simpl. by rewrite has_char_app, Hid.
  - intros id Hid. rewrite <- elem_of_dom, Hdom, elem_of_list_to_set, !list_elem_of_fmap. split.
    + intros (i & [= Heq] & Hi). apply string_app_inj_r in Heq as ->. eauto.
    + intros (i & Heq & Hi). pose proof (proj1 (Forall_forall _ _) Hpl i Hi) as Hi'.
      apply chunkPath_inj in Heq as ->; eauto.
Qed.

Definition demo_rnd : draws := λ _, f64_zero.

(** The process at [addr] starts again and finds the chunks [ids]. *)
Definition restart_at (addr : string) (ids : list string) (c : Cluster) : Cluster :=
  match cl_nodes c !! addr with
  | Some n =>
      match restart demo_rnd (Ok (chunk_entries ids)) (λ _, None) n with
      | Ok n' => mkCluster (cl_meta c) (<[addr := n']> (cl_nodes c))
      | _ => c
      end
  | None => c
  end.

Definition demo_ids : list string := file_ids "/a/b" 3.
Definition demo_restarted : Cluster := restart_at "b:9000" demo_ids (restart_at "a:9000" demo_ids demo_put_cluster.2).

Lemma restart_at_step addr ids c n :
  cl_nodes c !! addr = Some n → lists (dsv_disk n) (chunk_entries ids) → restart_step c (restart_at addr ids c).
Proof.
  intros Hn Hl. unfold restart_at. rewrite Hn.
  destruct (restart demo_rnd (Ok (chunk_entries ids)) (λ _, None) n) as [n'|e|p] eqn:Hr; [|done..].
  by eapply restart_step_intro.
Qed.

Lemma demo_lists addr c n :
  bool_decide (dom (dsv_disk n).2 = list_to_set (chunkPath (dsv_disk n).1 <$> demo_ids)) = true →
  cl_nodes c !! addr = Some n → restart_step c (restart_at addr demo_ids c).
Proof.
  intros Hdom Hn. eapply restart_at_step; [exact Hn|]. apply lists_chunk_entries.
  - apply (bool_decide_unpack _). vm_compute. exact I.
  - unfold demo_ids, file_ids. repeat constructor; apply GenerateChunkID_plain.
  - by apply bool_decide_eq_true in Hdom.
Qed.

Definition node_at (c : Cluster) (addr : string) : DataServer := default (demo_node "") (cl_nodes c !! addr).

Lemma put_survives_restarts_witness :
  cluster_get calm ∅ (path_of false ["a"; "b"]) "/tmp/f" (rev (A:=_)) demo_restarted
    = (Ok tt, {["/tmp/f" := demo_content]}).
Proof.
  assert (∃ chunks size sum, readAndChunkFile demo_local "/home/f" None None None demo_plans
    = Ok (chunks, size, sum) ∧ length chunks = 3%nat) as (chunks & size & sum & Hread & Hlen).
  { eexists _, _, _. split; [vm_compute; reflexivity|]. reflexivity. }
  assert (demo_put_cluster = (Ok tt, demo_put_cluster.2)) as Hput
    by (apply fst_outcome; vm_compute; reflexivity).
  assert (rtc restart_step demo_put_cluster.2 demo_restarted) as Hrestart.
  { eapply rtc_l; [eapply (demo_lists "a:9000" _ (node_at demo_put_cluster.2 "a:9000"))|
      apply rtc_once; eapply (demo_lists "b:9000" _ (node_at (restart_at "a:9000" demo_ids demo_put_cluster.2) "b:9000"))];
      vm_compute; reflexivity. }
  apply (put_survives_restarts demo_env 0 demo_ord demo_local "/home/f" demo_content true false
    ["a"; "b"] demo_plans demo_sched chunks size sum demo_cluster demo_put_cluster.2 demo_restarted (rev (A:=_)) ∅ "/tmp/f"
    demo_cluster_inv demo_order ltac:(discriminate) ltac:(repeat constructor; discriminate)
    (lookup_singleton_eq _ _) Hread); [..|exact Hput|intros l; symmetry; apply Permutation_rev|exact Hrestart].
  - rewrite Hlen. reflexivity.
  - rewrite Hlen. apply (bool_decide_unpack _). vm_compute. exact I.
  - rewrite Hlen. intros i Hi. do 3 (destruct i as [|i]; [vm_compute; lia|]). lia.
Defined.

(** *** Damage a restart adopts *)

(** A file of one chunk, and a get of it when nothing fails. *)
Definition one_put (env : Env) : go unit * Cluster :=
  cluster_put env 0 demo_ord demo_local "/home/f" "/a/b" (λ _, ReadUpTo 100) (replicate 4 0%nat) demo_cluster.
Definition one_get (c : Cluster) : go unit * FileSys := cluster_get calm ∅ "/a/b" "/tmp/f" (λ l, l) c.
Definition one_ids : list string := file_ids "/a/b" 1.

(** Every disk fills up after five bytes. *)
Definition full_disks : Env :=
  mkEnv (λ _, Ok tt) (λ _ _, None) (λ _ _, None) (λ _ _, None)
    (λ _ _, WritePartial 5 "no space left on device") (λ _ _, None).

(** A restart publishes a failed upload: a put whose only write runs out of space is
    reported to the client as failed, and a get of the path fails; after the node
    that kept the first bytes has restarted, a get of the path reports success and
    writes the truncated content. *)
Theorem restart_publishes_torn_upload :
  is_ok (one_put full_disks).1 = false ∧
  is_ok (one_get (one_put full_disks).2).1 = false ∧
  one_get (restart_at "c:9000" one_ids (one_put full_disks).2)
    = (Ok tt, {["/tmp/f" := take 5 demo_content]}).
Proof. split; [vm_compute; reflexivity|]. split; vm_compute; reflexivity. Qed.

(** The stored bytes of the first replica change behind the node's back. *)
Definition rotten : bytes := bytes_of_string "hellx world".
Definition damaged (c : Cluster) : Cluster :=
  let n := node_at c "c:9000" in
  mkCluster (cl_meta c) (<["c:9000" := set_disk ((dsv_disk n).1,
    (λ _, rotten) <$> (dsv_disk n).2) n]> (cl_nodes c)).

(** A restart launders corruption: when the bytes of one of three replicas of a
    stored file change on the disk, gets detect it and return the right content from
    another replica; once the node has restarted, a get reports success and writes
    the corrupted content, although two intact replicas exist and the server knows
    the checksum of the file. *)
Theorem restart_launders_corruption :
  (one_put calm).1 = Ok tt ∧
  one_get (damaged (one_put calm).2) = (Ok tt, {["/tmp/f" := demo_content]}) ∧
  one_get (restart_at "c:9000" one_ids (damaged (one_put calm).2)) = (Ok tt, {["/tmp/f" := rotten]}) ∧
  rotten ≠ demo_content.
Proof.
  split; [vm_compute; reflexivity|]. split; [vm_compute; reflexivity|].
  split; [vm_compute; reflexivity|]. discriminate.
Qed.

(** *** A run of the durable system *)

(** The run of [ClusterSafety.v]; after the upload the node restarts, then the file's
    first chunk is copied to a second node. *)
Definition run_restarted : Cluster := restart_at "a:9000" (file_ids "/a/b" 2) run3.
Definition run_joined : Cluster :=
  mkCluster (cl_meta run_restarted) (<["b:9000" := demo_node "b:9000"]> (cl_nodes run_restarted)).
Definition run_copied : Cluster :=
  (cluster_TransferChunk calm "a:9000" (mkTransferChunkRequest (run_id 0) "b:9000") run_joined).2.

Lemma calm_whole : whole_writes calm.
Proof. by intros addr id. Qed.

Lemma demo_node_empty addr id : (dsv_disk (demo_node addr)).2 !! chunkPath (dsv_disk (demo_node addr)).1 id = None.
Proof. apply lookup_empty. Qed.

Lemma durable_before : rtc durable_step (empty_system 1 2) (run3, run_ghost).
Proof.
  eapply rtc_l.
  { apply (ds_meta _ (mkCluster run_meta1 ∅, mkGhost ∅ ∅)); [|reflexivity]. apply (cs_admin run_meta1).
    eapply (admin_RegisterNode 0 []); [|apply surjective_pairing]. vm_compute. constructor. }
  eapply rtc_l; [apply (ds_join "a:9000" (demo_node "a:9000")); [reflexivity|intros; apply demo_node_empty]|].
  eapply rtc_l; [apply (ds_meta _ (run1, run_ghost)); [exact run_put_step|reflexivity]|].
  eapply rtc_l.
  { apply (ds_store calm "a:9000" (run_id 0) 0 (bytes_of_string "hello ")
      (run_store "a:9000" 0 (bytes_of_string "hello ") run1).1); [exact calm_whole|vm_compute; reflexivity|].
    apply surjective_pairing. }
  eapply rtc_l; [|reflexivity].
  apply (ds_store calm "a:9000" (run_id 1) 1 (bytes_of_string "world")
    (run_store "a:9000" 1 (bytes_of_string "world") run2).1); [exact calm_whole|vm_compute; reflexivity|].
  apply surjective_pairing.
Qed.

Lemma restart_at_durable addr ids c g n :
  Forall (λ id, plain_id id) ids → cl_nodes c !! addr = Some n → durable_step (c, g) (restart_at addr ids c, g).
Proof.
  intros Hids Hn. unfold restart_at. rewrite Hn.
  destruct (restart demo_rnd (Ok (chunk_entries ids)) (λ _, None) n) as [n'|e|p] eqn:Hr; [|done..].
  eapply ds_restart; [exact Hn| |exact Hr]. unfold names_ok, chunk_entries. apply Forall_fmap.
  eapply Forall_impl; [exact Hids|]. intros id Hid. simpl. by rewrite has_char_app, Hid.
Qed.

Lemma durable_after : rtc durable_step (run3, run_ghost) (run_copied, run_ghost).
Proof.
  eapply rtc_l.
  { apply (restart_at_durable "a:9000" (file_ids "/a/b" 2) run3 run_ghost (node_at run3 "a:9000")).
    - unfold file_ids. repeat constructor; apply GenerateChunkID_plain.
    - vm_compute. reflexivity. }
  eapply rtc_l; [apply (ds_join "b:9000" (demo_node "b:9000")); [reflexivity|intros; apply demo_node_empty]|].
  eapply rtc_l; [|reflexivity].
  apply (ds_transfer calm "a:9000" (mkTransferChunkRequest (run_id 0) "b:9000")
    (cluster_TransferChunk calm "a:9000" (mkTransferChunkRequest (run_id 0) "b:9000") run_joined).1);
    [exact calm_whole|apply surjective_pairing].
Qed.

Lemma restarts_do_not_forge_witness :
  ∃ put got, gh_files run_ghost !! cleanPath "a/b" = Some (mjoin put) ∧
    bytes_of_string "hello world" = mjoin got ∧
    Forall2 (λ a b, DataChecksum a = DataChecksum b) put got.
Proof.
  refine (restarts_do_not_forge 1 2 run3 run_ghost "a/b" run_resp calm
    (GetFileResponse_ChunkLocations run_resp) run_copied run_ghost (bytes_of_string "hello world")
    durable_before _ _ durable_after _ _).
  - vm_compute. reflexivity.
  - vm_compute. reflexivity.
  - reflexivity.
  - vm_compute. reflexivity.
Defined.
End runs.
