(* ===== verification/Evacuations.v ===== *)
(** * Migrations in parallel, over the cluster

    [predictionLoop] starts every migration in a goroutine of its own.  Here any number
    of [MigrateNode] threads run on the cluster, one call at a time: their flags are the
    migrator's, their locator is the registry, their transfers go between the real data
    nodes, and calls of the server that leave chunks and targets alone come in between. *)
From S2P Require Export MigrationRace Restart Failover.
Local Open Scope Z_scope.

(** ** Steps *)
Definition set_busy (busy : gset string) (s : MetaServer) : MetaServer :=
  set_migrator (mkMigrator busy (mig_history (srv_migrator s))) s.

Definition busy_nodes (s : MetaServer) : gset string := mig_migrating (srv_migrator s).

Definition evac_state : Type := Cluster * list node_thread.

(** One step of a thread on the cluster. *)
Definition cluster_node_step (env : Env) (cord ord : list string) (th : node_thread) (c : Cluster)
    : option (Cluster * node_thread) :=
  '((busy, (cm, c')), th') ← node_step (cluster_dial env) (cluster_TransferChunk env) cord ord th
      (busy_nodes (cl_meta c), (srv_chunkMgr (cl_meta c), c));
  Some (mkCluster (set_busy busy (set_chunkMgr cm (cl_meta c))) (cl_nodes c'), th').

(** A registered node the locator offers to migrations. *)
Definition targetable (n : DataNodeInfo) : Prop := dn_Status n = StatusHealthy ∨ dn_Status n = StatusWarning.

Definition offered (cm : ChunkManager) (nid : string) : Prop :=
  ∃ n, cm_nodes cm !! nid = Some n ∧ targetable n.

Section evacuations.
Context `{SliceSort} `{!SliceSortSpec}.

(** A step of the server that neither touches chunks nor makes a node a target for
    migrations or stops it from being one. *)
Definition node_quiet (n n' : DataNodeInfo) : Prop :=
  dn_Address n' = dn_Address n ∧ dn_Chunks n' = dn_Chunks n ∧
  (dn_Status n ≠ StatusDead → dn_Status n' ≠ StatusDead) ∧ (targetable n' ↔ targetable n).

Record quiet (s s' : MetaServer) : Prop := {
  qt_step : admin_step s s';
  qt_ns : srv_namespace s' = srv_namespace s;
  qt_busy : busy_nodes s' = busy_nodes s;
  qt_chunks : cm_chunks (srv_chunkMgr s') = cm_chunks (srv_chunkMgr s);
  qt_nodes : ∀ k, option_Forall2 node_quiet (cm_nodes (srv_chunkMgr s) !! k) (cm_nodes (srv_chunkMgr s') !! k);
}.

Inductive evac_step : evac_state → evac_state → Prop :=
  (** a migration makes its next call; any call may fail, but a file is written whole
      or not at all *)
  | ev_thread i env cord ord th c c' th' ths :
      ths !! i = Some th → whole_writes env →
      set_order (on_node (nh_node th) (srv_chunkMgr (cl_meta c))) cord →
      map_order (cm_nodes (srv_chunkMgr (cl_meta c))) ord →
      cluster_node_step env cord ord th c = Some (c', th') →
      evac_step (c, ths) (c', <[i := th']> ths)
  (** a migration of a node that is no target is started *)
  | ev_start nid c ths :
      ¬ offered (srv_chunkMgr (cl_meta c)) nid →
      evac_step (c, ths) (c, ths ++ [mkNodeThread nid NodeStart])
  | ev_server s' c ths :
      quiet (cl_meta c) s' → evac_step (c, ths) (mkCluster s' (cl_nodes c), ths).

(** *** What is quiet *)
Lemma node_quiet_refl n : node_quiet n n.
Proof. by repeat split. Qed.

Lemma nodes_quiet_insert cm k n n' :
  cm_nodes cm !! k = Some n → node_quiet n n' →
  ∀ x, option_Forall2 node_quiet (cm_nodes cm !! x) (<[k := n']> (cm_nodes cm) !! x).
Proof.
  intros Hn Hq x. destruct (decide (x = k)) as [->|Hx].
  - rewrite Hn, lookup_insert_eq. by constructor.
  - rewrite lookup_insert_ne by done. destruct (cm_nodes cm !! x); constructor. apply node_quiet_refl.
Qed.

(** A heartbeat of a node that is not marked dead. *)
Lemma heartbeat_quiet now req r s s' :
  MetaServer.Server.Heartbeat now req s = (r, s') →
  (∀ n, cm_nodes (srv_chunkMgr s) !! HeartbeatRequest_NodeId req = Some n → dn_Status n ≠ StatusDead) →
  quiet s s'.
Proof.
  intros Hrun Halive. pose proof (admin_Heartbeat _ _ _ _ _ Hrun) as Hadmin. revert Hrun.
  unfold MetaServer.Server.Heartbeat, UpdateHeartbeat.
  destruct (cm_nodes _ !! _) as [n|] eqn:Hn; intros [= <- <-].
  - split; [done..|]. cbn [srv_chunkMgr set_chunkMgr cm_nodes upd_node].
    apply nodes_quiet_insert with n; [done|]. specialize (Halive n eq_refl). unfold node_quiet, targetable.
    by case_decide.
  - split; [done..|]. intros k. cbn [srv_chunkMgr set_chunkMgr].
    destruct (cm_nodes _ !! k); constructor. apply node_quiet_refl.
Qed.

(** A health report. *)
Lemma report_quiet req r s s' : MetaServer.Server.ReportHealth req s = (r, s') → quiet s s'.
Proof.
  intros Hrun. pose proof (admin_ReportHealth _ _ _ _ Hrun) as Hadmin. revert Hrun.
  unfold MetaServer.Server.ReportHealth.
  destruct (ReportHealthRequest_Metrics req) as [m|]; [destruct (GetNode _ _)|]; intros [= <- <-];
    (split; [done..|]); intros k; cbn [srv_chunkMgr set_monitor];
    destruct (cm_nodes _ !! k); constructor; apply node_quiet_refl.
Qed.

(** A later prediction tick that makes no node a target and no target a node at risk. *)
Lemma tick_quiet now ord s spawned s' :
  map_order (ms_nodes (mon_store (srv_monitor s))) ord →
  MetaServer.Server.predictionLoop now ord s = (spawned, s') →
  (∀ k n r, cm_nodes (srv_chunkMgr s) !! k = Some n → PredictNode now k (srv_monitor s) = Some r →
     (RiskToStatus (pr_OverallRisk r) = StatusHealthy ∨ RiskToStatus (pr_OverallRisk r) = StatusWarning
      ↔ targetable n)) →
  quiet s s'.
Proof.
  intros Hord Hrun Hsame. pose proof (prediction_tick now ord s Hord) as Htick. rewrite Hrun in Htick.
  destruct Htick as (Hns & _ & Hch & Hnodes & _). split; [|done| |done|].
  - pose proof (admin_predictionLoop now ord s) as Hs. by rewrite Hrun in Hs.
  - revert Hrun. unfold MetaServer.Server.predictionLoop. destruct (foldl _ _ _). by intros [= _ <-].
  - intros k. rewrite Hnodes. destruct (cm_nodes (srv_chunkMgr s) !! k) as [n|] eqn:Hn.
    + destruct (PredictNode now k (srv_monitor s)) as [r|] eqn:Hr; constructor; [|apply node_quiet_refl].
      split; [done|]. split; [done|]. split; [|by eapply Hsame].
      intros _. simpl. unfold RiskToStatus. by repeat case_match.
    + destruct (PredictNode _ _ _); constructor.
Qed.

(** ** What a step leaves alone *)

(** A call of a migration of [x], or of no migration, seen from the other migrations;
    [D] are the contents of the chunks. *)
Record framed (D : string → bytes) (x : option string) (c c' : Cluster) : Prop := {
  fr_addr : ∀ y, loc_GetNodeAddress y (srv_chunkMgr (cl_meta c')) =
                 loc_GetNodeAddress y (srv_chunkMgr (cl_meta c));
  fr_offered : ∀ y, offered (srv_chunkMgr (cl_meta c')) y ↔ offered (srv_chunkMgr (cl_meta c)) y;
  fr_holds : ∀ a id, node_holds c a id (D id) → node_holds c' a id (D id);
  fr_meta : ∀ id ns, loc_GetChunkMeta id (srv_chunkMgr (cl_meta c)) = Some ns →
    ∃ ns', loc_GetChunkMeta id (srv_chunkMgr (cl_meta c')) = Some ns' ∧
      ∀ y, y ∈ ns → Some y ≠ x → y ∈ ns';
  fr_shrink : ∀ y, ¬ offered (srv_chunkMgr (cl_meta c)) y →
    on_node y (srv_chunkMgr (cl_meta c')) ⊆ on_node y (srv_chunkMgr (cl_meta c));
  fr_other : ∀ y, ¬ offered (srv_chunkMgr (cl_meta c)) y → Some y ≠ x →
    on_node y (srv_chunkMgr (cl_meta c')) = on_node y (srv_chunkMgr (cl_meta c));
}.

Lemma framed_same D x c c' :
  srv_chunkMgr (cl_meta c') = srv_chunkMgr (cl_meta c) →
  (∀ a id, node_holds c a id (D id) → node_holds c' a id (D id)) → framed D x c c'.
Proof. intros Hcm Hholds. split; rewrite ?Hcm; try done. eauto. Qed.

(** ** The invariant *)

(** A target a thread has chosen for a chunk. *)
Definition target_ok (c : Cluster) (t : NodeTarget) : Prop :=
  loc_GetNodeAddress (nt_NodeID t) (srv_chunkMgr (cl_meta c)) = Some (nt_Address t) ∧
  offered (srv_chunkMgr (cl_meta c)) (nt_NodeID t).

Definition chunk_ok (D : string → bytes) (c : Cluster) (id : string) (pc : mig_pc) : Prop :=
  match pc with
  | PcStart => True
  | PcMeta _ => is_Some (loc_GetChunkMeta id (srv_chunkMgr (cl_meta c)))
  | PcTarget t => is_Some (loc_GetChunkMeta id (srv_chunkMgr (cl_meta c))) ∧ target_ok c t
  | PcTransferred t =>
      is_Some (loc_GetChunkMeta id (srv_chunkMgr (cl_meta c))) ∧ target_ok c t ∧
      node_holds c (nt_Address t) id (D id)
  | PcAdded t =>
      target_ok c t ∧ ∃ ns, loc_GetChunkMeta id (srv_chunkMgr (cl_meta c)) = Some ns ∧ nt_NodeID t ∈ ns
  | PcDone _ => False
  end.

(** What a thread knows: the chunks it has still to move are on its node, and when no
    move has failed, there are no others. *)
Definition node_ok (D : string → bytes) (c : Cluster) (th : node_thread) : Prop :=
  let on := on_node (nh_node th) (srv_chunkMgr (cl_meta c)) in
  match nh_pc th with
  | NodeStart | NodeFlagged | NodeReturned None => True
  | NodeListed ids => NoDup ids ∧ on = list_to_set ids
  | NodeMoving src rest failed pc =>
      loc_GetNodeAddress (nh_node th) (srv_chunkMgr (cl_meta c)) = Some src ∧
      NoDup rest ∧ 0 ≤ failed ∧ list_to_set rest ⊆ on ∧ (failed = 0 → on ⊆ list_to_set rest) ∧
      match rest with id :: _ => chunk_ok D c id pc | [] => True end
  | NodeEnding failed | NodeReturned (Some failed) => failed = 0 → on = ∅
  end.

(** A thread between raising and clearing the flag of its node. *)
Definition active (th : node_thread) : Prop :=
  match nh_pc th with NodeStart | NodeReturned _ => False | _ => True end.

Record evac_ok (g : Ghost) (c0 : Cluster) (x : evac_state) : Prop := {
  ev_carried : carried g c0 x.1;
  ev_sources : Forall (λ th, ¬ offered (srv_chunkMgr (cl_meta x.1)) (nh_node th)) x.2;
  ev_nodes : Forall (node_ok (recorded g) x.1) x.2;
  ev_flags : Forall (λ th, active th → nh_node th ∈ busy_nodes (cl_meta x.1)) x.2;
  ev_apart : ∀ i j th th', i ≠ j → x.2 !! i = Some th → x.2 !! j = Some th' →
    active th → active th' → nh_node th ≠ nh_node th';
}.

Lemma target_ok_framed D x c c' t : framed D x c c' → target_ok c t → target_ok c' t.
Proof. intros Hf [Ha Ho]. split; [by rewrite (fr_addr _ _ _ _ Hf)|by apply (fr_offered _ _ _ _ Hf)]. Qed.

Lemma meta_framed D x c c' id :
  framed D x c c' → is_Some (loc_GetChunkMeta id (srv_chunkMgr (cl_meta c))) →
  is_Some (loc_GetChunkMeta id (srv_chunkMgr (cl_meta c'))).
Proof. intros Hf [ns Hns]. destruct (fr_meta _ _ _ _ Hf id ns Hns) as (ns' & ? & _). eauto. Qed.

Lemma chunk_ok_framed D x c c' id pc :
  (∀ z, x = Some z → ¬ offered (srv_chunkMgr (cl_meta c)) z) → framed D x c c' →
  chunk_ok D c id pc → chunk_ok D c' id pc.
Proof.
  intros Hx Hf. destruct pc as [|ex|t|t|t|b]; simpl; try done.
  - by apply (meta_framed D x).
  - intros [Hm Ht]. split; [by apply (meta_framed D x c)|by apply (target_ok_framed D x c)].
  - intros (Hm & Ht & Hh). split; [by apply (meta_framed D x c)|].
    split; [by apply (target_ok_framed D x c)|by apply (fr_holds _ _ _ _ Hf)].
  - intros [Ht (ns & Hns & Hin)]. split; [by apply (target_ok_framed D x c)|].
    destruct (fr_meta _ _ _ _ Hf id ns Hns) as (ns' & Hns' & Hkeep). exists ns'. split; [done|].
    apply Hkeep; [done|]. intros Heq. symmetry in Heq. apply (Hx _ Heq). by destruct Ht.
Qed.

(** The other threads do not notice. *)
Lemma node_ok_framed D x c c' th :
  (∀ z, x = Some z → ¬ offered (srv_chunkMgr (cl_meta c)) z) →
  ¬ offered (srv_chunkMgr (cl_meta c)) (nh_node th) → (active th → Some (nh_node th) ≠ x) → framed D x c c' → node_ok D c th → node_ok D c' th.
Proof.
  intros Hx Hth Hact Hf. unfold node_ok, active in *.
  pose proof (fr_shrink _ _ _ _ Hf _ Hth) as Hshrink. pose proof (fr_other _ _ _ _ Hf _ Hth) as Hother.
  destruct (nh_pc th) as [| |ids|src rest failed pc|failed|[failed|]]; try done.
  - rewrite Hother by auto. done.
  - rewrite Hother, (fr_addr _ _ _ _ Hf) by auto.
    intros (Ha & Hnd & Hge & Hsub & Hall & Hc). repeat (split; [done|]).
    destruct rest as [|id rest]; [done|]. exact (chunk_ok_framed D x c c' id pc Hx Hf Hc).
  - rewrite Hother by auto. done.
  - intros He Hf0. specialize (He Hf0). set_solver.
Qed.

(** ** Transfers *)

(** When files are written whole, a store either succeeds or changes no content. *)
Lemma cluster_store_whole env addr id data sum c r c' :
  whole_writes env → cluster_StoreChunk env addr (mkStoreChunkRequest id data sum) c = (r, c') →
  (∃ resp, r = Ok resp ∧ StoreChunkResponse_Success resp = true) ∨
  ∀ a i d, node_holds c a i d → node_holds c' a i d.
Proof.
  intros Hw. unfold cluster_StoreChunk. destruct (env_store _ _ _); [intros [= _ <-]; by right|].
  destruct (cl_nodes c !! addr) as [n|] eqn:Hn; [|intros [= _ <-]; by right].
  unfold DataNode.Server.StoreChunk.
  cbn [StoreChunkRequest_ChunkId StoreChunkRequest_Data StoreChunkRequest_Checksum].
  specialize (Hw addr id). destruct (dsv_disk n) as [cs fs] eqn:Hd. rewrite StoreChunk_cases.
  assert (∀ a i d, node_holds c a i d →
    node_holds (mkCluster (cl_meta c) (<[addr := set_disk (cs, fs) n]> (cl_nodes c))) a i d) as Hsame.
  { intros a i d (m & Hm & Hget). unfold node_holds. simpl. destruct (decide (a = addr)) as [->|].
    - rewrite lookup_insert_eq. eexists. split; [done|]. simplify_eq. simpl. by rewrite Hd in Hget.
    - rewrite lookup_insert_ne by done. by exists m. }
  case_decide; [intros [= _ <-]; by right|].
  destruct (env_write env addr id); [|intros [= _ <-]; by right|done].
  intros [= <- _]. left. by eexists.
Qed.

Lemma transfer_whole env src id tgt data c r c' :
  whole_writes env → nodes_ok c → plain_id id → node_holds c src id data →
  transferChunk (cluster_dial env) (cluster_TransferChunk env) src id tgt c = (r, c') →
  nodes_ok c' ∧ (r = Ok tt → node_holds c' tgt id data) ∧
  ∀ a i d, ((a, i) = (tgt, id) → d = data) → node_holds c a i d → node_holds c' a i d.
Proof.
  intros Hw Hok Hid Hsrc Hrun. destruct (cluster_transfer _ _ _ _ _ _ _ _ Hok Hid Hsrc Hrun) as (Hok' & Hkeep & Hnew).
  split; [done|]. split; [done|]. intros a i d Hd Hh.
  destruct (decide ((a, i) = (tgt, id))) as [Heq|Hne]; [|by apply Hkeep].
  rewrite (Hd Heq) in *. injection Heq as -> ->. clear Hkeep. revert Hrun Hnew.
  unfold transferChunk. destruct (cluster_dial env src c) as [[]|e|p]; [|by intros [= _ <-]..].
  unfold cluster_TransferChunk. destruct (env_transfer _ _ _); [by intros [= _ <-]|].
  destruct (cl_nodes c !! src) as [n|]; [|by intros [= _ <-]].
  unfold DataNode.Server.TransferChunk. cbn [TransferChunkRequest_ChunkId TransferChunkRequest_TargetAddress].
  destruct (ChunkStore.GetChunk _ _ _) as [[bs sum]|e|p]; [|by intros [= _ <-]..].
  destruct (cluster_dial env tgt c) as [[]|e|p]; [|by intros [= _ <-]..].
  destruct (cluster_StoreChunk env tgt _ c) as [rs c1] eqn:Hs.
  apply cluster_store_whole in Hs as [(resp & -> & Hsucc)|Hall]; [| |done].
  - rewrite Hsucc. intros [= <- <-] Hnew. by apply Hnew.
  - destruct rs as [resp|e|p]; [destruct (StoreChunkResponse_Success resp)|..]; intros [= _ <-] _; by apply Hall.
Qed.

Lemma transferred env x src id t c r c' g :
  whole_writes env → sys_inv c g → copies_ok c g →
  loc_GetNodeAddress x (srv_chunkMgr (cl_meta c)) = Some src → id ∈ on_node x (srv_chunkMgr (cl_meta c)) →
  is_Some (loc_GetChunkMeta id (srv_chunkMgr (cl_meta c))) →
  transferChunk (cluster_dial env) (cluster_TransferChunk env) src id (nt_Address t) c = (r, c') →
  let c2 := mkCluster (cl_meta c) (cl_nodes c') in
  carried g c c2 ∧ framed (recorded g) (Some x) c c2 ∧ (r = Ok tt → node_holds c2 (nt_Address t) id (recorded g id)).
Proof.
  intros Hw Hsys (Hserves & Hstale & Hplain & Hok) Ha Hon [ns Hns] Hrun c2.
  assert (node_holds c src id (recorded g id)) as Hsrc
    by (eapply Hserves; [exact Hns|by eapply Hstale|exact Ha]).
  destruct (transfer_whole env src id _ _ c r c' Hw Hok (Hplain id ltac:(eauto)) Hsrc Hrun) as (Hok' & Hnew & Hkeep).
  assert (∀ a i, node_holds c a i (recorded g i) → node_holds c2 a i (recorded g i)) as Hholds.
  { intros a i. apply Hkeep. by intros [= _ ->]. }
  split; [|split; [by apply framed_same|exact Hnew]].
  split; [|split; [|split; [|split]]|done..].
  - apply (sys_inv_nodes c); [done..|]. exact (transferChunk_tables _ _ _ _ _ _ _ _ (sys_inv_tables _ _ Hsys) Hrun).
  - intros cid ms nid addr Hm Hin Hna. apply Hholds. by eapply Hserves.
  - exact Hstale.
  - exact Hplain.
  - exact Hok'.
Qed.

(** ** Updates of the registry *)
Lemma alter_chunks_status f k (N : gmap string DataNodeInfo) x :
  dn_Status <$> alter (set_Chunks f) k N !! x = dn_Status <$> N !! x.
Proof.
  destruct (decide (x = k)) as [->|].
  - rewrite lookup_alter_eq. by destruct (N !! k).
  - by rewrite lookup_alter_ne.
Qed.

Lemma offered_status cm cm' x :
  dn_Status <$> cm_nodes cm' !! x = dn_Status <$> cm_nodes cm !! x → offered cm' x ↔ offered cm x.
Proof.
  unfold offered, targetable. intros Hs.
  destruct (cm_nodes cm !! x) as [n|], (cm_nodes cm' !! x) as [n'|]; try done.
  injection Hs as Hs. split; intros (m & [= <-] & Hm); eexists; (split; [done|congruence]).
Qed.

Lemma live_chunk_kept cm cm' id :
  (∀ x, dn_Status <$> cm_nodes cm' !! x = dn_Status <$> cm_nodes cm !! x) →
  (∀ m nid, cm_chunks cm !! id = Some m → nid ∈ ck_NodeIDs m →
     ∃ m', cm_chunks cm' !! id = Some m' ∧ nid ∈ ck_NodeIDs m') →
  live_chunk cm id → live_chunk cm' id.
Proof.
  intros Hs Hc (m & nid & n & Hm & Hin & Hn & Hd). destruct (Hc m nid Hm Hin) as (m' & Hm' & Hin').
  specialize (Hs nid). rewrite Hn in Hs. apply fmap_Some in Hs as (n' & Hn' & Heq).
  exists m', nid, n'. split; [done|]. split; [done|]. split; [done|congruence].
Qed.

Lemma meta_chunks cm id ns :
  loc_GetChunkMeta id cm = Some ns ↔ ∃ m, cm_chunks cm !! id = Some m ∧ ck_NodeIDs m = ns.
Proof.
  simpl. unfold adapter_GetChunkMeta, GetChunkMeta. destruct (cm_chunks cm !! id) as [m|]; [|naive_solver].
  split; [intros [= <-]; eauto|]. by intros (m' & [= <-] & <-).
Qed.

(** AddChunkToNode with a target that holds the chunk. *)
Lemma added x id t c g :
  sys_inv c g → copies_ok c g → ¬ offered (srv_chunkMgr (cl_meta c)) x →
  is_Some (loc_GetChunkMeta id (srv_chunkMgr (cl_meta c))) → target_ok c t →
  node_holds c (nt_Address t) id (recorded g id) →
  let cm' := AddChunkToNode id (nt_NodeID t) (srv_chunkMgr (cl_meta c)) in
  let c' := mkCluster (set_chunkMgr cm' (cl_meta c)) (cl_nodes c) in
  carried g c c' ∧ framed (recorded g) (Some x) c c' ∧
  ∃ ns, loc_GetChunkMeta id cm' = Some ns ∧ nt_NodeID t ∈ ns.
Proof.
  intros Hsys (Hserves & Hstale & Hplain & Hok) Hx [ns0 Hns0] [Ha Hoff] Hheld cm' c'.
  set (cm := srv_chunkMgr (cl_meta c)) in *. set (to := nt_NodeID t) in *.
  assert (∀ y, loc_GetNodeAddress y cm' = loc_GetNodeAddress y cm) as Haddr by exact (loc_add_addr cm id to).
  assert (∀ y, dn_Status <$> cm_nodes cm' !! y = dn_Status <$> cm_nodes cm !! y) as Hstat
    by (intros y; unfold cm'; rewrite AddChunkToNode_nodes; apply alter_chunks_status).
  assert (∀ y, on_node y cm' = if decide (y = to) then {[id]} ∪ on_node y cm else on_node y cm) as Hon
    by (intros y; exact (loc_add_on cm id to y (mk_is_Some _ _ Ha))).
  pose proof (loc_add_meta cm id to) as Hmeta. change (loc_AddChunkToNode id to cm) with cm' in Hmeta.
  assert (∀ i ns, loc_GetChunkMeta i cm = Some ns → ∃ ns', loc_GetChunkMeta i cm' = Some ns' ∧ (∀ y, y ∈ ns → y ∈ ns')
    ∧ (i = id → to ∈ ns')) as Hgrow.
  { intros i ns Hi. rewrite Hmeta, Hi. simpl. case_decide as Hid; [|by exists ns; naive_solver].
    eexists. split; [done|]. case_decide; set_solver. }
  split; [split; [|split; [|split; [|split]]| | |]|split].
  - eapply admin_sys_inv; [exact Hsys|]. apply admin_AddChunkToNode. destruct Hoff as (n & Hn & _). eauto.
  - intros i ns nid a Hi Hin Hna. change (loc_GetChunkMeta i cm' = Some ns) in Hi. rewrite Haddr in Hna.
    rewrite Hmeta in Hi. case_decide as Hid; [subst i|by eapply Hserves]. rewrite Hns0 in Hi. injection Hi as <-.
    assert (nid ∈ ns0 ∨ nid = to) as [Hold| ->] by (case_decide; set_solver); [by eapply Hserves|].
    rewrite Ha in Hna. by injection Hna as <-.
  - intros i ns nid Hi. change (loc_GetChunkMeta i cm' = Some ns) in Hi. change (loc_on nid cm') with (on_node nid cm').
    rewrite Hon. intros Hin. rewrite Hmeta in Hi. destruct (decide (i = id)) as [Hid|Hid].
    + subst i. rewrite Hns0 in Hi. injection Hi as <-. destruct (decide (nid = to)) as [->|Hne]; [case_decide; set_solver|].
      pose proof (Hstale id ns0 nid Hns0 Hin). case_decide; set_solver.
    + apply (Hstale i ns nid Hi). case_decide; [set_solver|done].
  - intros i Hi. apply Hplain. change (is_Some (loc_GetChunkMeta i cm')) in Hi. rewrite Hmeta in Hi.
    case_decide; [|done]. by apply fmap_is_Some in Hi.
  - exact Hok.
  - done.
  - exact Haddr.
  - intros i. apply live_chunk_kept; [exact Hstat|]. intros m nid Hm Hin.
    destruct (Hgrow i (ck_NodeIDs m)) as (ns' & (m' & Hm' & <-)%meta_chunks & Hk & _); [apply meta_chunks; eauto|].
    exists m'. auto.
  - split; [exact Haddr|intros y; by apply offered_status|done| | |].
    + intros i ns Hi. destruct (Hgrow i ns Hi) as (ns' & ? & ? & _). eauto.
    + intros y Hy. change (on_node y cm' ⊆ on_node y cm). rewrite Hon, decide_False; [done|]. by intros ->.
    + intros y Hy _. change (on_node y cm' = on_node y cm). rewrite Hon, decide_False; [done|]. by intros ->.
  - destruct (Hgrow id ns0 Hns0) as (ns' & ? & _ & Ht). exists ns'. auto.
Qed.

(** RemoveChunkFromNode when the chunk has a target among its replicas. *)
Lemma removed x id t c g :
  sys_inv c g → copies_ok c g → ¬ offered (srv_chunkMgr (cl_meta c)) x → target_ok c t →
  (∃ ns, loc_GetChunkMeta id (srv_chunkMgr (cl_meta c)) = Some ns ∧ nt_NodeID t ∈ ns) →
  let cm' := RemoveChunkFromNode id x (srv_chunkMgr (cl_meta c)) in
  let c' := mkCluster (set_chunkMgr cm' (cl_meta c)) (cl_nodes c) in
  carried g c c' ∧ framed (recorded g) (Some x) c c' ∧
  on_node x cm' = on_node x (srv_chunkMgr (cl_meta c)) ∖ {[id]}.
Proof.
  intros Hsys (Hserves & Hstale & Hplain & Hok) Hx [Ha Hoff] (ns0 & Hns0 & Hto) cm' c'.
  pose proof (srv_inv_cm _ (si_meta _ _ Hsys)) as Hcm.
  set (cm := srv_chunkMgr (cl_meta c)) in *. set (to := nt_NodeID t) in *.
  pose proof (loc_meta_nodup cm id ns0 Hcm Hns0) as Hnd.
  assert (to ≠ x) as Htx by (by intros ->).
  assert (∀ y, loc_GetNodeAddress y cm' = loc_GetNodeAddress y cm) as Haddr by exact (loc_remove_addr cm id x).
  assert (∀ y, dn_Status <$> cm_nodes cm' !! y = dn_Status <$> cm_nodes cm !! y) as Hstat
    by (intros y; unfold cm'; rewrite RemoveChunkFromNode_nodes; apply alter_chunks_status).
  assert (∀ y, on_node y cm' = if decide (y = x) then on_node y cm ∖ {[id]} else on_node y cm) as Hon
    by exact (loc_remove_on cm id x).
  pose proof (loc_remove_meta cm id x) as Hmeta. change (loc_RemoveChunkFromNode id x cm) with cm' in Hmeta.
  assert (∀ i ns', loc_GetChunkMeta i cm' = Some ns' → ∃ ns, loc_GetChunkMeta i cm = Some ns ∧
    (∀ y, y ∈ ns' ↔ y ∈ ns ∧ (i = id → y ≠ x))) as Hback.
  { intros i ns' Hi. rewrite Hmeta in Hi. case_decide as Hid; [|by exists ns'; naive_solver].
    subst i. rewrite Hns0 in Hi. injection Hi as <-. exists ns0. split; [done|]. intros y.
    rewrite remove_first_elem by done. naive_solver. }
  split; [split; [|split; [|split; [|split]]| | |]|split].
  - eapply admin_sys_inv; [exact Hsys|]. apply admin_RemoveChunkFromNode.
  - intros i ns' nid a Hi Hin Hna. rewrite Haddr in Hna. destruct (Hback i ns' Hi) as (ns & Hns & Hiff).
    apply (Hserves i ns nid a Hns); [by apply Hiff|done].
  - intros i ns' nid Hi. destruct (Hback i ns' Hi) as (ns & Hns & Hiff). change (loc_on nid cm') with (on_node nid cm').
    rewrite Hon. intros Hin. apply Hiff. split; [|intros -> ->; rewrite decide_True in Hin by done; set_solver].
    apply (Hstale i ns nid Hns). case_decide; set_solver.
  - intros i [ns' Hi]. destruct (Hback i ns' Hi) as (ns & Hns & _). apply Hplain. eauto.
  - exact Hok.
  - done.
  - exact Haddr.
  - intros i Hl. destruct (decide (i = id)) as [->|Hne].
    + destruct Hoff as (n & Hn & Hs). specialize (Hstat to). rewrite Hn in Hstat.
      apply fmap_Some in Hstat as (n' & Hn' & Heq).
      assert (loc_GetChunkMeta id cm' = Some (remove_first x ns0)) as (m' & Hm' & Hids)%meta_chunks
        by (by rewrite Hmeta, decide_True, Hns0).
      exists m', to, n'. split; [done|]. split; [rewrite Hids; by apply remove_first_elem|]. split; [done|].
      destruct Hs as [Hs|Hs]; congruence.
    + revert Hl. apply live_chunk_kept; [exact Hstat|]. intros m nid Hm Hin.
      assert (loc_GetChunkMeta i cm' = Some (ck_NodeIDs m)) as (m' & Hm' & Hids)%meta_chunks.
      { rewrite Hmeta, decide_False by done. apply meta_chunks. eauto. }
      exists m'. by rewrite Hids.
  - split; [exact Haddr|intros y; by apply offered_status|done| | |].
    + intros i ns Hi. change (∃ ns', loc_GetChunkMeta i cm' = Some ns' ∧ ∀ y, y ∈ ns → Some y ≠ Some x → y ∈ ns').
      change (loc_GetChunkMeta i cm = Some ns) in Hi. rewrite Hmeta, Hi. case_decide; [|by exists ns]. eexists. split; [done|].
      intros y Hy Hyx. apply remove_first_other; [done|]. by intros ->.
    + intros y _. change (on_node y cm' ⊆ on_node y cm). rewrite Hon. case_decide; set_solver.
    + intros y _ Hy. change (on_node y cm' = on_node y cm). rewrite Hon, decide_False; [done|]. by intros ->.
  - by rewrite Hon, decide_True.
Qed.

(** ** A step of a thread *)

(** The cluster with another registry, other data nodes and other flags. *)
Definition after (c : Cluster) (busy : gset string) (cm : ChunkManager) (c2 : Cluster) : Cluster :=
  mkCluster (set_busy busy (set_chunkMgr cm (cl_meta c))) (cl_nodes c2).

Lemma carried_after g c busy cm c2 :
  carried g c (mkCluster (set_chunkMgr cm (cl_meta c)) (cl_nodes c2)) → carried g c (after c busy cm c2).
Proof. intros [[[? ? ?] ? ? ? ?] ? ? ? ?]. by split; [split; [split|..]|..]. Qed.

Lemma framed_after D x c busy cm c2 :
  framed D x c (mkCluster (set_chunkMgr cm (cl_meta c)) (cl_nodes c2)) → framed D x c (after c busy cm c2).
Proof. intros [? ? ? ? ? ?]. by split. Qed.

Lemma unchanged g x c busy :
  sys_inv c g → copies_ok c g →
  carried g c (after c busy (srv_chunkMgr (cl_meta c)) c) ∧
  framed (recorded g) x c (after c busy (srv_chunkMgr (cl_meta c)) c).
Proof.
  intros Hs Hc. split; [|by apply framed_same]. apply carried_after.
  replace (mkCluster _ _) with c; [by apply carried_refl|by destruct c as [[] ?]].
Qed.

(** A call of the move of one chunk. *)
Lemma chunk_step env ord id x src pc c cm2 c2 th2 g :
  whole_writes env → sys_inv c g → copies_ok c g → ¬ offered (srv_chunkMgr (cl_meta c)) x →
  map_order (cm_nodes (srv_chunkMgr (cl_meta c))) ord →
  loc_GetNodeAddress x (srv_chunkMgr (cl_meta c)) = Some src → id ∈ on_node x (srv_chunkMgr (cl_meta c)) →
  chunk_ok (recorded g) c id pc →
  thread_step (cluster_dial env) (cluster_TransferChunk env) ord (mkMigThread id x src pc)
    (srv_chunkMgr (cl_meta c), c) = Some ((cm2, c2), th2) →
  let c' := mkCluster (set_chunkMgr cm2 (cl_meta c)) (cl_nodes c2) in
  carried g c c' ∧ framed (recorded g) (Some x) c c' ∧
  match th_pc th2 with
  | PcDone true => on_node x cm2 = on_node x (srv_chunkMgr (cl_meta c)) ∖ {[id]}
  | PcDone false => on_node x cm2 = on_node x (srv_chunkMgr (cl_meta c))
  | pc2 => chunk_ok (recorded g) c' id pc2 ∧ on_node x cm2 = on_node x (srv_chunkMgr (cl_meta c))
  end.
Proof.
  intros Hw Hsys Hcopies Hx Hord Ha Hon Hpc Hstep. set (cm := srv_chunkMgr (cl_meta c)) in *.
  pose proof (srv_inv_cm _ (si_meta _ _ Hsys)) as Hcm.
  assert (mkCluster (set_chunkMgr cm (cl_meta c)) (cl_nodes c) = c) as Heta by (by destruct c as [[] ?]).
  assert (carried g c c ∧ framed (recorded g) (Some x) c c) as [Hcar Hfr].
  { split; [by apply carried_refl|by apply framed_same]. }
  destruct pc as [|ex|t|t|t|b]; cbn [thread_step th_pc th_chunk th_from th_src] in Hstep; [..|done].
  - destruct (loc_GetChunkMeta id cm) as [ns|] eqn:Hm; injection Hstep as <- <- <-; rewrite Heta;
      (split; [done|]); (split; [done|]); cbn [th_pc at_pc]; [|done]. split; [by eexists|done].
  - pose proof (loc_targets cm ord ex) as Ht. pose proof (adapter_target_elem ord ex cm) as Hel.
    change (adapter_GetHealthyNodeAddresses ord ex cm) with (loc_GetHealthyNodeAddresses ord ex cm) in Hel.
    destruct (loc_GetHealthyNodeAddresses ord ex cm) as [|t ts]; injection Hstep as <- <- <-; rewrite Heta;
      (split; [done|]); (split; [done|]); cbn [th_pc at_pc]; [done|].
    destruct (Ht t Hcm Hord ltac:(left)) as [_ Hta].
    destruct (proj1 (Hel t Hcm Hord) ltac:(left)) as (_ & n & Hn & _ & Hs).
    split; [|done]. split; [done|]. split; [done|]. by exists n.
  - destruct Hpc as [Hmeta Htok].
    destruct (transferChunk _ _ _ _ _ _) as [[[]|e|w] cw] eqn:Htr; [..|done]; injection Hstep as <- <- <-;
      destruct (transferred env x src id t c _ _ g Hw Hsys Hcopies Ha Hon Hmeta Htr) as (Hc' & Hf' & Hnew);
      replace (set_chunkMgr cm (cl_meta c)) with (cl_meta c) by (by destruct c as [[] ?]);
      (split; [done|]); (split; [done|]); cbn [th_pc at_pc]; [|done].
    split; [|done]. split; [done|]. split; [done|]. by apply Hnew.
  - destruct Hpc as (Hmeta & Htok & Hheld). injection Hstep as <- <- <-.
    destruct (added x id t c g Hsys Hcopies Hx Hmeta Htok Hheld) as (Hc' & Hf' & Hlisted).
    split; [done|]. split; [done|]. cbn [th_pc at_pc]. split; [|].
    + split; [|done]. by apply (target_ok_framed (recorded g) (Some x) c).
    + change (on_node x (loc_AddChunkToNode id (nt_NodeID t) cm) = on_node x cm).
      change (on_node x (loc_AddChunkToNode id (nt_NodeID t) cm)) with (loc_on x (loc_AddChunkToNode id (nt_NodeID t) cm)).
      rewrite (loc_add_on cm id (nt_NodeID t) x (mk_is_Some _ _ (proj1 Htok))), decide_False; [done|].
      intros ->. by destruct Htok.
  - destruct Hpc as [Htok Hlisted]. injection Hstep as <- <- <-.
    destruct (removed x id t c g Hsys Hcopies Hx Htok Hlisted) as (Hc' & Hf' & Hon').
    split; [done|]. split; [done|]. exact Hon'.
Qed.

Lemma list_to_set_cons_sub (id : string) rest (X : gset string) :
  NoDup (id :: rest) → list_to_set (id :: rest) ⊆ X → list_to_set rest ⊆ X ∖ {[id]}.
Proof. intros [Hid _]%NoDup_cons Hsub y. rewrite elem_of_list_to_set. set_solver. Qed.

(** What a thread's step does to the flags. *)
Definition flags_kept (x : string) (busy busy' : gset string) (before after : Prop) : Prop :=
  (after → x ∈ busy') ∧ (∀ y, y ∈ busy → (before → y ≠ x) → y ∈ busy') ∧ (after → before ∨ x ∉ busy).

(** The chunk being moved: the call, and what is left of the list. *)
Lemma moving_step env ord x src id rest failed pc c cm2 c2 th2 busy g :
  let c' := after c busy cm2 c2 in
  whole_writes env → sys_inv c g → copies_ok c g → ¬ offered (srv_chunkMgr (cl_meta c)) x →
  map_order (cm_nodes (srv_chunkMgr (cl_meta c))) ord →
  node_ok (recorded g) c (mkNodeThread x (NodeMoving src (id :: rest) failed pc)) →
  thread_step (cluster_dial env) (cluster_TransferChunk env) ord (mkMigThread id x src pc)
    (srv_chunkMgr (cl_meta c), c) = Some ((cm2, c2), th2) →
  carried g c c' ∧ framed (recorded g) (Some x) c c' ∧
  node_ok (recorded g) c' (mkNodeThread x
    match th_pc th2 with
    | PcDone true => NodeMoving src rest failed PcStart
    | PcDone false => NodeMoving src rest (failed + 1) PcStart
    | pc' => NodeMoving src (id :: rest) failed pc'
    end).
Proof.
  intros c' Hw Hsys Hcopies Hx Hord (Ha & Hnd & Hge & Hsub & Hall & Hpc) Hstep. cbn [nh_node nh_pc] in *.
  assert (id ∈ on_node x (srv_chunkMgr (cl_meta c))) as Hon by (apply Hsub, elem_of_list_to_set; left).
  destruct (chunk_step _ _ _ _ _ _ _ _ _ _ _ Hw Hsys Hcopies Hx Hord Ha Hon Hpc Hstep) as (Hcar & Hfr & Hpost).
  split; [by apply carried_after|]. split; [by apply framed_after|].
  assert (loc_GetNodeAddress x cm2 = Some src) as Ha2 by (by rewrite <- Ha; apply (fr_addr _ _ _ _ Hfr x)).
  apply NoDup_cons in Hnd as Hnd2. destruct Hnd2 as [Hid Hnd2].
  assert (∀ pc2, chunk_ok (recorded g) (mkCluster (set_chunkMgr cm2 (cl_meta c)) (cl_nodes c2)) id pc2 ∧
    on_node x cm2 = on_node x (srv_chunkMgr (cl_meta c)) →
    node_ok (recorded g) c' (mkNodeThread x (NodeMoving src (id :: rest) failed pc2))) as Hgo.
  { intros pc2 [Hc Heq]. unfold node_ok. cbn [nh_node nh_pc].
    change (srv_chunkMgr (cl_meta c')) with cm2. rewrite Heq. by destruct pc2. }
  destruct (th_pc th2) as [|ex|t|t|t|[]]; [by apply Hgo..| |];
    unfold node_ok; cbn [nh_node nh_pc]; change (srv_chunkMgr (cl_meta c')) with cm2; rewrite Hpost;
    (split; [exact Ha2|]); (split; [exact Hnd2|]); (split; [lia|]); (split; [|split; [|by destruct rest]]).
  - by apply list_to_set_cons_sub.
  - intros Hf. specialize (Hall Hf). set_solver.
  - set_solver.
  - lia.
Qed.

Lemma node_thread_step env cord ord th c c' th' g :
  whole_writes env → sys_inv c g → copies_ok c g →
  ¬ offered (srv_chunkMgr (cl_meta c)) (nh_node th) →
  set_order (on_node (nh_node th) (srv_chunkMgr (cl_meta c))) cord →
  map_order (cm_nodes (srv_chunkMgr (cl_meta c))) ord →
  node_ok (recorded g) c th → (active th → nh_node th ∈ busy_nodes (cl_meta c)) →
  cluster_node_step env cord ord th c = Some (c', th') →
  carried g c c' ∧
  (∃ x, framed (recorded g) x c c' ∧ (x = None ∨ x = Some (nh_node th) ∧ active th)) ∧ nh_node th' = nh_node th ∧
  node_ok (recorded g) c' th' ∧
  flags_kept (nh_node th) (busy_nodes (cl_meta c)) (busy_nodes (cl_meta c')) (active th) (active th').
Proof.
  intros Hw Hsys Hcopies Hx Hcord Hord Hok Hbusy. unfold cluster_node_step.
  destruct (node_step _ _ _ _ _ _) as [[[busy [cm c2]] th2]|] eqn:Hstep; [|done]. intros [= <- <-].
  fold (after c busy cm c2). destruct th as [x pc]. cbn [nh_node] in *.
  assert (∀ b pc2, node_ok (recorded g) c (mkNodeThread x pc2) →
    flags_kept x (busy_nodes (cl_meta c)) b (active (mkNodeThread x pc)) (active (mkNodeThread x pc2)) →
    let c' := after c b (srv_chunkMgr (cl_meta c)) c in
    carried g c c' ∧ (∃ y, framed (recorded g) y c c' ∧ (y = None ∨ y = Some x ∧ active (mkNodeThread x pc))) ∧ x = x ∧ node_ok (recorded g) c' (mkNodeThread x pc2) ∧
    flags_kept x (busy_nodes (cl_meta c)) (busy_nodes (cl_meta c')) (active (mkNodeThread x pc))
      (active (mkNodeThread x pc2))) as Hstill.
  { intros b pc2 Hok2 Hflags c'. destruct (unchanged g None c b Hsys Hcopies) as [Hc Hf]. 
    split; [exact Hc|]. split; [exists None; auto|]. split; [done|]. split; [exact Hok2|exact Hflags]. }
  assert (∀ pc2, (active (mkNodeThread x pc2) → active (mkNodeThread x pc)) →
    flags_kept x (busy_nodes (cl_meta c)) (busy_nodes (cl_meta c)) (active (mkNodeThread x pc))
      (active (mkNodeThread x pc2))) as Hflags by (intros pc2 Hact; split; [|split]; auto).
  destruct pc as [| |ids|src [|id rest] failed pc|failed|rep]; unfold node_step in Hstep;
    cbn [nh_node nh_pc fst] in Hstep; unfold at_node_pc in Hstep; cbn [nh_node] in Hstep.
  - case_decide as Hflag; injection Hstep as <- <- <- <-; apply Hstill; [done|apply Hflags; simpl; tauto|done|].
    split; [set_solver|]. split; [set_solver|by right].
  - pose proof (loc_chunks_on (srv_chunkMgr (cl_meta c)) x cord Hcord) as Hids.
    assert (NoDup (loc_GetChunksOnNode cord x (srv_chunkMgr (cl_meta c)))) as Hnd
      by (rewrite Hids; apply NoDup_elements).
    change loc_on with on_node in Hids.
    assert (on_node x (srv_chunkMgr (cl_meta c)) = list_to_set (loc_GetChunksOnNode cord x (srv_chunkMgr (cl_meta c))))
      as Hon by (apply set_eq; intros y; by rewrite elem_of_list_to_set, Hids, elem_of_elements).
    case_decide as Hlen; injection Hstep as <- <- <- <-; apply Hstill; [|apply Hflags; simpl; tauto|done|apply Hflags; simpl; tauto].
    intros _. cbn [nh_node]. apply nil_length_inv in Hlen. by rewrite Hon, Hlen.
  - destruct Hok as [Hnd Hon]. cbn [nh_node] in Hon.
    destruct (loc_GetNodeAddress x (srv_chunkMgr (cl_meta c))) as [src|] eqn:Ha; injection Hstep as <- <- <- <-;
      apply Hstill; [|apply Hflags; simpl; tauto| |apply Hflags; simpl; tauto].
    + unfold node_ok. cbn [nh_node nh_pc]. rewrite Hon. repeat (split; [done|]). by destruct ids.
    + intros _. cbn [nh_node]. simpl in Ha. unfold adapter_GetNodeAddress, GetNode in Ha. unfold on_node.
      by destruct (cm_nodes _ !! x).
  - injection Hstep as <- <- <- <-. apply Hstill; [|apply Hflags; simpl; tauto].
    destruct Hok as (_ & _ & _ & _ & Hall & _). cbn [nh_node] in Hall. intros Hf. specialize (Hall Hf).
    cbn [nh_node]. set_solver.
  - destruct (thread_step _ _ _ _ _) as [[[cm2 c3] th3]|] eqn:Hth; [|done]. injection Hstep as <- <- <- <-.
    destruct (moving_step _ _ _ _ _ _ _ _ _ _ _ _ (busy_nodes (cl_meta c)) _ Hw Hsys Hcopies Hx Hord Hok Hth)
      as (Hc & Hf & Hok2).
    split; [exact Hc|]. split; [exists (Some x); split; [exact Hf|right; split; [done|exact I]]|]. split; [done|]. split; [exact Hok2|].
    split; [intros _; by apply Hbusy|]. split; [done|by left].
  - injection Hstep as <- <- <- <-. apply Hstill; [exact Hok|].
    split; [done|]. split; [set_solver|done].
  - done.
Qed.

(** ** Quiet steps *)
Lemma quiet_node s s' k n : quiet s s' → cm_nodes (srv_chunkMgr s) !! k = Some n →
  ∃ n', cm_nodes (srv_chunkMgr s') !! k = Some n' ∧ node_quiet n n'.
Proof.
  intros Hq Hn. pose proof (qt_nodes _ _ Hq k) as Hk. rewrite Hn in Hk. inversion Hk as [x y Hxy|]; subst. eauto.
Qed.

Lemma quiet_none s s' k : quiet s s' → cm_nodes (srv_chunkMgr s) !! k = None → cm_nodes (srv_chunkMgr s') !! k = None.
Proof. intros Hq Hn. pose proof (qt_nodes _ _ Hq k) as Hk. rewrite Hn in Hk. by inversion Hk. Qed.

Lemma quiet_step s' c g :
  quiet (cl_meta c) s' → sys_inv c g → copies_ok c g →
  let c' := mkCluster s' (cl_nodes c) in carried g c c' ∧ framed (recorded g) None c c'.
Proof.
  intros Hq Hsys Hcopies c'. set (cm := srv_chunkMgr (cl_meta c)).
  assert (∀ y, loc_GetNodeAddress y (srv_chunkMgr s') = loc_GetNodeAddress y cm) as Haddr.
  { intros y. simpl. unfold adapter_GetNodeAddress, GetNode. unfold cm. destruct (cm_nodes (srv_chunkMgr (cl_meta c)) !! y) as [n|] eqn:Hn.
    - by destruct (quiet_node _ _ _ _ Hq Hn) as (n' & -> & -> & _).
    - by rewrite (quiet_none _ _ _ Hq Hn). }
  assert (∀ y, on_node y (srv_chunkMgr s') = on_node y cm) as Hon.
  { intros y. unfold on_node, cm. destruct (cm_nodes (srv_chunkMgr (cl_meta c)) !! y) as [n|] eqn:Hn.
    - by destruct (quiet_node _ _ _ _ Hq Hn) as (n' & -> & _ & -> & _).
    - by rewrite (quiet_none _ _ _ Hq Hn). }
  assert (∀ i, loc_GetChunkMeta i (srv_chunkMgr s') = loc_GetChunkMeta i cm) as Hmeta.
  { intros i. simpl. unfold adapter_GetChunkMeta, GetChunkMeta. by rewrite (qt_chunks _ _ Hq). }
  destruct Hcopies as (Hserves & Hstale & Hplain & Hok). split; [split; [|split; [|split; [|split]]| | |]|].
  - apply admin_sys_inv; [done|]. by apply qt_step.
  - intros i ns nid a Hi Hin Ha. rewrite Haddr in Ha. rewrite Hmeta in Hi. by eapply Hserves.
  - intros i ns nid Hi Hin. rewrite Hmeta in Hi. apply (Hstale i ns nid Hi).
    change (i ∈ on_node nid (srv_chunkMgr s')) in Hin. by rewrite Hon in Hin.
  - intros i Hi. rewrite Hmeta in Hi. by apply Hplain.
  - exact Hok.
  - by apply qt_ns.
  - exact Haddr.
  - intros i (m & nid & n & Hm & Hin & Hn & Hd). destruct (quiet_node _ _ _ _ Hq Hn) as (n' & Hn' & _ & _ & Hd' & _).
    exists m, nid, n'. cbn [cl_meta c']. rewrite (qt_chunks _ _ Hq). auto.
  - split; [exact Haddr| |done| | |].
    + intros y. unfold offered. cbn [cl_meta c']. split.
      * intros (n' & Hn' & Ht). destruct (cm_nodes cm !! y) as [n|] eqn:Hn; [|by rewrite (quiet_none _ _ _ Hq Hn) in Hn'].
        destruct (quiet_node _ _ _ _ Hq Hn) as (n2 & Hn2 & _ & _ & _ & Hiff). rewrite Hn' in Hn2. injection Hn2 as <-.
        exists n. split; [done|]. by apply Hiff.
      * intros (n & Hn & Ht). destruct (quiet_node _ _ _ _ Hq Hn) as (n2 & Hn2 & _ & _ & _ & Hiff).
        exists n2. split; [done|]. by apply Hiff.
    + intros i ns Hi. exists ns. split; [by rewrite Hmeta|done].
    + intros y _. by rewrite Hon.
    + intros y _ _. by rewrite Hon.
Qed.

(** ** Every step keeps the invariant *)
Lemma evac_ok_framed g c0 c c' ths x :
  (∀ z, x = Some z → ¬ offered (srv_chunkMgr (cl_meta c)) z) → carried g c c' → framed (recorded g) x c c' →
  evac_ok g c0 (c, ths) → carried g c0 c' ∧
  Forall (λ th, ¬ offered (srv_chunkMgr (cl_meta c')) (nh_node th)) ths ∧
  Forall (λ th, (active th → Some (nh_node th) ≠ x) → node_ok (recorded g) c' th) ths.
Proof.
  intros Hx Hcar Hfr [Hc Hsrc Hn _ _]. cbn [fst snd] in *. split; [by eapply carried_trans|].
  split; apply Forall_lookup; intros j th Hj; pose proof (Forall_lookup_1 _ _ _ _ Hsrc Hj) as Hth.
  - by rewrite (fr_offered _ _ _ _ Hfr).
  - intros Hact. eapply node_ok_framed; [exact Hx|exact Hth|exact Hact|exact Hfr|].
    exact (Forall_lookup_1 _ _ _ _ Hn Hj).
Qed.

Lemma evac_thread_ok g c0 c ths i env cord ord th c' th' :
  ths !! i = Some th → whole_writes env →
  set_order (on_node (nh_node th) (srv_chunkMgr (cl_meta c))) cord →
  map_order (cm_nodes (srv_chunkMgr (cl_meta c))) ord →
  cluster_node_step env cord ord th c = Some (c', th') →
  evac_ok g c0 (c, ths) → evac_ok g c0 (c', <[i := th']> ths).
Proof.
  intros Hi Hw Hcord Hord Hstep Hok. pose proof Hok as [Hcar Hsrc Hn Hflags Hapart]. cbn [fst snd] in *.
  pose proof (Forall_lookup_1 _ _ _ _ Hsrc Hi) as Hx. simpl in Hx.
  destruct (node_thread_step env cord ord th c c' th' g Hw (ca_sys _ _ _ Hcar) (ca_copies _ _ _ Hcar) Hx Hcord Hord
    (Forall_lookup_1 _ _ _ _ Hn Hi) (Forall_lookup_1 _ _ _ _ Hflags Hi) Hstep)
    as (Hcar' & (x & Hfr & Hmover) & Hnode & Hok' & Hbusy1 & Hbusy2 & Hact').
  destruct (evac_ok_framed g c0 c c' ths x) as (Hcar2 & Hsrc2 & Hn2); [|done..|].
  { intros z ->. by destruct Hmover as [?|[[= ->] _]]. }
  assert (∀ j th2, i ≠ j → ths !! j = Some th2 → active th2 → active th' → nh_node th2 ≠ nh_node th) as Hother.
  { intros j th2 Hij Hj Ha2 Ha' Heq. destruct (Hact' Ha') as [Ha|Hno].
    - by apply (Hapart i j th th2 Hij Hi Hj Ha Ha2).
    - apply Hno. rewrite <- Heq. by apply (Forall_lookup_1 _ _ _ _ Hflags Hj). }
  split; cbn [fst snd]; [done|apply Forall_lookup; intros j t Hj..|].
  - apply list_lookup_insert_Some in Hj as [(-> & <- & _)|[Hne Hj]].
    + rewrite Hnode. by rewrite (fr_offered _ _ _ _ Hfr).
    + exact (Forall_lookup_1 _ _ _ _ Hsrc2 Hj).
  - apply list_lookup_insert_Some in Hj as [(-> & <- & _)|[Hne Hj]]; [done|].
    apply (Forall_lookup_1 _ _ _ _ Hn2 Hj). intros Ha Heq. destruct Hmover as [->|[-> Hath]]; [done|].
    injection Heq as Heq. by apply (Hapart i j th t Hne Hi Hj Hath Ha).
  - apply list_lookup_insert_Some in Hj as [(-> & <- & _)|[Hne Hj]]; [by rewrite Hnode|].
    intros Ha. apply Hbusy2; [by apply (Forall_lookup_1 _ _ _ _ Hflags Hj)|].
    intros Hath Heq. by apply (Hapart i j th t Hne Hi Hj Hath Ha).
  - intros j k t t' Hjk Hj Hk. apply list_lookup_insert_Some in Hj as [(-> & <- & _)|[Hne Hj]];
      apply list_lookup_insert_Some in Hk as [(-> & <- & _)|[Hne' Hk]]; [done|..].
    + intros Ha' Ha. rewrite Hnode. intros Heq. by apply (Hother k t' Hne' Hk Ha Ha').
    + intros Ha Ha'. rewrite Hnode. by apply (Hother j t Hne Hj Ha Ha').
    + by apply (Hapart j k).
Qed.

Lemma evac_step_ok g c0 x y : evac_step x y → evac_ok g c0 x → evac_ok g c0 y.
Proof.
  destruct 1 as [i env cord ord th c c' th' ths Hi Hw Hcord Hord Hstep|nid c ths Hnid|s' c ths Hq]; intros Hok.
  - by eapply evac_thread_ok.
  - destruct Hok as [Hcar Hsrc Hn Hflags Hapart]. cbn [fst snd] in *.
    split; cbn [fst snd]; [done|by apply Forall_app_2; [|apply Forall_singleton]..|].
    intros j k t t' Hjk Hj Hk Ha Ha'.
    assert (∀ l u, (ths ++ [mkNodeThread nid NodeStart]) !! l = Some u → active u → ths !! l = Some u) as Hold.
    { by intros l u [?|[_ [_ <-]%list_lookup_singleton_Some]]%lookup_app_Some. }
    apply (Hapart j k); auto.
  - pose proof Hok as [Hcar Hsrc Hn Hflags Hapart]. cbn [fst snd] in *.
    destruct (quiet_step s' c g Hq (ca_sys _ _ _ Hcar) (ca_copies _ _ _ Hcar)) as [Hc' Hfr].
    destruct (evac_ok_framed g c0 c _ ths None ltac:(done) Hc' Hfr Hok) as (? & ? & Hn').
    split; cbn [fst snd cl_meta]; [done|done| |by rewrite (qt_busy _ _ Hq)|done].
    eapply Forall_impl; [exact Hn'|]. auto.
Qed.

Lemma evac_steps_ok g c0 x y : rtc evac_step x y → evac_ok g c0 x → evac_ok g c0 y.
Proof. induction 1; eauto using evac_step_ok. Qed.

Lemma evac_ok_start g c : sys_inv c g → copies_ok c g → evac_ok g c (c, []).
Proof. intros Hs Hc. split; [by apply carried_refl|by constructor..|by intros i j th th' _ ?]. Qed.

(** A migration that ended without failed chunks has emptied its node for good. *)
Lemma evac_ok_emptied g c0 c ths nid :
  evac_ok g c0 (c, ths) → mkNodeThread nid (NodeReturned (Some 0)) ∈ ths →
  on_node nid (srv_chunkMgr (cl_meta c)) = ∅.
Proof.
  intros [_ _ Hn _ _] Hin. cbn [fst snd] in Hn. rewrite Forall_forall in Hn. by apply (Hn _ Hin).
Qed.
End evacuations.

(** ** Executable runs *)

(** Thread [i] makes a call, with the orders of the maps as they are. *)
Definition take_turn (env : Env) (i : nat) (x : evac_state) : option evac_state :=
  th ← x.2 !! i;
  '(c', th') ← cluster_node_step env (elements (on_node (nh_node th) (srv_chunkMgr (cl_meta x.1))))
      (map_keys (cm_nodes (srv_chunkMgr (cl_meta x.1)))) th x.1;
  Some (c', <[i := th']> x.2).

Definition take_turns (env : Env) (turns : list nat) (x : evac_state) : option evac_state :=
  foldl (λ o i, o ≫= take_turn env i) (Some x) turns.

Section runs.
Context `{SliceSort} `{!SliceSortSpec}.

Lemma take_turn_step env i x y : whole_writes env → take_turn env i x = Some y → evac_step x y.
Proof.
  intros Hw. destruct x as [c ths]. unfold take_turn. cbn [fst snd].
  destruct (ths !! i) as [th|] eqn:Hi; [|done]. cbn [mbind option_bind].
  destruct (cluster_node_step _ _ _ _ _) as [[c' th']|] eqn:Hs; [|done]. intros [= <-].
  eapply ev_thread; [exact Hi|exact Hw|apply set_order_elements|apply map_order_keys|exact Hs].
Qed.

Lemma take_turns_steps env turns : ∀ x y, whole_writes env → take_turns env turns x = Some y → rtc evac_step x y.
Proof.
  unfold take_turns. induction turns as [|i turns IH]; intros x y Hw; cbn [foldl]; [intros [= <-]; apply rtc_refl|].
  cbn [mbind option_bind]. destruct (take_turn env i x) as [z|] eqn:Ht.
  - intros Hy. eapply rtc_l; [by eapply take_turn_step|by apply IH].
  - clear. induction turns as [|j turns IH]; [done|exact IH].
Qed.
End runs.
