(* ===== verification/Rescue.v ===== *)
(** * From prediction to rescue

    What the system is for, in one piece: a prediction tick finds the nodes that are
    about to fail and starts their migrations; these run in parallel, fail and are
    tried again; when each node found has been emptied, all of them may die at once, and
    every file is still read. *)
From S2P Require Export Evacuations.
Local Open Scope Z_scope.

Section rescue.
Context `{SliceSort} `{!SliceSortSpec}.

(** ** The tick *)
Lemma data_inv_same D cm cm' c :
  cm_chunks cm' = cm_chunks cm → (∀ x, loc_GetNodeAddress x cm' = loc_GetNodeAddress x cm) →
  (∀ x, on_node x cm' = on_node x cm) → data_inv D cm c → data_inv D cm' c.
Proof.
  intros Hc Ha Ho (Hserves & Hstale & Hplain & Hok).
  assert (∀ cid, loc_GetChunkMeta cid cm' = loc_GetChunkMeta cid cm) as Hm.
  { intros cid. simpl. unfold adapter_GetChunkMeta, GetChunkMeta. by rewrite Hc. }
  split; [|split; [|split; [|done]]].
  - intros cid ns nid addr. rewrite Hm, Ha. apply Hserves.
  - intros cid ns nid. change (loc_on nid cm') with (on_node nid cm'). rewrite Hm, Ho. apply Hstale.
  - intros cid. rewrite Hm. apply Hplain.
Qed.

(** A tick writes statuses and risks only; it never marks a node dead, and the nodes
    it starts migrations for become critical. *)
Lemma tick_carried now ord c g spawned s' :
  sys_inv c g → copies_ok c g → map_order (ms_nodes (mon_store (srv_monitor (cl_meta c)))) ord →
  MetaServer.Server.predictionLoop now ord (cl_meta c) = (spawned, s') →
  carried g c (mkCluster s' (cl_nodes c)) ∧
  ∀ p, p ∈ spawned → ¬ offered (srv_chunkMgr s') (pr_NodeID p).
Proof.
  intros Hsys Hdata Hord Hrun. pose proof (prediction_tick now ord (cl_meta c) Hord) as Htick.
  rewrite Hrun in Htick. destruct Htick as (Hns & _ & Hch & Hnodes & Hspawned & _).
  assert (∀ k (n : DataNodeInfo), cm_nodes (srv_chunkMgr (cl_meta c)) !! k = Some n → ∃ n',
    cm_nodes (srv_chunkMgr s') !! k = Some n' ∧ dn_Address n' = dn_Address n ∧ dn_Chunks n' = dn_Chunks n ∧
    (dn_Status n ≠ StatusDead → dn_Status n' ≠ StatusDead)) as Hkeep.
  { intros k n Hn. rewrite Hnodes, Hn. destruct (PredictNode _ _ _) as [r|]; [|by exists n].
    eexists. split; [done|]. do 2 (split; [done|]). intros _. simpl. unfold RiskToStatus. by repeat case_match. }
  assert (∀ k, cm_nodes (srv_chunkMgr (cl_meta c)) !! k = None → cm_nodes (srv_chunkMgr s') !! k = None) as Hnone.
  { intros k Hn. rewrite Hnodes, Hn. by destruct (PredictNode _ _ _). }
  assert (∀ x, loc_GetNodeAddress x (srv_chunkMgr s') = loc_GetNodeAddress x (srv_chunkMgr (cl_meta c))) as Haddr.
  { intros x. simpl. unfold adapter_GetNodeAddress, GetNode.
    destruct (cm_nodes (srv_chunkMgr (cl_meta c)) !! x) as [n|] eqn:Hn; [|by rewrite Hnone].
    by destruct (Hkeep x n Hn) as (n' & -> & -> & _). }
  split; [split|].
  - apply admin_sys_inv; [done|]. pose proof (admin_predictionLoop now ord (cl_meta c)) as Hs. by rewrite Hrun in Hs.
  - eapply data_inv_same; [exact Hch|exact Haddr| |exact Hdata].
    intros x. cbn [cl_meta]. unfold on_node. destruct (cm_nodes (srv_chunkMgr (cl_meta c)) !! x) as [n|] eqn:Hn.
    + by destruct (Hkeep x n Hn) as (n' & -> & _ & -> & _).
    + by rewrite Hnone.
  - done.
  - exact Haddr.
  - intros cid (m & nid & n & Hm & Hin & Hn & Hs). cbn [cl_meta].
    destruct (Hkeep nid n Hn) as (n' & Hn' & _ & _ & Hs'). exists m, nid, n'. rewrite Hch. auto.
  - intros p [Hp Hcrit]%Hspawned (n & Hn & Ht). rewrite Hnodes, Hp in Hn.
    apply fmap_Some in Hn as (n0 & _ & ->). unfold targetable in Ht. simpl in Ht. rewrite Hcrit in Ht.
    by destruct Ht.
Qed.

(** ** The migrations *)

(** The goroutines a tick starts. *)
Definition started (spawned : list PredictionResult) : list node_thread :=
  (λ p, mkNodeThread (pr_NodeID p) NodeStart) <$> spawned.

Lemma started_ok g c spawned :
  sys_inv c g → copies_ok c g → (∀ p, p ∈ spawned → ¬ offered (srv_chunkMgr (cl_meta c)) (pr_NodeID p)) →
  evac_ok g c (c, started spawned).
Proof.
  intros Hs Hc Hno.
  split; cbn [fst snd]; [by apply carried_refl|apply Forall_fmap, Forall_forall; intros p Hp..|].
  - by apply Hno.
  - done.
  - by intros [].
  - intros i j th th' _ Hi _ Ha. by apply list_lookup_fmap_Some in Hi as (p & -> & _).
Qed.

(** C5: Predicted failures cost nothing: in any reachable state in which the listed
    replicas hold what was put, let a prediction tick run, and then the migrations it
    started, in parallel, their calls interleaved in any way; calls and transfers may
    fail, migrations of these or other nodes at risk may be started again at any time,
    and heartbeats, health reports and later ticks may come in between, as long as no
    node becomes a target of migrations or stops being one.  When for each node the tick
    found critical some migration has ended without failed chunks, all these nodes may
    disappear at the same time: as long as the other nodes answer, every file that
    could be read before the tick is read, with exactly the content that was put.  A
    data node writes a chunk's file whole or not at all (two migrations may write one
    chunk to one target), and the migrations begin when the tick has recorded all its
    results. *)
Theorem predicted_failures_cost_nothing port adminPort c g now ord spawned s' c' ths path resp env nodes
    fs dest complete :
  rtc cluster_step (empty_system port adminPort) (c, g) → copies_ok c g →
  map_order (ms_nodes (mon_store (srv_monitor (cl_meta c)))) ord →
  MetaServer.Server.predictionLoop now ord (cl_meta c) = (spawned, s') →
  rtc evac_step (mkCluster s' (cl_nodes c), started spawned) (c', ths) →
  (∀ p, p ∈ spawned → mkNodeThread (pr_NodeID p) (NodeReturned (Some 0)) ∈ ths) →
  MetaServer.Server.GetFile (mkGetFileRequest path) (cl_meta c) = Ok resp →
  GetFileResponse_Success resp = true →
  nodes ⊆ cl_nodes c' → dials env →
  (∀ addr, (∀ p, p ∈ spawned → loc_GetNodeAddress (pr_NodeID p) (srv_chunkMgr (cl_meta c)) ≠ Some addr) →
     nodes !! addr = cl_nodes c' !! addr ∧ ∀ id, answers env addr id) →
  (∀ l, complete l ≡ₚ l) →
  ∃ content, gh_files g !! cleanPath path = Some content ∧
    cluster_get env fs path dest complete (mkCluster (cl_meta c') nodes) = (Ok tt, <[dest := content]> fs).
Proof.
  intros Hreach Hdata Hord Htick Hrun Hdone Hget Hsucc Hsub Hdial Hans Hcomplete.
  pose proof (cluster_steps_inv _ _ Hreach (empty_system_inv _ _)) as HI. cbn [fst snd] in HI.
  destruct (tick_carried _ _ _ _ _ _ HI Hdata Hord Htick) as [Hcar Hno].
  pose proof (evac_steps_ok _ _ _ _ Hrun (started_ok g _ _ (ca_sys _ _ _ Hcar) (ca_copies _ _ _ Hcar) Hno)) as Hok.
  apply (carried_reads g c c' (λ nid, ∃ p, p ∈ spawned ∧ pr_NodeID p = nid) path resp); [done| | |done..| |done].
  - eapply carried_trans; [exact Hcar|apply (ev_carried _ _ _ Hok)].
  - intros nid (p & Hp & <-). eapply evac_ok_emptied; [exact Hok|by apply Hdone].
  - intros addr Haddr. apply Hans. intros p Hp. apply Haddr. by exists p.
Qed.
End rescue.

(** ** A concrete run

    Three nodes; a file of two chunks on the first, the first chunk also on the second.
    Both nodes send bad reports, the tick finds both critical.  The first migration
    runs while nothing can be reached and fails; it is started again and runs in turn
    with that of the second node: both choose the third node for the chunk they share.
    Then both nodes disappear. *)
Definition third_joined : Cluster := mkCluster (cl_meta copied) (<["c:9000" := demo_node "c:9000"]> (cl_nodes copied)).
Definition third_registers : go RegisterNodeResponse * MetaServer :=
  MetaServer.Server.RegisterNode 0 (map_keys (cm_nodes (srv_chunkMgr (cl_meta copied))))
    (mkRegisterNodeRequest "c:9000" 1000) (cl_meta copied).
Definition three_nodes : Cluster := mkCluster third_registers.2 (cl_nodes third_joined).

Definition bad_report (nid : string) (t errors : Z) : ReportHealthRequest :=
  mkReportHealthRequest (Some (mkHealthMetrics nid (f64_of_Z (50 + errors)) (f64_of_Z 97) errors
    (f64_of_Z (200 + errors)) (f64_of_Z 97) (f64_of_Z 97) t)).

Definition report (req : ReportHealthRequest) (c : Cluster) : Cluster :=
  mkCluster (MetaServer.Server.ReportHealth req (cl_meta c)).2 (cl_nodes c).

Definition failing : Cluster :=
  foldl (flip report) three_nodes
    [bad_report "node-1" 0 0; bad_report "node-2" 0 0; bad_report "node-1" 5000 200; bad_report "node-2" 5000 200].

Lemma third_step : admin_step (cl_meta copied) third_registers.2.
Proof.
  unfold third_registers. eapply admin_RegisterNode; [apply map_order_keys|apply surjective_pairing].
Qed.

Lemma failing_reachable : rtc cluster_step (empty_system 1 2) (failing, run_ghost).
Proof.
  assert (∀ reqs c, rtc cluster_step (c, run_ghost) (foldl (flip report) c reqs, run_ghost)) as Hreports.
  { induction reqs as [|req reqs IH]; intros c; [apply rtc_refl|]. eapply rtc_l; [|apply IH].
    apply cs_admin. eapply admin_ReportHealth. apply surjective_pairing. }
  etransitivity; [exact copied_reachable|].
  eapply rtc_l; [apply (cs_join "c:9000" (demo_node "c:9000")); reflexivity|].
  eapply rtc_l; [|apply Hreports].
  apply (cs_admin third_registers.2 third_joined). exact third_step.
Qed.

Definition tick_order : list string := map_keys (ms_nodes (mon_store (srv_monitor (cl_meta failing)))).
Definition tick : list PredictionResult * MetaServer :=
  MetaServer.Server.predictionLoop (10 * Second) tick_order (cl_meta failing).
Definition ticked : Cluster := mkCluster tick.2 (cl_nodes failing).

Lemma tick_order_ok : map_order (ms_nodes (mon_store (srv_monitor (cl_meta failing)))) tick_order.
Proof. unfold tick_order. apply map_order_keys. Qed.

(** Nothing can be reached. *)
Definition unreachable : Env :=
  mkEnv (λ _, Err "no route to host") (λ _ _, None) (λ _ _, None) (λ _ _, None) (λ _ _, WriteOk) (λ _ _, None).

Definition try_once : option evac_state := take_turns unreachable (replicate 11 0%nat) (ticked, started tick.1).
Definition tried : evac_state := default (ticked, []) try_once.
Definition retrying : evac_state := (tried.1, tried.2 ++ [mkNodeThread "node-1" NodeStart]).
Definition try_again : option evac_state :=
  take_turns calm (mjoin (replicate 10 [2%nat; 1%nat]) ++ replicate 5 2%nat) retrying.
Definition rescued : evac_state := default (ticked, []) try_again.

Lemma some_default {A} (d : A) o : is_Some o → o = Some (default d o).
Proof. by intros [x ->]. Qed.

Lemma try_once_done : try_once = Some tried.
Proof. apply some_default. apply (bool_decide_unpack _). vm_compute. exact I. Qed.

Lemma try_again_done : try_again = Some rescued.
Proof. apply some_default. apply (bool_decide_unpack _). vm_compute. exact I. Qed.

Lemma rescue_run : rtc evac_step (ticked, started tick.1) (rescued.1, rescued.2).
Proof.
  rewrite <- surjective_pairing.
  etrans; [exact (take_turns_steps unreachable _ _ _ (λ _ _, I) try_once_done)|].
  eapply rtc_l; [|exact (take_turns_steps calm _ _ _ (λ _ _, I) try_again_done)].
  rewrite (surjective_pairing tried). apply ev_start.
  intros (n & Hn & Ht).
  assert ((dn_Status <$> cm_nodes (srv_chunkMgr (cl_meta tried.1)) !! "node-1") = Some StatusCritical) as Hs
    by (vm_compute; reflexivity).
  rewrite Hn in Hs. injection Hs as Hs. unfold targetable in Ht. rewrite Hs in Ht. by destruct Ht.
Qed.

Lemma found_nodes : pr_NodeID <$> tick.1 = ["node-1"; "node-2"].
Proof. vm_compute. reflexivity. Qed.

Lemma found_node p : p ∈ tick.1 → pr_NodeID p = "node-1" ∨ pr_NodeID p = "node-2".
Proof.
  intros Hp. apply (list_elem_of_fmap_2 pr_NodeID) in Hp. rewrite found_nodes in Hp. set_solver.
Qed.

Lemma delete_two {A} (m : gmap string A) a b k : k ≠ a → k ≠ b → delete a (delete b m) !! k = m !! k.
Proof. intros Ha Hb. by rewrite !lookup_delete_ne. Qed.

Definition survivors : gmap string DataServer := delete "a:9000" (delete "b:9000" (cl_nodes rescued.1)).

Lemma predicted_failures_cost_nothing_witness :
  rescued.2 = [mkNodeThread "node-1" (NodeReturned (Some 2)); mkNodeThread "node-2" (NodeReturned (Some 0));
               mkNodeThread "node-1" (NodeReturned (Some 0))] ∧
  ∃ content, gh_files run_ghost !! cleanPath "/a/b" = Some content ∧
    cluster_get calm ∅ "/a/b" "/tmp/f" (rev (A:=_)) (mkCluster (cl_meta rescued.1) survivors)
      = (Ok tt, {["/tmp/f" := content]}).
Proof.
  assert (rescued.2 = [mkNodeThread "node-1" (NodeReturned (Some 2)); mkNodeThread "node-2" (NodeReturned (Some 0));
    mkNodeThread "node-1" (NodeReturned (Some 0))]) as Hdone by (vm_compute; reflexivity).
  split; [exact Hdone|].
  apply (predicted_failures_cost_nothing 1 2 failing run_ghost (10 * Second) tick_order tick.1 tick.2 rescued.1
    rescued.2 "/a/b" (answer_of failing) calm survivors ∅ "/tmp/f" (rev (A:=_)) failing_reachable).
  - apply data_check_inv. vm_compute. reflexivity.
  - exact tick_order_ok.
  - apply surjective_pairing.
  - exact rescue_run.
  - intros p Hp. rewrite Hdone. destruct (found_node p Hp) as [-> | ->].
    + do 2 right. left.
    + right. left.
  - vm_compute. reflexivity.
  - vm_compute. reflexivity.
  - etrans; apply delete_subseteq.
  - done.
  - assert (∀ nid, nid ∈ ["node-1"; "node-2"] → ∃ p, p ∈ tick.1 ∧ pr_NodeID p = nid) as Hfound.
    { intros nid Hnid. rewrite <- found_nodes in Hnid. apply list_elem_of_fmap in Hnid as (p & -> & Hp). eauto. }
    intros addr Haddr. split; [|intros id; split; [|split]; reflexivity]. unfold survivors.
    destruct (Hfound "node-1" ltac:(left)) as (p1 & Hp1 & Hn1).
    destruct (Hfound "node-2" ltac:(right; left)) as (p2 & Hp2 & Hn2).
    apply delete_two; intros ->.
    + apply (Haddr p1 Hp1). rewrite Hn1. vm_compute. reflexivity.
    + apply (Haddr p2 Hp2). rewrite Hn2. vm_compute. reflexivity.
  - intros l. symmetry. apply Permutation_rev.
Defined.
