(* ===== verification/ParallelPuts.v ===== *)
(** * Clients that put files at the same time

    A client's put is a call to the metadata server followed by the turns of its
    upload goroutines, each a call to a data node.  Here any number of clients take
    these steps in any interleaving.  Files with different paths do not disturb each
    other; two puts of the same path do. *)
From S2P Require Export ClusterSafety.
Local Open Scope Z_scope.

(** ** Clients *)

(** A put after [readAndChunkFile] has read the local file. *)
Record put_job := mkPutJob {
  pj_abs : bool;
  pj_comps : list string;
  pj_chunks : list bytes;
  pj_size : Z;
  pj_sum : string;
}.

Definition pj_path (j : put_job) : string := path_of (pj_abs j) (pj_comps j).
Definition pj_ids (j : put_job) : list string := file_ids (pj_path j) (length (pj_chunks j)).
Definition pj_request (j : put_job) : PutFileRequest :=
  mkPutFileRequest (pj_path j) (pj_size j) (int32 (Z.of_nat (length (pj_chunks j)))) (pj_sum j).

(** Where a client is in [Client.PutFile]. *)
Inductive put_phase :=
  | Asking
  | Uploading (placements : list ChunkPlacement) (tasks : list upload_task) (errs : list string)
  | Finished (r : go unit).

(** What the client does with the server's answer, and when [wg.Wait] returns. *)
Definition after_ask (j : put_job) (r : go PutFileResponse) : put_phase :=
  match r with
  | Err e => Finished (Err ("PutFile RPC: " +:+ e))
  | Panic p => Finished (Panic p)
  | Ok resp =>
      if PutFileResponse_Success resp
      then Uploading (PutFileResponse_Placements resp)
             (upload_tasks (pj_chunks j) (PutFileResponse_Placements resp)) []
      else Finished (Err ("PutFile failed: " +:+ PutFileResponse_Message resp))
  end.

Definition after_wait (errs : list string) : go unit :=
  match errs with [] => Ok tt | e :: _ => Err ("upload chunks: " +:+ e) end.

Section clients.
Context `{SliceSort} `{!SliceSortSpec}.

Definition clients : Type := Cluster * list (put_job * put_phase).

(** The network and the disks may behave differently at every call. *)
Inductive client_step : clients → clients → Prop :=
  | client_ask i now ord j r c c' ths :
      ths !! i = Some (j, Asking) → map_order (cm_nodes (srv_chunkMgr (cl_meta c))) ord →
      cluster_PutFile now ord (pj_request j) c = (r, c') →
      client_step (c, ths) (c', <[i := (j, after_ask j r)]> ths)
  | client_turn i k env j placements tasks errs c c' tasks' errs' ths :
      ths !! i = Some (j, Uploading placements tasks errs) →
      upload_step (cluster_dial env) (cluster_StoreChunk env) k (c, tasks, errs) = (Ok tt, (c', tasks', errs')) →
      client_step (c, ths) (c', <[i := (j, Uploading placements tasks' errs')]> ths)
  | client_crash i k env j placements tasks errs c p st ths :
      ths !! i = Some (j, Uploading placements tasks errs) →
      upload_step (cluster_dial env) (cluster_StoreChunk env) k (c, tasks, errs) = (Panic p, st) →
      client_step (c, ths) (st.1.1, <[i := (j, Finished (Panic p))]> ths)
  | client_wait i j placements tasks errs c ths :
      ths !! i = Some (j, Uploading placements tasks errs) → all_done tasks →
      client_step (c, ths) (c, <[i := (j, Finished (after_wait errs))]> ths).

(** ** Files of other paths stay where they are *)
Lemma live_locations_same cm cm' nids :
  (∀ k, (λ n, (dn_Status n, dn_Address n)) <$> cm_nodes cm' !! k =
        (λ n, (dn_Status n, dn_Address n)) <$> cm_nodes cm !! k) →
  live_locations cm' nids = live_locations cm nids.
Proof.
  intros Hn. induction nids as [|k nids IH]; [done|]. specialize (Hn k). unfold live_locations in *. simpl in *.
  destruct (cm_nodes cm' !! k) as [n'|], (cm_nodes cm !! k) as [n|]; try done.
  simpl in Hn. injection Hn as -> ->. case_decide; [exact IH|]. f_equal. exact IH.
Qed.

Lemma GetChunkLocations_same ids cm cm' :
  (∀ id, id ∈ ids → cm_chunks cm' !! id = cm_chunks cm !! id) →
  (∀ k, (λ n, (dn_Status n, dn_Address n)) <$> cm_nodes cm' !! k =
        (λ n, (dn_Status n, dn_Address n)) <$> cm_nodes cm !! k) →
  GetChunkLocations ids cm' = GetChunkLocations ids cm.
Proof.
  intros Hc Hn. induction ids as [|id ids IH]; [done|]. cbn [GetChunkLocations].
  rewrite Hc by (by left). destruct (cm_chunks cm !! id) as [m|]; [|done].
  rewrite (live_locations_same cm cm') by done. rewrite IH; [done|]. intros i Hi. apply Hc. by right.
Qed.

Lemma chunk_infos_same locs cm cm' :
  (∀ loc, loc ∈ locs → cm_chunks cm' !! cl_ChunkID loc = cm_chunks cm !! cl_ChunkID loc) →
  MetaServer.Server.chunk_infos cm' locs = MetaServer.Server.chunk_infos cm locs.
Proof.
  intros Hc. induction locs as [|loc locs IH]; [done|]. cbn [MetaServer.Server.chunk_infos].
  unfold GetChunkMeta. rewrite Hc by (by left). destruct (cm_chunks cm !! _); [|done].
  rewrite IH; [done|]. intros l Hl. apply Hc. by right.
Qed.

(** What a put does to the registry and the namespace, whether it succeeds or not. *)
Lemma PutFile_elsewhere now ord path (chunks : list bytes) size sum s r s' :
  srv_inv s → map_order (cm_nodes (srv_chunkMgr s)) ord → NoDup (file_ids path (length chunks)) →
  MetaServer.Server.PutFile now ord (mkPutFileRequest path size (Z.of_nat (length chunks)) sum) s = (r, s') →
  (∀ id, id ∉ file_ids path (length chunks) →
     cm_chunks (srv_chunkMgr s') !! id = cm_chunks (srv_chunkMgr s) !! id) ∧
  (∀ k, (λ n, (dn_Status n, dn_Address n)) <$> cm_nodes (srv_chunkMgr s') !! k =
        (λ n, (dn_Status n, dn_Address n)) <$> cm_nodes (srv_chunkMgr s) !! k) ∧
  (∀ key meta, key ≠ put_key path → view (srv_namespace s) key = Some (NFile meta) →
     view (srv_namespace s') key = Some (NFile meta)).
Proof.
  intros [Hns Hcm _] Hord Hnd. unfold MetaServer.Server.PutFile.
  cbn [PutFileRequest_Path PutFileRequest_ChunkCount PutFileRequest_FileSize PutFileRequest_Checksum].
  destruct (AllocateChunks _ _ _ _ _ _) as [[ps|e|w] cm'] eqn:Ha.
  2-3: unfold AllocateChunks in Ha; case_decide; [|destruct (_ <? 0); [|by destruct (allocate_loop _ _ _ _ _ _ _)]];
    simplify_eq; by intros [= _ <-].
  destruct (alloc_index _ _ _ _ _ _ _ _ Hcm Hord Hnd Ha) as (Hids & _ & Hother).
  rewrite <- Hids in Hnd.
  destruct (AllocateChunks_stored _ _ _ _ _ _ _ _ Hcm Hord Ha Hnd) as (_ & _ & Hnone & Hsome).
  assert (∀ k, (λ n, (dn_Status n, dn_Address n)) <$> cm_nodes cm' !! k =
    (λ n, (dn_Status n, dn_Address n)) <$> cm_nodes (srv_chunkMgr s) !! k) as Hnodes.
  { intros k. destruct (cm_nodes (srv_chunkMgr s) !! k) as [n|] eqn:Hk.
    - by destruct (Hsome k n Hk) as (X & -> & _).
    - by rewrite (Hnone k Hk). }
  cbn [set_chunkMgr srv_namespace]. destruct (CreateFile _ _ _) as [r1 ns'] eqn:Hc.
  assert (∀ key meta, key ≠ put_key path → view (srv_namespace s) key = Some (NFile meta) →
    view ns' key = Some (NFile meta)) as Hview.
  { intros key meta Hkey Hv. destruct (splitPath path) as [[dir name]|e'|w] eqn:Hs.
    - pose proof (CreateFile_post _ _ _ _ (mkFileMeta path size (Z.of_nat (length chunks))
        DefaultReplicationFactor sum (cp_ChunkID <$> ps) now) Hns Hs) as Hp.
      rewrite Hc in Hp. destruct r1 as [[]|e|w]; [|by destruct Hp as [-> _]|done].
      destruct Hp as (_ & -> & Hfile & _). unfold tree_put, tree_mkdirs.
      assert (put_key path = cleanPath dir ++ [name]) as Hk by (unfold put_key; by rewrite Hs).
      rewrite decide_False by congruence. rewrite decide_False; [done|]. intros Hpre. apply Hfile.
      by exists key, meta.
    - rewrite (proj1 (splitPath_Err_ops _ e' _ _ Hs)) in Hc. by injection Hc as _ <-.
    - by apply splitPath_no_panic in Hs. }
  destruct r1 as [[]|e|w]; intros [= _ <-]; done.
Qed.

(** An answer that stays the same: entry, records and live nodes are the same. *)
Lemma GetFile_kept s s' path info locs :
  srv_inv s → srv_inv s' →
  MetaServer.Server.GetFile (mkGetFileRequest path) s = Ok (mkGetFileResponse true "" (Some info) locs) →
  (∀ meta, view (srv_namespace s) (cleanPath path) = Some (NFile meta) →
     view (srv_namespace s') (cleanPath path) = Some (NFile meta)) →
  Forall (λ l, cm_chunks (srv_chunkMgr s') !! ChunkLocation_ChunkId l =
               cm_chunks (srv_chunkMgr s) !! ChunkLocation_ChunkId l) locs →
  (∀ k, (λ n, (dn_Status n, dn_Address n)) <$> cm_nodes (srv_chunkMgr s') !! k =
        (λ n, (dn_Status n, dn_Address n)) <$> cm_nodes (srv_chunkMgr s) !! k) →
  MetaServer.Server.GetFile (mkGetFileRequest path) s' = Ok (mkGetFileResponse true "" (Some info) locs).
Proof.
  intros [Hns Hcm _] [Hns' _ _] Hget Hv Hc Hn. revert Hget.
  unfold MetaServer.Server.GetFile. cbn [GetFileRequest_Path].
  rewrite !GetFile_view by done. destruct (view (srv_namespace s) _) as [[|meta]|] eqn:Hm; [done| |done].
  rewrite (Hv meta) by done.
  destruct (GetChunkLocations (fm_ChunkIDs meta) (srv_chunkMgr s)) as [ls|e|w] eqn:Hl; [|done..].
  intros Hres. pose proof Hres as (infos & Hinfos & [= <- <-])%go_bind_ok.
  rewrite Forall_fmap in Hc.
  pose proof (GetChunkLocations_records _ _ _ Hcm Hl) as Hrec.
  rewrite (GetChunkLocations_same _ (srv_chunkMgr s)); [|..|done].
  - rewrite Hl, (chunk_infos_same _ (srv_chunkMgr s)); [done|]. intros loc Hin.
    exact (proj1 (Forall_forall _ _) Hc loc Hin).
  - intros id [i Hi]%list_elem_of_lookup. destruct (Forall2_lookup_l _ _ _ _ _ Hrec Hi) as (loc & Hloc & <- & _).
    exact (proj1 (Forall_forall _ _) Hc loc (list_elem_of_lookup_2 _ _ _ Hloc)).
Qed.

Lemma GetFile_elsewhere now ord path (chunks : list bytes) size sum s r s' path2 info locs :
  srv_inv s → map_order (cm_nodes (srv_chunkMgr s)) ord → NoDup (file_ids path (length chunks)) →
  MetaServer.Server.PutFile now ord (mkPutFileRequest path size (Z.of_nat (length chunks)) sum) s = (r, s') →
  MetaServer.Server.GetFile (mkGetFileRequest path2) s = Ok (mkGetFileResponse true "" (Some info) locs) →
  cleanPath path2 ≠ put_key path →
  Forall (λ l, ChunkLocation_ChunkId l ∉ file_ids path (length chunks)) locs →
  MetaServer.Server.GetFile (mkGetFileRequest path2) s' = Ok (mkGetFileResponse true "" (Some info) locs).
Proof.
  intros Hinv Hord Hnd Hput Hget Hkey Hids.
  destruct (PutFile_elsewhere _ _ _ _ _ _ _ _ _ Hinv Hord Hnd Hput) as (Hc & Hn & Hv).
  eapply GetFile_kept; [exact Hinv| |exact Hget|by intros meta; apply Hv| |done].
  - eapply srv_step_inv; [exact Hinv|by eapply srv_PutFile].
  - eapply Forall_impl; [exact Hids|]. intros l Hl. by apply Hc.
Qed.

(** ** Invariant *)
Definition job_wf (j : put_job) : Prop :=
  pj_comps j ≠ [] ∧ Forall good_name (pj_comps j) ∧ Z.of_nat (length (pj_chunks j)) < 2 ^ 31 ∧ NoDup (pj_ids j).

(** Different paths, and no collision of the identifiers. *)
Definition apart (j1 j2 : put_job) : Prop :=
  pj_comps j1 ≠ pj_comps j2 ∧ ∀ id, id ∈ pj_ids j1 → id ∉ pj_ids j2.

Lemma put_key_path_of abs comps : comps ≠ [] → Forall good_name comps → put_key (path_of abs comps) = comps.
Proof.
  intros Hne Hg. destruct comps as [|name d _] using rev_ind; [done|].
  unfold put_key. rewrite (splitPath_path_of abs d name Hg).
  apply Forall_app in Hg as [Hgd _]. by rewrite cleanPath_path_of.
Qed.

(** The server has the file, with these placements. *)
Definition registered (c : Cluster) (j : put_job) (pls : list ChunkPlacement) : Prop :=
  length pls = length (pj_chunks j) ∧
  (∀ i p, pls !! i = Some p → ChunkPlacement_ChunkId p = GenerateChunkID (pj_path j) (Z.of_nat i) ∧
     ChunkPlacement_ChunkIndex p = int32 (Z.of_nat i) ∧ ChunkPlacement_NodeAddresses p ≠ []) ∧
  ∀ abs, ∃ info, MetaServer.Server.GetFile (mkGetFileRequest (path_of abs (pj_comps j))) (cl_meta c) =
    Ok (mkGetFileResponse true "" (Some info) (placed_location <$> pls)).

Lemma registered_ids c j pls : registered c j pls → ChunkPlacement_ChunkId <$> pls = pj_ids j.
Proof.
  intros (Hlen & Hp & _). apply list_eq. intros i. rewrite list_lookup_fmap. unfold pj_ids. rewrite file_ids_lookup.
  destruct (pls !! i) as [p|] eqn:Hi.
  - apply lookup_lt_Some in Hi as Hlt. rewrite decide_True by lia. simpl. by destruct (Hp i p Hi) as [-> _].
  - apply lookup_ge_None in Hi. by rewrite decide_False by lia.
Qed.

Lemma registered_wf c j pls : job_wf j → registered c j pls → upload_wf pls.
Proof.
  intros (_ & _ & _ & Hnd) Hr. split; [by rewrite (registered_ids c j)|].
  destruct Hr as (_ & Hp & _). apply Forall_lookup. intros i p Hi. destruct (Hp i p Hi) as [-> _].
  apply GenerateChunkID_plain.
Qed.

Lemma ask_registered now ord j resp c c' :
  cluster_inv c → job_wf j → map_order (cm_nodes (srv_chunkMgr (cl_meta c))) ord →
  cluster_PutFile now ord (pj_request j) c = (Ok resp, c') → PutFileResponse_Success resp = true →
  registered c' j (PutFileResponse_Placements resp).
Proof.
  intros [Hsrv _] (Hne & Hg & Hsmall & Hnd) Hord. unfold cluster_PutFile.
  destruct (MetaServer.Server.PutFile _ _ _ _) as [r s1] eqn:Hput. intros [= -> <-] Hsucc.
  unfold pj_request in Hput. rewrite int32_id in Hput by (unfold in_int32; lia).
  destruct (put_placements _ _ _ _ _ _ Hsrv Hord Hput Hsucc) as [Hlen Hps].
  pose proof (put_ids _ _ _ _ _ _ Hsrv Hord Hput Hsucc) as Hids.
  cbn [PutFileRequest_ChunkCount PutFileRequest_Path] in Hlen, Hps, Hids. apply Nat2Z.inj in Hlen.
  split; [done|]. split.
  - intros i p Hp. destruct (Hps i p Hp) as (-> & -> & Ha). split; [done|]. split; [done|].
    intros Hnil. rewrite Hnil in Ha. simpl in Ha. lia.
  - intros abs. rewrite Hlen in Hids. unfold pj_ids, file_ids in Hnd.
    destruct (put_get _ _ (pj_abs j) abs _ _ _ _ _ _ _ Hsrv Hord Hne Hg Hput Hsucc ltac:(by rewrite Hids))
      as (_ & infos & Hget & _). eexists. exact Hget.
Qed.

(** The data nodes keep what the goroutines of this client have sent. *)
Definition sent_ok (c : Cluster) (j : put_job) (pls : list ChunkPlacement) (tasks : list upload_task)
    (errs : list string) : Prop :=
  upload_inv (cluster_StoreChunk calm) (cluster_GetChunk calm) (pj_chunks j) pls (c, tasks, errs).

(** What goes wrong does not matter for what is kept. *)
Lemma sent_ok_env env c j pls tasks errs :
  sent_ok c j pls tasks errs =
  upload_inv (NodeNetwork0 := cluster_network env env) (cluster_StoreChunk env) (cluster_GetChunk env)
    (pj_chunks j) pls (c, tasks, errs).
Proof. reflexivity. Qed.

Definition stored (c : Cluster) (j : put_job) (pls : list ChunkPlacement) : Prop :=
  ∀ i p bs addr, pls !! i = Some p → pj_chunks j !! i = Some bs →
    addr ∈ ChunkPlacement_NodeAddresses p → node_holds c addr (ChunkPlacement_ChunkId p) bs.

Definition job_ok (c : Cluster) (j : put_job) (ph : put_phase) : Prop :=
  match ph with
  | Uploading pls tasks errs => registered c j pls ∧ sent_ok c j pls tasks errs
  | Finished (Ok _) => ∃ pls, registered c j pls ∧ stored c j pls
  | _ => True
  end.

(** A call made for other identifiers does not disturb a client. *)
Lemma sent_ok_other c c' j pls tasks errs :
  registered c j pls → nodes_ok c' →
  (∀ addr id data, id ∈ pj_ids j → node_holds c addr id data → node_holds c' addr id data) →
  sent_ok c j pls tasks errs → sent_ok c' j pls tasks errs.
Proof.
  intros Hr Hok Hkeep (_ & Hlen & Hids & Hinv). split; [done|]. split; [done|]. split; [done|].
  intros He i t p data Ht Hz. destruct (Hinv He i t p data Ht Hz) as (Hc & Hd & sent & Hs & Hall).
  split; [done|]. split; [done|]. exists sent. split; [done|]. intros addr Ha.
  apply Hkeep; [|by apply Hall]. rewrite <- (registered_ids c j pls Hr).
  apply zip_lookup in Hz as [Hp _]. apply list_elem_of_fmap. eauto using list_elem_of_lookup_2.
Qed.

Lemma job_ok_other c c' j ph :
  nodes_ok c' →
  (∀ addr id data, id ∈ pj_ids j → node_holds c addr id data → node_holds c' addr id data) →
  (∀ pls, registered c j pls → registered c' j pls) →
  job_ok c j ph → job_ok c' j ph.
Proof.
  intros Hok Hkeep Hreg. destruct ph as [|pls tasks errs|[[]|e|p]]; simpl; [done| | |done..].
  - intros [Hr Hs]. split; [by apply Hreg|by eapply sent_ok_other].
  - intros (pls & Hr & Hs). exists pls. split; [by apply Hreg|]. intros i p bs addr Hp Hb Ha.
    apply Hkeep; [|by eapply Hs]. rewrite <- (registered_ids c j pls Hr).
    apply list_elem_of_fmap. eauto using list_elem_of_lookup_2.
Qed.

(** A put announced by one client, seen by another. *)
Lemma ask_other now ord j j2 r c c' pls :
  cluster_inv c → job_wf j → job_wf j2 → apart j2 j → map_order (cm_nodes (srv_chunkMgr (cl_meta c))) ord →
  cluster_PutFile now ord (pj_request j) c = (r, c') →
  cl_nodes c' = cl_nodes c ∧ (registered c j2 pls → registered c' j2 pls).
Proof.
  intros [Hsrv _] (Hne & Hg & Hsmall & Hnd) (Hne2 & Hg2 & _) [Hcomps Hids] Hord. unfold cluster_PutFile.
  destruct (MetaServer.Server.PutFile _ _ _ _) as [r1 s1] eqn:Hput. intros [= -> <-]. split; [done|].
  unfold pj_request in Hput. rewrite int32_id in Hput by (unfold in_int32; lia).
  intros Hr. pose proof (registered_ids _ _ _ Hr) as Hr2. destruct Hr as (Hlen & Hp & Hget).
  split; [done|]. split; [done|]. intros abs. destruct (Hget abs) as [info Hinfo]. exists info.
  eapply GetFile_elsewhere; [exact Hsrv|exact Hord|exact Hnd|exact Hput|exact Hinfo| |].
  - unfold pj_path. rewrite cleanPath_path_of, put_key_path_of by done. done.
  - apply Forall_fmap, Forall_forall. intros p Hin. simpl. apply Hids. rewrite <- Hr2.
    apply list_elem_of_fmap. eauto.
Qed.

(** A turn of an upload goroutine: nothing but its own identifier is touched. *)
Lemma turn_frame env k c j pls tasks errs r st :
  job_wf j → registered c j pls → sent_ok c j pls tasks errs →
  upload_step (cluster_dial env) (cluster_StoreChunk env) k (c, tasks, errs) = (r, st) →
  cl_meta st.1.1 = cl_meta c ∧ nodes_ok st.1.1 ∧
  ∀ addr id data, id ∉ pj_ids j → node_holds c addr id data → node_holds st.1.1 addr id data.
Proof.
  intros Hwf Hr (Hok & _ & Hids & _). unfold upload_step.
  destruct (tasks !! k) as [[chunk data todo]|] eqn:Hk; [|by intros [= _ <-]].
  destruct (Hids k _ Hk) as (p & data' & Hz & Hc & Hd). cbn [ut_chunk ut_data] in Hc, Hd. subst chunk data'.
  apply zip_lookup in Hz as [Hp _].
  assert (ChunkPlacement_ChunkId p ∈ pj_ids j) as Hin.
  { rewrite <- (registered_ids c j pls Hr). apply list_elem_of_fmap. eauto using list_elem_of_lookup_2. }
  assert (plain_id (ChunkPlacement_ChunkId p)) as Hplain.
  { destruct (registered_wf c j pls Hwf Hr) as [_ Hall]. by eapply Forall_lookup_1 in Hall. }
  destruct todo as [[|addr rest]|]; [destruct (slice_to _ _); by intros [= _ <-]| |by intros [= _ <-]].
  destruct (sendChunkToNode _ _ _ _ _ _ _) as [r1 c1] eqn:Hsend.
  assert (cl_meta c1 = cl_meta c) as Hmeta.
  { revert Hsend. unfold sendChunkToNode. destruct (cluster_dial _ _ _); [|by intros [= _ <-]..].
    destruct (cluster_StoreChunk _ _ _ _) as [r2 c2] eqn:Hst.
    apply cluster_store_meta with (s := cl_meta c) in Hst; [|done].
    destruct r2 as [resp|e|w]; [destruct (StoreChunkResponse_Success resp)|..]; by intros [= _ <-]. }
  destruct (sendChunkToNode_net (NodeNetwork0 := cluster_network env env) (cluster_dial env) (cluster_StoreChunk env) (cluster_GetChunk env) addr
    (ChunkPlacement_ChunkId p) data c r1 c1 Hok Hplain Hsend) as (Hok1 & Hother & _).
  destruct r1; intros [= _ <-]; (split; [done|]); (split; [done|]); intros ad id d Hid; apply Hother;
    by intros ->.
Qed.

Lemma registered_meta c c' j pls : cl_meta c' = cl_meta c → registered c j pls → registered c' j pls.
Proof. intros He (Hlen & Hp & Hget). split; [done|]. split; [done|]. by rewrite He. Qed.

(** A put whose goroutines have all returned without errors has stored everything. *)
Lemma all_sent c j pls tasks :
  registered c j pls → sent_ok c j pls tasks [] → all_done tasks → stored c j pls.
Proof.
  intros Hr (_ & Hlen & _ & Hinv) Hdone i p bs addr Hp Hb Ha.
  assert (zip pls (pj_chunks j) !! i = Some (p, bs)) as Hz by (by apply zip_lookup).
  assert (is_Some (tasks !! i)) as [t Ht].
  { apply lookup_lt_is_Some_2. rewrite Hlen. by eapply lookup_lt_Some. }
  destruct (Hinv eq_refl i t p bs Ht Hz) as (_ & _ & sent & Hs & Hall).
  pose proof (proj1 (Forall_lookup _ _) Hdone i t Ht) as Hnone. simpl in Hnone. rewrite Hnone in Hs.
  simpl in Hs. rewrite app_nil_r in Hs. subst sent. by apply Hall.
Qed.

Definition clients_inv (x : clients) : Prop :=
  cluster_inv x.1 ∧ Forall (λ t, job_wf t.1 ∧ job_ok x.1 t.1 t.2) x.2 ∧
  ∀ i i' t t', i ≠ i' → x.2 !! i = Some t → x.2 !! i' = Some t' → apart t.1 t'.1.

(** One client has moved: what is left to show for the others. *)
Lemma clients_inv_step c c' ths i j ph ph' :
  clients_inv (c, ths) → ths !! i = Some (j, ph) → cluster_inv c' → job_ok c' j ph' →
  (∀ j2 ph2, job_wf j2 → apart j2 j → job_ok c j2 ph2 → job_ok c' j2 ph2) →
  clients_inv (c', <[i := (j, ph')]> ths).
Proof.
  intros (_ & Hall & Hap) Hi Hinv Hj Hothers. cbn [fst snd] in *. split; [done|]. split; cbn [fst snd].
  - pose proof (Forall_lookup_1 _ _ _ _ Hall Hi) as [Hwf _]. apply Forall_lookup. intros k [j2 ph2] Hk.
    apply list_lookup_insert_Some in Hk as [(<- & [= <- <-] & _)|[Hne Hk]]; [done|].
    destruct (Forall_lookup_1 _ _ _ _ Hall Hk) as [Hwf2 Hok2]. split; [done|].
    apply Hothers; [done| |done]. by apply (Hap k i (j2, ph2) (j, ph)).
  - intros k k' t t' Hne Hk Hk'. assert (∀ k t, <[i := (j, ph')]> ths !! k = Some t →
      ∃ t0, ths !! k = Some t0 ∧ t0.1 = t.1) as Hsame.
    { intros m x [(<- & <- & _)|[_ Hm]]%list_lookup_insert_Some; eauto. }
    destruct (Hsame k t Hk) as (t0 & Hk0 & <-), (Hsame k' t' Hk') as (t0' & Hk0' & <-).
    by eapply Hap.
Qed.

Lemma cluster_PutFile_inv now ord j r c c' :
  cluster_inv c → map_order (cm_nodes (srv_chunkMgr (cl_meta c))) ord →
  cluster_PutFile now ord (pj_request j) c = (r, c') → cluster_inv c'.
Proof.
  intros [Hsrv Hok] Hord. unfold cluster_PutFile.
  destruct (MetaServer.Server.PutFile _ _ _ _) as [r1 s1] eqn:Hput. intros [= -> <-]. split; [|done].
  eapply srv_step_inv; [exact Hsrv|by eapply srv_PutFile].
Qed.

Lemma client_step_inv x y : client_step x y → clients_inv x → clients_inv y.
Proof.
  destruct 1 as [i now ord j r c c' ths Hi Hord Hput|i k env j pls tasks errs c c' tasks' errs' ths Hi Hst
    |i k env j pls tasks errs c p st ths Hi Hst|i j pls tasks errs c ths Hi Hdone]; intros HI;
    pose proof HI as (Hc & Hall & _); cbn [fst snd] in *;
    destruct (Forall_lookup_1 _ _ _ _ Hall Hi) as [Hwf Hj]; cbn [fst snd] in *.
  - pose proof (cluster_PutFile_inv _ _ _ _ _ _ Hc Hord Hput) as Hc'.
    eapply clients_inv_step; [exact HI|exact Hi|exact Hc'| |].
    + unfold after_ask. destruct r as [resp|e|p]; [|done..].
      destruct (PutFileResponse_Success resp) eqn:Hs; [|done]. split; [exact (ask_registered now ord j resp c c' Hc Hwf Hord Hput Hs)|].
      apply upload_inv_init, Hc'.
    + intros j2 ph2 Hwf2 Hap. assert (∀ pls, registered c j2 pls → registered c' j2 pls) as Hreg.
      { intros pls. by apply (ask_other now ord j j2 r c c' pls). }
      destruct (ask_other now ord j j2 r c c' [] Hc Hwf Hwf2 Hap Hord Hput) as [Hn _].
      apply job_ok_other; [apply Hc'| |done]. intros addr id data _. unfold node_holds. by rewrite Hn.
  - destruct Hj as [Hr Hs]. destruct (turn_frame _ _ _ _ _ _ _ _ _ Hwf Hr Hs Hst) as (Hm & Hok & Hkeep).
    cbn [fst snd] in *. eapply clients_inv_step; [exact HI|exact Hi| | |].
    + split; [rewrite Hm; apply Hc|done].
    + split; [by apply (registered_meta c)|]. rewrite (sent_ok_env env) in Hs |- *.
      eapply upload_step_inv; [by eapply registered_wf|exact Hs|exact Hst].
    + intros j2 ph2 _ [_ Hap]. apply job_ok_other; [done| |intros pls2; by apply registered_meta].
      intros addr id data Hid. apply Hkeep. by apply Hap.
  - destruct Hj as [Hr Hs]. destruct (turn_frame _ _ _ _ _ _ _ _ _ Hwf Hr Hs Hst) as (Hm & Hok & Hkeep).
    eapply clients_inv_step; [exact HI|exact Hi| |done|].
    + split; [rewrite Hm; apply Hc|done].
    + intros j2 ph2 _ [_ Hap]. apply job_ok_other; [done| |intros pls2; by apply registered_meta].
      intros addr id data Hid. apply Hkeep. by apply Hap.
  - destruct Hj as [Hr Hs]. eapply clients_inv_step; [exact HI|exact Hi|done| |done].
    unfold after_wait. destruct errs as [|e errs]; [|done]. exists pls. split; [done|]. by eapply all_sent.
Qed.

Lemma client_steps_inv x y : rtc client_step x y → clients_inv x → clients_inv y.
Proof. induction 1 as [|x y z Hs _ IH]; [done|]. intros HI. by apply IH, (client_step_inv x). Qed.

(** A stored file is read back, whatever else goes on. *)
Lemma stored_reads c j pls env abs complete fs dest :
  job_wf j → registered c j pls → stored c j pls → (∀ l, complete l ≡ₚ l) →
  (∀ fs', cluster_get env fs (path_of abs (pj_comps j)) dest complete c = (Ok tt, fs') →
     fs' = <[dest := mjoin (pj_chunks j)]> fs) ∧
  cluster_get calm fs (path_of abs (pj_comps j)) dest complete c
    = (Ok tt, <[dest := mjoin (pj_chunks j)]> fs).
Proof.
  intros (_ & _ & Hsmall & _) (Hlen & Hps & Hget) Hst Hcomplete.
  destruct (Hget abs) as [info Hresp]. rewrite <- Hlen in Hsmall.
  assert (∀ k p, pls !! k = Some p → ChunkPlacement_ChunkIndex p = int32 (Z.of_nat k) ∧
    (12 ≤ String.length (ChunkPlacement_ChunkId p))%nat ∧ ChunkPlacement_NodeAddresses p ≠ []) as Hps'.
  { intros k p Hp. destruct (Hps k p Hp) as (-> & Hx & Ha). rewrite GenerateChunkID_length. split; [done|].
    split; [lia|done]. }
  unfold cluster_get, Client.GetFile, cluster_GetFile. rewrite Hresp.
  cbn [GetFileResponse_Success GetFileResponse_FileInfo GetFileResponse_ChunkLocations negb]. split.
  - intros fs'. destruct (downloadChunks _ _ _ _) as [data|e|p] eqn:Hd; [|done..].
    intros [= <-]. apply (download_held _ _ pls (pj_chunks j)) in Hd as ->; [done..| |done|done].
    intros k p Hp. by destruct (Hps' k p Hp) as (? & ? & _).
  - by rewrite (download_calm _ pls (pj_chunks j)) by done.
Qed.

(** C7: Parallel puts of different files are all kept: let any number of clients put
    files under pairwise different paths whose chunk identifiers, hashes cut to sixteen
    digits, do not collide ([apart]), with every call interleaved in any way and
    the network and the disks failing at any call.  Whenever one of the puts has
    reported success, a get of its path under either spelling, however far the others
    are, either fails or writes exactly the bytes of that put, and it succeeds when
    nothing fails during the get. *)
Theorem parallel_puts_readable jobs c0 c ths i j env abs complete fs dest :
  cluster_inv c0 → Forall job_wf jobs →
  (∀ k k' x x', k ≠ k' → jobs !! k = Some x → jobs !! k' = Some x' → apart x x') →
  rtc client_step (c0, (λ j, (j, Asking)) <$> jobs) (c, ths) →
  ths !! i = Some (j, Finished (Ok tt)) → (∀ l, complete l ≡ₚ l) →
  (∀ fs', cluster_get env fs (path_of abs (pj_comps j)) dest complete c = (Ok tt, fs') →
     fs' = <[dest := mjoin (pj_chunks j)]> fs) ∧
  cluster_get calm fs (path_of abs (pj_comps j)) dest complete c
    = (Ok tt, <[dest := mjoin (pj_chunks j)]> fs).
Proof.
  intros Hc0 Hwf Hap Hreach Hi Hcomplete.
  assert (clients_inv (c, ths)) as (_ & Hall & _).
  { eapply client_steps_inv; [exact Hreach|]. split; [done|]. split; cbn [fst snd].
    - apply Forall_fmap. eapply Forall_impl; [exact Hwf|]. done.
    - intros k k' t t' Hne. rewrite !list_lookup_fmap. intros (x & Hx & ->)%fmap_Some (x' & Hx' & ->)%fmap_Some.
      by eapply Hap. }
  destruct (Forall_lookup_1 _ _ _ _ Hall Hi) as [Hj (pls & Hr & Hst)]. by eapply stored_reads.
Qed.

(** ** A client by itself *)
Lemma upload_step_Err dial call k (st : upload_state (W := Cluster)) e st' :
  upload_step dial call k st ≠ (Err e, st').
Proof.
  destruct st as [[w tasks] errs]. unfold upload_step.
  destruct (tasks !! k) as [[chunk data [[|addr rest]|]]|]; [| |done..].
  - unfold slice_to. by case_decide.
  - by destruct (sendChunkToNode _ _ _ _ _ _ _) as [[]].
Qed.

Lemma upload_run_client env j pls ths sched : ∀ c tasks errs r st,
  upload_run (cluster_dial env) (cluster_StoreChunk env) sched (c, tasks, errs) = (r, st) →
  match r with
  | Ok _ => rtc client_step (c, (j, Uploading pls tasks errs) :: ths)
                (st.1.1, (j, Uploading pls st.1.2 st.2) :: ths)
  | Panic p => rtc client_step (c, (j, Uploading pls tasks errs) :: ths) (st.1.1, (j, Finished (Panic p)) :: ths)
  | Err _ => False
  end.
Proof.
  induction sched as [|k sched IH]; intros c tasks errs r st.
  { intros [= <- <-]. apply rtc_refl. }
  intros [([[c1 tasks1] errs1] & Hst & Hrun)|[Hst Hr]]%upload_run_cons.
  - assert (client_step (c, (j, Uploading pls tasks errs) :: ths) (c1, (j, Uploading pls tasks1 errs1) :: ths))
      as Hs by (by apply (client_turn 0 k env j pls tasks errs c c1 tasks1 errs1 (_ :: ths))).
    apply IH in Hrun. destruct r as [[]|e|p]; [|done|]; (eapply rtc_l; [exact Hs|exact Hrun]).
  - destruct r as [[]|e|p]; [done|by apply upload_step_Err in Hst|].
    apply rtc_once. by apply (client_crash 0 k env j pls tasks errs c p st (_ :: ths)).
Qed.

(** A sequential put is a run of a client, whatever the others have done. *)
Lemma PutFile_runs_client env now ord fs localPath plans sched j ths c r c' :
  map_order (cm_nodes (srv_chunkMgr (cl_meta c))) ord →
  readAndChunkFile fs localPath None None None plans = Ok (pj_chunks j, pj_size j, pj_sum j) →
  (∀ resp c1, cluster_PutFile now ord (pj_request j) c = (Ok resp, c1) →
     PutFileResponse_Success resp = true →
     complete_schedule (cluster_dial env) (cluster_StoreChunk env) sched (pj_chunks j)
       (PutFileResponse_Placements resp) c1) →
  cluster_put env now ord fs localPath (pj_path j) plans sched c = (r, c') →
  rtc client_step (c, (j, Asking) :: ths) (c', (j, Finished r) :: ths).
Proof.
  intros Hord Hread Hsched. unfold cluster_put, Client.PutFile. rewrite Hread.
  fold (pj_request j). destruct (cluster_PutFile now ord (pj_request j) c) as [ra c1] eqn:Hask.
  pose proof (client_ask 0 now ord j ra c c1 ((j, Asking) :: ths) eq_refl Hord Hask) as Hs.
  unfold after_ask in Hs. destruct ra as [resp|e|p]; [|by intros [= <- <-]; apply rtc_once..].
  destruct (PutFileResponse_Success resp) eqn:Hsucc; [|by intros [= <- <-]; apply rtc_once].
  specialize (Hsched resp c1 eq_refl Hsucc). unfold complete_schedule in Hsched. unfold gos_wrap, uploadChunks.
  destruct (upload_run _ _ _ _) as [ru [[c2 tasks] errs]] eqn:Hrun.
  apply (upload_run_client env j (PutFileResponse_Placements resp) ths) in Hrun. cbn [fst snd] in Hrun.
  destruct ru as [[]|e|p]; [|done|].
  - specialize (Hsched eq_refl).
    pose proof (client_wait 0 j (PutFileResponse_Placements resp) tasks errs c2
      ((j, Uploading (PutFileResponse_Placements resp) tasks errs) :: ths) eq_refl Hsched) as Hw.
    intros Hres. eapply rtc_l; [exact Hs|].
    etrans; [exact Hrun|]. apply rtc_once.
    destruct errs as [|e errs]; injection Hres as <- <-; exact Hw.
  - intros Hres. eapply rtc_l; [exact Hs|]. destruct errs; injection Hres as <- <-; exact Hrun.
Qed.

(** ** An executable scheduler *)
Inductive action :=
  | Ask (i : nat) (now : Time)
  | Turn (i k : nat) (env : Env)
  | Wait (i : nat).

Definition act (a : action) (x : clients) : clients :=
  let '(c, ths) := x in
  match a with
  | Ask i now =>
      match ths !! i with
      | Some (j, Asking) =>
          let '(r, c') := cluster_PutFile now (map_keys (cm_nodes (srv_chunkMgr (cl_meta c)))) (pj_request j) c in
          (c', <[i := (j, after_ask j r)]> ths)
      | _ => x
      end
  | Turn i k env =>
      match ths !! i with
      | Some (j, Uploading pls tasks errs) =>
          match upload_step (cluster_dial env) (cluster_StoreChunk env) k (c, tasks, errs) with
          | (Ok _, (c', tasks', errs')) => (c', <[i := (j, Uploading pls tasks' errs')]> ths)
          | _ => x
          end
      | _ => x
      end
  | Wait i =>
      match ths !! i with
      | Some (j, Uploading pls tasks errs) =>
          if decide (Forall (λ t, ut_todo t = None) tasks)
          then (c, <[i := (j, Finished (after_wait errs))]> ths) else x
      | _ => x
      end
  end.

Lemma act_steps acts : ∀ x, rtc client_step x (foldl (flip act) x acts).
Proof.
  assert (∀ a x, rtc client_step x (act a x)) as Hone.
  { intros a [c ths]. destruct a as [i now|i k env|i]; cbn [act];
      destruct (ths !! i) as [[j [|pls tasks errs|r]]|] eqn:Hi; try reflexivity.
    - destruct (cluster_PutFile now _ (pj_request j) c) as [r c'] eqn:Hp.
      apply rtc_once. eapply client_ask; [exact Hi|apply map_order_keys|exact Hp].
    - destruct (upload_step (cluster_dial env) (cluster_StoreChunk env) k (c, tasks, errs))
        as [[[]|e|p] [[c' tasks'] errs']] eqn:Hst; try reflexivity.
      apply rtc_once. by eapply client_turn.
    - case_decide as Hd; [|reflexivity]. apply rtc_once. by eapply client_wait. }
  induction acts as [|a acts IH]; intros x; [apply rtc_refl|]. simpl. etrans; [apply Hone|apply IH].
Qed.
End clients.

(** ** Concrete runs *)
Section runs.
Definition three_addrs : list string := ["a:9000"; "b:9000"; "c:9000"].
Definition three_cluster : Cluster :=
  mkCluster (mkMetaServer NewNamespace (foldl (λ cm a, demo_register a cm) NewChunkManager three_addrs)
               NewMonitor NewMigrator 1 2)
    (list_to_map ((λ a, (a, demo_node a)) <$> three_addrs)).

Definition text_job (comps : list string) (parts : list string) : put_job :=
  let chunks := bytes_of_string <$> parts in
  mkPutJob true comps chunks (Z.of_nat (length (mjoin chunks))) (DataChecksum (mjoin chunks)).

(** Two clients put the same path; each file has two chunks. *)
Definition job_a : put_job := text_job ["f"] ["AAAA"; "aaaa"].
Definition job_b : put_job := text_job ["f"] ["BBBB"; "bbbb"].

(** The first chunk of the first file is stored before that of the second, the second
    chunk after it. *)
Definition mixing : list action :=
  [Ask 0 0; Ask 1 0] ++ replicate 4 (Turn 0 0 calm) ++ replicate 4 (Turn 1 0 calm) ++
  replicate 4 (Turn 1 1 calm) ++ [Wait 1] ++ replicate 4 (Turn 0 1 calm) ++ [Wait 0].

Definition mixed : clients := foldl (flip act) (three_cluster, [(job_a, Asking); (job_b, Asking)]) mixing.

Definition mixed_meta : FileMeta :=
  match view (srv_namespace (cl_meta mixed.1)) ["f"] with
  | Some (NFile meta) => meta
  | _ => mkFileMeta "" 0 0 0 "" [] 0
  end.

(** C18: Parallel puts of one path can mix: there is a run in which two clients put
    different contents under one path, both are told that their file has been
    uploaded, and a get afterwards reports success and writes the first chunk of the
    one followed by the second chunk of the other, a content nobody put.  The path is
    registered with the checksum of the second file, which is not the checksum of what
    was read: the get does not compare them. *)
Theorem parallel_puts_mix :
  rtc client_step (three_cluster, [(job_a, Asking); (job_b, Asking)]) mixed ∧
  mixed.2 = [(job_a, Finished (Ok tt)); (job_b, Finished (Ok tt))] ∧
  cluster_get calm ∅ "/f" "/tmp/f" (λ l, l) mixed.1 = (Ok tt, {["/tmp/f" := bytes_of_string "BBBBaaaa"]}) ∧
  bytes_of_string "BBBBaaaa" ≠ mjoin (pj_chunks job_a) ∧
  bytes_of_string "BBBBaaaa" ≠ mjoin (pj_chunks job_b) ∧
  ∃ meta, view (srv_namespace (cl_meta mixed.1)) ["f"] = Some (NFile meta) ∧
    fm_Checksum meta = DataChecksum (mjoin (pj_chunks job_b)) ∧
    fm_Checksum meta ≠ DataChecksum (bytes_of_string "BBBBaaaa").
Proof.
  split; [apply act_steps|]. split; [vm_compute; reflexivity|]. split; [vm_compute; reflexivity|].
  split; [discriminate|]. split; [discriminate|]. exists mixed_meta.
  split; [vm_compute; reflexivity|]. split; [vm_compute; reflexivity|].
  apply (bool_decide_unpack (¬ _)). vm_compute. exact I.
Qed.

(** The same interleaving with different paths. *)
Definition job_c : put_job := text_job ["g"; "h"] ["BBBB"; "bbbb"].
Definition side_by_side : clients := foldl (flip act) (demo_cluster, [(job_a, Asking); (job_c, Asking)]) mixing.

Lemma job_a_wf : job_wf job_a.
Proof.
  split; [discriminate|]. split; [repeat constructor; discriminate|]. split; [reflexivity|].
  apply (bool_decide_unpack _). vm_compute. exact I.
Qed.
Lemma job_c_wf : job_wf job_c.
Proof.
  split; [discriminate|]. split; [repeat constructor; discriminate|]. split; [reflexivity|].
  apply (bool_decide_unpack _). vm_compute. exact I.
Qed.

Lemma ids_apart j1 j2 :
  bool_decide (Forall (λ id, id ∉ pj_ids j2) (pj_ids j1)) = true → pj_comps j1 ≠ pj_comps j2 → apart j1 j2.
Proof. intros Hids%bool_decide_eq_true Hc. split; [done|]. by apply Forall_forall. Qed.

Lemma parallel_puts_readable_witness :
  cluster_get calm ∅ "/f" "/tmp/f" (λ l, l) side_by_side.1
    = (Ok tt, {["/tmp/f" := bytes_of_string "AAAAaaaa"]}) ∧
  cluster_get calm ∅ "g/h" "/tmp/f" (λ l, l) side_by_side.1
    = (Ok tt, {["/tmp/f" := bytes_of_string "BBBBbbbb"]}).
Proof.
  assert (rtc client_step (demo_cluster, (λ j, (j, Asking)) <$> [job_a; job_c]) (side_by_side.1, side_by_side.2)) as Hr.
  { rewrite <- surjective_pairing. apply act_steps. }
  assert (apart job_a job_c) as H1 by (apply ids_apart; [vm_compute; reflexivity|discriminate]).
  assert (apart job_c job_a) as H2 by (apply ids_apart; [vm_compute; reflexivity|discriminate]).
  assert (∀ k k' x x', k ≠ k' → [job_a; job_c] !! k = Some x → [job_a; job_c] !! k' = Some x' → apart x x') as Hap.
  { intros [|[|k]] [|[|k']] x x' Hne [= <-] [= <-]; try done. }
  assert (Forall job_wf [job_a; job_c]) as Hwf.
  { apply Forall_cons; split; [exact job_a_wf|]. apply Forall_singleton. exact job_c_wf. }
  split.
  - exact (proj2 (parallel_puts_readable [job_a; job_c] demo_cluster side_by_side.1 side_by_side.2 0 job_a calm true
      (λ l, l) ∅ "/tmp/f" demo_cluster_inv Hwf Hap Hr ltac:(vm_compute; reflexivity) (λ l, reflexivity l))).
  - exact (proj2 (parallel_puts_readable [job_a; job_c] demo_cluster side_by_side.1 side_by_side.2 1 job_c calm false
      (λ l, l) ∅ "/tmp/f" demo_cluster_inv Hwf Hap Hr ltac:(vm_compute; reflexivity) (λ l, reflexivity l))).
Defined.
End runs.
