(* ===== verification/FileStore.v ===== *)
(** * The cluster is a file store

    What a user relies on: a table from paths to contents.  The specification says
    which outcomes of puts, gets and deletes are allowed after which others; the
    theorem says that the cluster never shows any other, for any sequence of
    operations, with overwriting, under either spelling of a path, with failures of
    the network and the disks at any call and data nodes that start again in
    between. *)
From S2P Require Export ParallelPuts Restart.
Local Open Scope Z_scope.

(** ** Specification *)

(** What is known about a path; after a put that failed, nothing. *)
Inductive knowledge :=
  | Absent
  | Holds (content : bytes)
  | Unknown.

Abbreviation known := (list string → knowledge).

Definition learn (comps : list string) (k : knowledge) (a : known) : known :=
  λ p, if decide (p = comps) then k else a p.

(** An operation with its outcome; [undisturbed] says that nothing failed during a get. *)
Inductive operation :=
  | OpPut (comps : list string) (content : bytes) (r : go unit)
  | OpGet (comps : list string) (undisturbed : bool) (r : go bytes)
  | OpDelete (comps : list string) (r : go unit)
  | OpRestart.

Definition fails {A} (r : go A) : Prop := ∃ e, r = Err e.

Definition allowed (a : known) (o : operation) : Prop :=
  match o with
  | OpGet comps undisturbed r =>
      match a comps with
      | Absent => fails r
      | Holds content => (∀ data, r = Ok data → data = content) ∧ (undisturbed = true → r = Ok content)
      | Unknown => True
      end
  | OpDelete comps r =>
      match a comps with
      | Absent => fails r
      | Holds _ => r = Ok tt
      | Unknown => True
      end
  | _ => True
  end.

Definition next (a : known) (o : operation) : known :=
  match o with
  | OpPut comps content (Ok _) => learn comps (Holds content) a
  | OpPut comps _ _ => learn comps Unknown a
  | OpDelete comps (Ok _) => learn comps Absent a
  | _ => a
  end.

Fixpoint accepts (a : known) (ops : list operation) : Prop :=
  match ops with
  | [] => True
  | o :: ops => allowed a o ∧ accepts (next a o) ops
  end.

(** ** Sessions *)
Section sessions.
Context `{SliceSort} `{!SliceSortSpec}.

Definition cluster_DeleteFile (ord : list string) (req : DeleteFileRequest)
    : gos Cluster DeleteFileResponse := λ c,
  let '(r, s) := MetaServer.Server.DeleteFile ord req (cl_meta c) in (r, mkCluster s (cl_nodes c)).

(** The client's rm, over the cluster. *)
Definition cluster_rm (ord : list string) (remotePath : string) : gos Cluster unit :=
  Client.DeleteFile (cluster_DeleteFile ord) remotePath.

(** What a get has left in the local file. *)
Definition fetched (dest : string) (res : go unit * FileSys) : go bytes :=
  match res with
  | (Ok _, fs) => Ok (default [] (fs !! dest))
  | (Err e, _) => Err e
  | (Panic w, _) => Panic w
  end.

(** The identifiers of a put must not be those of chunks of other files. *)
Definition ids_free (c : Cluster) (comps ids : list string) : Prop :=
  ∀ key meta, key ≠ comps → view (srv_namespace (cl_meta c)) key = Some (NFile meta) →
    ∀ id, id ∈ fm_ChunkIDs meta → id ∉ ids.

Inductive session_step : Cluster → operation → Cluster → Prop :=
  | session_put env now ord fs localPath content abs comps plans sched chunks size sum r c c' :
      map_order (cm_nodes (srv_chunkMgr (cl_meta c))) ord →
      comps ≠ [] → Forall good_name comps → fs !! localPath = Some content →
      readAndChunkFile fs localPath None None None plans = Ok (chunks, size, sum) →
      Z.of_nat (length chunks) < 2 ^ 31 →
      (∀ i, i < length chunks → 3 < length (filter (eq i) sched))%nat →
      NoDup (file_ids (path_of abs comps) (length chunks)) →
      ids_free c comps (file_ids (path_of abs comps) (length chunks)) →
      cluster_put env now ord fs localPath (path_of abs comps) plans sched c = (r, c') →
      session_step c (OpPut comps content r) c'
  | session_get env undisturbed abs comps fs dest complete c :
      comps ≠ [] → Forall good_name comps → (∀ l, complete l ≡ₚ l) →
      (undisturbed = true → env = calm) →
      session_step c (OpGet comps undisturbed
        (fetched dest (cluster_get env fs (path_of abs comps) dest complete c))) c
  | session_delete ord abs comps r c c' :
      comps ≠ [] → Forall good_name comps → cluster_rm ord (path_of abs comps) c = (r, c') →
      session_step c (OpDelete comps r) c'
  | session_restart c c' : restart_step c c' → session_step c OpRestart c'.

Inductive session : Cluster → list operation → Cluster → Prop :=
  | session_nil c : session c [] c
  | session_cons c o c1 ops c2 : session_step c o c1 → session c1 ops c2 → session c (o :: ops) c2.

(** ** Simulation *)

(** Different files have different chunks. *)
Definition files_apart (ns : Namespace) : Prop :=
  ∀ k1 k2 m1 m2, k1 ≠ k2 → view ns k1 = Some (NFile m1) → view ns k2 = Some (NFile m2) →
    ∀ id, id ∈ fm_ChunkIDs m1 → id ∉ fm_ChunkIDs m2.

Definition no_file (c : Cluster) (comps : list string) : Prop :=
  ∀ meta, view (srv_namespace (cl_meta c)) comps ≠ Some (NFile meta).

Definition knows (c : Cluster) (comps : list string) (k : knowledge) : Prop :=
  match k with
  | Absent => no_file c comps
  | Holds content => ∃ j pls, pj_comps j = comps ∧ mjoin (pj_chunks j) = content ∧ job_wf j ∧
      registered c j pls ∧ stored c j pls
  | Unknown => True
  end.

Record simulates (c : Cluster) (a : known) : Prop := {
  sim_inv : cluster_inv c;
  sim_apart : files_apart (srv_namespace (cl_meta c));
  sim_knows : ∀ comps, comps ≠ [] → Forall good_name comps → knows c comps (a comps);
}.

(** The entry behind a registered file. *)
Lemma registered_entry c j pls :
  srv_inv (cl_meta c) → job_wf j → registered c j pls →
  ∃ meta, view (srv_namespace (cl_meta c)) (pj_comps j) = Some (NFile meta) ∧ fm_ChunkIDs meta = pj_ids j.
Proof.
  intros [Hns Hcm _] (Hne & Hg & _) Hr. pose proof (registered_ids _ _ _ Hr) as Hids.
  destruct Hr as (_ & _ & Hget). destruct (Hget true) as [info Hresp]. revert Hresp.
  unfold MetaServer.Server.GetFile. cbn [GetFileRequest_Path].
  rewrite GetFile_view, cleanPath_path_of by done.
  destruct (view _ _) as [[|meta]|]; [done| |done].
  destruct (GetChunkLocations _ _) as [locs|e|w] eqn:Hl; [|done..].
  intros (infos & _ & [= _ Hlocs])%go_bind_ok. exists meta. split; [done|]. rewrite <- Hids.
  apply GetChunkLocations_records in Hl; [|done].
  transitivity (cl_ChunkID <$> locs).
  - clear -Hl. induction Hl as [|id loc ids locs [Hid _] _ IH]; [done|]. by rewrite fmap_cons, Hid, IH.
  - transitivity (ChunkLocation_ChunkId <$> (pb_location <$> locs)); [by rewrite <- list_fmap_compose|].
    rewrite Hlocs, <- list_fmap_compose. done.
Qed.

(** *** Putting *)

(** The files after a put: those before, and the new one. *)
Lemma put_entries now ord path (chunks : list bytes) size sum s r s' :
  srv_inv s → map_order (cm_nodes (srv_chunkMgr s)) ord → NoDup (file_ids path (length chunks)) →
  MetaServer.Server.PutFile now ord (mkPutFileRequest path size (Z.of_nat (length chunks)) sum) s = (r, s') →
  ∀ key meta, view (srv_namespace s') key = Some (NFile meta) →
    (key = put_key path ∧ fm_ChunkIDs meta = file_ids path (length chunks)) ∨
    view (srv_namespace s) key = Some (NFile meta).
Proof.
  intros [Hns Hcm _] Hord Hnd. unfold MetaServer.Server.PutFile.
  cbn [PutFileRequest_Path PutFileRequest_ChunkCount PutFileRequest_FileSize PutFileRequest_Checksum].
  destruct (AllocateChunks _ _ _ _ _ _) as [[ps|e|w] cm'] eqn:Ha.
  2-3: intros [= _ <-] key meta Hv; by right.
  destruct (alloc_index _ _ _ _ _ _ _ _ Hcm Hord Hnd Ha) as (Hids & _ & _).
  cbn [set_chunkMgr srv_namespace]. destruct (CreateFile _ _ _) as [r1 ns'] eqn:Hc.
  intros Hr key meta Hv. assert (view ns' key = Some (NFile meta)) as Hv' by (by destruct r1; simplify_eq).
  clear Hr Hv s'. destruct (splitPath path) as [[dir name]|e|w] eqn:Hs.
  - pose proof (CreateFile_post _ _ _ _ (mkFileMeta path size (Z.of_nat (length chunks))
      DefaultReplicationFactor sum (cp_ChunkID <$> ps) now) Hns Hs) as Hp.
    rewrite Hc in Hp. destruct r1 as [[]|e|w]; [|destruct Hp as [-> _]; by right|done].
    destruct Hp as (_ & Hview & _). rewrite Hview in Hv'. unfold tree_put, tree_mkdirs in Hv'.
    unfold put_key. rewrite Hs. case_decide; [left|right; by case_decide].
    injection Hv' as <-. split; [done|]. exact Hids.
  - rewrite (proj1 (splitPath_Err_ops _ e _ _ Hs)) in Hc. injection Hc as _ <-. by right.
  - by apply splitPath_no_panic in Hs.
Qed.

(** Of the metadata server, a put only uses its handler. *)
Lemma cluster_put_meta env now ord fs localPath path plans sched chunks size sum r c c' :
  readAndChunkFile fs localPath None None None plans = Ok (chunks, size, sum) →
  cluster_put env now ord fs localPath path plans sched c = (r, c') →
  ∃ ra, MetaServer.Server.PutFile now ord
    (mkPutFileRequest path size (int32 (Z.of_nat (length chunks))) sum) (cl_meta c) = (ra, cl_meta c').
Proof.
  intros Hread. unfold cluster_put, Client.PutFile, cluster_PutFile. rewrite Hread.
  destruct (MetaServer.Server.PutFile _ _ _ _) as [ra s1] eqn:Hput. intros Hres. exists ra.
  f_equal. revert Hres.
  destruct ra as [resp|e|p]; [|by intros [= _ <-]..].
  destruct (PutFileResponse_Success resp); [|by intros [= _ <-]]. unfold gos_wrap.
  destruct (uploadChunks _ _ _ _ _ _) as [ru c2] eqn:Hup.
  assert (cl_meta c2 = s1) as Hm.
  { eapply (uploadChunks_preserves _ _ (λ c, cl_meta c = s1)); [| |exact Hup]; [|done].
    intros addr req v r1 v' Hc Hv. by eapply cluster_store_meta. }
  destruct ru; intros [= _ <-]; by rewrite Hm.
Qed.

(** Enough turns for every goroutine. *)
Lemma put_schedule env now ord j sched resp c c1 :
  cluster_inv c → map_order (cm_nodes (srv_chunkMgr (cl_meta c))) ord → job_wf j →
  (∀ i, i < length (pj_chunks j) → 3 < length (filter (eq i) sched))%nat →
  cluster_PutFile now ord (pj_request j) c = (Ok resp, c1) → PutFileResponse_Success resp = true →
  complete_schedule (cluster_dial env) (cluster_StoreChunk env) sched (pj_chunks j)
    (PutFileResponse_Placements resp) c1.
Proof.
  intros [Hsrv _] Hord (_ & _ & Hsmall & _) Hsched. unfold cluster_PutFile.
  destruct (MetaServer.Server.PutFile _ _ _ _) as [ra s1] eqn:Hput. intros [= -> _] Hsucc.
  destruct (put_placements _ _ _ _ _ _ Hsrv Hord Hput Hsucc) as [Hlen Hps].
  unfold pj_request in Hlen. cbn [PutFileRequest_ChunkCount] in Hlen.
  rewrite int32_id in Hlen by (unfold in_int32; lia). apply Nat2Z.inj in Hlen.
  apply uploadChunks_complete. intros i p Hp. destruct (Hps i p Hp) as (_ & _ & ? & ?).
  apply lookup_lt_Some in Hp. specialize (Hsched i ltac:(lia)). lia.
Qed.

Lemma pair_apart (j j2 : put_job) (ph ph2 : put_phase) :
  apart j2 j → ∀ i i' t t', i ≠ i' → [(j, ph); (j2, ph2)] !! i = Some t →
  [(j, ph); (j2, ph2)] !! i' = Some t' → apart t.1 t'.1.
Proof.
  intros [Hne Hids] [|[|i]] [|[|i']] t t' Hi Ht Ht'; try done; simpl in *; simplify_eq; [|by split].
  split; [by apply not_eq_sym|]. intros id Hid Hid2. by apply (Hids id).
Qed.

(** What a put teaches about its own path, and that it leaves the other files alone. *)
Lemma put_knows env now ord fs localPath plans sched j r c c' :
  cluster_inv c → map_order (cm_nodes (srv_chunkMgr (cl_meta c))) ord → job_wf j →
  readAndChunkFile fs localPath None None None plans = Ok (pj_chunks j, pj_size j, pj_sum j) →
  (∀ i, i < length (pj_chunks j) → 3 < length (filter (eq i) sched))%nat →
  cluster_put env now ord fs localPath (pj_path j) plans sched c = (r, c') →
  cluster_inv c' ∧
  (r = Ok tt → knows c' (pj_comps j) (Holds (mjoin (pj_chunks j)))) ∧
  (∀ j2 pls, apart j2 j → job_wf j2 → registered c j2 pls → stored c j2 pls →
     ∃ pls', registered c' j2 pls' ∧ stored c' j2 pls').
Proof.
  intros Hinv Hord Hwf Hread Hsched Hput.
  assert (∀ ths, rtc client_step (c, (j, Asking) :: ths) (c', (j, Finished r) :: ths)) as Hruns.
  { intros ths. eapply PutFile_runs_client; [done..| |exact Hput]. intros resp c1 Ha Hs.
    by eapply put_schedule. }
  assert (clients_inv (c', [(j, Finished r)])) as (Hinv' & Hall & _).
  { eapply client_steps_inv; [apply Hruns|]. split; [done|]. split.
    - constructor; [done|constructor].
    - intros [|k] [|k'] t t' Hne Hk Hk'; done. }
  split; [done|]. split.
  - intros ->. apply Forall_cons in Hall as [[_ (pls & Hr & Hst)] _]. by exists j, pls.
  - intros j2 pls Hap Hwf2 Hr Hst.
    assert (clients_inv (c', [(j, Finished r); (j2, Finished (Ok tt))])) as (_ & Hall2 & _).
    { eapply client_steps_inv; [apply Hruns|]. split; [done|]. split.
      - constructor; [done|]. constructor; [|constructor]. split; [done|]. by exists pls.
      - by apply pair_apart. }
    apply Forall_cons in Hall2 as [_ [[_ Hj2] _]%Forall_cons]. exact Hj2.
Qed.

Lemma put_simulated env now ord fs localPath content abs comps plans sched chunks size sum r c c' a :
  map_order (cm_nodes (srv_chunkMgr (cl_meta c))) ord →
  comps ≠ [] → Forall good_name comps → fs !! localPath = Some content →
  readAndChunkFile fs localPath None None None plans = Ok (chunks, size, sum) →
  Z.of_nat (length chunks) < 2 ^ 31 →
  (∀ i, i < length chunks → 3 < length (filter (eq i) sched))%nat →
  NoDup (file_ids (path_of abs comps) (length chunks)) →
  ids_free c comps (file_ids (path_of abs comps) (length chunks)) →
  cluster_put env now ord fs localPath (path_of abs comps) plans sched c = (r, c') →
  simulates c a → simulates c' (next a (OpPut comps content r)).
Proof.
  intros Hord Hne Hg Hfs Hread Hsmall Hsched Hnd Hfree Hput [Hinv Hap Hkn].
  set (j := mkPutJob abs comps chunks size sum).
  assert (job_wf j) as Hwf by done.
  pose proof (readAndChunkFile_chunks fs localPath content plans Hfs) as Hc. rewrite Hread in Hc.
  destruct Hc as [<- _].
  destruct (put_knows env now ord fs localPath plans sched j r c c' Hinv Hord Hwf Hread Hsched Hput)
    as (Hinv' & Hown & Hothers).
  destruct (cluster_put_meta _ _ _ _ _ _ _ _ _ _ _ _ _ _ Hread Hput) as [ra Hmeta].
  rewrite int32_id in Hmeta by (unfold in_int32; lia).
  pose proof (put_entries _ _ _ _ _ _ _ _ _ (proj1 Hinv) Hord Hnd Hmeta) as Hent.
  rewrite put_key_path_of in Hent by done. split; [done| |].
  - intros k1 k2 m1 m2 Hk H1 H2 id Hi1 Hi2.
    destruct (Hent k1 m1 H1) as [[-> E1]|V1], (Hent k2 m2 H2) as [[-> E2]|V2].
    + done.
    + rewrite E1 in Hi1. by apply (Hfree k2 m2 ltac:(done) V2 id).
    + rewrite E2 in Hi2. by apply (Hfree k1 m1 ltac:(done) V1 id).
    + by apply (Hap k1 k2 m1 m2 Hk V1 V2 id).
  - intros comps2 Hne2 Hg2.
    assert (next a (OpPut comps (mjoin chunks) r) comps2 =
      if decide (comps2 = comps) then match r with Ok _ => Holds (mjoin chunks) | _ => Unknown end
      else a comps2) as -> by (by destruct r).
    case_decide as Heq; [subst; destruct r as [[]| |]; [by apply Hown|done..]|].
    specialize (Hkn comps2 Hne2 Hg2). destruct (a comps2) as [|data|]; [|simpl in *|done].
    + intros meta Hv. destruct (Hent comps2 meta Hv) as [[? _]|Hv']; [done|by apply (Hkn meta)].
    + destruct Hkn as (j2 & pls & Hj2 & <- & Hwf2 & Hr & Hst).
      destruct (registered_entry c j2 pls (proj1 Hinv) Hwf2 Hr) as (meta & Hv & Hids).
      destruct (Hothers j2 pls) as (pls' & Hr' & Hst'); [|done..|by exists j2, pls'].
      split; [by rewrite Hj2|]. intros id Hid. rewrite <- Hids in Hid. rewrite Hj2 in Hv.
      by apply (Hfree comps2 meta).
Qed.

(** *** Deleting *)
Lemma DeleteFile_nodes ord req s r s' :
  MetaServer.Server.DeleteFile ord req s = (r, s') →
  ∀ k, (λ n, (dn_Status n, dn_Address n)) <$> cm_nodes (srv_chunkMgr s') !! k =
       (λ n, (dn_Status n, dn_Address n)) <$> cm_nodes (srv_chunkMgr s) !! k.
Proof.
  unfold MetaServer.Server.DeleteFile.
  destruct (Namespace.DeleteFile _ _) as [[[meta|]|e|w] ns']; try by intros [= _ <-].
  pose proof (remove_fold_spec (fm_ChunkIDs meta) ∅ (srv_chunkMgr s)) as (_ & Hsame & Hn).
  cbn [set_namespace srv_chunkMgr]. unfold RemoveChunks.
  destruct (foldl remove_chunk_step (∅, srv_chunkMgr s) (fm_ChunkIDs meta)) as [addrs cm'].
  cbn [snd] in *. intros [= _ <-] k. cbn [set_chunkMgr srv_chunkMgr].
  destruct (cm_nodes cm' !! k) as [n'|] eqn:Hk'.
  - destruct (same_ids_inv _ _ _ _ Hsame Hk') as (n & Hk & _). rewrite Hk. simpl.
    destruct (Hn k n n' Hk Hk') as (-> & _). by destruct (proj2 Hsame k n n' Hk Hk') as [_ ->].
  - destruct (cm_nodes (srv_chunkMgr s) !! k) as [n|] eqn:Hk; [|done].
    destruct (proj1 (proj1 Hsame k)) as [n' Hn']; [by eexists|]. by rewrite Hn' in Hk'.
Qed.

Lemma registered_kept c c' j pls :
  srv_inv (cl_meta c) → srv_inv (cl_meta c') → job_wf j → registered c j pls →
  (∀ meta, view (srv_namespace (cl_meta c)) (pj_comps j) = Some (NFile meta) →
     view (srv_namespace (cl_meta c')) (pj_comps j) = Some (NFile meta)) →
  (∀ id, id ∈ pj_ids j → cm_chunks (srv_chunkMgr (cl_meta c')) !! id = cm_chunks (srv_chunkMgr (cl_meta c)) !! id) →
  (∀ k, (λ n, (dn_Status n, dn_Address n)) <$> cm_nodes (srv_chunkMgr (cl_meta c')) !! k =
        (λ n, (dn_Status n, dn_Address n)) <$> cm_nodes (srv_chunkMgr (cl_meta c)) !! k) →
  registered c' j pls.
Proof.
  intros Hs Hs' (Hne & Hg & _) Hr Hv Hc Hn. pose proof (registered_ids _ _ _ Hr) as Hids.
  destruct Hr as (Hlen & Hp & Hget). split; [done|]. split; [done|]. intros abs.
  destruct (Hget abs) as [info Hinfo]. exists info.
  eapply GetFile_kept; [exact Hs|exact Hs'|exact Hinfo| | |exact Hn].
  - by rewrite cleanPath_path_of.
  - apply Forall_fmap, Forall_forall. intros p Hin. simpl. apply Hc. rewrite <- Hids.
    apply list_elem_of_fmap. eauto.
Qed.

Lemma rm_simulated ord abs comps r c c' a :
  comps ≠ [] → Forall good_name comps → cluster_rm ord (path_of abs comps) c = (r, c') →
  simulates c a → allowed a (OpDelete comps r) ∧ simulates c' (next a (OpDelete comps r)).
Proof.
  intros Hne Hg Hrm [Hinv Hap Hkn]. revert Hrm.
  unfold cluster_rm, Client.DeleteFile, cluster_DeleteFile.
  pose proof (DeleteFile_forgets ord abs comps (cl_meta c) (proj1 Hinv) Hne Hg) as Hdel.
  destruct (MetaServer.Server.DeleteFile _ _ _) as [[resp|e|p] s'] eqn:Hrun; [|done..].
  assert (srv_inv s') as Hsrv' by (eapply srv_step_inv; [apply Hinv|by eapply srv_DeleteFile]).
  pose proof (Hkn comps Hne Hg) as Hown. destruct (DeleteFileResponse_Success resp).
  - destruct Hdel as (meta & Hv & Hview & _ & Hchunks & _). intros [= <- <-]. split.
    { simpl. destruct (a comps); [by destruct (Hown meta)|done..]. }
    split; [by split; [|apply Hinv]| |]; cbn [cl_meta].
    + intros k1 k2 m1 m2 Hk. rewrite !Hview. unfold tree_delete. case_decide; [done|]. case_decide; [done|].
      by apply Hap.
    + intros comps2 Hne2 Hg2. simpl. unfold learn. case_decide as Heq.
      { subst. intros m. cbn [cl_meta]. rewrite Hview. unfold tree_delete. by rewrite decide_True. }
      specialize (Hkn comps2 Hne2 Hg2). destruct (a comps2) as [|data|]; [|simpl in *|done].
      * intros m. cbn [cl_meta]. rewrite Hview. unfold tree_delete. rewrite decide_False by done. apply Hkn.
      * destruct Hkn as (j & pls & Hj & Hdata & Hwf & Hr & Hst). exists j, pls. do 3 (split; [done|]).
        split; [|exact Hst].
        destruct (registered_entry c j pls (proj1 Hinv) Hwf Hr) as (m2 & Hv2 & Hids2). rewrite Hj in Hv2.
        eapply registered_kept; [apply Hinv|exact Hsrv'|done|exact Hr| | |by eapply DeleteFile_nodes].
        -- intros m. cbn [cl_meta]. rewrite Hview. unfold tree_delete. by rewrite decide_False by congruence.
        -- intros id Hid. cbn [cl_meta]. specialize (Hchunks id). unfold GetChunkMeta in Hchunks.
           rewrite Hchunks, decide_False; [done|]. rewrite <- Hids2 in Hid.
           by apply (Hap comps2 comps m2 meta).
  - destruct Hdel as [-> Hno]. intros [= <- <-]. split.
    + simpl. destruct (a comps); [by eexists| |done].
      destruct Hown as (j & pls & <- & _ & Hwf & Hr & _).
      destruct (registered_entry c j pls (proj1 Hinv) Hwf Hr) as (meta & Hv & _). by destruct (Hno meta).
    + by destruct c.
Qed.

(** *** Reading and restarting *)
Lemma get_absent env fs abs comps dest complete c :
  srv_inv (cl_meta c) → Forall good_name comps → no_file c comps →
  fails (fetched dest (cluster_get env fs (path_of abs comps) dest complete c)).
Proof.
  intros [Hns _ _] Hg Hno. unfold cluster_get, Client.GetFile, cluster_GetFile, MetaServer.Server.GetFile.
  cbn [GetFileRequest_Path]. rewrite GetFile_view, cleanPath_path_of by done.
  destruct (view _ _) as [[|meta]|] eqn:Hv; [by eexists|by destruct (Hno meta)|by eexists].
Qed.

Lemma get_allowed env (undisturbed : bool) abs comps fs dest complete c a :
  comps ≠ [] → Forall good_name comps → (∀ l, complete l ≡ₚ l) → (undisturbed = true → env = calm) →
  simulates c a →
  allowed a (OpGet comps undisturbed (fetched dest (cluster_get env fs (path_of abs comps) dest complete c))).
Proof.
  intros Hne Hg Hcomplete Hcalm [Hinv _ Hkn]. specialize (Hkn comps Hne Hg). simpl.
  destruct (a comps) as [|content|]; [by apply get_absent; [apply Hinv|..]| |done].
  destruct Hkn as (j & pls & <- & <- & Hwf & Hr & Hst).
  destruct (stored_reads c j pls env abs complete fs dest Hwf Hr Hst Hcomplete) as [Hsound Hcomp]. split.
  - intros data. destruct (cluster_get env _ _ _ _ _) as [[[]|e|w] fs'] eqn:Hget; [|done..].
    rewrite (Hsound fs' eq_refl). cbn [fetched]. rewrite lookup_insert_eq. by intros [= <-].
  - intros ->. rewrite Hcalm by done. rewrite Hcomp. cbn [fetched]. by rewrite lookup_insert_eq.
Qed.

Lemma restart_simulated c c' a : restart_step c c' → simulates c a → simulates c' a.
Proof.
  intros Hs [[Hsrv Hok] Hap Hkn].
  destruct (restart_step_holds c c' Hs Hok) as (Hok' & Hm & Hkeep).
  split; [by split; [rewrite Hm|]|by rewrite Hm|].
  intros comps Hne Hg. specialize (Hkn comps Hne Hg). unfold knows, no_file in *. rewrite Hm.
  destruct (a comps); [done| |done]. destruct Hkn as (j & pls & ? & ? & ? & Hr & Hst).
  exists j, pls. do 3 (split; [done|]). split; [by apply (registered_meta c)|].
  intros i p bs addr Hp Hb Ha. apply Hkeep. by eapply Hst.
Qed.

Lemma session_step_simulated c o c' a :
  session_step c o c' → simulates c a → allowed a o ∧ simulates c' (next a o).
Proof.
  destruct 1; intros Hsim.
  - split; [done|]. by eapply put_simulated.
  - split; [|done]. by apply get_allowed.
  - by eapply rm_simulated.
  - split; [done|]. by eapply restart_simulated.
Qed.

Lemma session_accepted c ops c' a : session c ops c' → simulates c a → accepts a ops.
Proof.
  intros Hs. revert a. induction Hs as [c|c o c1 ops c2 Hst _ IH]; intros a Hsim; [done|].
  destruct (session_step_simulated _ _ _ _ Hst Hsim) as [Hal Hsim']. split; [done|by apply IH].
Qed.

(** C1: The cluster is a file store: start with no files and let clients put, get and
    delete files one after the other, under either spelling of the paths, overwriting
    as they like, while calls and disks fail at any time during puts and gets and
    data nodes restart on their disks in between.  Then every outcome is one that a
    table from paths to contents allows: a get after a successful put returns exactly
    the content put last or fails, and does not fail when nothing else does; a delete
    of a stored file succeeds; after it, and before any put, gets and deletes fail.
    The files have fewer than 2^31 chunks, and the chunk identifiers of a put, hashes
    cut to sixteen digits, collide neither with each other nor with those of another
    stored file ([ids_free]). *)
Theorem cluster_is_file_store c ops c' :
  cluster_inv c → (∀ comps, no_file c comps) → session c ops c' → accepts (λ _, Absent) ops.
Proof.
  intros Hinv Hno Hs. eapply session_accepted; [exact Hs|]. split; [done| |].
  - intros k1 k2 m1 m2 _ H1. by destruct (Hno k1 m1).
  - intros comps _ _. apply Hno.
Qed.
End sessions.

(** ** A concrete session

    A file is put while the disk of one node is full, read, and put again with
    shorter content after a node has restarted; it is read while another node's disk
    fails, removed, and no longer found. *)
Lemma get_step env (undisturbed : bool) abs comps fs dest complete c r :
  comps ≠ [] → Forall good_name comps → (∀ l, complete l ≡ₚ l) → (undisturbed = true → env = calm) →
  fetched dest (cluster_get env fs (path_of abs comps) dest complete c) = r →
  session_step c (OpGet comps undisturbed r) c.
Proof. intros ? ? ? ? <-. by apply session_get. Qed.

Definition shorter : bytes := bytes_of_string "bye".
Definition user_path : list string := ["a"; "b"].
Definition user_put : go unit * Cluster :=
  cluster_put demo_env 1 demo_ord {["/home/f" := shorter]} "/home/f" (path_of false user_path) demo_plans
    demo_sched (restart_at "a:9000" demo_ids demo_put_cluster.2).
Definition user_rm : go unit * Cluster := cluster_rm [] (path_of true user_path) user_put.2.
Definition user_get (env : Env) (c : Cluster) : go bytes :=
  fetched "/tmp/f" (cluster_get env ∅ (path_of true user_path) "/tmp/f" (rev (A:=_)) c).

Definition user_session : list operation :=
  [OpPut user_path demo_content (Ok tt); OpGet user_path true (Ok demo_content); OpRestart;
   OpPut user_path shorter (Ok tt); OpGet user_path false (Ok shorter); OpDelete user_path (Ok tt);
   OpGet user_path true (user_get calm user_rm.2)].

Lemma user_path_good : Forall good_name user_path.
Proof. repeat constructor; discriminate. Qed.

Lemma fresh_no_file comps : no_file demo_cluster comps.
Proof.
  intros meta. unfold demo_cluster, demo_srv. cbn [cl_meta srv_namespace].
  destruct comps as [|k comps]; [by intros [= ?]|]. by rewrite NewNamespace_view.
Qed.

(** The put of [Cluster.v], as a client's job. *)
Definition demo_job : put_job := text_job ["a"; "b"] ["hell"; "o wo"; "rld"].

Lemma demo_read : readAndChunkFile demo_local "/home/f" None None None demo_plans
  = Ok (pj_chunks demo_job, pj_size demo_job, pj_sum demo_job).
Proof. vm_compute. reflexivity. Qed.

Lemma demo_put_done :
  cluster_put demo_env 0 demo_ord demo_local "/home/f" (path_of true user_path) demo_plans demo_sched demo_cluster
    = (Ok tt, demo_put_cluster.2).
Proof. apply (fst_outcome demo_put_cluster). vm_compute. reflexivity. Qed.

Lemma demo_ids_nodup : NoDup (file_ids (path_of true ["a"; "b"]) (length (pj_chunks demo_job))).
Proof. apply (bool_decide_unpack _). vm_compute. exact I. Qed.

Lemma restart_at_meta addr ids c : cl_meta (restart_at addr ids c) = cl_meta c.
Proof.
  unfold restart_at. destruct (cl_nodes c !! addr); [|done]. by destruct (restart _ _ _ _).
Qed.

(** After the first put there is no other file. *)
Lemma one_file ids : ids_free (restart_at "a:9000" demo_ids demo_put_cluster.2) user_path ids.
Proof.
  intros key meta Hkey Hv. rewrite restart_at_meta in Hv.
  destruct (cluster_put_meta _ _ _ _ _ _ _ _ _ _ _ _ _ _ demo_read demo_put_done) as [ra Hmeta].
  change (int32 (Z.of_nat (length (pj_chunks demo_job)))) with (Z.of_nat (length (pj_chunks demo_job))) in Hmeta.
  destruct (put_entries _ _ _ _ _ _ _ _ _ demo_srv_inv demo_order demo_ids_nodup Hmeta key meta Hv) as [[Hk _]|Hk].
  - exfalso. apply Hkey. rewrite Hk. exact (put_key_path_of true user_path ltac:(discriminate) user_path_good).
  - destruct (fresh_no_file key meta Hk).
Qed.

Lemma user_session_run : session demo_cluster user_session user_rm.2.
Proof.
  apply (session_cons _ _ demo_put_cluster.2).
  { apply (session_put demo_env 0 demo_ord demo_local "/home/f" demo_content true user_path demo_plans demo_sched
      (pj_chunks demo_job) (pj_size demo_job) (pj_sum demo_job));
      [exact demo_order|discriminate|exact user_path_good|apply lookup_singleton_eq|exact demo_read|reflexivity
      | |exact demo_ids_nodup|intros key meta _ Hv; destruct (fresh_no_file key meta Hv)|exact demo_put_done].
    intros i Hi. simpl in Hi. do 3 (destruct i as [|i]; [vm_compute; lia|]). lia. }
  apply (session_cons _ _ demo_put_cluster.2).
  { apply (get_step calm true false user_path ∅ "/tmp/f" (rev (A:=_))); [discriminate|exact user_path_good| |done|].
    - intros l. symmetry. apply Permutation_rev.
    - vm_compute. reflexivity. }
  apply (session_cons _ _ (restart_at "a:9000" demo_ids demo_put_cluster.2)).
  { apply session_restart. eapply (demo_lists "a:9000" _ (node_at demo_put_cluster.2 "a:9000")); vm_compute; reflexivity. }
  apply (session_cons _ _ user_put.2).
  { apply (session_put demo_env 1 demo_ord {["/home/f" := shorter]} "/home/f" shorter false user_path demo_plans
      demo_sched [shorter] 3 (DataChecksum shorter));
      [ |discriminate|exact user_path_good|apply lookup_singleton_eq|vm_compute; reflexivity|reflexivity
      | | |apply one_file|apply (fst_outcome user_put); vm_compute; reflexivity].
    - rewrite restart_at_meta.
      assert (map_keys (cm_nodes (srv_chunkMgr (cl_meta demo_put_cluster.2))) = demo_ord) as <-
        by (vm_compute; reflexivity). apply map_order_keys.
    - intros i Hi. simpl in Hi. destruct i; [vm_compute|]; lia.
    - apply (bool_decide_unpack _). vm_compute. exact I. }
  apply (session_cons _ _ user_put.2).
  { apply (get_step demo_env false true user_path ∅ "/tmp/f" (rev (A:=_))); [discriminate|exact user_path_good| |done|].
    - intros l. symmetry. apply Permutation_rev.
    - vm_compute. reflexivity. }
  apply (session_cons _ _ user_rm.2).
  { apply (session_delete [] true user_path); [discriminate|exact user_path_good|apply (fst_outcome user_rm); vm_compute; reflexivity]. }
  apply (session_cons _ _ user_rm.2); [|constructor].
  apply (get_step calm true true user_path ∅ "/tmp/f" (rev (A:=_))); [discriminate|exact user_path_good| |done|reflexivity].
  intros l. symmetry. apply Permutation_rev.
Qed.

Lemma cluster_is_file_store_witness :
  accepts (λ _, Absent) user_session ∧ user_get calm user_rm.2 ≠ Ok shorter.
Proof.
  split; [|vm_compute; discriminate].
  exact (cluster_is_file_store demo_cluster user_session user_rm.2 demo_cluster_inv fresh_no_file user_session_run).
Defined.
