(* ===== verification/UploadOrder.v ===== *)
(** * Parallel uploads are equivalent to uploading in order

    [uploadChunks] starts one goroutine per chunk.  Their turns commute up to the
    order of the errors sent, so every complete interleaving ends like a plain loop
    over the chunks. *)
From S2P Require Export Cluster.
Local Open Scope Z_scope.

(** Two stateful operations that do not see each other. *)
Definition commute {S A B} (f : gos S A) (g : gos S B) : Prop := ∀ s,
  (f (g s).2).1 = (f s).1 ∧ (g (f s).2).1 = (g s).1 ∧ (f (g s).2).2 = (g (f s).2).2.

Lemma commute_sym {S A B} (f : gos S A) (g : gos S B) : commute f g → commute g f.
Proof. intros Hc s. destruct (Hc s) as (H1 & H2 & H3). by split. Qed.

(** What a network must provide: calls return, and stores of different chunks do not
    see each other. *)
Class IndependentStores (W : Type) (dial : string → W → go unit)
    (call_StoreChunk : string → StoreChunkRequest → gos W StoreChunkResponse) := {
  dial_returns addr w : no_panic (dial addr w);
  store_returns addr req w : no_panic (call_StoreChunk addr req w).1;
  dial_stable a addr req w : dial a (call_StoreChunk addr req w).2 = dial a w;
  store_commute a1 a2 req1 req2 :
    plain_id (StoreChunkRequest_ChunkId req1) → plain_id (StoreChunkRequest_ChunkId req2) →
    StoreChunkRequest_ChunkId req1 ≠ StoreChunkRequest_ChunkId req2 →
    commute (call_StoreChunk a1 req1) (call_StoreChunk a2 req2);
}.

Section order.
Context {W : Type} (dial : string → W → go unit).
Context (call_StoreChunk : string → StoreChunkRequest → gos W StoreChunkResponse).
Context `{!IndependentStores W dial call_StoreChunk}.
Local Abbreviation send := (sendChunkToNode dial call_StoreChunk).
Local Abbreviation upload_step := (upload_step dial call_StoreChunk).
Local Abbreviation upload_run := (upload_run dial call_StoreChunk).
Local Abbreviation uploadChunks := (uploadChunks dial call_StoreChunk).
Local Abbreviation upload_state := (upload_state (W := W)).

(** ** The reference: one chunk after the other *)
Fixpoint send_all (chunk : string) (data : bytes) (addrs : list string) (w : W) : list string * W :=
  match addrs with
  | [] => ([], w)
  | addr :: rest =>
      match send addr chunk data (DataChecksum data) w with
      | (Ok _, w') => send_all chunk data rest w'
      | (Err e, w') => (["chunk " +:+ chunk +:+ " to " +:+ addr +:+ ": " +:+ e], w')
      | (Panic p, w') => ([], w')
      end
  end.

Definition send_placed (acc : list string * W) (pd : ChunkPlacement * bytes) : list string * W :=
  let '(es, w) := send_all (ChunkPlacement_ChunkId pd.1) pd.2 (ChunkPlacement_NodeAddresses pd.1) acc.2 in
  (acc.1 ++ es, w).

Definition upload_in_order (chunks : list bytes) (placements : list ChunkPlacement) (w : W)
    : list string * W :=
  foldl send_placed ([], w) (zip placements chunks).

(** ** One send *)
Definition verdict (r : go StoreChunkResponse) : go unit :=
  match r with
  | Ok resp =>
      if StoreChunkResponse_Success resp then Ok tt
      else Err ("store failed: " +:+ StoreChunkResponse_Message resp)
  | Err e => Err ("StoreChunk RPC: " +:+ e)
  | Panic p => Panic p
  end.

Lemma send_eq addr id data sum w :
  send addr id data sum w =
    match dial addr w with
    | Ok _ => let '(r, w') := call_StoreChunk addr (mkStoreChunkRequest id data sum) w in (verdict r, w')
    | Err e => (Err ("connect to " +:+ addr +:+ ": " +:+ e), w)
    | Panic p => (Panic p, w)
    end.
Proof.
  unfold sendChunkToNode. destruct (dial addr w); [|done..].
  destruct (call_StoreChunk _ _ _) as [[resp|e|p] w1]; [|done..]. simpl.
  by destruct (StoreChunkResponse_Success resp).
Qed.

Lemma send_returns addr id data sum w : no_panic (send addr id data sum w).1.
Proof.
  rewrite send_eq. pose proof (dial_returns addr w) as Hd.
  destruct (dial addr w) as [[]|e|p]; [|by intros ?|by destruct (Hd p)].
  pose proof (store_returns addr (mkStoreChunkRequest id data sum) w) as Hs.
  destruct (call_StoreChunk _ _ _) as [[resp|e|p] w1]; simpl; [|by intros ?|by destruct (Hs p)].
  by destruct (StoreChunkResponse_Success resp).
Qed.

Lemma send_commute a1 a2 id1 id2 d1 d2 s1 s2 :
  plain_id id1 → plain_id id2 → id1 ≠ id2 → commute (send a1 id1 d1 s1) (send a2 id2 d2 s2).
Proof.
  intros H1 H2 Hne w. rewrite !send_eq.
  pose proof (store_commute a1 a2 (mkStoreChunkRequest id1 d1 s1) (mkStoreChunkRequest id2 d2 s2)
    H1 H2 Hne w) as (Hr1 & Hr2 & Hw).
  pose proof (dial_stable a1 a2 (mkStoreChunkRequest id2 d2 s2) w) as Hd1.
  pose proof (dial_stable a2 a1 (mkStoreChunkRequest id1 d1 s1) w) as Hd2.
  destruct (call_StoreChunk a1 _ w) as [r1 w1] eqn:E1, (call_StoreChunk a2 _ w) as [r2 w2] eqn:E2.
  cbn [fst snd] in *.
  destruct (dial a1 w) as [[]|e1|p1] eqn:D1, (dial a2 w) as [[]|e2|p2] eqn:D2;
    rewrite ?E1, ?E2; cbn [fst snd]; rewrite ?D1, ?D2, ?Hd1, ?Hd2, ?E1, ?E2; try done.
  destruct (call_StoreChunk a1 _ w2), (call_StoreChunk a2 _ w1). cbn [fst snd] in *. by subst.
Qed.

(** ** One turn of a goroutine *)
Definition task_turn (t : upload_task) (w : W) : upload_task * list string * W :=
  match ut_todo t with
  | None => (t, [], w)
  | Some [] => (mkUploadTask (ut_chunk t) (ut_data t) None, [], w)
  | Some (addr :: rest) =>
      match send addr (ut_chunk t) (ut_data t) (DataChecksum (ut_data t)) w with
      | (Err e, w') => (mkUploadTask (ut_chunk t) (ut_data t) None,
                        ["chunk " +:+ ut_chunk t +:+ " to " +:+ addr +:+ ": " +:+ e], w')
      | (_, w') => (mkUploadTask (ut_chunk t) (ut_data t) (Some rest), [], w')
      end
  end.

Definition turn (i : nat) (st : upload_state) : upload_state :=
  let '(w, tasks, errs) := st in
  match tasks !! i with
  | Some t => let '(t', es, w') := task_turn t w in (w', <[i := t']> tasks, errs ++ es)
  | None => st
  end.

Definition turns (sched : list nat) (st : upload_state) : upload_state :=
  foldl (λ st i, turn i st) st sched.

(** The identifiers the goroutines work on. *)
Definition ids_wf (ids : list string) : Prop :=
  NoDup ids ∧ Forall (λ id, plain_id id ∧ (12 ≤ String.length id)%nat) ids.

Definition state_ids (st : upload_state) : list string := ut_chunk <$> st.1.2.

Lemma task_turn_chunk t w t' es w' : task_turn t w = (t', es, w') → ut_chunk t' = ut_chunk t.
Proof.
  unfold task_turn. destruct (ut_todo t) as [[|addr rest]|]; [by intros [= <- _ _]| |by intros [= <- _ _]].
  destruct (send _ _ _ _ _) as [[]]; by intros [= <- _ _].
Qed.

Lemma turn_ids i st : state_ids (turn i st) = state_ids st.
Proof.
  destruct st as [[w tasks] errs]. unfold turn, state_ids. destruct (tasks !! i) as [t|] eqn:Hi; [|done].
  destruct (task_turn t w) as [[t' es] w'] eqn:Ht. simpl. apply task_turn_chunk in Ht.
  rewrite list_fmap_insert, Ht. apply list_insert_id. by rewrite list_lookup_fmap, Hi.
Qed.

Lemma turns_ids sched : ∀ st, state_ids (turns sched st) = state_ids st.
Proof. induction sched as [|i sched IH]; intros st; [done|]. simpl. rewrite IH. apply turn_ids. Qed.

Lemma upload_step_turn i st : ids_wf (state_ids st) → upload_step i st = (Ok tt, turn i st).
Proof.
  destruct st as [[w tasks] errs]. intros [_ Hids]. unfold Client.upload_step, turn.
  destruct (tasks !! i) as [[chunk data todo]|] eqn:Hi; [|done]. unfold task_turn. cbn [ut_todo ut_chunk ut_data].
  assert (12 ≤ String.length chunk)%nat as Hlong.
  { eapply Forall_lookup_1 in Hids as [_ Hl]; [exact Hl|].
    unfold state_ids. simpl. rewrite list_lookup_fmap, Hi. done. }
  destruct todo as [[|addr rest]|].
  - destruct (slice_to_ok 12 chunk Hlong) as [t ->]. simpl. by rewrite app_nil_r.
  - pose proof (send_returns addr chunk data (DataChecksum data) w) as Hr.
    destruct (send _ _ _ _ _) as [[[]|e|p] w'].
    + simpl. by rewrite app_nil_r.
    + done.
    + by destruct (Hr p).
  - by rewrite list_insert_id, app_nil_r.
Qed.

Lemma upload_run_turns sched : ∀ st, ids_wf (state_ids st) → upload_run sched st = (Ok tt, turns sched st).
Proof.
  induction sched as [|i sched IH]; intros st Hst; [done|]. cbn [Client.upload_run].
  rewrite (gos_bind_ok _ _ _ tt (turn i st)) by (by apply upload_step_turn).
  apply IH. by rewrite turn_ids.
Qed.

(** ** Turns commute *)

(** Equal servers and goroutines; the errors in any order. *)
Definition upload_equiv (x y : upload_state) : Prop := x.1 = y.1 ∧ x.2 ≡ₚ y.2.
Local Infix "≈" := upload_equiv (at level 70).

#[local] Instance upload_equiv_equivalence : Equivalence upload_equiv.
Proof.
  split.
  - by split.
  - intros x y [H1 H2]. by split.
  - intros x y z [H1 H2] [H3 H4]. split; [congruence|by rewrite H2].
Qed.

#[local] Instance turn_proper i : Proper (upload_equiv ==> upload_equiv) (turn i).
Proof.
  intros [[w tasks] errs] [[w' tasks'] errs'] [[= <- <-] Herrs]. unfold turn. simpl in Herrs.
  destruct (tasks !! i) as [t|]; [|by split]. destruct (task_turn t w) as [[t' es] w'].
  split; [done|]. simpl. by rewrite Herrs.
Qed.

#[local] Instance turns_proper sched : Proper (upload_equiv ==> upload_equiv) (turns sched).
Proof.
  induction sched as [|i sched IH]; intros x y Hxy; [done|]. simpl. apply IH. by rewrite Hxy.
Qed.

#[local] Instance state_ids_proper : Proper (upload_equiv ==> eq) state_ids.
Proof. intros x y [Hxy _]. unfold state_ids. by rewrite Hxy. Qed.

Lemma task_turn_commute t1 t2 : 
  plain_id (ut_chunk t1) → plain_id (ut_chunk t2) → ut_chunk t1 ≠ ut_chunk t2 →
  ∀ w, (task_turn t1 (task_turn t2 w).2).1 = (task_turn t1 w).1 ∧
       (task_turn t2 (task_turn t1 w).2).1 = (task_turn t2 w).1 ∧
       (task_turn t1 (task_turn t2 w).2).2 = (task_turn t2 (task_turn t1 w).2).2.
Proof.
  intros H1 H2 Hne w. unfold task_turn.
  destruct (ut_todo t1) as [[|a1 r1]|]; [by destruct (ut_todo t2) as [[|a2 r2]|]| |by destruct (ut_todo t2) as [[|a2 r2]|]].
  destruct (ut_todo t2) as [[|a2 r2]|]; [done| |done].
  pose proof (send_commute a1 a2 (ut_chunk t1) (ut_chunk t2) (ut_data t1) (ut_data t2)
    (DataChecksum (ut_data t1)) (DataChecksum (ut_data t2)) H1 H2 Hne w) as (Hr1 & Hr2 & Hw).
  destruct (send a1 _ _ _ w) as [x1 w1] eqn:E1, (send a2 _ _ _ w) as [x2 w2] eqn:E2. cbn [fst snd] in *.
  destruct x1 as [[]|e1|p1], x2 as [[]|e2|p2]; cbn [fst snd];
    destruct (send a1 _ _ _ w2) as [y1 v1], (send a2 _ _ _ w1) as [y2 v2]; cbn [fst snd] in *; by subst.
Qed.

Lemma turn_commute i j st : ids_wf (state_ids st) → turn i (turn j st) ≈ turn j (turn i st).
Proof.
  intros [Hnd Hids]. destruct (decide (i = j)) as [->|Hij]; [done|].
  destruct st as [[w tasks] errs]. unfold state_ids in *. cbn [fst snd] in *.
  destruct (tasks !! i) as [t1|] eqn:Hi, (tasks !! j) as [t2|] eqn:Hj.
  4: { unfold turn. by rewrite Hi, Hj, Hi. }
  2: { unfold turn. rewrite Hj, Hi. destruct (task_turn t1 w) as [[t' es] w'].
       by rewrite list_lookup_insert_ne, Hj. }
  2: { unfold turn. rewrite Hi, Hj. destruct (task_turn t2 w) as [[t' es] w'].
       by rewrite list_lookup_insert_ne, Hi. }
  assert (∀ k t, tasks !! k = Some t → (ut_chunk <$> tasks) !! k = Some (ut_chunk t)) as Hl.
  { intros k t Hk. by rewrite list_lookup_fmap, Hk. }
  destruct (task_turn_commute t1 t2) with w as (H1 & H2 & Hw).
  { by apply (Forall_lookup_1 _ _ _ _ Hids (Hl i t1 Hi)). }
  { by apply (Forall_lookup_1 _ _ _ _ Hids (Hl j t2 Hj)). }
  { intros Heq. apply Hij. eapply NoDup_lookup; [exact Hnd|by apply Hl|]. rewrite Heq. by apply Hl. }
  unfold turn. rewrite Hi, Hj.
  destruct (task_turn t1 w) as [[t1' es1] w1] eqn:E1, (task_turn t2 w) as [[t2' es2] w2] eqn:E2.
  cbn [fst snd] in *. rewrite !list_lookup_insert_ne, Hi, Hj by done.
  destruct (task_turn t1 w2) as [[t1'' es1'] v1], (task_turn t2 w1) as [[t2'' es2'] v2].
  cbn [fst snd] in *. simplify_eq. split; cbn [fst snd].
  - by rewrite list_insert_insert_ne by done.
  - by rewrite <- !app_assoc, (Permutation_app_comm es1 es2).
Qed.

Lemma turn_turns i sched : ∀ st, ids_wf (state_ids st) → turn i (turns sched st) ≈ turns sched (turn i st).
Proof.
  induction sched as [|j sched IH]; intros st Hst; [done|]. simpl.
  rewrite IH by (by rewrite turn_ids). by rewrite turn_commute.
Qed.

Lemma turns_commute s1 s2 : ∀ st, ids_wf (state_ids st) → turns s1 (turns s2 st) ≈ turns s2 (turns s1 st).
Proof.
  induction s1 as [|i s1 IH]; intros st Hst; [done|]. simpl.
  rewrite turn_turns by done. apply IH. by rewrite turn_ids.
Qed.

Lemma turns_cons i sched st : turns (i :: sched) st = turns sched (turn i st).
Proof. done. Qed.

(** A goroutine that has returned stays as it is. *)
Lemma turn_idle i w tasks errs :
  (∀ t, tasks !! i = Some t → ut_todo t = None) → turn i (w, tasks, errs) = (w, tasks, errs).
Proof.
  intros Hi. unfold turn. destruct (tasks !! i) as [t|] eqn:Ht; [|done].
  unfold task_turn. rewrite (Hi t eq_refl). by rewrite list_insert_id, app_nil_r.
Qed.

Lemma turns_done sched : ∀ st, all_done st.1.2 → turns sched st = st.
Proof.
  induction sched as [|i sched IH]; intros [[w tasks] errs] Hdone; [done|].
  rewrite turns_cons, turn_idle; [by apply IH|]. intros t Ht. by apply (Forall_lookup_1 _ _ _ _ Hdone Ht).
Qed.

Lemma turns_idle i n w tasks errs :
  (∀ t, tasks !! i = Some t → ut_todo t = None) →
  turns (replicate n i) (w, tasks, errs) = (w, tasks, errs).
Proof. intros Hi. induction n as [|n IH]; [done|]. cbn [replicate]. by rewrite turns_cons, turn_idle. Qed.

(** Two schedules that let every goroutine return end alike. *)
Lemma turns_confluent s1 s2 st :
  ids_wf (state_ids st) → all_done (turns s1 st).1.2 → all_done (turns s2 st).1.2 →
  turns s1 st ≈ turns s2 st.
Proof.
  intros Hst H1 H2. rewrite <- (turns_done s2 (turns s1 st)) by done.
  rewrite <- (turns_done s1 (turns s2 st)) by done. by apply turns_commute.
Qed.

(** ** Running the goroutines one after the other *)
Lemma lookup_middle_app {A} (l k : list A) x : (l ++ x :: k) !! length l = Some x.
Proof. by rewrite lookup_app_r, Nat.sub_diag. Qed.

Lemma insert_middle_app {A} (l k : list A) x y : <[length l := y]> (l ++ x :: k) = l ++ y :: k.
Proof. by rewrite insert_app_r_alt, Nat.sub_diag. Qed.

(** A goroutine left alone sends to all its addresses, up to the first failure. *)
Lemma turns_one before after chunk data addrs : ∀ w errs,
  let '(es, w') := send_all chunk data addrs w in
  turns (replicate (S (length addrs)) (length before))
    (w, before ++ mkUploadTask chunk data (Some addrs) :: after, errs)
  = (w', before ++ mkUploadTask chunk data None :: after, errs ++ es).
Proof.
  induction addrs as [|addr addrs IH]; intros w errs; cbn [send_all].
  { simpl. rewrite lookup_middle_app. simpl. by rewrite insert_middle_app. }
  pose proof (send_returns addr chunk data (DataChecksum data) w) as Hr.
  cbn [length replicate]. rewrite turns_cons. unfold turn. rewrite lookup_middle_app.
  unfold task_turn. cbn [ut_todo ut_chunk ut_data].
  destruct (send _ _ _ _ w) as [[[]|e|p] w1]; [| |by destruct (Hr p)]; rewrite insert_middle_app.
  - rewrite app_nil_r. apply (IH w1 errs).
  - apply (turns_idle (length before) (S (length addrs))). intros t. rewrite lookup_middle_app. by intros [= <-].
Qed.

(** The goroutines of a list of placed chunks, and their turns in order. *)
Definition placed_task (pd : ChunkPlacement * bytes) : upload_task :=
  mkUploadTask (ChunkPlacement_ChunkId pd.1) pd.2 (Some (ChunkPlacement_NodeAddresses pd.1)).

Fixpoint in_order (k : nat) (l : list (ChunkPlacement * bytes)) : list nat :=
  match l with
  | [] => []
  | pd :: l => replicate (S (length (ChunkPlacement_NodeAddresses pd.1))) k ++ in_order (S k) l
  end.

Lemma upload_tasks_zip chunks placements :
  upload_tasks chunks placements = placed_task <$> zip placements chunks.
Proof. revert chunks. induction placements as [|p ps IH]; intros [|c cs]; simpl; f_equal; auto. Qed.

Lemma turns_in_order l : ∀ before w errs,
  all_done before →
  let '(es, w') := foldl send_placed (errs, w) l in
  ∃ tasks, turns (in_order (length before) l) (w, before ++ (placed_task <$> l), errs) = (w', tasks, es) ∧
    all_done tasks.
Proof.
  induction l as [|pd l IH]; intros before w errs Hdone.
  { exists before. simpl. by rewrite app_nil_r. }
  cbn [foldl in_order fmap list_fmap]. unfold turns. rewrite foldl_app.
  pose proof (turns_one before (placed_task <$> l) (ChunkPlacement_ChunkId pd.1) pd.2
    (ChunkPlacement_NodeAddresses pd.1) w errs) as H1. unfold send_placed at 2. cbn [fst snd].
  destruct (send_all _ _ _ w) as [es1 w1]. unfold turns in H1. unfold placed_task at 1. rewrite H1.
  set (t := mkUploadTask _ _ None).
  specialize (IH (before ++ [t]) w1 (errs ++ es1)). rewrite length_app, Nat.add_1_r, <- app_assoc in IH.
  apply IH. apply Forall_app. split; [done|]. by apply Forall_singleton.
Qed.

(** C10: Uploading in parallel is uploading in order: take any network in which calls
    return and stores of different chunks are independent, and any interleaving of
    the goroutines that gives each one turn per address and one to finish.  Then
    the servers end in exactly the state in which sending the chunks one after the
    other leaves them, whatever fails on the way; the parallel upload succeeds exactly
    when the sequential one meets no failure, and otherwise reports one of the failures
    the sequential one meets. *)
Theorem uploadChunks_in_order sched chunks placements w :
  ids_wf (ChunkPlacement_ChunkId <$> placements) →
  (∀ i p, placements !! i = Some p →
     length (ChunkPlacement_NodeAddresses p) < length (filter (eq i) sched))%nat →
  let '(es, w') := upload_in_order chunks placements w in
  ∃ r, uploadChunks sched chunks placements w = (r, w') ∧
    match r with Ok _ => es = [] | Err e => e ∈ es | Panic _ => False end.
Proof.
  intros Hids Hsched. unfold upload_in_order, Client.uploadChunks.
  set (st := (w, upload_tasks chunks placements, [] : list string)).
  assert (ids_wf (state_ids st)) as Hst.
  { unfold state_ids, st. cbn [fst snd]. rewrite upload_tasks_zip. destruct Hids as [Hnd Hall].
    assert (ut_chunk <$> (placed_task <$> zip placements chunks) `prefix_of`
            ChunkPlacement_ChunkId <$> placements) as [k Hk].
    { rewrite <- list_fmap_compose. clear. revert chunks.
      induction placements as [|p ps IH]; intros [|c cs]; simpl; [done|apply prefix_nil..|].
      by apply prefix_cons. }
    rewrite Hk in Hnd, Hall. apply NoDup_app in Hnd as [? _]. by apply Forall_app in Hall as [? _]. }
  pose proof (turns_in_order (zip placements chunks) [] w [] ltac:(constructor)) as Hseq.
  destruct (foldl send_placed ([], w) _) as [es w'].
  destruct Hseq as (tasks' & Hseq & Hdone'). simpl in Hseq. rewrite <- upload_tasks_zip in Hseq.
  fold st in Hseq.
  pose proof (uploadChunks_complete dial call_StoreChunk sched chunks placements w Hsched) as Hc.
  unfold complete_schedule in Hc. fold st in Hc. rewrite (upload_run_turns sched st Hst) in Hc |- *.
  destruct (turns sched st) as [[w1 tasks] errs] eqn:Ht. specialize (Hc eq_refl).
  destruct (turns_confluent sched (in_order 0 (zip placements chunks)) st Hst) as [Heq Herrs].
  { by rewrite Ht. } { by rewrite Hseq. }
  rewrite Ht, Hseq in Heq, Herrs. cbn [fst snd] in Heq, Herrs. simplify_eq.
  destruct errs as [|e errs]; eexists; (split; [reflexivity|]).
  - by apply Permutation_nil_l in Herrs.
  - apply (elem_of_Permutation_proper _ _ _ Herrs). left.
Qed.
End order.

(** ** The cluster is such a network *)
Lemma StoreChunk_commute plan1 plan2 id1 id2 b1 b2 s1 s2 :
  plain_id id1 → plain_id id2 → id1 ≠ id2 →
  commute (ChunkStore.StoreChunk plan1 id1 b1 s1) (ChunkStore.StoreChunk plan2 id2 b2 s2).
Proof.
  intros H1 H2 Hne [cs fs].
  assert (chunkPath cs id1 ≠ chunkPath cs id2) as Hp by (by intros ?%chunkPath_inj).
  assert (∀ x y, int64 (int64 (cs_usedBytes cs + x) + y) = int64 (int64 (cs_usedBytes cs + y) + x)) as Hu.
  { intros x y. rewrite !int64_add_l. f_equal. lia. }
  rewrite !StoreChunk_cases.
  destruct (decide (s1 ≠ "" ∧ _)) as [Hs1|Hs1], (decide (s2 ≠ "" ∧ _)) as [Hs2|Hs2]; cbn [fst snd].
  - by rewrite !StoreChunk_cases, (decide_True _ _ Hs1), (decide_True _ _ Hs2).
  - destruct plan2; cbn [fst snd];
      by rewrite !StoreChunk_cases, (decide_True _ _ Hs1), (decide_False _ _ Hs2).
  - destruct plan1; cbn [fst snd];
      by rewrite !StoreChunk_cases, (decide_True _ _ Hs2), (decide_False _ _ Hs1).
  - destruct plan1, plan2; cbn [fst snd];
      rewrite !StoreChunk_cases, (decide_False _ _ Hs1), (decide_False _ _ Hs2);
      cbn [fst snd]; unfold chunkPath, enter_chunk in *; cbn [cs_dataDir cs_chunks cs_usedBytes sc_ChunkID sc_Size];
      (split; [done|]; split; [done|]); try done.
    all: try (by rewrite insert_insert_ne).
    f_equal; [|by rewrite insert_insert_ne].
    rewrite Hu. f_equal. by rewrite insert_insert_ne.
Qed.

Lemma node_StoreChunk_eq plan req d :
  DataNode.Server.StoreChunk plan req d =
    let '(r, d') := ChunkStore.StoreChunk plan (StoreChunkRequest_ChunkId req)
                      (StoreChunkRequest_Data req) (StoreChunkRequest_Checksum req) d in
    (match r with
     | Err e => Ok (mkStoreChunkResponse false e)
     | Panic w => Panic w
     | Ok _ => Ok (mkStoreChunkResponse true "chunk stored")
     end, d').
Proof. unfold DataNode.Server.StoreChunk. by destruct (ChunkStore.StoreChunk _ _ _ _ _) as [[]]. Qed.

Lemma node_StoreChunk_commute plan1 plan2 req1 req2 :
  plain_id (StoreChunkRequest_ChunkId req1) → plain_id (StoreChunkRequest_ChunkId req2) →
  StoreChunkRequest_ChunkId req1 ≠ StoreChunkRequest_ChunkId req2 →
  commute (DataNode.Server.StoreChunk plan1 req1) (DataNode.Server.StoreChunk plan2 req2).
Proof.
  intros H1 H2 Hne d. rewrite !node_StoreChunk_eq.
  destruct (StoreChunk_commute plan1 plan2 _ _ (StoreChunkRequest_Data req1) (StoreChunkRequest_Data req2)
    (StoreChunkRequest_Checksum req1) (StoreChunkRequest_Checksum req2) H1 H2 Hne d) as (Hr1 & Hr2 & Hd).
  destruct (ChunkStore.StoreChunk plan1 _ _ _ d) as [r1 d1], (ChunkStore.StoreChunk plan2 _ _ _ d) as [r2 d2].
  cbn [fst snd] in *.
  destruct (ChunkStore.StoreChunk plan1 _ _ _ d2), (ChunkStore.StoreChunk plan2 _ _ _ d1).
  cbn [fst snd] in *. by subst.
Qed.

Lemma cluster_store_commute env a1 a2 req1 req2 :
  plain_id (StoreChunkRequest_ChunkId req1) → plain_id (StoreChunkRequest_ChunkId req2) →
  StoreChunkRequest_ChunkId req1 ≠ StoreChunkRequest_ChunkId req2 →
  commute (cluster_StoreChunk env a1 req1) (cluster_StoreChunk env a2 req2).
Proof.
  intros H1 H2 Hne c. unfold cluster_StoreChunk.
  destruct (env_store env a1 req1), (env_store env a2 req2); cbn [fst snd].
  1: done.
  1: by destruct (cl_nodes c !! a2) as [n|]; [destruct (DataNode.Server.StoreChunk _ _ _)|].
  1: by destruct (cl_nodes c !! a1) as [n|]; [destruct (DataNode.Server.StoreChunk _ _ _)|].
  set (p1 := env_write env a1 _). set (p2 := env_write env a2 _).
  destruct (decide (a1 = a2)) as [->|Ha].
  - destruct (cl_nodes c !! a2) as [n|] eqn:Hn; [|cbn [fst snd]; by rewrite Hn].
    destruct (node_StoreChunk_commute p1 p2 req1 req2 H1 H2 Hne (dsv_disk n)) as (Hr1 & Hr2 & Hd).
    destruct (DataNode.Server.StoreChunk p1 req1 (dsv_disk n)) as [r1 d1],
      (DataNode.Server.StoreChunk p2 req2 (dsv_disk n)) as [r2 d2].
    cbn [fst snd cl_nodes cl_meta] in *. rewrite !lookup_insert_eq. cbn [set_disk dsv_disk].
    destruct (DataNode.Server.StoreChunk p1 req1 d2), (DataNode.Server.StoreChunk p2 req2 d1).
    cbn [fst snd] in *. subst. by rewrite !insert_insert_eq.
  - destruct (cl_nodes c !! a1) as [n1|] eqn:Hn1, (cl_nodes c !! a2) as [n2|] eqn:Hn2;
      repeat (match goal with |- context [DataNode.Server.StoreChunk ?p ?r ?d] =>
        destruct (DataNode.Server.StoreChunk p r d) as [??] eqn:? end);
      cbn [fst snd cl_nodes cl_meta]; rewrite ?lookup_insert_ne, ?Hn1, ?Hn2 by done;
      repeat (match goal with H : DataNode.Server.StoreChunk ?p ?r ?d = _ |- _ => rewrite ?H; clear H end);
      cbn [fst snd]; try done.
    split; [done|]. split; [done|]. by rewrite insert_insert_ne.
Qed.

#[global, refine] Instance cluster_independent env (Hdial : ∀ a, no_panic (env_dial env a)) :
    IndependentStores Cluster (cluster_dial env) (cluster_StoreChunk env) := {}.
Proof.
  - intros a c. apply Hdial.
  - intros a req c. unfold cluster_StoreChunk.
    destruct (env_store env a req); [by intros ?|]. destruct (cl_nodes c !! a) as [n|]; [|by intros ?].
    rewrite node_StoreChunk_eq. destruct (dsv_disk n) as [cs fs]. rewrite StoreChunk_cases.
    case_decide; [by intros ?|]. by destruct (env_write _ _ _).
  - done.
  - intros. by apply cluster_store_commute.
Defined.

(** ** A concrete run: the goroutines take turns, and one disk is full *)
Section witnesses.
Definition turn_placements : list ChunkPlacement :=
  [mkChunkPlacement (GenerateChunkID "/a/b" 0) 0 ["a:9000"; "b:9000"] ["node-1"; "node-2"];
   mkChunkPlacement (GenerateChunkID "/a/b" 1) 1 ["b:9000"; "d:9000"; "a:9000"] ["node-2"; "node-4"; "node-1"]].
Definition turn_chunks : list bytes := [bytes_of_string "hello "; bytes_of_string "world"].
Definition turn_sched : list nat := [1; 0; 1; 0; 0; 1; 1; 1]%nat.

Lemma uploadChunks_in_order_witness :
  (upload_in_order (cluster_dial demo_env) (cluster_StoreChunk demo_env) turn_chunks turn_placements
     demo_cluster).1 ≠ [] ∧
  let '(es, c) := upload_in_order (cluster_dial demo_env) (cluster_StoreChunk demo_env) turn_chunks
                    turn_placements demo_cluster in
  ∃ r, uploadChunks (cluster_dial demo_env) (cluster_StoreChunk demo_env) turn_sched turn_chunks
         turn_placements demo_cluster = (r, c) ∧
    match r with Ok _ => es = [] | Err e => e ∈ es | Panic _ => False end.
Proof.
  split; [vm_compute; discriminate|].
  assert (ids_wf (ChunkPlacement_ChunkId <$> turn_placements)) as Hids.
  { split.
    - apply (bool_decide_unpack _). vm_compute. exact I.
    - assert (∀ k, plain_id (GenerateChunkID "/a/b" k) ∧ (12 ≤ String.length (GenerateChunkID "/a/b" k))%nat)
        as Hid by (intros k; split; [apply GenerateChunkID_plain|rewrite GenerateChunkID_length; lia]).
      apply Forall_cons; split; [apply Hid|]. apply Forall_cons; split; [apply Hid|apply Forall_nil_2]. }
  assert (∀ i p, turn_placements !! i = Some p →
    length (ChunkPlacement_NodeAddresses p) < length (filter (eq i) turn_sched))%nat as Hsched.
  { intros i p. destruct i as [|[|i]]; intros [= <-]; vm_compute; lia. }
  exact (uploadChunks_in_order (IndependentStores0 := cluster_independent demo_env ltac:(discriminate))
    (cluster_dial demo_env) (cluster_StoreChunk demo_env) turn_sched turn_chunks turn_placements
    demo_cluster Hids Hsched).
Defined.
End witnesses.
