(* ===== verification/Processes.v ===== *)
(** * The server processes: cmd/datanode, cmd/metaserver and the servers' Start

    What [main] does with its flags, what [Start] starts and in which order, the
    loops that run in the background, and the routes of the data node's admin
    server.  The listeners, [Serve] and the signals belong to the operating system
    and to gRPC: a call's outcome is an argument.  A running loop is the sequence
    of its ticks. *)
From S2P Require Export DataNode Detection.
Local Open Scope Z_scope.

(** [fmt.Sprintf(":%d", port)] *)
Definition listen_addr (port : Z) : string := ":" +:+ fmt_d port.

(** ** The data node *)
Module DataNodeProcess.

(** [AdminServer] of internal/datanode/admin.go; its [health] is the server's own. *)
Record AdminServer := mkAdminServer { as_port : Z; as_nodeID : string }.

Definition NewAdminServer (port : Z) (nodeID : string) : AdminServer := mkAdminServer port nodeID.

(** The routes [AdminServer.Start] registers; the mux answers 404 to other paths. *)
Definition serve_admin (ParseFloat : string → go float64) (now : Time) (rnd : draws) (mem : MemStats)
    (a : AdminServer) (path method speedStr : string) (hc : HealthCollector)
    : http_reply * HealthCollector :=
  if decide (path = "/degrade") then handleDegrade ParseFloat now (as_nodeID a) method speedStr hc
  else if decide (path = "/recover") then handleRecover (as_nodeID a) method hc
  else if decide (path = "/status") then handleStatus now rnd mem (as_nodeID a) hc
  else (HttpError "404 page not found" 404, hc).

(** The goroutines [Start] leaves running. *)
Inductive routine :=
  | HeartbeatLoop
  | HealthReportLoop
  | AdminListener (a : AdminServer).

Section process.
Context {W : Type}.
Variable dial : string → W → go unit.

(** [heartbeatLoop]: one call per tick; a failed one is logged and the loop goes on. *)
Fixpoint heartbeatLoop (ticks : list (HeartbeatRequest → gos W HeartbeatResponse))
    (st : DataServer * W) : list string * (DataServer * W) :=
  match ticks with
  | [] => ([], st)
  | call :: rest =>
      let '(r, st) := DataNode.Server.sendHeartbeat dial call st in
      let '(log, st) := heartbeatLoop rest st in
      (match r with Err e => ("heartbeat failed: " +:+ e) :: log | _ => log end, st)
  end.

(** The clock, the draws and the memory statistics at a tick of [healthReportLoop],
    and the call made there. *)
Record report_tick := mkReportTick {
  rt_now : Time; rt_draws : draws; rt_mem : MemStats;
  rt_call : ReportHealthRequest → gos W ReportHealthResponse;
}.

Fixpoint healthReportLoop (ticks : list report_tick) (st : DataServer * W)
    : list string * (DataServer * W) :=
  match ticks with
  | [] => ([], st)
  | t :: rest =>
      let '(r, st) := DataNode.Server.sendHealthReport dial (rt_now t) (rt_draws t) (rt_mem t)
                        (rt_call t) st in
      let '(log, st) := healthReportLoop rest st in
      (match r with Err e => ("health report failed: " +:+ e) :: log | _ => log end, st)
  end.

(** [Start]: the routines it has started when it returns, and what it returns;
    [serve] is the outcome of [grpcServer.Serve]. *)
Definition Start (call : RegisterNodeRequest → gos W RegisterNodeResponse) (listen : string → go unit)
    (serve : go unit) (st : DataServer * W) : list routine * go unit * (DataServer * W) :=
  match DataNode.Server.register dial call st with
  | (Err e, st) => ([], Err ("register with metadata server: " +:+ e), st)
  | (Panic p, st) => ([], Panic p, st)
  | (Ok _, (s, w)) =>
      match listen (listen_addr (dsv_port s)) with
      | Err e => ([], Err ("listen: " +:+ e), (s, w))
      | Panic p => ([], Panic p, (s, w))
      | Ok _ =>
          ([HeartbeatLoop; HealthReportLoop; AdminListener (NewAdminServer (dsv_adminPort s) (dsv_nodeID s))],
           serve, (s, w))
      end
  end.

(** The flags of cmd/datanode and their defaults. *)
Record Flags := mkFlags {
  fl_port : Z; fl_adminPort : Z; fl_metaAddr : string; fl_dataDir : string; fl_capacity : Z;
  fl_address : string;
}.

Definition default_flags : Flags :=
  mkFlags 9001 9501 "localhost:9000" "./data/node1" (10 * 1024 * 1024 * 1024) "".

(** [main]: the exit status, and the routines the process ran. *)
Definition main (fl : Flags) (fs : FileSys) (mkdir_fault : option string) (listing : go (list DirEnt))
    (faults : string → option string) (rnd : draws)
    (call : RegisterNodeRequest → gos W RegisterNodeResponse) (listen : string → go unit)
    (serve : go unit) (w : W) : go Z * list routine * option (DataServer * W) :=
  match DataNode.Server.NewServer fs (fl_port fl) (fl_adminPort fl) (fl_metaAddr fl) (fl_dataDir fl)
          (fl_capacity fl) (fl_address fl) mkdir_fault listing faults rnd with
  | Err _ => (Ok 1, [], None)
  | Panic p => (Panic p, [], None)
  | Ok s =>
      let '(rs, r, st) := Start call listen serve (s, w) in
      (match r with Ok _ => Ok 0 | Err _ => Ok 1 | Panic p => Panic p end, rs, Some st)
  end.
End process.
End DataNodeProcess.

(** ** The metadata server *)
Module MetaProcess.
Inductive routine :=
  | DeadNodeChecker
  | PredictionLoop
  | AdminListener (port : Z).

(** The routes of internal/metaserver/admin.go. *)
Inductive admin_reply :=
  | Migrations (count : Z) (summaries : list MigrationSummary)
  | Health (h : HealthSummary)
  | NotFound.

Definition serve_admin (ord : list string) (path : string) (s : MetaServer) : admin_reply :=
  if decide (path = "/migrations") then let '(count, l) := handleMigrations s in Migrations count l
  else if decide (path = "/health") then Health (handleHealth ord s)
  else NotFound.

Definition Start (listen : string → go unit) (serve : go unit) (s : MetaServer) : list routine * go unit :=
  match listen (listen_addr (srv_port s)) with
  | Err e => ([], Err ("listen: " +:+ e))
  | Panic p => ([], Panic p)
  | Ok _ => ([DeadNodeChecker; PredictionLoop; AdminListener (srv_adminPort s)], serve)
  end.

Definition main (port adminPort : Z) (listen : string → go unit) (serve : go unit)
    : go Z * list routine :=
  let '(rs, r) := Start listen serve (MetaServer.Server.NewServer port adminPort) in
  (match r with Ok _ => Ok 0 | Err _ => Ok 1 | Panic p => Panic p end, rs).

(** The flags' defaults. *)
Definition default_port : Z := 9000.
Definition default_adminPort : Z := 9600.

(** The two loops over their ticks: each tick has its instant and its orders. *)
Definition deadNodeChecker_loop (ticks : list (Time * list string)) (s : MetaServer) : MetaServer :=
  foldl (λ s tick, MetaServer.Server.deadNodeChecker tick.1 tick.2 s) s ticks.

Definition prediction_loop (ticks : list (Time * list string)) (s : MetaServer)
    : list PredictionResult * MetaServer :=
  foldl (λ st tick, let '(spawned, s') := MetaServer.Server.predictionLoop tick.1 tick.2 st.2 in
                    (st.1 ++ spawned, s')) ([], s) ticks.
End MetaProcess.

(** ** A started node is tracked *)
Section tracked.
Context `{SliceSort} `{!SliceSortSpec}.
Import DataNodeProcess.

(** What the registry knows under an identifier, and about a data node. *)
Definition listed (nid addr : string) (ms : MetaServer) (t : Time) (n : DataNodeInfo) : Prop :=
  cm_nodes (srv_chunkMgr ms) !! nid = Some n ∧ dn_Address n = addr ∧ dn_LastHeartbeat n = t.

Definition tracked (ds : DataServer) (ms : MetaServer) (t : Time) (n : DataNodeInfo) : Prop :=
  listed (dsv_nodeID ds) (dsv_address ds) ms t n.

(** What one heartbeat reports. *)
Definition reported (ds : DataServer) (n : DataNodeInfo) : Prop :=
  dn_UsedBytes n = UsedBytes (dsv_disk ds).1 ∧ dn_ChunkCount n = ChunkCount (dsv_disk ds).1 ∧
  dn_Status n ≠ StatusDead.

Definition last_tick (t : Time) (ts : list Time) : Time := foldl (λ _ u, u) t ts.

(** What becomes of one heartbeat: it fails with an error, or reaches the server at
    an instant. *)
Definition beat (b : string + Time) : HeartbeatRequest → gos MetaServer HeartbeatResponse :=
  match b with
  | inl e => λ _ ms, (Err e, ms)
  | inr t => MetaServer.Server.Heartbeat t
  end.

Definition lost (b : string + Time) : option string := match b with inl e => Some e | inr _ => None end.
Definition arrived (b : string + Time) : option Time := match b with inl _ => None | inr t => Some t end.

(** The texts [heartbeatLoop] logs. *)
Definition lost_log (bs : list (string + Time)) : list string :=
  (λ e, "heartbeat failed: " +:+ e) <$> omap lost bs.

Variable dial : string → MetaServer → go unit.

(** The registration succeeds: the server is reached and accepts the node. *)
Definition registered (call : RegisterNodeRequest → gos MetaServer RegisterNodeResponse)
    (ds : DataServer) (ms : MetaServer) : Prop :=
  dial (dsv_metaAddr ds) ms = Ok tt ∧
  ∃ resp, (call (mkRegisterNodeRequest (dsv_address ds) (dsv_capacity ds)) ms).1 = Ok resp ∧
    RegisterNodeResponse_Success resp = true.

(** A call either is answered by the server or fails, in any way and at any point. *)
Definition answered_or_failed (t : Time) (ord : list string)
    (call : RegisterNodeRequest → gos MetaServer RegisterNodeResponse) : Prop :=
  ∀ req ms, call req ms = MetaServer.Server.RegisterNode t ord req ms ∨
    ∀ resp, (call req ms).1 = Ok resp → RegisterNodeResponse_Success resp = false.

Lemma register_ok_iff call ds ms r ds' ms' :
  DataNode.Server.register dial call (ds, ms) = (r, (ds', ms')) →
  (r = Ok tt ↔ registered call ds ms) ∧ (r ≠ Ok tt → ds' = ds) ∧
  (r = Ok tt → ∃ resp, call (mkRegisterNodeRequest (dsv_address ds) (dsv_capacity ds)) ms = (Ok resp, ms') ∧
     RegisterNodeResponse_Success resp = true ∧ ds' = set_nodeID (RegisterNodeResponse_NodeId resp) ds).
Proof.
  unfold DataNode.Server.register, registered.
  destruct (dial _ ms) as [[]|e|p]; [|by intros [= <- <- <-]; naive_solver..].
  destruct (call _ ms) as [[resp|e|p] ms1]; [|by intros [= <- <- <-]; naive_solver..].
  destruct (RegisterNodeResponse_Success resp) eqn:Hs; intros [= <- <- <-]; [naive_solver|].
  split; [|done]. split; [done|]. intros (_ & resp' & [= ->] & Hs'). congruence.
Qed.

Lemma register_tracked t ord ds ms resp ms' :
  srv_inv ms → map_order (cm_nodes (srv_chunkMgr ms)) ord →
  MetaServer.Server.RegisterNode t ord (mkRegisterNodeRequest (dsv_address ds) (dsv_capacity ds)) ms
    = (Ok resp, ms') →
  ∃ n, tracked (set_nodeID (RegisterNodeResponse_NodeId resp) ds) ms' t n.
Proof.
  intros [_ Hcm _] Hord. unfold MetaServer.Server.RegisterNode.
  cbn [RegisterNodeRequest_Address RegisterNodeRequest_CapacityBytes].
  destruct (RegisterNode_spec t ord (dsv_address ds) (dsv_capacity ds) _ Hcm Hord)
    as (nid & cm' & -> & _ & _ & Hn).
  intros [= <- <-].
  unfold tracked, listed. cbn [set_nodeID dsv_nodeID dsv_address RegisterNodeResponse_NodeId set_chunkMgr srv_chunkMgr].
  destruct (cm_nodes (srv_chunkMgr ms) !! nid) as [n|].
  - destruct Hn as [Ha ->]. by eexists.
  - destruct Hn as [_ ->]. by eexists.
Qed.

(** Heartbeats go by the identifier alone. *)
Lemma heartbeat_listed addr t0 t ds ms n :
  dial (dsv_metaAddr ds) ms = Ok tt → listed (dsv_nodeID ds) addr ms t0 n →
  ∃ ms' n', DataNode.Server.sendHeartbeat dial (MetaServer.Server.Heartbeat t) (ds, ms)
      = (Ok tt, (ds, ms')) ∧ listed (dsv_nodeID ds) addr ms' t n' ∧ reported ds n'.
Proof.
  intros Hdial (Hn & Ha & _). unfold DataNode.Server.sendHeartbeat. rewrite Hdial.
  unfold MetaServer.Server.Heartbeat, UpdateHeartbeat.
  cbn [HeartbeatRequest_NodeId HeartbeatRequest_UsedBytes HeartbeatRequest_ChunkCount]. rewrite Hn.
  eexists _, _. split; [reflexivity|].
  split; [split; [apply lookup_insert_eq|by case_decide]|]. unfold reported.
  case_decide as Hd; (split; [done|]); (split; [done|]); [discriminate|exact Hd].
Qed.

Lemma heartbeats_listed addr bs : ∀ t0 ds ms n,
  (∀ ms, dial (dsv_metaAddr ds) ms = Ok tt) → listed (dsv_nodeID ds) addr ms t0 n →
  ∃ ms' n', heartbeatLoop dial (beat <$> bs) (ds, ms) = (lost_log bs, (ds, ms')) ∧
    listed (dsv_nodeID ds) addr ms' (last_tick t0 (omap arrived bs)) n' ∧
    (omap arrived bs = [] → n' = n) ∧ (reported ds n ∨ omap arrived bs ≠ [] → reported ds n').
Proof.
  induction bs as [|[e|t] bs IH]; intros t0 ds ms n Hdial Hn;
    [exists ms, n; naive_solver|cbn [fmap list_fmap heartbeatLoop]..].
  - destruct (IH t0 ds ms n Hdial Hn) as (ms' & n' & Hloop & Hrest).
    exists ms', n'. split; [|exact Hrest].
    unfold DataNode.Server.sendHeartbeat. rewrite Hdial. cbn [beat go_map go_bind]. by rewrite Hloop.
  - destruct (heartbeat_listed addr t0 t ds ms n (Hdial ms) Hn) as (ms1 & n1 & Hsend & Hn1 & Hrep).
    destruct (IH t ds ms1 n1 Hdial Hn1) as (ms2 & n2 & Hloop & Hn2 & _ & Hrep2).
    cbn [beat]. rewrite Hsend, Hloop. exists ms2, n2. split; [done|]. split; [exact Hn2|].
    split; [done|]. intros _. apply Hrep2. by left.
Qed.

(** When none is lost. *)
Lemma heartbeats_arrive addr ts t0 ds ms n :
  (∀ ms, dial (dsv_metaAddr ds) ms = Ok tt) → listed (dsv_nodeID ds) addr ms t0 n →
  ∃ ms' n', heartbeatLoop dial (MetaServer.Server.Heartbeat <$> ts) (ds, ms) = ([], (ds, ms')) ∧
    listed (dsv_nodeID ds) addr ms' (last_tick t0 ts) n' ∧ (ts ≠ [] → reported ds n').
Proof.
  intros Hdial Hn. destruct (heartbeats_listed addr (inr <$> ts) t0 ds ms n Hdial Hn)
    as (ms' & n' & Hloop & Hn' & _ & Hrep).
  assert (omap arrived (inr <$> ts) = ts) as Harr by (clear; induction ts; csimpl; congruence).
  assert (omap lost (inr <$> ts) = []) as Hlost by (clear; induction ts; csimpl; congruence).
  unfold lost_log in Hloop. rewrite Hlost, <- list_fmap_compose in Hloop. rewrite Harr in Hn', Hrep.
  exists ms', n'. split; [exact Hloop|]. split; [exact Hn'|]. intros Hts. apply Hrep. by right.
Qed.

(** C29: A data node that starts is tracked, and one that does not get so far starts
    nothing.  The connection, the call that registers and the listener may each fail,
    the call at any point, also after the server has carried it out.  [Start] runs its
    loops and its admin listener exactly when the node could register (the server was
    reached, answered and accepted) and its port could be opened; otherwise no loop is
    started and [Start] does not report success, and after a failed registration the
    node still has the identifier it had.  Once registered, the node carries the
    identifier under which the metadata server lists its address, with the instant of
    the registration as last sign of life; and after any run of its heartbeat loop, of
    which any heartbeats may be lost (one line of the log each), the entry has the
    instant of the last heartbeat that arrived and, when one did, the bytes and the
    chunk count of the node's store, and is not DEAD. *)
Theorem Start_tracks_node t ord call listen serve ds ms rs r ds' ms' :
  srv_inv ms → map_order (cm_nodes (srv_chunkMgr ms)) ord → answered_or_failed t ord call →
  Start dial call listen serve (ds, ms) = (rs, r, (ds', ms')) →
  (registered call ds ms ∧ listen (listen_addr (dsv_port ds)) = Ok tt →
     rs = [HeartbeatLoop; HealthReportLoop;
           AdminListener (NewAdminServer (dsv_adminPort ds) (dsv_nodeID ds'))] ∧ r = serve) ∧
  (¬ (registered call ds ms ∧ listen (listen_addr (dsv_port ds)) = Ok tt) → rs = [] ∧ is_ok r = false) ∧
  (¬ registered call ds ms → ds' = ds) ∧
  (registered call ds ms → (∀ ms, dial (dsv_metaAddr ds) ms = Ok tt) →
   ∀ bs, ∃ ms2 n, heartbeatLoop dial (beat <$> bs) (ds', ms') = (lost_log bs, (ds', ms2)) ∧
     tracked ds' ms2 (last_tick t (omap arrived bs)) n ∧ dn_Address n = dsv_address ds ∧
     (omap arrived bs ≠ [] → reported ds n)).
Proof.
  intros Hinv Hord Hcall. unfold Start.
  destruct (DataNode.Server.register _ _ _) as [r1 [ds1 ms1]] eqn:Hreg.
  destruct (register_ok_iff _ _ _ _ _ _ Hreg) as (Hiff & Hfail & Hok).
  destruct r1 as [[]|e|p]; [|intros [= <- <- <- <-]; rewrite <- Hiff, (Hfail ltac:(done)); naive_solver..].
  destruct (Hok eq_refl) as (resp & Hresp & Hs & ->). destruct Hiff as [Hregd _].
  specialize (Hregd eq_refl). change (dsv_port (set_nodeID _ ds)) with (dsv_port ds).
  destruct (Hcall (mkRegisterNodeRequest (dsv_address ds) (dsv_capacity ds)) ms) as [Heq|Hno];
    [|rewrite Hresp in Hno; specialize (Hno _ eq_refl); congruence].
  rewrite Hresp in Heq. destruct (register_tracked _ _ _ _ _ _ Hinv Hord (eq_sym Heq)) as [n Hn].
  intros Hrun. assert (ds' = set_nodeID (RegisterNodeResponse_NodeId resp) ds ∧ ms' = ms1) as [-> ->]
    by (destruct (listen _) as [[]|?|?]; by simplify_eq).
  split; [|split; [|split; [done|]]].
  - intros [_ Hl]. rewrite Hl in Hrun. by simplify_eq.
  - intros Hnot. destruct (listen _) as [[]|?|?] eqn:Hl; [by destruct Hnot|by simplify_eq..].
  - intros _ Hdial bs. destruct (heartbeats_listed (dsv_address ds) bs t (set_nodeID (RegisterNodeResponse_NodeId resp) ds) ms1 n Hdial Hn) as (ms2 & n2 & Hloop & Hn2 & _ & Hrep).
    exists ms2, n2. split; [exact Hloop|]. split; [exact Hn2|].
    split; [by destruct Hn2 as (_ & ? & _)|]. intros Hbs. apply Hrep. by right.
Qed.
End tracked.

Section witnesses.
Definition started_node : DataServer :=
  mkDataServer (mkChunkStore "/data/e" ∅ 0, ∅) (NewHealthCollector (λ _, f64_zero)) "" "e:9000" 9000 9100
    "meta:9000" 1000.

(** The answer of the server is lost on the way back. *)
Definition answer_lost (t : Time) (ord : list string) (req : RegisterNodeRequest)
    : gos MetaServer RegisterNodeResponse := λ ms,
  (Err "deadline exceeded", (MetaServer.Server.RegisterNode t ord req ms).2).

Lemma server_answers t ord : answered_or_failed t ord (MetaServer.Server.RegisterNode t ord).
Proof. intros req ms. by left. Qed.

Lemma answer_lost_fails t ord : answered_or_failed t ord (answer_lost t ord).
Proof. intros req ms. by right. Qed.

Lemma demo_registered :
  registered (λ _ _, Ok tt) (MetaServer.Server.RegisterNode Second demo_ord) started_node demo_srv.
Proof. split; [done|]. eexists. split; [vm_compute; reflexivity|done]. Qed.

Lemma demo_not_registered :
  ¬ registered (λ _ _, Ok tt) (answer_lost Second demo_ord) started_node demo_srv.
Proof. by intros (_ & ? & [=] & _). Qed.

Lemma Start_tracks_node_witness :
  (∃ ms2 n, DataNodeProcess.heartbeatLoop (λ _ _, Ok tt)
      (beat <$> [inr (5 * Second); inr (8 * Second); inl "timeout"])
      (DataNodeProcess.Start (λ _ _, Ok tt) (MetaServer.Server.RegisterNode Second demo_ord)
         (λ _, Ok tt) (Ok tt) (started_node, demo_srv)).2
      = (["heartbeat failed: timeout"], (set_nodeID "node-5" started_node, ms2)) ∧
    tracked (set_nodeID "node-5" started_node) ms2 (8 * Second) n ∧ dn_Address n = "e:9000") ∧
  (DataNodeProcess.Start (λ _ _, Ok tt) (answer_lost Second demo_ord)
     (λ _, Ok tt) (Ok tt) (started_node, demo_srv)).1.1 = [].
Proof.
  split.
  - set (st := DataNodeProcess.Start _ _ _ _ _).
    assert (st = (st.1.1, st.1.2, (set_nodeID "node-5" started_node, st.2.2))) as Hst
      by (vm_compute; reflexivity).
    destruct (Start_tracks_node (λ _ _, Ok tt) Second demo_ord
      (MetaServer.Server.RegisterNode Second demo_ord) (λ _, Ok tt) (Ok tt)
      started_node demo_srv st.1.1 st.1.2 (set_nodeID "node-5" started_node) st.2.2 demo_srv_inv demo_order
      (server_answers _ _) Hst) as (_ & _ & _ & Htracked).
    destruct (Htracked demo_registered (λ _, eq_refl) [inr (5 * Second); inr (8 * Second); inl "timeout"])
      as (ms2 & n & Hloop & Hn & Ha & _).
    exists ms2, n. split; [rewrite Hst; exact Hloop|]. split; [exact Hn|exact Ha].
  - set (st := DataNodeProcess.Start _ _ _ _ _).
    assert (st = (st.1.1, st.1.2, (st.2.1, st.2.2))) as Hst by (by destruct st as [[] []]).
    destruct (Start_tracks_node (λ _ _, Ok tt) Second demo_ord (answer_lost Second demo_ord)
      (λ _, Ok tt) (Ok tt) started_node demo_srv st.1.1 st.1.2 st.2.1 st.2.2 demo_srv_inv demo_order
      (answer_lost_fails _ _) Hst) as (_ & Hnone & _).
    destruct Hnone as [Hnone _]; [|exact Hnone]. by intros [Hr%demo_not_registered _].
Defined.
End witnesses.
