(* ===== verification/MetaRestart.v ===== *)
(** * A metadata server that starts again

    The metadata server keeps everything in memory.  After a restart it knows no node
    and no file, while the data nodes go on sending heartbeats under the identifiers
    of the previous run: a node registers only when it starts. *)
From S2P Require Export Processes.
Local Open Scope Z_scope.

Section forgotten.
Context `{SliceSort} `{!SliceSortSpec}.

(** A server without nodes and files. *)
Definition blank (s : MetaServer) : Prop :=
  cm_nodes (srv_chunkMgr s) = ∅ ∧ srv_namespace s = NewNamespace.

Lemma range_map_empty {V} ord : range_map ord (∅ : gmap string V) = [].
Proof. induction ord as [|k ord IH]; [done|]. unfold range_map in *. simpl. by rewrite lookup_empty. Qed.

Lemma blank_PutFile now ord req s :
  blank s →
  MetaServer.Server.PutFile now ord req s =
    (Ok (mkPutFileResponse false "no healthy nodes available" []), s).
Proof.
  intros [Hn _]. unfold MetaServer.Server.PutFile, AllocateChunks, healthyNodes.
  rewrite Hn, range_map_empty. by destruct s.
Qed.

Lemma blank_Heartbeat now req s :
  blank s → MetaServer.Server.Heartbeat now req s = (Ok (mkHeartbeatResponse false []), s).
Proof.
  intros [Hn _]. unfold MetaServer.Server.Heartbeat, UpdateHeartbeat. rewrite Hn, lookup_empty. by destruct s.
Qed.

Lemma blank_DeleteFile path :
  ∃ e, Namespace.DeleteFile path NewNamespace = (Err e, NewNamespace).
Proof.
  pose proof wf_NewNamespace as Hwf. destruct (splitPath path) as [[dir name]|e|p] eqn:Hs.
  - pose proof (DeleteFile_post _ _ _ _ Hwf Hs) as Hp.
    destruct (Namespace.DeleteFile path NewNamespace) as [[r|e|p] ns]; [|by destruct Hp as [-> _]; exists e|done].
    destruct Hp as (_ & _ & meta & _ & Hm). rewrite NewNamespace_view in Hm; [done|]. by destruct (cleanPath dir).
  - destruct (splitPath_Err_ops path e (mkFileMeta "" 0 0 0 "" [] 0) NewNamespace Hs) as [_ ->]. eauto.
  - by apply splitPath_no_panic in Hs.
Qed.

Lemma blank_predictions rs : ∀ acc cm,
  cm_nodes cm = ∅ → cm_nodes (foldl MetaServer.Server.prediction_result (acc, cm) rs).2 = ∅.
Proof.
  induction rs as [|r rs IH]; intros acc cm Hn; [done|]. cbn [foldl MetaServer.Server.prediction_result].
  apply IH. unfold UpdateNodeHealth. by rewrite Hn, lookup_empty.
Qed.

(** Only a registration ends it. *)
Lemma blank_step t l s s' : blank s → (∀ addr, l ≠ LRegister addr) → timed_step t l s s' → blank s'.
Proof.
  intros Hb Hl. destruct 1 as
    [req r s s' Hrun|ord req r s s' Hord Hrun|ord s Hord|ord s|ord req r s s' Hord Hrun
    |ord req r s s' Hrun|req r s s' Hrun|cid nid s [n Hreg]|cid nid s].
  - rewrite blank_Heartbeat in Hrun by done. by injection Hrun as _ <-.
  - by destruct (Hl (RegisterNodeRequest_Address req)).
  - destruct Hb as [Hn Hns]. split; [|done]. cbn [MetaServer.Server.deadNodeChecker set_chunkMgr srv_chunkMgr].
    unfold CheckDeadNodes. by rewrite Hn, range_map_empty.
  - destruct Hb as [Hn Hns]. unfold MetaServer.Server.predictionLoop.
    pose proof (blank_predictions (PredictAll t ord (srv_monitor s)) [] _ Hn) as Hp.
    by destruct (foldl _ _ _) as [sp cm].
  - rewrite blank_PutFile in Hrun by done. by injection Hrun as _ <-.
  - destruct Hb as [Hn Hns]. unfold MetaServer.Server.DeleteFile in Hrun. rewrite Hns in Hrun.
    destruct (blank_DeleteFile (DeleteFileRequest_Path req)) as [e He]. rewrite He in Hrun.
    by injection Hrun as _ <-.
  - unfold MetaServer.Server.ReportHealth in Hrun. destruct (ReportHealthRequest_Metrics req) as [m|].
    + destruct (GetNode _ _); by injection Hrun as _ <-.
    + by injection Hrun as _ <-.
  - destruct Hb as [Hn _]. by rewrite Hn, lookup_empty in Hreg.
  - destruct Hb as [Hn Hns]. split; [|done]. cbn [set_chunkMgr srv_chunkMgr].
    unfold RemoveChunkFromNode, upd_node, upd_chunk. rewrite Hn. simpl.
    destruct (cm_chunks _ !! cid); simpl; by rewrite ?alter_empty.
Qed.

Lemma blank_run tr s s' :
  timed_run tr s s' → blank s → (∀ t addr, (t, LRegister addr) ∉ tr) → blank s'.
Proof.
  induction 1 as [s|t l tr s s1 s' Hs _ IH]; [done|]. intros Hb Hno. apply IH.
  - eapply blank_step; [done| |done]. intros addr ->. apply (Hno t addr). left.
  - intros t' addr Hin. apply (Hno t' addr). by right.
Qed.

Variable dial : string → MetaServer → go unit.
Hypothesis dial_ok : ∀ addr ms, dial addr ms = Ok tt.

Lemma blank_heartbeats ds ts s :
  blank s → DataNodeProcess.heartbeatLoop dial (MetaServer.Server.Heartbeat <$> ts) (ds, s) = ([], (ds, s)).
Proof.
  intros Hb. induction ts as [|t ts IH]; [done|]. cbn [fmap list_fmap DataNodeProcess.heartbeatLoop].
  unfold DataNode.Server.sendHeartbeat at 1. rewrite dial_ok, blank_Heartbeat by done. cbn [go_map].
  by rewrite IH.
Qed.

(** C20: A restarted metadata server stays without nodes: as long as no data node is
    started anew, whatever else happens (heartbeats and reports of the running nodes,
    background ticks, requests of clients), the server refuses every heartbeat and
    every put, and finds no file; the running nodes do not notice: their heartbeat
    loops log nothing and they keep their identifiers, however long it lasts. *)
Theorem restarted_server_stays_blank port adminPort tr s :
  timed_run tr (MetaServer.Server.NewServer port adminPort) s →
  (∀ t addr, (t, LRegister addr) ∉ tr) →
  (∀ now req, MetaServer.Server.Heartbeat now req s = (Ok (mkHeartbeatResponse false []), s)) ∧
  (∀ now ord req, MetaServer.Server.PutFile now ord req s =
     (Ok (mkPutFileResponse false "no healthy nodes available" []), s)) ∧
  (∀ path, ∃ e, MetaServer.Server.GetFile (mkGetFileRequest path) s = Ok (mkGetFileResponse false e None [])) ∧
  ∀ ds ts, DataNodeProcess.heartbeatLoop dial (MetaServer.Server.Heartbeat <$> ts) (ds, s) = ([], (ds, s)).
Proof.
  intros Hrun Hno. assert (blank s) as Hb by (by eapply blank_run; [exact Hrun| |]).
  split; [intros; by apply blank_Heartbeat|]. split; [intros; by apply blank_PutFile|].
  split; [|intros; by apply blank_heartbeats].
  intros path. unfold MetaServer.Server.GetFile. cbn [GetFileRequest_Path].
  destruct Hb as [_ ->]. rewrite GetFile_view by apply wf_NewNamespace.
  destruct (view NewNamespace (cleanPath path)) as [[|meta]|] eqn:Hv; [by eexists| |by eexists].
  destruct (cleanPath path) as [|x q]; [|by rewrite NewNamespace_view in Hv].
  by rewrite (view_root _ wf_NewNamespace) in Hv.
Qed.

(** After a restart of the metadata server identifiers are given out twice: the
    first data node that registers anew becomes node-1, and a node that has been
    running all along under that identifier now sends its heartbeats for it: the
    registry shows the new node's address with the other one's usage, and lets it
    pass every check for dead nodes as long as the other one lives, whether the
    registered one does or not. *)
Theorem identifiers_mixed_up t ord ms a b r b' ms1 ts :
  blank ms → dsv_nodeID a = "node-1" →
  DataNode.Server.register dial (MetaServer.Server.RegisterNode t ord) (b, ms) = (r, (b', ms1)) →
  r = Ok tt ∧ dsv_nodeID b' = "node-1" ∧
  ∃ ms2 n, DataNodeProcess.heartbeatLoop dial (MetaServer.Server.Heartbeat <$> ts) (a, ms1) = ([], (a, ms2)) ∧
    listed "node-1" (dsv_address b) ms2 (last_tick t ts) n ∧ (ts ≠ [] → reported a n) ∧
    ∀ now ord', map_order (cm_nodes (srv_chunkMgr ms2)) ord' → now - last_tick t ts ≤ DeadNodeTimeout →
      cm_nodes (srv_chunkMgr (MetaServer.Server.deadNodeChecker now ord' ms2)) !! "node-1" = Some n.
Proof.
  intros [Hn _] Ha. unfold DataNode.Server.register. rewrite dial_ok.
  unfold MetaServer.Server.RegisterNode, RegisterNode. rewrite Hn, range_map_empty. cbn [List.find].
  cbn [RegisterNodeRequest_Address RegisterNodeRequest_CapacityBytes]. rewrite map_size_empty.
  change ("node-" +:+ fmt_d (Z.of_nat 0 + 1)) with "node-1". intros [= <- <- <-].
  split; [done|]. split; [done|]. set (ms1 := set_chunkMgr _ ms).
  destruct (heartbeats_arrive dial (dsv_address b) ts t a ms1
    (mkDataNodeInfo "node-1" (dsv_address b) (dsv_capacity b) 0 0 StatusHealthy f64_zero t ∅)
    (dial_ok _))
    as (ms2 & n & Hloop & Hlist & Hrep).
  { rewrite Ha. split; [apply lookup_insert_eq|done]. }
  rewrite Ha in Hlist. exists ms2, n. split; [done|]. split; [done|]. split; [done|].
  intros now ord' Hord Hnow. destruct Hlist as (Hget & _ & Hlast).
  destruct (CheckDeadNodes_state now ord' _ Hord) as (_ & _ & Hnodes).
  cbn [MetaServer.Server.deadNodeChecker set_chunkMgr srv_chunkMgr]. rewrite Hnodes, Hget.
  cbn [fmap option_fmap option_map]. by rewrite not_stale by (rewrite Hlast; exact Hnow).
Qed.
End forgotten.

(** ** Concrete runs *)
Section witnesses.
(** The running node was node-1 of the previous run. *)
Definition old_node : DataServer := set_nodeID "node-1" started_node.
Definition new_node : DataServer :=
  mkDataServer (mkChunkStore "/data/f" ∅ 0, ∅) (NewHealthCollector (λ _, f64_zero)) "" "f:9000" 9000 9100
    "meta:9000" 1000.
Definition quiet_trace : list (Time * label) :=
  [(Second, LHeartbeat "node-1"); (2 * Second, LCheck); (3 * Second, LHeartbeat "node-1")].
Definition blank_server : MetaServer := MetaServer.Server.NewServer 9000 9600.

Lemma quiet_run : timed_run quiet_trace blank_server blank_server.
Proof.
  assert (blank blank_server) as Hb by done.
  apply (run_cons _ _ _ _ blank_server).
  { by eapply (ts_Heartbeat _ (mkHeartbeatRequest "node-1" 0 0)), blank_Heartbeat. }
  apply (run_cons _ _ _ _ blank_server).
  { assert (MetaServer.Server.deadNodeChecker (2 * Second) [] blank_server = blank_server) as Heq by reflexivity.
    rewrite <- Heq at 2. apply ts_deadNodeChecker. vm_compute. constructor. }
  apply (run_cons _ _ _ _ blank_server); [|constructor].
  by eapply (ts_Heartbeat _ (mkHeartbeatRequest "node-1" 0 0)), blank_Heartbeat.
Qed.

Lemma restarted_server_stays_blank_witness :
  (MetaServer.Server.PutFile 0 [] (mkPutFileRequest "/f" 1 1 "") blank_server).1
    = Ok (mkPutFileResponse false "no healthy nodes available" []) ∧
  DataNodeProcess.heartbeatLoop (λ _ _, Ok tt) (MetaServer.Server.Heartbeat <$> [4 * Second; 5 * Second])
    (old_node, blank_server) = ([], (old_node, blank_server)).
Proof.
  destruct (restarted_server_stays_blank (λ _ _, Ok tt) (λ _ _, eq_refl) 9000 9600 quiet_trace blank_server
    quiet_run) as (_ & Hput & _ & Hloop).
  - intros t addr Hin. apply list_elem_of_In in Hin. vm_compute in Hin. intuition discriminate.
  - split; [rewrite Hput; reflexivity|]. apply Hloop.
Defined.

Lemma identifiers_mixed_up_witness :
  ∃ ms2 n, DataNodeProcess.heartbeatLoop (λ _ _, Ok tt) (MetaServer.Server.Heartbeat <$> [8 * Second; 100 * Second])
      (old_node, (DataNode.Server.register (λ _ _, Ok tt) (MetaServer.Server.RegisterNode (7 * Second) [])
                    (new_node, blank_server)).2.2) = ([], (old_node, ms2)) ∧
    listed "node-1" "f:9000" ms2 (100 * Second) n.
Proof.
  set (st := DataNode.Server.register _ _ _).
  assert (st = (st.1, (st.2.1, st.2.2))) as Hst by (by destruct st as [? [? ?]]).
  destruct (identifiers_mixed_up (λ _ _, Ok tt) (λ _ _, eq_refl) (7 * Second) [] blank_server old_node new_node
    st.1 st.2.1 st.2.2 [8 * Second; 100 * Second]) as (_ & _ & ms2 & n & Hloop & Hlist & _).
  - split; reflexivity.
  - reflexivity.
  - exact Hst.
  - exists ms2, n. split; [exact Hloop|exact Hlist].
Defined.
End witnesses.
