(* ===== verification/CommandLine.v ===== *)
(** * cmd/client/main.go: the command line

    [main] picks a command from the arguments, runs it and turns its result into an
    exit status.  [ParseDuration] is [time.ParseDuration]; what the commands do is
    in [Client.v], [Display.v] and [Watch.v]. *)
From S2P Require Export Display.
Local Open Scope Z_scope.

Definition defaultMetaAddr : string := "localhost:9000".

Inductive command :=
  | Put (localPath remotePath : string)
  | Get (remotePath localPath : string)
  | Ls (remotePath : string)
  | Rm (remotePath : string)
  | Info (remotePath : string)
  | Cluster
  | Nodes
  | Watch (interval : Duration).

(** What the switch of [main] makes of the arguments: a command to run, or the text
    for the standard error and whether the usage is printed too. *)
Inductive parsed :=
  | Run (c : command)
  | Refuse (stderr : string) (usage : bool).

Definition parse_command (ParseDuration : string → go Duration) (cmd : string) (args : list string)
    : parsed :=
  if decide (cmd = "put") then
    match args with
    | l :: r :: _ => Run (Put l r)
    | _ => Refuse (println "Usage: sentinelfs put <local_path> <remote_path>") false
    end
  else if decide (cmd = "get") then
    match args with
    | r :: l :: _ => Run (Get r l)
    | _ => Refuse (println "Usage: sentinelfs get <remote_path> <local_path>") false
    end
  else if decide (cmd = "ls") then Run (Ls (match args with p :: _ => p | [] => "/" end))
  else if decide (cmd = "rm") then
    match args with
    | p :: _ => Run (Rm p)
    | [] => Refuse (println "Usage: sentinelfs rm <remote_path>") false
    end
  else if decide (cmd = "info") then
    match args with
    | p :: _ => Run (Info p)
    | [] => Refuse (println "Usage: sentinelfs info <remote_path>") false
    end
  else if decide (cmd = "cluster") then Run Cluster
  else if decide (cmd = "nodes") then Run Nodes
  else if decide (cmd = "watch") then
    Run (Watch (match args with
                | a :: _ => match ParseDuration a with Ok d => d | _ => 3 * Second end
                | [] => 3 * Second
                end))
  else Refuse (println ("Unknown command: " +:+ cmd)) true.

Definition usage : string :=
  println "SentinelFS CLI v0.1.0 🛡️"
  +:+ println ""
  +:+ println "Usage: sentinelfs <command> [arguments]"
  +:+ println ""
  +:+ println "Commands:"
  +:+ println "  put     <local_path> <remote_path>   Upload a file"
  +:+ println "  get     <remote_path> <local_path>   Download a file"
  +:+ println "  ls      [remote_path]                List files (default: /)"
  +:+ println "  rm      <remote_path>                Delete a file"
  +:+ println "  info    <remote_path>                Show file chunk details"
  +:+ println "  cluster                              Show cluster health overview"
  +:+ println "  nodes                                Show per-node health details"
  +:+ println "  watch   [interval]                   Live cluster monitor (default: 3s)"
  +:+ println ""
  +:+ println "Environment:"
  +:+ println "  SENTINEL_META_ADDR   Metadata server address (default: localhost:9000)".

(** ** Running a command *)
Section main.
Context {W : Type} `{SliceSort}.
Variable dial : string → W → go unit.
Variable call_StoreChunk : string → StoreChunkRequest → gos W StoreChunkResponse.
Variable call_GetChunk : string → GetChunkRequest → W → go GetChunkResponse.
Variable call_PutFile : PutFileRequest → gos W PutFileResponse.
Variable call_GetFile : GetFileRequest → W → go GetFileResponse.
Variable call_DeleteFile : DeleteFileRequest → gos W DeleteFileResponse.
Variable call_ListFiles : ListFilesRequest → W → go ListFilesResponse.
Variable call_GetFileInfo : GetFileInfoRequest → W → go GetFileInfoResponse.
Variable call_GetClusterInfo : GetClusterInfoRequest → W → go GetClusterInfoResponse.
Variable call_GetNodeInfo : GetNodeInfoRequest → W → go GetNodeInfoResponse.
Variable fmt_time : string → Z → string.

(** What the operating system and the scheduler do during a put or a get. *)
Record run_plan := mkRunPlan {
  rp_open : option string; rp_stat : option string; rp_copy : option string;
  rp_reads : nat → read_plan; rp_sched : list nat;
  rp_complete : list ChunkLocation → list ChunkLocation; rp_write : write_plan;
}.

(** The state is the servers and the local files; [None] for the command that never
    returns. *)
Definition run_command (plan : run_plan) (c : command) (st : W * FileSys)
    : option (go unit * string) * (W * FileSys) :=
  let '(w, fs) := st in
  match c with
  | Put l r =>
      let '(res, w') := PutFile dial call_StoreChunk call_PutFile fs l r (rp_open plan) (rp_stat plan)
                          (rp_copy plan) (rp_reads plan) (rp_sched plan) w in
      (Some (res, put_output dial call_StoreChunk call_PutFile fs l r (rp_open plan) (rp_stat plan)
                    (rp_copy plan) (rp_reads plan) (rp_sched plan) w), (w', fs))
  | Get r l =>
      let '(res, fs') := GetFile dial call_GetChunk call_GetFile fs r l (rp_complete plan) (rp_write plan) w in
      (Some (res, get_output dial call_GetChunk call_GetFile fs r l (rp_complete plan) (rp_write plan) w),
       (w, fs'))
  | Rm p => let '(res, w') := DeleteFile call_DeleteFile p w in (Some (res, rm_output call_DeleteFile p w), (w', fs))
  | Ls p => (Some (ListFiles fmt_time call_ListFiles p w), st)
  | Info p => (Some (FileInfo_ fmt_time call_GetFileInfo p w), st)
  | Cluster => (Some (ClusterInfo call_GetClusterInfo w), st)
  | Nodes => (Some (NodeInfo_ call_GetNodeInfo w), st)
  | Watch _ => (None, st)
  end.

Inductive outcome :=
  | Exited (status : Z) (stdout stderr : string)
  | Crashed (why stdout : string)
  | Watching (interval : Duration).

(** [os_args] are the arguments after the program's name, [env] is the value of
    SENTINEL_META_ADDR (empty if unset), [New] is [grpc.NewClient]. *)
Definition main (ParseDuration : string → go Duration) (New : string → go unit) (env : string)
    (os_args : list string) (plan : run_plan) (st : W * FileSys) : outcome * (W * FileSys) :=
  match os_args with
  | [] => (Exited 1 usage "", st)
  | cmd :: args =>
      let metaAddr := if decide (env = "") then defaultMetaAddr else env in
      match New metaAddr with
      | Err e => (Exited 1 "" (println ("Error: connect to metadata server: " +:+ e)), st)
      | Panic p => (Crashed p "", st)
      | Ok _ =>
          match parse_command ParseDuration cmd args with
          | Refuse err with_usage => (Exited 1 (if with_usage then usage else "") err, st)
          | Run (Watch d) => (Watching d, st)
          | Run c =>
              match run_command plan c st with
              | (Some (Ok _, out), st') => (Exited 0 out "", st')
              | (Some (Err e, out), st') => (Exited 1 out (println ("Error: " +:+ e)), st')
              | (Some (Panic p, out), st') => (Crashed p out, st')
              | (None, st') => (Crashed "" "", st')
              end
          end
      end
  end.
End main.
