(* ===== verification/CommandLineSpec.v ===== *)
(** * The command line on a cluster

    [main] of cmd/client with the servers of [Cluster.v] behind its calls. *)
From S2P Require Export CommandLine Cluster ServerTypes.
Local Open Scope Z_scope.

(** The orders in which the servers iterate their maps while they answer. *)
Record answer_orders := mkAnswerOrders {
  ao_nodes : list string; ao_dir : list string; ao_dirs : loc → list string; ao_deleted : list string;
}.

Section cli.
Context `{SliceSort} `{!SliceSortSpec}.
Variables (fmt_time : string → Z → string) (ParseDuration : string → go Duration).

(** What the client receives for a nil element of a repeated field: nil, or a message
    with empty fields; it is up to the protobuf library. *)
Variable wire_nil : option ChunkInfo.

Definition deliver_file (f : FileInfo) : FileInfo :=
  mkFileInfo (FileInfo_Path f) (FileInfo_Size f) (FileInfo_ChunkCount f) (FileInfo_ReplicationFactor f)
    ((λ c, match c with Some ch => Some ch | None => wire_nil end) <$> FileInfo_Chunks f)
    (FileInfo_CreatedAt f).
Definition deliver (r : GetFileInfoResponse) : GetFileInfoResponse :=
  mkGetFileInfoResponse (GetFileInfoResponse_Success r) (deliver_file <$> GetFileInfoResponse_FileInfo r).

Definition cluster_main (env : Env) (now : Time) (ao : answer_orders) (New : string → go unit)
    (meta_addr : string) (os_args : list string) (plan : run_plan) (st : Cluster.Cluster * FileSys)
    : outcome * (Cluster.Cluster * FileSys) :=
  main (cluster_dial env) (cluster_StoreChunk env) (cluster_GetChunk env)
    (cluster_PutFile now (ao_nodes ao)) cluster_GetFile
    (λ req c, let '(r, s) := MetaServer.Server.DeleteFile (ao_deleted ao) req (cl_meta c) in
              (r, mkCluster s (cl_nodes c)))
    (λ req c, MetaServer.Server.ListFiles (ao_dir ao) req (cl_meta c))
    (λ req c, go_map deliver (MetaServer.Server.GetFileInfo req (cl_meta c)))
    (λ req c, MetaServer.Server.GetClusterInfo (ao_nodes ao) (ao_dirs ao) req (cl_meta c))
    (λ req c, Ok (MetaServer.Server.GetNodeInfo (ao_nodes ao) req (cl_meta c)))
    fmt_time ParseDuration New meta_addr os_args plan st.

(** A put whose file operations succeed, a get whose write succeeds. *)
Definition put_plan (reads : nat → read_plan) (sched : list nat) : run_plan :=
  mkRunPlan None None None reads sched (λ l, l) WriteOk.
Definition get_plan (complete : list ChunkLocation → list ChunkLocation) : run_plan :=
  mkRunPlan None None None (λ _, ReadUpTo 0) [] complete WriteOk.

Lemma main_put env now ao New addr l r reads sched c fs c1 fs1 out err :
  cluster_main env now ao New addr ["put"; l; r] (put_plan reads sched) (c, fs)
    = (Exited 0 out err, (c1, fs1)) →
  fs1 = fs ∧ cluster_put env now (ao_nodes ao) fs l r reads sched c = (Ok tt, c1).
Proof.
  unfold cluster_main, main. destruct (New _) as [[]|e|p]; [|done..]. cbn [parse_command decide].
  change (parse_command ParseDuration "put" [l; r]) with (Run (Put l r)).
  cbn [run_command put_plan rp_open rp_stat rp_copy rp_reads rp_sched]. unfold cluster_put.
  destruct (Client.PutFile _ _ _ _ _ _ _ _ _ _ _ _) as [[[]|e|p] c2]; by intros [= <- <- <- <-].
Qed.

(** What the get prints. *)
Definition get_stdout (env : Env) (r l : string) (complete : list ChunkLocation → list ChunkLocation)
    (c : Cluster.Cluster) (fs : FileSys) : string :=
  get_output (cluster_dial env) (cluster_GetChunk env) cluster_GetFile fs r l complete WriteOk c.

Lemma main_get env now ao New addr r l complete c fs :
  (∀ a, New a = Ok tt) →
  cluster_main env now ao New addr ["get"; r; l] (get_plan complete) (c, fs) =
    let '(res, fs') := cluster_get env fs r l complete c in
    (match res with
     | Ok _ => Exited 0 (get_stdout env r l complete c fs) ""
     | Err e => Exited 1 (get_stdout env r l complete c fs) (println ("Error: " +:+ e))
     | Panic p => Crashed p (get_stdout env r l complete c fs)
     end, (c, fs')).
Proof.
  intros HNew. unfold cluster_main, main. rewrite HNew.
  change (parse_command ParseDuration "get" [r; l]) with (Run (Get r l)).
  cbn [run_command get_plan rp_complete rp_write]. unfold cluster_get, get_stdout.
  by destruct (Client.GetFile _ _ _ _ _ _ _ _ _) as [[[]|e|p] fs'].
Qed.

(** C2: "sentinelfs put", then "sentinelfs get": when the put exits with status 0, then a
    later get of the path under either spelling, from any local disk, that exits with
    status 0 has written exactly the uploaded bytes to its destination and changed no
    other local file, whatever failed on the way; and when nothing fails the get does
    exit with status 0.  The hypotheses bound the number of chunks to an [int32], ask
    for no collision among the file's own identifiers, and give every upload goroutine
    its turns. *)
Theorem cli_put_get env1 env2 now now2 ao ao2 New addr localPath content abs1 abs2 comps reads sched
    chunks size sum c fs c1 fs1 out err complete fs2 dest :
  cluster_inv c → map_order (cm_nodes (srv_chunkMgr (cl_meta c))) (ao_nodes ao) →
  (∀ a, New a = Ok tt) → comps ≠ [] → Forall good_name comps → fs !! localPath = Some content →
  readAndChunkFile fs localPath None None None reads = Ok (chunks, size, sum) →
  Z.of_nat (length chunks) < 2 ^ 31 →
  NoDup ((λ i, GenerateChunkID (path_of abs1 comps) (Z.of_nat i)) <$> seq 0 (length chunks)) →
  (∀ i, i < length chunks → 3 < length (filter (eq i) sched))%nat →
  (∀ l, complete l ≡ₚ l) →
  cluster_main env1 now ao New addr ["put"; localPath; path_of abs1 comps] (put_plan reads sched) (c, fs)
    = (Exited 0 out err, (c1, fs1)) →
  fs1 = fs ∧
  (∀ out err c2 fs3,
     cluster_main env2 now2 ao2 New addr ["get"; path_of abs2 comps; dest] (get_plan complete) (c1, fs2)
       = (Exited 0 out err, (c2, fs3)) → c2 = c1 ∧ fs3 = <[dest := content]> fs2) ∧
  cluster_main calm now2 ao2 New addr ["get"; path_of abs2 comps; dest] (get_plan complete) (c1, fs2)
    = (Exited 0 (get_stdout calm (path_of abs2 comps) dest complete c1 fs2) "", (c1, <[dest := content]> fs2)).
Proof.
  intros Hinv Hord HNew Hne Hgood Hfs Hread Hsmall Hnd Hsched Hcomplete Hput.
  apply main_put in Hput as [-> Hput].
  destruct (cluster_put_get env1 env2 _ _ _ _ _ abs1 abs2 _ _ _ _ _ _ _ _ complete fs2 dest
    Hinv Hord Hne Hgood Hfs Hread Hsmall Hnd Hsched Hput Hcomplete) as [Hget Hcalm].
  split; [done|]. split; [intros out2 err2 c2 fs3|]; rewrite main_get by done; [|by rewrite Hcalm].
  destruct (cluster_get env2 fs2 (path_of abs2 comps) dest complete c1) as [[[]|e|p] fs'] eqn:Hg; [|done..].
  intros [= <- <- <- <-]. split; [done|]. by apply Hget.
Qed.

(** ** The reading commands *)
(** The chunks of [meta] as "info" receives them. *)
Definition info_chunks (cm : ChunkManager) (meta : FileMeta) : list (option ChunkInfo) :=
  (λ cid, match cm_chunks cm !! cid with Some m => Some (pb_chunk m) | None => wire_nil end)
    <$> fm_ChunkIDs meta.

Lemma GetFileInfo_answers path s :
  srv_inv s →
  ∃ resp, MetaServer.Server.GetFileInfo (mkGetFileInfoRequest path) s = Ok resp ∧
    match view (srv_namespace s) (cleanPath path) with
    | Some (NFile meta) =>
        deliver resp = mkGetFileInfoResponse true (Some (pb_file meta (info_chunks (srv_chunkMgr s) meta)))
    | _ => GetFileInfoResponse_Success (deliver resp) = false
    end.
Proof.
  intros [Hns _ _]. unfold MetaServer.Server.GetFileInfo. rewrite GetFile_view by done.
  cbn [GetFileInfoRequest_Path].
  destruct (view _ _) as [[|meta]|]; [by eexists| |by eexists]. eexists. split; [done|].
  unfold deliver, deliver_file, pb_file. simpl. do 3 f_equal. rewrite <- list_fmap_compose.
  apply list_fmap_ext. intros _ cid _. unfold compose, GetChunkMeta. by destruct (cm_chunks _ !! cid).
Qed.

(** The server only hands out identifiers long enough for the columns of "info". *)
Lemma info_chunks_long s meta :
  typed_server s →
  (wire_nil = None ∨ Forall (λ id, is_Some (cm_chunks (srv_chunkMgr s) !! id)) (fm_ChunkIDs meta)) →
  Forall (λ c, ∀ ch, c = Some ch → String.length (ChunkInfo_ChunkId ch) = 16%nat)
    (info_chunks (srv_chunkMgr s) meta).
Proof.
  intros [_ HC _] Hnil. apply Forall_fmap, Forall_forall. intros cid Hin ch. unfold compose.
  destruct (cm_chunks _ !! cid) as [m|] eqn:Hm.
  - intros [= <-]. destruct (HC cid m Hm) as (Hid & Hlen & _). simpl. by rewrite Hid.
  - destruct Hnil as [->|Hall]; [done|]. rewrite Forall_forall in Hall.
    destruct (Hall cid Hin) as [m ?]. congruence.
Qed.

Lemma chunk_rows_ok chunks : ∀ out,
  Forall (λ c, ∀ ch, c = Some ch → String.length (ChunkInfo_ChunkId ch) = 16%nat) chunks →
  (chunk_rows out chunks).1 = Ok tt.
Proof.
  induction chunks as [|[ch|] chunks IH]; intros out Hc; [done| |];
    apply Forall_cons in Hc as [Hch Hc]; cbn [chunk_rows]; [|by apply IH].
  destruct (slice_to_ok 16 (ChunkInfo_ChunkId ch)) as [t ->]; [by rewrite (Hch ch eq_refl)|]. by apply IH.
Qed.

Lemma chunk_rows_crash chunks ch : ∀ out,
  Some ch ∈ chunks → (String.length (ChunkInfo_ChunkId ch) < 16)%nat →
  ∃ p out', chunk_rows out chunks = (Panic p, out').
Proof.
  intros out Hin Hshort. assert (slice_to 16 (ChunkInfo_ChunkId ch) = Panic "slice bounds out of range") as Hp.
  { unfold slice_to. rewrite decide_False by lia. done. }
  revert out. induction chunks as [|c chunks IH]; intros out; [by apply not_elem_of_nil in Hin|].
  apply elem_of_cons in Hin as [<-|Hin]; cbn [chunk_rows]; [rewrite Hp; by do 2 eexists|].
  destruct c as [ch'|]; [|by apply IH].
  unfold slice_to at 1. case_decide; [by apply IH|by do 2 eexists].
Qed.

(** No file lists a chunk the table does not hold. *)
Definition files_backed (s : MetaServer) : Prop :=
  ∀ p meta, view (srv_namespace s) p = Some (NFile meta) →
    Forall (λ id, is_Some (cm_chunks (srv_chunkMgr s) !! id)) (fm_ChunkIDs meta).

(** C26: A reading command never crashes: against a server in any state that (typed)
    requests, background ticks and migrations can lead to, "ls", "info", "cluster"
    and "nodes" with any arguments end with an exit status, change nothing on the
    servers or on the local disk; once connected, "cluster" and "nodes" always
    exit with status 0.  For "info" the chunks of every file must be in the chunk
    table, or a nil chunk must reach the client as nil. *)
Theorem reading_commands_never_crash port adminPort env now ao New addr cmd args plan s nodes fs :
  typed_reachable port adminPort s → valid_orders (srv_namespace s) (ao_dirs ao) →
  (∀ a, no_panic (New a)) → cmd ∈ ["ls"; "info"; "cluster"; "nodes"] →
  (cmd = "info" → wire_nil = None ∨ files_backed s) →
  ∃ status out err,
    cluster_main env now ao New addr (cmd :: args) plan (mkCluster s nodes, fs)
      = (Exited status out err, (mkCluster s nodes, fs)) ∧
    (cmd ∈ ["cluster"; "nodes"] → (∀ a, New a = Ok tt) → status = 0).
Proof.
  intros [Hinv Hty]%typed_reachable_typed Hdirs HNew Hcmd Hbacked. unfold cluster_main, main.
  assert (∀ e a, New a = Err e → (∀ a, New a = Ok tt) → (1:Z) = 0) as Hconn by naive_solver congruence.
  set (meta := if decide (addr = "") then defaultMetaAddr else addr).
  destruct (New meta) as [[]|e|w] eqn:Hn; [|by repeat eexists; eauto|by destruct (HNew meta w)].
  repeat (apply elem_of_cons in Hcmd as [->|Hcmd]); [..|by apply not_elem_of_nil in Hcmd].
  - change (parse_command ParseDuration "ls" args) with (Run (Ls (match args with p :: _ => p | [] => "/" end))).
    cbn [run_command]. unfold ListFiles. cbn [cl_meta].
    destruct (ListFiles_answers (ao_dir ao) (mkListFilesRequest (match args with p :: _ => p | [] => "/" end)) s Hinv)
      as [resp ->]. assert ("ls" ∉ ["cluster"; "nodes"]) by (apply (bool_decide_unpack _); exact I).
    destruct (negb _); [|case_decide]; (eexists _, _, _; split; [reflexivity|done]).
  - assert ("info" ∉ ["cluster"; "nodes"]) by (apply (bool_decide_unpack _); exact I).
    destruct args as [|p args]; [by repeat eexists|].
    change (parse_command ParseDuration "info" (p :: args)) with (Run (Info p)).
    cbn [run_command]. unfold FileInfo_. cbn [cl_meta].
    destruct (GetFileInfo_answers p s Hinv) as (resp & -> & Hf).
    change (go_map deliver (Ok resp)) with (Ok (deliver resp)). cbv match.
    assert (∀ meta, view (srv_namespace s) (cleanPath p) = Some (NFile meta) →
      wire_nil = None ∨ Forall (λ id, is_Some (cm_chunks (srv_chunkMgr s) !! id)) (fm_ChunkIDs meta)) as Hb.
    { intros fmeta Hv. destruct (Hbacked eq_refl) as [?|Hall]; [by left|right; by eapply Hall]. }
    destruct (view _ _) as [[|fmeta]|]; [rewrite Hf; by repeat eexists| |rewrite Hf; by repeat eexists].
    rewrite Hf. cbn [GetFileInfoResponse_Success GetFileInfoResponse_FileInfo negb].
    pose proof (chunk_rows_ok _ (file_header fmt_time (pb_file fmeta (info_chunks (srv_chunkMgr s) fmeta)))
      (info_chunks_long s fmeta Hty (Hb fmeta eq_refl))) as Hrows.
    cbn [FileInfo_Chunks pb_file].
    destruct (chunk_rows _ _) as [r out]. cbn [fst] in Hrows. subst r. by repeat eexists.
  - change (parse_command ParseDuration "cluster" args) with (Run CommandLine.Cluster).
    cbn [run_command]. unfold ClusterInfo. cbn [cl_meta].
    destruct (GetClusterInfo_answers (ao_nodes ao) (ao_dirs ao) mkGetClusterInfoRequest s Hinv Hdirs)
      as [resp ->]. by repeat eexists.
  - change (parse_command ParseDuration "nodes" args) with (Run Nodes).
    cbn [run_command]. unfold NodeInfo_. by repeat eexists.
Qed.

(** The guard of "info" against nil chunks does not survive the wire: GetFileInfo
    leaves a nil in the list for a chunk that is not in the table, and when the
    library delivers it as a message with empty fields, the client slices an empty
    identifier and crashes. *)
Theorem info_crashes_on_missing_chunk env now ao New addr path plan s nodes fs meta id ch :
  srv_inv s → view (srv_namespace s) (cleanPath path) = Some (NFile meta) →
  id ∈ fm_ChunkIDs meta → cm_chunks (srv_chunkMgr s) !! id = None →
  wire_nil = Some ch → (String.length (ChunkInfo_ChunkId ch) < 16)%nat → (∀ a, New a = Ok tt) →
  ∃ why out, cluster_main env now ao New addr ["info"; path] plan (mkCluster s nodes, fs)
    = (Crashed why out, (mkCluster s nodes, fs)).
Proof.
  intros Hinv Hv Hin Hnone Hwire Hshort HNew. unfold cluster_main, main. rewrite HNew.
  change (parse_command ParseDuration "info" [path]) with (Run (Info path)).
  cbn [run_command]. unfold FileInfo_. cbn [cl_meta].
  destruct (GetFileInfo_answers path s Hinv) as (resp & -> & Hf). rewrite Hv in Hf.
  change (go_map deliver (Ok resp)) with (Ok (deliver resp)). cbv match. rewrite Hf.
  cbn [GetFileInfoResponse_Success GetFileInfoResponse_FileInfo negb FileInfo_Chunks pb_file].
  destruct (chunk_rows_crash (info_chunks (srv_chunkMgr s) meta) ch
    (file_header fmt_time (pb_file meta (info_chunks (srv_chunkMgr s) meta)))) as (p & out & ->);
    [|done|by do 2 eexists].
  apply list_elem_of_fmap. exists id. by rewrite Hnone.
Qed.
End cli.

(** ** Concrete runs *)
Section witnesses.
Definition demo_fmt_time (layout : string) (sec : Z) : string := "1970-01-01 00:00".
Definition demo_ParseDuration (s : string) : go Duration := Err ("time: invalid duration " +:+ s).
Definition empty_chunk : option ChunkInfo := Some (mkChunkInfo "" 0 0 "" []).
Definition demo_dirs (ns : Namespace) (l : loc) : list string :=
  match ns_heap ns !! l with Some e => map_keys (default ∅ (de_Children e)) | None => [] end.
Definition demo_answers : answer_orders := mkAnswerOrders demo_ord [] (λ _, []) [].
Definition demo_main (env : Env) (args : list string) (plan : run_plan) (st : Cluster.Cluster * FileSys) :=
  cluster_main demo_fmt_time demo_ParseDuration empty_chunk env 0 demo_answers (λ _, Ok tt) "" args plan st.
Definition demo_put_main : outcome * (Cluster.Cluster * FileSys) :=
  demo_main demo_env ["put"; "/home/f"; path_of true ["a"; "b"]] (put_plan demo_plans demo_sched)
    (demo_cluster, demo_local).

Lemma triple_eta {A B C} (p : A * (B * C)) a c : p.1 = a → p.2.2 = c → p = (a, (p.2.1, c)).
Proof. by destruct p as [? [? ?]]; simpl; intros -> ->. Qed.

(** The chunks finish in the order of the schedule, and arrive in the opposite one. *)
Definition demo_line (i : Z) (what : string) : string :=
  chunk_line (i + 1) 3 what (GenerateChunkID (path_of true ["a"; "b"]) i).
Definition demo_put_text : string :=
  println "Uploading /home/f (11 bytes, 3 chunks)"
  +:+ demo_line 2 "uploaded" +:+ demo_line 0 "uploaded" +:+ demo_line 1 "uploaded"
  +:+ println "✓ Uploaded /home/f → /a/b (3 chunks across cluster)".
Definition demo_get_text : string :=
  println "Downloading a/b (11 bytes, 3 chunks)"
  +:+ demo_line 2 "downloaded" +:+ demo_line 1 "downloaded" +:+ demo_line 0 "downloaded"
  +:+ println "✓ Downloaded a/b → /tmp/f".

Lemma cli_put_get_witness :
  demo_put_main.1 = Exited 0 demo_put_text "" ∧
  demo_main calm ["get"; path_of false ["a"; "b"]; "/tmp/f"] (get_plan (rev (A:=_)))
      (demo_put_main.2.1, ∅)
    = (Exited 0 demo_get_text "", (demo_put_main.2.1, <["/tmp/f" := demo_content]> ∅)).
Proof.
  assert (∃ chunks size sum, readAndChunkFile demo_local "/home/f" None None None demo_plans
    = Ok (chunks, size, sum) ∧ length chunks = 3%nat) as (chunks & size & sum & Hread & Hlen).
  { eexists _, _, _. split; [vm_compute; reflexivity|]. reflexivity. }
  assert (demo_put_main.1 = Exited 0 demo_put_text "") as Hexit by (vm_compute; reflexivity).
  assert (demo_put_main.2.2 = demo_local) as Hfs by (vm_compute; reflexivity).
  assert (demo_put_main = (Exited 0 demo_put_text "", (demo_put_main.2.1, demo_local))) as Hput.
  { exact (triple_eta _ _ _ Hexit Hfs). }
  split; [exact Hexit|].
  assert (get_stdout calm (path_of false ["a"; "b"]) "/tmp/f" (rev (A:=_)) demo_put_main.2.1 ∅ = demo_get_text)
    as Htext by (vm_compute; reflexivity).
  rewrite <- Htext.
  apply (cli_put_get demo_fmt_time demo_ParseDuration empty_chunk demo_env demo_env 0 0 demo_answers demo_answers
    (λ _, Ok tt) "" "/home/f" demo_content true false ["a"; "b"] demo_plans demo_sched chunks size sum
    demo_cluster demo_local demo_put_main.2.1 demo_local demo_put_text "" (rev (A:=_)) ∅ "/tmp/f"
    demo_cluster_inv demo_order (λ _, eq_refl) ltac:(discriminate) ltac:(repeat constructor; discriminate)
    (lookup_singleton_eq _ _) Hread); [..|intros l; symmetry; apply Permutation_rev|exact Hput].
  - rewrite Hlen. reflexivity.
  - rewrite Hlen. apply (bool_decide_unpack _). vm_compute. exact I.
  - rewrite Hlen. intros i Hi. do 3 (destruct i as [|i]; [vm_compute; lia|]). lia.
Defined.

Definition ty_answers : answer_orders :=
  mkAnswerOrders ["node-1"] ["a"] (demo_dirs (srv_namespace ty_srv2)) [].

Lemma demo_dirs_valid ns : valid_orders ns (demo_dirs ns).
Proof. intros l e m He Hm. unfold demo_dirs. rewrite He, Hm. apply map_order_keys. Qed.

(** Whether the files are backed can be computed from their list. *)
Lemma files_backed_listed s files :
  srv_inv s → GetAllFiles (demo_dirs (srv_namespace s)) (srv_namespace s) = Ok files →
  Forall (λ meta, Forall (λ id, is_Some (cm_chunks (srv_chunkMgr s) !! id)) (fm_ChunkIDs meta)) files →
  files_backed s.
Proof.
  intros [Hns _ _] Hfiles Hall p meta Hv.
  destruct (GetAllFiles_view _ _ Hns (demo_dirs_valid (srv_namespace s))) as (L & HL & _ & Hlist).
  rewrite Hfiles in HL. injection HL as ->. rewrite Forall_forall in Hall. apply Hall.
  apply list_elem_of_fmap. exists (p, meta). split; [done|]. by apply Hlist.
Qed.

Lemma ty_srv2_backed : files_backed ty_srv2.
Proof.
  eapply files_backed_listed; [apply (typed_reachable_typed 1 2), ty_srv2_reachable|vm_compute; reflexivity|].
  apply (bool_decide_unpack _). vm_compute. exact I.
Qed.

Lemma reading_commands_never_crash_witness :
  ∃ status out err,
    cluster_main demo_fmt_time demo_ParseDuration empty_chunk calm 9 ty_answers (λ _, Ok tt) "" ["info"; "/a"]
      (get_plan (λ l, l)) (mkCluster ty_srv2 ∅, ∅) = (Exited status out err, (mkCluster ty_srv2 ∅, ∅)) ∧
    out ≠ "".
Proof.
  destruct (reading_commands_never_crash demo_fmt_time demo_ParseDuration empty_chunk 1 2 calm 9 ty_answers (λ _, Ok tt) ""
    "info" ["/a"] (get_plan (λ l, l)) ty_srv2 ∅ ∅ ty_srv2_reachable) as (status & out & err & Hrun & _).
  - apply demo_dirs_valid.
  - discriminate.
  - right. left.
  - intros _. right. exact ty_srv2_backed.
  - exists status, out, err. split; [exact Hrun|]. intros ->. vm_compute in Hrun. discriminate.
Defined.

(** A put of "/a" and a delete of its previous version interleave: the put has
    allocated the chunks, the delete removes them, the put registers the file. *)
Definition raced : MetaServer :=
  let s := set_chunkMgr (AllocateChunks 6 ["node-1"] "/a" 1 5 (srv_chunkMgr ty_srv2)).2 ty_srv2 in
  let s := (MetaServer.Server.DeleteFile [] (mkDeleteFileRequest "/a") s).2 in
  set_namespace (CreateFile "/a" (mkFileMeta "/a" 5 1 3 "sum" [GenerateChunkID "/a" 0] 6) (srv_namespace s)).2 s.

Lemma raced_inv : srv_inv raced.
Proof.
  assert (srv_inv ty_srv2) as [Hns Hcm Hmon] by apply (typed_reachable_typed 1 2), ty_srv2_reachable.
  assert (srv_inv (set_chunkMgr (AllocateChunks 6 ["node-1"] "/a" 1 5 (srv_chunkMgr ty_srv2)).2 ty_srv2)) as Hs1.
  { split; [exact Hns| |exact Hmon]. eapply (AllocateChunks_inv 6 ["node-1"] "/a" 1 5 (srv_chunkMgr ty_srv2));
      [exact Hcm|vm_compute; reflexivity|apply surjective_pairing]. }
  assert (srv_inv (MetaServer.Server.DeleteFile [] (mkDeleteFileRequest "/a")
    (set_chunkMgr (AllocateChunks 6 ["node-1"] "/a" 1 5 (srv_chunkMgr ty_srv2)).2 ty_srv2)).2) as [Hns2 Hcm2 Hmon2].
  { eapply srv_step_inv; [exact Hs1|]. eapply srv_DeleteFile. apply surjective_pairing. }
  split; [|exact Hcm2|exact Hmon2].
  refine (proj1 (CreateFile_wf "/a" (mkFileMeta "/a" 5 1 3 "sum" [GenerateChunkID "/a" 0] 6) _ _ _ Hns2 _)).
  apply surjective_pairing.
Qed.

Lemma info_crashes_on_missing_chunk_witness :
  ∃ why out, cluster_main demo_fmt_time demo_ParseDuration empty_chunk calm 9 ty_answers (λ _, Ok tt) ""
    ["info"; "/a"] (get_plan (λ l, l)) (mkCluster raced ∅, ∅) = (Crashed why out, (mkCluster raced ∅, ∅)).
Proof.
  assert (∃ meta, view (srv_namespace raced) (cleanPath "/a") = Some (NFile meta) ∧
    fm_ChunkIDs meta = [GenerateChunkID "/a" 0]) as (meta & Hv & Hids).
  { eexists. split; vm_compute; reflexivity. }
  apply (info_crashes_on_missing_chunk demo_fmt_time demo_ParseDuration empty_chunk calm 9 ty_answers (λ _, Ok tt) ""
    "/a" (get_plan (λ l, l)) raced ∅ ∅ meta (GenerateChunkID "/a" 0) (mkChunkInfo "" 0 0 "" []) raced_inv Hv).
  - rewrite Hids. left.
  - vm_compute. reflexivity.
  - reflexivity.
  - vm_compute. lia.
  - reflexivity.
Defined.

(** A file of no bytes is uploaded, and then listed as a directory. *)
Definition empty_put : outcome * (Cluster.Cluster * FileSys) :=
  demo_main calm ["put"; "/home/e"; "/e"] (put_plan demo_plans []) (demo_cluster, {["/home/e" := []]}).

Lemma empty_file_listed_as_directory :
  empty_put.1 = Exited 0 (println "Uploading /home/e (0 bytes, 0 chunks)"
    +:+ println "✓ Uploaded /home/e → /e (0 chunks across cluster)") "" ∧
  (cluster_main demo_fmt_time demo_ParseDuration empty_chunk calm 0 (mkAnswerOrders demo_ord ["e"] (λ _, []) [])
     (λ _, Ok tt) "" ["ls"] (get_plan (λ l, l)) empty_put.2).1
    = Exited 0 (list_header
        +:+ println (pad_right 40 "/e/" +:+ " " +:+ pad_left 10 "DIR" +:+ " " +:+ pad_left 8 "-" +:+ " ")) "".
Proof. split; vm_compute; reflexivity. Qed.
End witnesses.
